(** * VRPTWMS solver: feasibility, insertion, local search, tabu, pheromone, cache

    A shallow embedding of the search engine of the VRPTWMS solver
    (route.h / route.c, local_search.c, tabu_search.c,
    ant_colony_optimization.c, solution.c, cache.cpp) together with the
    properties its specification states about it.

    Modelling conventions.
    - [double] values are exact rationals ([Q]) where a statement compares
      the values the program computes or relates results of the program to
      each other; comparisons and the helper [max] of common.h keep the
      shape they have in the C code.  [INFINITY] is an explicit constructor
      where the code uses it.  Where a statement depends on how a sum, a
      difference or a product is rounded (the insertion test, the
      comparator of moves, the hash of the cache), the code is embedded in
      module [Double] with IEEE 754 binary64 numbers ([spec_float]) for
      [double] and the 80-bit extended format for [long double].
    - [int] values are [Z] (signed overflow is undefined in C, so no
      wrap-around is written); [unsigned long] values are [Z] reduced
      modulo 2^64 after every arithmetic operation ([wrap64]).
    - A NULL-terminated chain of nodes linked through [next]/[prev] is the
      list of its nodes, head first; [route->nodes] is the head of the list
      and [route->tail] its last element.  A pointer into a route is the
      index of the node in that list.
    - Arrays that the code indexes ([double**], [unsigned long**]) are lists
      of rows; an access outside of the allocated range has no defined
      behaviour in C and is the error value [None] here.
    - The read-only cost matrices [pb->c_m[w][i][j]] are a function of
      [w], [i] and [j]. *)

From Stdlib Require Import ZArith QArith Qround Lia Lqa Bool List.
From Stdlib Require Import Floats.SpecFloat.
From stdpp Require Import base option list gmap sorting.

Import ListNotations.
Local Open Scope Z_scope.

(** ** Numbers *)

Definition u64_modulus : Z := 2 ^ 64.
Definition u64_max : Z := u64_modulus - 1.

(** Reduction of an [unsigned long] result. *)
Definition wrap64 (z : Z) : Z := z mod u64_modulus.

(** Comparisons on [double], as booleans. *)
Definition Qleb (x y : Q) : bool := Qle_bool x y.
Definition Qltb (x y : Q) : bool := negb (Qle_bool y x).

(** common.h: [static const double MIN_DELTA = 1e-13]. *)
Definition MIN_DELTA : Q := 1 # 10000000000000.

(** common.h: [static const int DEPOT = 0]. *)
Definition DEPOT : nat := 0%nat.

(** route.h: [enum RouteLength { EMPTY = 2, ONE_CUSTOMER = 3, ... }]. *)
Definition EMPTY : Z := 2.
Definition ONE_CUSTOMER : Z := 3.

(** problemreader.h: [enum problem_state]. *)
Definition REDUCE_TRUCKS : Z := 0.
Definition REDUCE_WORKERS : Z := 1.
Definition REDUCE_DISTANCE : Z := 2.

Module Common.
(** common.h: [static inline double max(double x, double y)
    { return x > y ? x : y; }]. *)
Definition max (x y : Q) : Q := if Qltb y x then x else y.

(** [fmin] of math.h on ordinary numbers. *)
Definition fmin (x y : Q) : Q := if Qltb y x then y else x.
End Common.

(** ** Data model *)

(** node.h: [struct node]; [prev] and [next] are the position in the list
    that holds the node. *)
Record Node := mkNode {
  n_id : nat;
  n_x : Q;
  n_y : Q;
  n_demand : Q;
  n_est : Q;
  n_lst : Q;
  n_service_time : Q;
  n_aest : Q;
  n_alst : Q;
  n_aest_cache : Q;
  n_alst_cache : Q
}.

(** config.h: [struct config], the fields the search engine reads. *)
Record Config := mkConfig {
  cfg_alpha : Q;
  cfg_mu : Q;
  cfg_lambda : Q;
  cfg_rho : Q;
  cfg_min_pheromone : Q;
  cfg_initial_pheromone : Q;
  cfg_cost_truck : Q;
  cfg_cost_worker : Q;
  cfg_cost_distance : Q;
  cfg_best_moves : bool;
  cfg_max_move : Z;
  cfg_max_workers : Z;
  cfg_metaheuristic : Z;
  cfg_tabutime : Z
}.

(** config.h: [enum Metaheuristic], the value the tabu list tests for. *)
Definition TS : Z := 6.

(** problemreader.h: [struct problem], the immutable part: capacity,
    configuration, cost matrices and the number of nodes. *)
Record Problem := mkProblem {
  pb_capacity : Z;
  pb_cfg : Config;
  pb_c_m : Z -> nat -> nat -> Q;
  pb_num_nodes : Z
}.

(** route.h: [struct route]. *)
Record Route := mkRoute {
  r_id : nat;
  r_depot_id : nat;
  r_nodes : list Node;
  r_len : Z;
  r_load : Q;
  r_workers : Z
}.

(** ** Feasibility engine (route.h) *)

(** [can_insert_one(route, n, pred)], with [succ] standing for
    [pred->next]. *)
Definition can_insert_one (pb : Problem) (route : Route) (n pred succ : Node)
  : bool :=
  let c_m := pb_c_m pb (r_workers route) in
  let earliest_arrival := (n_aest pred + c_m (n_id pred) (n_id n))%Q in
  let latest_arrival := (n_alst succ - c_m (n_id n) (n_id succ))%Q in
  Qleb earliest_arrival (n_lst n) && Qleb (n_est n) latest_arrival &&
  Qleb earliest_arrival latest_arrival.

(** The guard that opens [calc_best_insertion] and [get_best_insertion]:
    [if (pb->capacity < route->load + node->demand) return ...]. *)
Definition exceeds_capacity (pb : Problem) (route : Route) (n : Node) : bool :=
  Qltb (inject_Z (pb_capacity pb)) (r_load route + n_demand n)%Q.

(** The test a position has to pass before [calc_best_insertion] computes
    its cost: the capacity guard did not return and [can_insert_one] holds. *)
Definition insertion_test (pb : Problem) (route : Route) (n pred succ : Node)
  : bool :=
  negb (exceeds_capacity pb route n) && can_insert_one pb route n pred succ.

(** ** Insertion engine (route.c) *)

(** route.h: [struct insertion].  [target] is the id of the route pointed
    to, [after] the position of the predecessor in that route; the list
    links [next] and [prev] are NULL in every record built here. *)
Record Insertion := mkInsertion {
  i_target : nat;
  i_node : Node;
  i_after : nat;
  i_cost : Q;
  i_attractiveness : Q
}.

(** The body of the [while (after != r->tail)] loop of
    [get_best_insertion]: [chain] starts at [after], [pos] is its position,
    [ins] is NULL ([None]) until the first feasible position is met, where it
    is allocated with attractiveness [-INFINITY]. *)
Fixpoint get_best_insertion_loop (pb : Problem) (r : Route) (n : Node)
    (pos : nat) (chain : list Node) (ins : option Insertion)
  : option Insertion :=
  match chain with
  | after :: ((next :: _) as rest) =>
      if negb (can_insert_one pb r n after next) then
        get_best_insertion_loop pb r n (S pos) rest ins
      else
        let alpha := cfg_alpha (pb_cfg pb) in
        let alpha2 := (1 - alpha)%Q in
        let c_m := pb_c_m pb (r_workers r) in
        let d := pb_c_m pb 0 in
        let mu := cfg_mu (pb_cfg pb) in
        let lambda := cfg_lambda (pb_cfg pb) in
        let cost := (d (n_id after) (n_id n) + d (n_id n) (n_id next) -
                     mu * d (n_id after) (n_id next))%Q in
        let cost :=
          if negb (Qeq_bool alpha2 0) then
            let cost := (cost * alpha)%Q in
            let est_node :=
              Common.max (n_est n)
                         (n_aest after + c_m (n_id after) (n_id n))%Q in
            let est_succ :=
              Common.max (n_aest next)
                         (est_node + c_m (n_id n) (n_id next))%Q in
            (alpha2 * (est_succ - n_aest next))%Q
          else cost in
        let attract := (lambda * d DEPOT (n_id n) - cost)%Q in
        let attract := if Qltb attract 0 then MIN_DELTA else attract in
        let candidate :=
          {| i_target := r_id r; i_node := n; i_after := pos;
             i_cost := cost; i_attractiveness := attract |} in
        let ins :=
          match ins with
          | None => Some candidate
          | Some old =>
              if Qltb (i_attractiveness old) attract then Some candidate
              else Some old
          end in
        get_best_insertion_loop pb r n (S pos) rest ins
  | _ => ins
  end.

(** [Insertion* get_best_insertion(Route* r, Node* n)]; NULL is [None]. *)
Definition get_best_insertion (pb : Problem) (r : Route) (n : Node)
  : option Insertion :=
  if exceeds_capacity pb r n then None
  else get_best_insertion_loop pb r n 0%nat (r_nodes r) None.

(** The insertion cost of the specification, section 4.2:
    [c1 = alpha (d(p,k) + d(k,p.next) - mu d(p,p.next))
          + (1 - alpha) (est_succ' - aest(p.next))],
    where [est_succ'] is the earliest start time [calc_ests] gives [p.next]
    once [k] stands between [p] and [p.next]. *)
Definition spec_c1 (pb : Problem) (r : Route) (k p succ : Node) : Q :=
  let alpha := cfg_alpha (pb_cfg pb) in
  let mu := cfg_mu (pb_cfg pb) in
  let d := pb_c_m pb 0 in
  let c_m := pb_c_m pb (r_workers r) in
  let est_node :=
    Common.max (n_est k) (n_aest p + c_m (n_id p) (n_id k))%Q in
  let est_succ' :=
    Common.max (n_est succ) (est_node + c_m (n_id k) (n_id succ))%Q in
  (alpha * (d (n_id p) (n_id k) + d (n_id k) (n_id succ) -
            mu * d (n_id p) (n_id succ)) +
   (1 - alpha) * (est_succ' - n_aest succ))%Q.

(** ** Hierarchical comparison of moves (local_search.h, local_search.c) *)

(** local_search.h: [struct move].  A pointer is NULL ([None]) or points to
    an object: [source] and [target] hold the id of the route pointed to
    (the ids of the routes of a solution differ pairwise, which
    [get_route_index] relies on); [first] and [last] hold positions in the
    chain of the source route and [after] a position in the chain of the
    target route.  The list links [next] and [prev] are never used. *)
Record Move := mkMove {
  m_source : option nat;
  m_target : option nat;
  m_first : option nat;
  m_last : option nat;
  m_after : option nat;
  m_delta_trucks : Z;
  m_delta_workers : Z;
  m_delta_dist : Q;
  m_improving : bool
}.

(** [int delta_is_higher(Move* m, int d_trucks, int d_workers,
    double d_dist)]. *)
Definition delta_is_higher (m : Move) (d_trucks d_workers : Z) (d_dist : Q)
  : bool :=
  if negb (d_trucks =? 0) && (m_delta_trucks m =? 0) then true
  else if d_trucks =? m_delta_trucks m then
    if m_delta_workers m <? d_workers then true
    else if (d_workers =? m_delta_workers m) &&
            Qltb (m_delta_dist m) (d_dist - MIN_DELTA)%Q then true
    else false
  else false.

(** ** Indexed arrays *)

(** [m[i][j]] read from an array of rows. *)
Definition mget {A : Type} (m : list (list A)) (i j : nat) : option A :=
  row ← m !! i; row !! j.

(** [m[i][j] = v]. *)
Definition mset {A : Type} (m : list (list A)) (i j : nat) (v : A)
  : option (list (list A)) :=
  row ← m !! i; _ ← row !! j; Some (<[i := <[j := v]> row]> m).

(** ** Solution (solution.h) *)

(** solution.h: [struct solution].  A slot of the array [routes] holds a
    route or NULL; [unrouted] is the chain of unrouted nodes. *)
Record Solution := mkSolution {
  s_routes : list (option Route);
  s_trucks : Z;
  s_unrouted : list Node;
  s_num_unrouted : Z;
  s_time : Z;
  s_saturation_time : Z;
  s_workers_cache : Z;
  s_dist_cache : Q;
  s_cost_cache : Q
}.

(** [sol->routes[i]], dereferenced. *)
Definition route_at (sol : Solution) (i : nat) : option Route :=
  slot ← s_routes sol !! i; slot.

(** ** Tabu bookkeeping (tabu_search.h, tabu_search.c) *)

(** tabu_search.h: [struct tabulist]. *)
Record Tabulist := mkTabulist {
  tl_active : bool;
  tl_iteration : Z;
  tl_nodes_routes : list (list Z);
  tl_nodes_routes_tabutime : Z
}.

(** [Tabulist* new_tabulist(Problem* pb)]: [num_nodes] rows of
    [num_nodes - 1] columns, all 0. *)
Definition new_tabulist (pb : Problem) : Tabulist :=
  {| tl_active := cfg_metaheuristic (pb_cfg pb) =? TS;
     tl_iteration := 0;
     tl_nodes_routes :=
       replicate (Z.to_nat (pb_num_nodes pb))
                 (replicate (Z.to_nat (pb_num_nodes pb) - 1) 0);
     tl_nodes_routes_tabutime := wrap64 (cfg_tabutime (pb_cfg pb)) |}.

(** The [do { ... } while (n != m->last->next)] loop of [is_move_tabu];
    [run] holds the ids of the nodes from [m->first] to [m->last] and
    [target] is [m->target->id]. *)
Fixpoint is_move_tabu_loop (tl : Tabulist) (run : list nat) (target : nat)
  : option bool :=
  match run with
  | [] => Some false
  | k :: rest =>
      v ← mget (tl_nodes_routes tl) k target;
      if tl_iteration tl <? v then Some true
      else is_move_tabu_loop tl rest target
  end.

(** [int is_move_tabu(Tabulist* tl, Move* m)]. *)
Definition is_move_tabu (tl : Tabulist) (run : list nat) (target : nat)
  : option bool :=
  if negb (tl_active tl) then Some false
  else match run with
       | [] => None
       | _ => is_move_tabu_loop tl run target
       end.

(** The [do { ... } while] loop of [update_tabulist_move], which stores
    [v = tl->iteration + tl->nodes_routes_tabutime] for every moved node. *)
Fixpoint update_tabulist_loop (t : list (list Z)) (run : list nat)
    (source : nat) (v : Z) : option (list (list Z)) :=
  match run with
  | [] => Some t
  | k :: rest =>
      t' ← mset t k source v; update_tabulist_loop t' rest source v
  end.

(** [void update_tabulist_move(Tabulist* tl, Move* m)]; [run] holds the ids
    of the nodes from [m->first] to [m->last], [source] is
    [m->source->id]. *)
Definition update_tabulist_move (tl : Tabulist) (run : list nat)
    (source : nat) : option Tabulist :=
  if negb (tl_active tl) then Some tl
  else match run with
       | [] => None
       | _ =>
           let iteration := wrap64 (tl_iteration tl + 1) in
           t' ← update_tabulist_loop (tl_nodes_routes tl) run source
                  (wrap64 (iteration + tl_nodes_routes_tabutime tl));
           Some {| tl_active := tl_active tl;
                   tl_iteration := iteration;
                   tl_nodes_routes := t';
                   tl_nodes_routes_tabutime := tl_nodes_routes_tabutime tl |}
       end.

(** A sequence of applied moves, each given by its run of node ids and the
    id of its source route. *)
Fixpoint update_tabulist_moves (tl : Tabulist) (moves : list (list nat * nat))
  : option Tabulist :=
  match moves with
  | [] => Some tl
  | (run, source) :: rest =>
      tl' ← update_tabulist_move tl run source;
      update_tabulist_moves tl' rest
  end.

(** ** Pheromone store (ant_colony_optimization.c) *)

(** [p_m[i][j] = max(p_m[i][j] * rho, min_pheromone)] for the columns [js]
    of row [i]. *)
Fixpoint decay_row (rho min_pheromone : Q) (p_m : list (list Q)) (i : nat)
    (js : list nat) : option (list (list Q)) :=
  match js with
  | [] => Some p_m
  | j :: js' =>
      v ← mget p_m i j;
      p' ← mset p_m i j (Common.max (v * rho)%Q min_pheromone);
      decay_row rho min_pheromone p' i js'
  end.

Fixpoint decay_rows (rho min_pheromone : Q) (p_m : list (list Q))
    (rows js : list nat) : option (list (list Q)) :=
  match rows with
  | [] => Some p_m
  | i :: rows' =>
      p' ← decay_row rho min_pheromone p_m i js;
      decay_rows rho min_pheromone p' rows' js
  end.

(** [p_m[i][j] += v]. *)
Definition madd (p_m : list (list Q)) (i j : nat) (v : Q)
  : option (list (list Q)) :=
  x ← mget p_m i j; mset p_m i j (x + v)%Q.

(** [while (n->next) { p_m[n->prev->id][n->id] += new_pheromone;
    n = n->next; }], the chain starting at [n] and [prev] being [n->prev];
    an empty chain is the NULL that [n->next] would dereference. *)
Fixpoint reinforce_edges (p_m : list (list Q)) (new_pheromone : Q)
    (prev : Node) (chain : list Node) : option (list (list Q)) :=
  match chain with
  | [] => None
  | [_] => Some p_m
  | n :: rest =>
      p' ← madd p_m (n_id prev) (n_id n) new_pheromone;
      reinforce_edges p' new_pheromone n rest
  end.

(** The body of [for (int r = 0; r < sol->trucks; ++r)]. *)
Definition reinforce_route (p_m : list (list Q)) (num_nodes : nat)
    (new_pheromone : Q) (sol : Solution) (r : nat)
  : option (list (list Q)) :=
  route ← route_at sol r;
  match r_nodes route with
  | head :: first :: rest =>
      tail_prev ← (head :: first :: rest) !! length rest;
      p1 ← madd p_m (num_nodes + r) (n_id first) new_pheromone;
      p2 ← madd p1 (n_id tail_prev) (num_nodes + r) new_pheromone;
      reinforce_edges p2 new_pheromone first rest
  | _ => None
  end.

Fixpoint reinforce_routes (p_m : list (list Q)) (num_nodes : nat)
    (new_pheromone : Q) (sol : Solution) (rs : list nat)
  : option (list (list Q)) :=
  match rs with
  | [] => Some p_m
  | r :: rs' =>
      p' ← reinforce_route p_m num_nodes new_pheromone sol r;
      reinforce_routes p' num_nodes new_pheromone sol rs'
  end.

(** [void update_pheromone(Problem *pb, Solution *sol)], acting on the
    matrix [pb->pheromone]. *)
Definition update_pheromone (pb : Problem) (p_m : list (list Q))
    (sol : Solution) : option (list (list Q)) :=
  let rho := cfg_rho (pb_cfg pb) in
  let min_pheromone := cfg_min_pheromone (pb_cfg pb) in
  let new_pheromone := (1 - rho)%Q in
  let num_nodes := pb_num_nodes pb in
  let cells := seq 1 (Z.to_nat (2 * num_nodes - 1) - 1) in
  p' ← decay_rows rho min_pheromone p_m cells cells;
  reinforce_routes p' (Z.to_nat num_nodes) new_pheromone sol
                   (seq 0 (Z.to_nat (s_trucks sol))).

(** ** A small instance *)

(** Three nodes: the depot 0 and the customers 1 and 2. *)
Definition ex_dist (i j : nat) : Q :=
  match i, j with
  | 0%nat, 1%nat | 1%nat, 0%nat => 10
  | 0%nat, 2%nat | 2%nat, 0%nat => 5
  | 1%nat, 2%nat | 2%nat, 1%nat => 8
  | _, _ => 0
  end.

Definition ex_service (i : nat) : Q :=
  match i with 0%nat => 0 | _ => 6 end.

(** [c_m[0]] is the distance, [c_m[w]] adds the service time at the origin
    divided by [w]. *)
Definition ex_c_m (w : Z) (i j : nat) : Q :=
  if w =? 0 then ex_dist i j
  else if Nat.eqb i j then 0
  else (ex_dist i j + ex_service i / inject_Z w)%Q.

Definition ex_cfg : Config :=
  {| cfg_alpha := 1 # 2; cfg_mu := 1; cfg_lambda := 1;
     cfg_rho := 985 # 1000; cfg_min_pheromone := 1 # 10000000000000;
     cfg_initial_pheromone := 1;
     cfg_cost_truck := 1; cfg_cost_worker := 1 # 10;
     cfg_cost_distance := 1 # 10000;
     cfg_best_moves := true; cfg_max_move := 2; cfg_max_workers := 3;
     cfg_metaheuristic := TS; cfg_tabutime := 50 |}.

Definition ex_pb : Problem :=
  {| pb_capacity := 200; pb_cfg := ex_cfg; pb_c_m := ex_c_m;
     pb_num_nodes := 3 |}.

Definition ex_node (id : nat) (demand aest alst : Q) : Node :=
  {| n_id := id; n_x := 0; n_y := 0; n_demand := demand;
     n_est := 0; n_lst := 1000; n_service_time := ex_service id;
     n_aest := aest; n_alst := alst;
     n_aest_cache := -1; n_alst_cache := -1 |}.

Definition ex_depot : Node := ex_node 0 0 0 1000.
Definition ex_node1 : Node := ex_node 1 10 10 984.
Definition ex_node2 : Node := ex_node 2 20 0 1000.

(** The route depot, 1, depot with one worker. *)
Definition ex_route : Route :=
  {| r_id := 0; r_depot_id := 3;
     r_nodes := [ex_depot; ex_node1; ex_depot];
     r_len := 3; r_load := 10; r_workers := 1 |}.

(** A configuration file with [tabutime = -1], which [config_is_valid]
    accepts, and the problem that carries it. *)
Definition ex_cfg_negative_tabutime : Config :=
  {| cfg_alpha := 1 # 2; cfg_mu := 1; cfg_lambda := 1;
     cfg_rho := 985 # 1000; cfg_min_pheromone := 1 # 10000000000000;
     cfg_initial_pheromone := 1;
     cfg_cost_truck := 1; cfg_cost_worker := 1 # 10;
     cfg_cost_distance := 1 # 10000;
     cfg_best_moves := true; cfg_max_move := 2; cfg_max_workers := 3;
     cfg_metaheuristic := TS; cfg_tabutime := -1 |}.

Definition ex_pb_negative_tabutime : Problem :=
  {| pb_capacity := 200; pb_cfg := ex_cfg_negative_tabutime;
     pb_c_m := ex_c_m; pb_num_nodes := 3 |}.

(** ** Predicates of the statements *)

(** The cell [(i,j)] of [p], when it exists, holds at least [lo]. *)
Definition cell_ok (lo : Q) (p : list (list Q)) (i j : nat) : Prop :=
  forall v, mget p i j = Some v -> (lo <= v)%Q.

(** [p] is a square array of the given side. *)
Definition square {A : Type} (p : list (list A)) (side : nat) : Prop :=
  forall i j, is_Some (mget p i j) <-> (i < side)%nat /\ (j < side)%nat.

(** What [update_pheromone] needs of the solution it reads: the first
    [trucks] slots hold routes with at least one customer, whose node ids and
    whose virtual depot id [num_nodes + r] index the pheromone matrix. *)
Definition pheromone_ready (side num_nodes : nat) (sol : Solution) : Prop :=
  forall r, (r < Z.to_nat (s_trucks sol))%nat ->
    exists route,
      route_at sol r = Some route /\
      (3 <= length (r_nodes route))%nat /\
      Forall (fun n => (n_id n < side)%nat) (r_nodes route) /\
      (num_nodes + r < side)%nat.

(** ** Propagation of start times (route.c) *)

Definition set_aest (n : Node) (v : Q) : Node :=
  {| n_id := n_id n; n_x := n_x n; n_y := n_y n; n_demand := n_demand n;
     n_est := n_est n; n_lst := n_lst n; n_service_time := n_service_time n;
     n_aest := v; n_alst := n_alst n;
     n_aest_cache := n_aest_cache n; n_alst_cache := n_alst_cache n |}.

Definition set_alst (n : Node) (v : Q) : Node :=
  {| n_id := n_id n; n_x := n_x n; n_y := n_y n; n_demand := n_demand n;
     n_est := n_est n; n_lst := n_lst n; n_service_time := n_service_time n;
     n_aest := n_aest n; n_alst := v;
     n_aest_cache := n_aest_cache n; n_alst_cache := n_alst_cache n |}.

Definition set_aest_cache (n : Node) (v : Q) : Node :=
  {| n_id := n_id n; n_x := n_x n; n_y := n_y n; n_demand := n_demand n;
     n_est := n_est n; n_lst := n_lst n; n_service_time := n_service_time n;
     n_aest := n_aest n; n_alst := n_alst n;
     n_aest_cache := v; n_alst_cache := n_alst_cache n |}.

(** The route with another chain of nodes. *)
Definition with_nodes (r : Route) (nodes : list Node) : Route :=
  {| r_id := r_id r; r_depot_id := r_depot_id r; r_nodes := nodes;
     r_len := r_len r; r_load := r_load r; r_workers := r_workers r |}.

(** [while (n->next) { n->aest = max(n->est, n->prev->aest + c_m[..][..]);
    n = n->next; }]: [chain] starts at [n], [prev] is [n->prev] as already
    updated; the closing depot is left alone. *)
Fixpoint calc_ests_actual (c_m : nat -> nat -> Q) (prev : Node)
    (chain : list Node) : list Node :=
  match chain with
  | n :: ((_ :: _) as rest) =>
      let n' := set_aest n (Common.max (n_est n)
                              (n_aest prev + c_m (n_id prev) (n_id n))%Q) in
      n' :: calc_ests_actual c_m n' rest
  | _ => chain
  end.

(** [while (n) { n->aest_cache = max(n->est, n->prev->aest_cache + ...);
    n = n->next; }], the closing depot included. *)
Fixpoint calc_ests_cache (c_m : nat -> nat -> Q) (prev : Node)
    (chain : list Node) : list Node :=
  match chain with
  | n :: rest =>
      let n' := set_aest_cache n
                  (Common.max (n_est n)
                     (n_aest_cache prev + c_m (n_id prev) (n_id n))%Q) in
      n' :: calc_ests_cache c_m n' rest
  | [] => []
  end.

(** [void calc_ests(Route *route, Node *n, int workers)], [pos] being the
    position of [n] in the chain of [route]. *)
Definition calc_ests (pb : Problem) (route : Route) (pos : nat) (workers : Z)
  : Route :=
  let c_m := pb_c_m pb workers in
  let actual := r_workers route =? workers in
  match pos, r_nodes route with
  | O, head :: rest =>
      if actual then
        let head' := set_aest head (n_est head) in
        with_nodes route (head' :: calc_ests_actual c_m head' rest)
      else
        let head' := set_aest_cache head (n_est head) in
        with_nodes route (head' :: calc_ests_cache c_m head' rest)
  | S before, nodes =>
      match nodes !! before with
      | Some prev =>
          with_nodes route
            (take pos nodes ++
             (if actual then calc_ests_actual c_m prev (drop pos nodes)
              else calc_ests_cache c_m prev (drop pos nodes)))
      | None => route
      end
  | _, _ => route
  end.

(** [while (n->prev) { n->alst = fmin(n->lst, n->next->alst - c_m[..][..]);
    n = n->prev; }]: [chain_rev] holds [n], [n->prev], ... up to the opening
    depot, [succ] is [n->next] as already updated; the opening depot is left
    alone. *)
Fixpoint calc_lsts_loop (c_m : nat -> nat -> Q) (succ : Node)
    (chain_rev : list Node) : list Node :=
  match chain_rev with
  | n :: ((_ :: _) as rest) =>
      let n' := set_alst n (Common.fmin (n_lst n)
                              (n_alst succ - c_m (n_id n) (n_id succ))%Q) in
      n' :: calc_lsts_loop c_m n' rest
  | _ => chain_rev
  end.

(** [void calc_lsts(Route *route_ptr, Node *n, int workers)], [pos] being
    the position of [n]. *)
Definition calc_lsts (pb : Problem) (route : Route) (pos : nat) (workers : Z)
  : Route :=
  let c_m := pb_c_m pb workers in
  let nodes := r_nodes route in
  if Nat.eqb (S pos) (length nodes) then
    match rev nodes with
    | tail :: before =>
        let tail' := set_alst tail (n_lst tail) in
        with_nodes route (rev (tail' :: calc_lsts_loop c_m tail' before))
    | [] => route
    end
  else
    match nodes !! S pos with
    | Some succ =>
        with_nodes route
          (rev (calc_lsts_loop c_m succ (rev (take (S pos) nodes))) ++
           drop (S pos) nodes)
    | None => route
    end.

(** [int is_feasible_with(Route *route, int workers)]: the answer and the
    route with the cache it filled. *)
Definition is_feasible_with (pb : Problem) (route : Route) (workers : Z)
  : bool * Route :=
  if r_workers route =? workers then (true, route)
  else
    let route' := calc_ests pb route 0 workers in
    (forallb (fun n => negb (Qltb (n_lst n) (n_aest_cache n)))
             (tail (r_nodes route')),
     route').

(** The loop of [reduce_service_workers]; [k] is the value of [workers],
    and the loop ends when it is below 1. *)
Fixpoint reduce_service_workers_loop (pb : Problem) (k : nat) (route : Route)
    (reduced : Z) : Z * Route :=
  match k with
  | O => (reduced, route)
  | S k' =>
      let (feasible, route1) := is_feasible_with pb route (Z.of_nat k) in
      if feasible then
        let route2 :=
          {| r_id := r_id route1; r_depot_id := r_depot_id route1;
             r_nodes := map (fun n => set_aest n (n_aest_cache n))
                            (r_nodes route1);
             r_len := r_len route1; r_load := r_load route1;
             r_workers := Z.of_nat k |} in
        reduce_service_workers_loop pb k' route2 1
      else (reduced, route1)
  end.

(** [int reduce_service_workers(Route *route)]: the value returned and the
    route afterwards. *)
Definition reduce_service_workers (pb : Problem) (route : Route)
  : Z * Route :=
  let workers := r_workers route - 1 in
  let (reduced, route') :=
    reduce_service_workers_loop pb (Z.to_nat workers) route 0 in
  if negb (reduced =? 0) then
    (reduced,
     calc_lsts pb route' (length (r_nodes route') - 1) (r_workers route'))
  else (reduced, route').

(** The data of a node that no operation of the search engine writes. *)
Definition static (n : Node) : nat * Q * Q := (n_id n, n_est n, n_lst n).

(** Two routes with the same worker count whose chains agree on the data
    that is never written. *)
Definition similar (r r' : Route) : Prop :=
  r_workers r = r_workers r' /\
  map static (r_nodes r) = map static (r_nodes r').

(** ** Editing the chain of a route (route.c, node.h) *)

(** node.h: [sum_demands(first, last)], [run] being the nodes from [first]
    to [last]. *)
Definition sum_demands (run : list Node) : Q :=
  match run with
  | [] => 0
  | first :: rest => fold_left (fun demand n => (demand + n_demand n)%Q)
                               rest (n_demand first)
  end.

(** The nodes at the positions [first .. last] of a chain. *)
Definition run_of (nodes : list Node) (first last : nat) : list Node :=
  take (S last - first) (drop first nodes).

(** [add_nodes_noupdate(r, first, last, after)]: [run] holds the nodes from
    [first] to [last], [after] is a position in the chain of [r]. *)
Definition add_nodes_noupdate (r : Route) (run : list Node) (after : nat)
  : Route :=
  {| r_id := r_id r; r_depot_id := r_depot_id r;
     r_nodes := take (S after) (r_nodes r) ++ run ++
                drop (S after) (r_nodes r);
     r_len := r_len r + Z.of_nat (length run);
     r_load := fold_left (fun load n => (load + n_demand n)%Q) run (r_load r);
     r_workers := r_workers r |}.

(** [add_nodes(r, first, last, after)]. *)
Definition add_nodes (pb : Problem) (r : Route) (run : list Node)
    (after : nat) : Route :=
  let r1 := add_nodes_noupdate r run after in
  let r2 := calc_ests pb r1 (S after) (r_workers r1) in
  calc_lsts pb r2 (after + length run) (r_workers r2).

(** [remove_nodes_noupdate(r, first, last)]; the nodes removed are
    [run_of (r_nodes r) first last]. *)
Definition remove_nodes_noupdate (r : Route) (first last : nat) : Route :=
  let run := run_of (r_nodes r) first last in
  {| r_id := r_id r; r_depot_id := r_depot_id r;
     r_nodes := take first (r_nodes r) ++ drop (S last) (r_nodes r);
     r_len := r_len r - Z.of_nat (length run);
     r_load := fold_left (fun load n => (load - n_demand n)%Q) run (r_load r);
     r_workers := r_workers r |}.

(** [remove_nodes(r, first, last)]: [prev = first->prev] is at position
    [first - 1] and [prev->next] at position [first] once the run is gone. *)
Definition remove_nodes (pb : Problem) (r : Route) (first last : nat)
  : Route :=
  let r1 := remove_nodes_noupdate r first last in
  let r2 := calc_ests pb r1 first (r_workers r1) in
  calc_lsts pb r2 (first - 1) (r_workers r2).

(** ** Costs of a solution (route.c, solution.c, solution.h) *)

(** The loop of [calc_length]: [dist += c_m[n->prev->id][n->id]]. *)
Fixpoint calc_length_loop (d : nat -> nat -> Q) (dist : Q) (prev : Node)
    (chain : list Node) : Q :=
  match chain with
  | [] => dist
  | n :: rest =>
      calc_length_loop d (dist + d (n_id prev) (n_id n))%Q n rest
  end.

(** [double calc_length(Route* route)]. *)
Definition calc_length (pb : Problem) (route : Route) : Q :=
  match r_nodes route with
  | head :: rest => calc_length_loop (pb_c_m pb 0) 0 head rest
  | [] => 0
  end.

(** solution.h: [calc_cost(cfg, trucks, workers, distance)]. *)
Definition calc_cost (cfg : Config) (trucks workers : Z) (distance : Q) : Q :=
  (distance * cfg_cost_distance cfg + inject_Z workers * cfg_cost_worker cfg +
   inject_Z trucks * cfg_cost_truck cfg)%Q.

(** The loop of [calc_costs] over the routes [is]. *)
Fixpoint calc_costs_loop (pb : Problem) (sol : Solution) (workers : Z)
    (dist : Q) (indices : list nat) : option (Z * Q) :=
  match indices with
  | [] => Some (workers, dist)
  | i :: rest =>
      route ← route_at sol i;
      calc_costs_loop pb sol (workers + r_workers route)
                      (dist + calc_length pb route)%Q rest
  end.

(** [double calc_costs(Solution* sol, const Config* cfg)]: the value
    returned and the solution with its caches set. *)
Definition calc_costs (pb : Problem) (sol : Solution) (cfg : Config)
  : option (Q * Solution) :=
  '(workers, dist) ← calc_costs_loop pb sol 0 0
                       (seq 0 (Z.to_nat (s_trucks sol)));
  let cost := calc_cost cfg (s_trucks sol) workers dist in
  Some (cost,
        {| s_routes := s_routes sol; s_trucks := s_trucks sol;
           s_unrouted := s_unrouted sol;
           s_num_unrouted := s_num_unrouted sol;
           s_time := s_time sol; s_saturation_time := s_saturation_time sol;
           s_workers_cache := workers; s_dist_cache := dist;
           s_cost_cache := cost |}).

(** [int calc_workers(Solution* sol)]. *)
Fixpoint calc_workers_loop (sol : Solution) (workers : Z)
    (indices : list nat) : option Z :=
  match indices with
  | [] => Some workers
  | i :: rest =>
      route ← route_at sol i;
      calc_workers_loop sol (workers + r_workers route) rest
  end.

Definition calc_workers (sol : Solution) : option Z :=
  calc_workers_loop sol 0 (seq 0 (Z.to_nat (s_trucks sol))).

(** ** Routes of a solution (solution.c) *)

(** What a call does: it returns, leaving the solution [sol] and a result;
    it ends the program with [exit(EXIT_FAILURE)], the solution being [sol]
    at that point; or it reads or writes outside of an object. *)
Inductive outcome (A : Type) : Type :=
| Returns (sol : Solution) (a : A)
| Exits (sol : Solution)
| Undefined.

Arguments Returns {A} sol a.
Arguments Exits {A} sol.
Arguments Undefined {A}.

(** The solution with another array of routes and another count. *)
Definition with_routes (sol : Solution) (routes : list (option Route))
    (trucks : Z) : Solution :=
  {| s_routes := routes; s_trucks := trucks;
     s_unrouted := s_unrouted sol; s_num_unrouted := s_num_unrouted sol;
     s_time := s_time sol; s_saturation_time := s_saturation_time sol;
     s_workers_cache := s_workers_cache sol;
     s_dist_cache := s_dist_cache sol; s_cost_cache := s_cost_cache sol |}.

(** [sol->routes[i] = slot]. *)
Definition set_slot (routes : list (option Route)) (i : nat)
    (slot : option Route) : option (list (option Route)) :=
  _ ← routes !! i; Some (<[i := slot]> routes).

(** The loop of [get_route_index] over the indices [is]. *)
Fixpoint get_route_index_loop (sol : Solution) (route_id : nat)
    (indices : list nat) : outcome nat :=
  match indices with
  | [] => Exits sol
  | i :: rest =>
      match route_at sol i with
      | None => Undefined
      | Some route =>
          if Nat.eqb (r_id route) route_id then Returns sol i
          else get_route_index_loop sol route_id rest
      end
  end.

(** [int get_route_index(Solution* sol, int route_id)]. *)
Definition get_route_index (sol : Solution) (route_id : nat) : outcome nat :=
  get_route_index_loop sol route_id (seq 0 (Z.to_nat (s_trucks sol))).

(** [for (int i = route_idx; i < sol->trucks; ++i)
      sol->routes[i] = sol->routes[i+1];] over the indices [is]. *)
Fixpoint shift_routes (routes : list (option Route)) (indices : list nat)
  : option (list (option Route)) :=
  match indices with
  | [] => Some routes
  | i :: rest =>
      slot ← routes !! S i;
      routes' ← set_slot routes i slot;
      shift_routes routes' rest
  end.

(** [void remove_route(Solution* sol, int route_idx)]; a returning call
    yields the routes it handed to [free_route]. *)
Definition remove_route (sol : Solution) (route_idx : nat)
  : outcome (list Route) :=
  match route_at sol route_idx with
  | None => Undefined
  | Some route =>
      if negb (r_len route =? EMPTY) then Exits sol
      else
        let trucks := s_trucks sol - 1 in
        match shift_routes (s_routes sol)
                (seq route_idx (Z.to_nat trucks - route_idx)) with
        | None => Undefined
        | Some routes =>
            if trucks <? 0 then Undefined
            else match set_slot routes (Z.to_nat trucks) None with
                 | None => Undefined
                 | Some routes' =>
                     Returns (with_routes sol routes' trucks) [route]
                 end
        end
  end.

(** The loop of [reset_solution] over the indices [is]: the routes array,
    the unrouted chain and the routes handed to [free_route] so far.  After
    [sol->unrouted = r->nodes->next] the chain starts with the customers of
    the route; [sol->unrouted->prev = NULL] writes through NULL when the
    route has no customer and the chain was empty. *)
Fixpoint reset_solution_loop (routes : list (option Route))
    (unrouted : list Node) (freed : list Route) (indices : list nat)
  : option (list (option Route) * list Node * list Route) :=
  match indices with
  | [] => Some (routes, unrouted, freed)
  | i :: rest =>
      slot ← routes !! i;
      r ← slot;
      routes' ← set_slot routes i None;
      if r_len r =? EMPTY then
        reset_solution_loop routes' unrouted (freed ++ [r]) rest
      else
        match r_nodes r with
        | head :: first :: others =>
            tail ← last (first :: others);
            let customers := removelast (first :: others) in
            match customers ++ unrouted with
            | [] => None
            | unrouted' =>
                reset_solution_loop routes' unrouted'
                  (freed ++ [with_nodes r [head; tail]]) rest
            end
        | _ => None
        end
  end.

(** [void reset_solution(Solution* sol, int num_nodes)]. *)
Definition reset_solution (sol : Solution) (num_nodes : Z)
  : outcome (list Route) :=
  match reset_solution_loop (s_routes sol) (s_unrouted sol) []
          (seq 0 (Z.to_nat (s_trucks sol))) with
  | None => Undefined
  | Some (routes, unrouted, freed) =>
      Returns {| s_routes := routes; s_trucks := 0;
                 s_unrouted := unrouted;
                 s_num_unrouted := num_nodes - 1;
                 s_time := 0; s_saturation_time := 0;
                 s_workers_cache := 0; s_dist_cache := 0;
                 s_cost_cache := s_cost_cache sol |} freed
  end.

(** ** Moves between routes (local_search.c, route.h) *)

(** [calc_delta_dist_move(d, first, last, after)]; the arguments are
    [first->prev], [first], [last], [last->next], [after] and
    [after->next]. *)
Definition calc_delta_dist_move (d : nat -> nat -> Q)
    (first_prev first last last_next after after_next : Node) : Q :=
  (d (n_id first_prev) (n_id first) + d (n_id last) (n_id last_next) -
   d (n_id first_prev) (n_id last_next) +
   d (n_id after) (n_id after_next) -
   d (n_id after) (n_id first) - d (n_id last) (n_id after_next))%Q.

(** The loop [while (first != last)] of [can_insert] and the test that
    follows it: [first] has its cache set, [rest] holds the nodes after it up
    to [last].  The answer and the run with the caches written. *)
Fixpoint can_insert_loop (c_m : nat -> nat -> Q) (first : Node)
    (rest : list Node) (after_next : Node) : bool * list Node :=
  match rest with
  | [] =>
      (Qleb (n_aest_cache first + c_m (n_id first) (n_id after_next))%Q
            (n_alst after_next),
       [first])
  | next :: rest' =>
      let next' :=
        set_aest_cache next
          (Common.max (n_aest_cache first + c_m (n_id first) (n_id next))%Q
                      (n_est next)) in
      if Qltb (n_lst next') (n_aest_cache next') then
        (false, first :: next' :: rest')
      else
        let (answer, run) := can_insert_loop c_m next' rest' after_next in
        (answer, first :: run)
  end.

(** route.h: [can_insert(target, first, last, after)]; [run] holds the nodes
    from [first] to [last] and [after_next] is [after->next]. *)
Definition can_insert (pb : Problem) (target : Route) (run : list Node)
    (after after_next : Node) : bool * list Node :=
  let c_m := pb_c_m pb (r_workers target) in
  match run with
  | [] => (false, [])
  | first :: rest =>
      let first' :=
        set_aest_cache first
          (Common.max (n_aest after + c_m (n_id after) (n_id first))%Q
                      (n_est first)) in
      if Qltb (n_lst first') (n_aest_cache first') then
        (false, first' :: rest)
      else can_insert_loop c_m first' rest after_next
  end.

(** The loop of [move_reduces_workers]; [k] counts the values of
    [min_reduction] that are left up to [max_reduction]. *)
Fixpoint move_reduces_workers_loop (pb : Problem) (k : nat) (source : Route)
    (max_reduction reduction : Z) : Z * Route :=
  match k with
  | O => (reduction, source)
  | S k' =>
      let min_reduction := max_reduction - Z.of_nat k' in
      let (feasible, source') :=
        is_feasible_with pb source (r_workers source - min_reduction) in
      if feasible then
        move_reduces_workers_loop pb k' source' max_reduction min_reduction
      else (reduction, source')
  end.

(** [move_reduces_workers(source, first, last, min_reduction)]: the run is
    unlinked while the loop runs and linked again afterwards. *)
Definition move_reduces_workers (pb : Problem) (source : Route)
    (first last : nat) (min_reduction : Z) : Z * Route :=
  let max_reduction := r_workers source - 1 in
  let min_reduction :=
    if min_reduction =? 0 then min_reduction + 1 else min_reduction in
  let nodes := r_nodes source in
  let run := run_of nodes first last in
  let unlinked := with_nodes source (take first nodes ++ drop (S last) nodes) in
  let (reduction, unlinked') :=
    move_reduces_workers_loop pb
      (Z.to_nat (max_reduction - min_reduction + 1)) unlinked
      max_reduction 0 in
  (reduction,
   with_nodes source (take first (r_nodes unlinked') ++ run ++
                      drop first (r_nodes unlinked'))).

(** The loop [while (after != target->tail)] of [update_move] over the
    positions [afters]: whether [return 1] was reached, [updated], the move
    and the source route with the caches written. *)
Fixpoint update_move_afters (pb : Problem) (tl : Tabulist) (target : Route)
    (first last : nat) (delta_trucks delta_workers : Z) (afters : list nat)
    (updated : bool) (m : Move) (source : Route)
  : option (bool * bool * Move * Route) :=
  match afters with
  | [] => Some (false, updated, m, source)
  | a :: rest =>
      after ← r_nodes target !! a;
      after_next ← r_nodes target !! S a;
      first_prev ← r_nodes source !! (first - 1)%nat;
      first_node ← r_nodes source !! first;
      last_node ← r_nodes source !! last;
      last_next ← r_nodes source !! S last;
      let delta_dist :=
        calc_delta_dist_move (pb_c_m pb 0) first_prev first_node last_node
                             last_next after after_next in
      if delta_is_higher m delta_trucks delta_workers delta_dist then
        let (insertable, run) :=
          can_insert pb target (run_of (r_nodes source) first last)
                     after after_next in
        let source' :=
          with_nodes source (take first (r_nodes source) ++ run ++
                             drop (S last) (r_nodes source)) in
        if insertable then
          tabu ← is_move_tabu tl (map n_id run) (r_id target);
          if negb tabu then
            let candidate :=
              {| m_source := Some (r_id source);
                 m_target := Some (r_id target);
                 m_first := Some first; m_last := Some last;
                 m_after := Some a;
                 m_delta_trucks := delta_trucks;
                 m_delta_workers := delta_workers;
                 m_delta_dist := delta_dist;
                 m_improving := m_improving m |} in
            if negb (cfg_best_moves (pb_cfg pb)) then
              Some (true, true, candidate, source')
            else
              update_move_afters pb tl target first last delta_trucks
                delta_workers rest true candidate source'
          else
            update_move_afters pb tl target first last delta_trucks
              delta_workers rest updated m source'
        else
          update_move_afters pb tl target first last delta_trucks
            delta_workers rest updated m source'
      else
        update_move_afters pb tl target first last delta_trucks
          delta_workers rest updated m source
  end.

(** The loop [while (last->next)] of [update_move] over the positions
    [firsts] of [first]; [k] is the number of nodes moved at once. *)
Fixpoint update_move_windows (pb : Problem) (tl : Tabulist) (target : Route)
    (state : Z) (k : nat) (delta_trucks : Z) (firsts : list nat)
    (delta_workers : Z) (updated : bool) (m : Move) (source : Route)
  : option (bool * Move * Route) :=
  match firsts with
  | [] => Some (updated, m, source)
  | first :: rest =>
      let last := (first + k - 1)%nat in
      if Qltb (inject_Z (pb_capacity pb))
              (r_load target +
               sum_demands (run_of (r_nodes source) first last))%Q then
        update_move_windows pb tl target state k delta_trucks rest
          delta_workers updated m source
      else
        let (delta_workers, source) :=
          if (REDUCE_WORKERS <=? state) && (delta_trucks =? 0) then
            move_reduces_workers pb source first last (m_delta_workers m)
          else (delta_workers, source) in
        '(returned, updated, m, source) ←
          update_move_afters pb tl target first last delta_trucks
            delta_workers (seq 0 (length (r_nodes target) - 1))
            updated m source;
        if returned : bool then Some (true, m, source)
        else
          update_move_windows pb tl target state k delta_trucks rest
            delta_workers updated m source
  end.

(** [int update_move(Move* m, Route* source, Route* target, int state,
    int len)]: the value returned, the move and the source route with the
    caches written. *)
Definition update_move (pb : Problem) (tl : Tabulist) (m : Move)
    (source target : Route) (state len : Z) : option (Z * Move * Route) :=
  if cfg_max_move (pb_cfg pb) <? len then Some (0, m, source)
  else if r_len source <? EMPTY + len then Some (0, m, source)
  else
    let delta_trucks := if r_len source =? EMPTY + len then 1 else 0 in
    let delta_workers :=
      if negb (delta_trucks =? 0) then r_workers source else 0 in
    if (m_delta_trucks m =? 1) && (delta_trucks =? 0) then
      Some (0, m, source)
    else if len <? 1 then None
    else
      let k := Z.to_nat len in
      if (length (r_nodes source) <? k + 2)%nat then None
      else
        '(updated, m', source') ←
          update_move_windows pb tl target state k delta_trucks
            (seq 1 (length (r_nodes source) - k - 1))
            delta_workers false m source;
        Some (if updated : bool then 1 else 0, m', source').

(** [DBL_MAX] of float.h. *)
Definition DBL_MAX : Q := inject_Z (2 ^ 1024 - 2 ^ 971).

(** local_search.h: [init_move(m, improving)]. *)
Definition init_move (improving : bool) : Move :=
  {| m_source := None; m_target := None; m_first := None; m_last := None;
     m_after := None; m_delta_trucks := 0; m_delta_workers := 0;
     m_delta_dist := if improving then 0 else (- DBL_MAX)%Q;
     m_improving := improving |}.

(** The slot and the route a pointer to the route with id [route_id]
    leads to; [i] is the index of the first slot of [routes]. *)
Fixpoint lookup_route_from (routes : list (option Route)) (route_id : nat)
    (i : nat) : option (nat * Route) :=
  match routes with
  | [] => None
  | Some r :: rest =>
      if Nat.eqb (r_id r) route_id then Some (i, r)
      else lookup_route_from rest route_id (S i)
  | None :: rest => lookup_route_from rest route_id (S i)
  end.

Definition lookup_route (sol : Solution) (route_id : nat)
  : option (nat * Route) :=
  lookup_route_from (s_routes sol) route_id 0.

(** The solution after a write through a pointer to the route in slot
    [i]. *)
Definition store_route (sol : Solution) (i : nat) (r : Route) : Solution :=
  with_routes sol (<[i := Some r]> (s_routes sol)) (s_trucks sol).

(** [void perform_move(Solution* sol, Move* m)]: the tabu list and the
    move afterwards and the routes handed to [free_route]. *)
Definition perform_move (pb : Problem) (sol : Solution) (tl : Tabulist)
    (m : Move) : outcome (Tabulist * Move * list Route) :=
  match m_first m with
  | None => Returns sol (tl, m, [])
  | Some first =>
      match m_last m, m_after m, m_source m, m_target m with
      | Some last, Some after, Some source_id, Some target_id =>
          match lookup_route sol source_id with
          | None => Undefined
          | Some (si, source) =>
              let run := run_of (r_nodes source) first last in
              match update_tabulist_move tl (map n_id run) (r_id source) with
              | None => Undefined
              | Some tl' =>
                  let removed :=
                    if negb (m_delta_trucks m =? 0) then
                      let sol1 :=
                        store_route sol si
                          (remove_nodes_noupdate source first last) in
                      match get_route_index sol1 (r_id source) with
                      | Returns sol2 idx => remove_route sol2 idx
                      | Exits sol2 => Exits sol2
                      | Undefined => Undefined
                      end
                    else if negb (m_delta_workers m =? 0) then
                      let s1 := remove_nodes_noupdate source first last in
                      let s2 :=
                        {| r_id := r_id s1; r_depot_id := r_depot_id s1;
                           r_nodes := r_nodes s1; r_len := r_len s1;
                           r_load := r_load s1;
                           r_workers := r_workers s1 - m_delta_workers m |} in
                      let s3 := calc_ests pb s2 0 (r_workers s2) in
                      let s4 :=
                        calc_lsts pb s3 (length (r_nodes s3) - 1)
                                  (r_workers s3) in
                      Returns (store_route sol si s4) []
                    else
                      Returns
                        (store_route sol si
                           (remove_nodes pb source first last)) [] in
                  match removed with
                  | Returns sol3 freed =>
                      match lookup_route sol3 target_id with
                      | None => Undefined
                      | Some (ti, target) =>
                          Returns
                            (store_route sol3 ti
                               (add_nodes pb target run after))
                            (tl', init_move (m_improving m), freed)
                      end
                  | Exits sol3 => Exits sol3
                  | Undefined => Undefined
                  end
              end
          end
      | _, _, _, _ => Undefined
      end
  end.

(** The route depot, 2, depot with one worker, and a route without
    customers. *)
Definition ex_route_b : Route :=
  {| r_id := 1; r_depot_id := 4;
     r_nodes := [ex_depot; ex_node 2 20 5 989; ex_depot];
     r_len := 3; r_load := 20; r_workers := 1 |}.

Definition ex_route_empty : Route :=
  {| r_id := 1; r_depot_id := 4;
     r_nodes := [ex_depot; ex_depot];
     r_len := 2; r_load := 0; r_workers := 1 |}.

(** Solutions over these routes; the array has [num_nodes - 1] slots. *)
Definition ex_solution (routes : list (option Route)) (trucks : Z)
    (unrouted : list Node) : Solution :=
  {| s_routes := routes; s_trucks := trucks; s_unrouted := unrouted;
     s_num_unrouted := Z.of_nat (length unrouted);
     s_time := 0; s_saturation_time := 0;
     s_workers_cache := 0; s_dist_cache := 0; s_cost_cache := 0 |}.

Definition ex_sol : Solution :=
  ex_solution [Some ex_route; None] 1 [ex_node2].

Definition ex_sol_two : Solution :=
  ex_solution [Some ex_route; Some ex_route_b] 2 [].

Definition ex_sol_emptied : Solution :=
  ex_solution [Some ex_route_empty; Some ex_route] 2 [ex_node2].

(** A pheromone matrix of side [2 * 3 - 1] filled with the initial value. *)
Definition ex_pheromone : list (list Q) := replicate 5 (replicate 5 1%Q).

(** The array of a solution holds routes in its first [trucks] slots, with
    ids that differ pairwise, and NULL in the slots behind them. *)
Definition solution_wf (sol : Solution) : Prop :=
  let n := Z.to_nat (s_trucks sol) in
  0 <= s_trucks sol /\
  (n <= length (s_routes sol))%nat /\
  Forall (fun slot : option Route => is_Some slot) (take n (s_routes sol)) /\
  Forall (fun slot : option Route => slot = None) (drop n (s_routes sol)) /\
  NoDup (omap (fmap r_id) (take n (s_routes sol))).

(** The worker count of the route in slot [j], 0 for a slot without
    route, and sums over slots. *)
Definition workers_at (routes : list (option Route)) (j : nat) : Z :=
  match routes !! j with
  | Some (Some r) => r_workers r
  | _ => 0
  end.

Definition zsum (f : nat -> Z) (l : list nat) : Z :=
  foldr (fun j acc => f j + acc) 0 l.

(** A position [a] of the target at which [update_move] records the move
    of the nodes [first .. last] of the source, the incumbent being [m] and
    the deltas [dt] and [dw]: the run is within the capacity of the target,
    [delta_is_higher] ranks the deltas and the distance the move saves
    above [m], [can_insert] accepts the run behind [a] and the move is not
    tabu. *)
Definition move_candidate (pb : Problem) (tl : Tabulist) (m : Move)
    (source target : Route) (first last : nat) (dt dw : Z) (a : nat)
  : Prop :=
  exists after after_next first_prev first_node last_node last_next : Node,
    r_nodes target !! a = Some after /\
    r_nodes target !! S a = Some after_next /\
    r_nodes source !! (first - 1)%nat = Some first_prev /\
    r_nodes source !! first = Some first_node /\
    r_nodes source !! last = Some last_node /\
    r_nodes source !! S last = Some last_next /\
    Qltb (inject_Z (pb_capacity pb))
         (r_load target +
          sum_demands (run_of (r_nodes source) first last))%Q = false /\
    delta_is_higher m dt dw
      (calc_delta_dist_move (pb_c_m pb 0) first_prev first_node last_node
                            last_next after after_next) = true /\
    fst (can_insert pb target (run_of (r_nodes source) first last)
                    after after_next) = true /\
    is_move_tabu tl (map n_id (run_of (r_nodes source) first last))
                 (r_id target) = Some false.

(** What [update_move] leaves in the move when it has recorded a candidate
    with the deltas [dt] and [dw]: the deltas, the routes, the run, a
    position on the target, and a distance delta that [delta_is_higher]
    ranks above the incumbent [m] together with [dt] and [dw]. *)
Definition ranked (m : Move) (dt dw : Z) (source_id target_id : nat)
    (first last : nat) (m' : Move) : Prop :=
  m_delta_trucks m' = dt /\ m_delta_workers m' = dw /\
  m_source m' = Some source_id /\ m_target m' = Some target_id /\
  m_first m' = Some first /\ m_last m' = Some last /\
  is_Some (m_after m') /\
  m_improving m' = m_improving m /\
  delta_is_higher m dt dw (m_delta_dist m') = true.

(** The scan of the moves of one node from the route depot, 2, depot to the
    route depot, 1, depot, starting from the move of [init_move]: the move
    it records and the source route with the scratch values written. *)
Definition ex_move : Move :=
  Eval vm_compute in
    match update_move ex_pb (new_tabulist ex_pb) (init_move true)
            ex_route_b ex_route REDUCE_WORKERS 1 with
    | Some (_, m, _) => m
    | None => init_move true
    end.

Definition ex_route_b_scanned : Route :=
  Eval vm_compute in
    match update_move ex_pb (new_tabulist ex_pb) (init_move true)
            ex_route_b ex_route REDUCE_WORKERS 1 with
    | Some (_, _, source) => source
    | None => ex_route_b
    end.

Definition ex_sol_scanned : Solution :=
  ex_solution [Some ex_route; Some ex_route_b_scanned] 2 [].

(** ** Clones of nodes, routes and solutions: the values (node.c, route.c,
    solution.c) *)

(** The fields [clone_node] gives the clone of a node. *)
Definition cloned_node (n : Node) : Node :=
  {| n_id := n_id n; n_x := n_x n; n_y := n_y n; n_demand := n_demand n;
     n_est := n_est n; n_lst := n_lst n; n_service_time := n_service_time n;
     n_aest := n_aest n; n_alst := n_alst n;
     n_aest_cache := -1; n_alst_cache := -1 |}.

(** The fields and the chain [clone_route] gives the clone of a route. *)
Definition cloned_route (r : Route) : Route :=
  {| r_id := r_id r; r_depot_id := r_depot_id r;
     r_nodes := map cloned_node (r_nodes r);
     r_len := r_len r; r_load := r_load r; r_workers := r_workers r |}.

(** The fields, the routes and the unrouted chain [clone_solution] gives
    the clone of a solution: an array of [num_nodes] slots, the first
    [trucks] of which hold clones of the routes. *)
Definition cloned_solution (pb : Problem) (s : Solution) : Solution :=
  {| s_routes :=
       map (fmap cloned_route) (take (Z.to_nat (s_trucks s)) (s_routes s)) ++
       replicate (Z.to_nat (pb_num_nodes pb) - Z.to_nat (s_trucks s)) None;
     s_trucks := s_trucks s;
     s_unrouted := map cloned_node (s_unrouted s);
     s_num_unrouted := s_num_unrouted s;
     s_time := s_time s; s_saturation_time := s_saturation_time s;
     s_workers_cache := s_workers_cache s;
     s_dist_cache := s_dist_cache s; s_cost_cache := s_cost_cache s |}.

(** ** Clones of nodes, routes and solutions: the objects in memory *)

Module Heap.

(** Addresses are numbers; a pointer is an address or NULL ([None]). *)
Abbreviation loc := nat (only parsing).
Abbreviation ptr := (option nat) (only parsing).

(** [struct node] in memory: the fields and the two links. *)
Record node_cell := mk_node_cell {
  nc_data : Node;
  nc_prev : ptr;
  nc_next : ptr
}.

(** [struct route] in memory. *)
Record route_cell := mk_route_cell {
  rc_id : nat;
  rc_depot_id : nat;
  rc_nodes : ptr;
  rc_tail : ptr;
  rc_len : Z;
  rc_load : Q;
  rc_workers : Z;
  rc_pb : ptr
}.

(** [struct solution] in memory, together with the array [routes] it
    owns. *)
Record solution_cell := mk_solution_cell {
  sc_routes : list ptr;
  sc_trucks : Z;
  sc_unrouted : ptr;
  sc_num_unrouted : Z;
  sc_time : Z;
  sc_saturation_time : Z;
  sc_workers_cache : Z;
  sc_dist_cache : Q;
  sc_cost_cache : Q;
  sc_pb : ptr
}.

(** What an address holds; [CProblem] stands for the problem, which the
    clone functions never read through memory. *)
Inductive cell : Type :=
| CNode (c : node_cell)
| CRoute (c : route_cell)
| CSolution (c : solution_cell)
| CProblem.

Abbreviation heap := (gmap nat cell) (only parsing).

(** wrappers.h: [s_malloc]: an address that is not in use, and the memory
    with the new object at it. *)
Definition s_malloc (h : heap) (c : cell) : loc * heap :=
  let l := fresh (dom h) in (l, <[l := c]> h).

Definition get_node (h : heap) (l : loc) : option node_cell :=
  match h !! l with Some (CNode c) => Some c | _ => None end.

Definition get_route (h : heap) (l : loc) : option route_cell :=
  match h !! l with Some (CRoute c) => Some c | _ => None end.

Definition get_solution (h : heap) (l : loc) : option solution_cell :=
  match h !! l with Some (CSolution c) => Some c | _ => None end.

(** [l->next = p]. *)
Definition set_next (h : heap) (l : loc) (p : ptr) : option heap :=
  c ← get_node h l;
  Some (<[l := CNode {| nc_data := nc_data c; nc_prev := nc_prev c;
                        nc_next := p |}]> h).

(** [l->prev = p]. *)
Definition set_prev (h : heap) (l : loc) (p : ptr) : option heap :=
  c ← get_node h l;
  Some (<[l := CNode {| nc_data := nc_data c; nc_prev := p;
                        nc_next := nc_next c |}]> h).

(** [route->nodes = p]. *)
Definition set_nodes (h : heap) (route : loc) (p : ptr) : option heap :=
  c ← get_route h route;
  Some (<[route := CRoute {| rc_id := rc_id c; rc_depot_id := rc_depot_id c;
                             rc_nodes := p; rc_tail := rc_tail c;
                             rc_len := rc_len c; rc_load := rc_load c;
                             rc_workers := rc_workers c;
                             rc_pb := rc_pb c |}]> h).

(** [route->tail = p]. *)
Definition set_tail (h : heap) (route : loc) (p : ptr) : option heap :=
  c ← get_route h route;
  Some (<[route := CRoute {| rc_id := rc_id c; rc_depot_id := rc_depot_id c;
                             rc_nodes := rc_nodes c; rc_tail := p;
                             rc_len := rc_len c; rc_load := rc_load c;
                             rc_workers := rc_workers c;
                             rc_pb := rc_pb c |}]> h).

(** [sol->routes[i] = p]. *)
Definition set_route_slot (h : heap) (sol : loc) (i : nat) (p : ptr)
  : option heap :=
  c ← get_solution h sol;
  _ ← sc_routes c !! i;
  Some (<[sol := CSolution
            {| sc_routes := <[i := p]> (sc_routes c);
               sc_trucks := sc_trucks c; sc_unrouted := sc_unrouted c;
               sc_num_unrouted := sc_num_unrouted c; sc_time := sc_time c;
               sc_saturation_time := sc_saturation_time c;
               sc_workers_cache := sc_workers_cache c;
               sc_dist_cache := sc_dist_cache c;
               sc_cost_cache := sc_cost_cache c; sc_pb := sc_pb c |}]> h).

(** [sol->unrouted = p]. *)
Definition set_unrouted (h : heap) (sol : loc) (p : ptr) : option heap :=
  c ← get_solution h sol;
  Some (<[sol := CSolution
            {| sc_routes := sc_routes c;
               sc_trucks := sc_trucks c; sc_unrouted := p;
               sc_num_unrouted := sc_num_unrouted c; sc_time := sc_time c;
               sc_saturation_time := sc_saturation_time c;
               sc_workers_cache := sc_workers_cache c;
               sc_dist_cache := sc_dist_cache c;
               sc_cost_cache := sc_cost_cache c; sc_pb := sc_pb c |}]> h).

(** node.c: [Node* clone_node(Node* node)]. *)
Definition clone_node (h : heap) (node : loc) : option (loc * heap) :=
  c ← get_node h node;
  Some (s_malloc h (CNode {| nc_data := cloned_node (nc_data c);
                             nc_prev := None; nc_next := None |})).

(** route.c, the loop of [clone_route]:
    [while (n) { clone->tail->next = clone_node(n);
                 clone->tail->next->prev = clone->tail;
                 clone->tail = clone->tail->next; n = n->next; }].
    Every step uses one unit of [fuel]. *)
Fixpoint clone_route_loop (fuel : nat) (h : heap) (clone : loc) (n : ptr)
  : option heap :=
  match n with
  | None => Some h
  | Some node =>
      match fuel with
      | O => None
      | S fuel' =>
          '(c, h) ← clone_node h node;
          r ← get_route h clone;
          tail ← rc_tail r;
          h ← set_next h tail (Some c);
          h ← set_prev h c (Some tail);
          h ← set_tail h clone (Some c);
          cell ← get_node h node;
          clone_route_loop fuel' h clone (nc_next cell)
      end
  end.

(** route.c: [Route* clone_route(Route* route)]. *)
Definition clone_route (fuel : nat) (h : heap) (route : loc)
  : option (loc * heap) :=
  r ← get_route h route;
  n ← rc_nodes r;
  let '(clone, h) :=
    s_malloc h (CRoute {| rc_id := rc_id r; rc_depot_id := rc_depot_id r;
                          rc_nodes := None; rc_tail := None;
                          rc_len := rc_len r; rc_load := rc_load r;
                          rc_workers := rc_workers r; rc_pb := rc_pb r |}) in
  '(c, h) ← clone_node h n;
  h ← set_nodes h clone (Some c);
  h ← set_tail h clone (Some c);
  cell ← get_node h n;
  h ← clone_route_loop fuel h clone (nc_next cell);
  Some (clone, h).

(** solution.c, the loop [for (int i = 0; i < clone->trucks; ++i)
    clone->routes[i] = clone_route(sol->routes[i]);] over the indices
    [is]. *)
Fixpoint clone_routes_loop (fuel : nat) (h : heap) (sol clone : loc)
    (indices : list nat) : option heap :=
  match indices with
  | [] => Some h
  | i :: rest =>
      s ← get_solution h sol;
      slot ← sc_routes s !! i;
      route ← slot;
      '(r, h) ← clone_route fuel h route;
      h ← set_route_slot h clone i (Some r);
      clone_routes_loop fuel h sol clone rest
  end.

(** solution.c, the loop over the unrouted chain:
    [while (n) { tail->next = clone_node(n); tail->next->prev = tail;
                 tail = tail->next; n = n->next; }]. *)
Fixpoint clone_unrouted_loop (fuel : nat) (h : heap) (n : ptr) (tail : loc)
  : option heap :=
  match n with
  | None => Some h
  | Some node =>
      match fuel with
      | O => None
      | S fuel' =>
          '(c, h) ← clone_node h node;
          h ← set_next h tail (Some c);
          h ← set_prev h c (Some tail);
          cell ← get_node h node;
          clone_unrouted_loop fuel' h (nc_next cell) c
      end
  end.

(** solution.c: [Solution* clone_solution(Solution* sol)]; [pb] is the
    problem [sol->pb] points to.  The slots of the new array that the loop
    does not write are left as [s_malloc] gives them; they are modelled as
    NULL. *)
Definition clone_solution (pb : Problem) (fuel : nat) (h : heap) (sol : loc)
  : option (loc * heap) :=
  s ← get_solution h sol;
  let num_nodes := pb_num_nodes pb in
  let '(clone, h) :=
    s_malloc h (CSolution
      {| sc_routes := replicate (Z.to_nat num_nodes) None;
         sc_trucks := sc_trucks s; sc_unrouted := None;
         sc_num_unrouted := sc_num_unrouted s; sc_time := sc_time s;
         sc_saturation_time := sc_saturation_time s;
         sc_workers_cache := sc_workers_cache s;
         sc_dist_cache := sc_dist_cache s;
         sc_cost_cache := sc_cost_cache s; sc_pb := sc_pb s |}) in
  h ← clone_routes_loop fuel h sol clone (seq 0 (Z.to_nat (sc_trucks s)));
  match sc_unrouted s with
  | None => Some (clone, h)
  | Some n =>
      '(c, h) ← clone_node h n;
      h ← set_unrouted h clone (Some c);
      cell ← get_node h n;
      h ← clone_unrouted_loop fuel h (nc_next cell) c;
      Some (clone, h)
  end.

(** The chain that starts at [p], whose first node has [prev] as its
    [prev] link, runs through the addresses and holds the fields listed in
    [cells], and ends with a NULL [next] link. *)
Fixpoint dll (h : heap) (p prev : ptr) (cells : list (loc * Node)) : Prop :=
  match cells with
  | [] => p = None
  | (l, d) :: rest =>
      p = Some l /\
      exists nx : ptr,
        h !! l = Some (CNode {| nc_data := d; nc_prev := prev;
                                nc_next := nx |}) /\
        dll h nx (Some l) rest
  end.

(** The address [rl] holds the route [r]: its fields, and its chain at the
    addresses [locs]; [pbp] is its pointer to the problem. *)
Definition route_repr (h : heap) (pbp : ptr) (rl : loc) (r : Route)
    (locs : list loc) : Prop :=
  exists rc : route_cell,
    h !! rl = Some (CRoute rc) /\
    rc_id rc = r_id r /\ rc_depot_id rc = r_depot_id r /\
    rc_len rc = r_len r /\ rc_load rc = r_load r /\
    rc_workers rc = r_workers r /\ rc_pb rc = pbp /\
    rc_nodes rc = head locs /\ rc_tail rc = last locs /\
    locs <> [] /\ length locs = length (r_nodes r) /\ NoDup locs /\
    dll h (head locs) None (zip locs (r_nodes r)).

(** The address [sl] holds the solution [s]: its fields, an array as long
    as [s_routes s] whose first [trucks] slots point to the routes at the
    addresses listed in [owned] (each with the addresses of its nodes), and
    the unrouted chain at the addresses [ul]. *)
Definition solution_repr (h : heap) (pbp : ptr) (sl : loc) (s : Solution)
    (owned : list (loc * list loc)) (ul : list loc) : Prop :=
  exists sc : solution_cell,
    h !! sl = Some (CSolution sc) /\
    sc_trucks sc = s_trucks s /\ sc_num_unrouted sc = s_num_unrouted s /\
    sc_time sc = s_time s /\
    sc_saturation_time sc = s_saturation_time s /\
    sc_workers_cache sc = s_workers_cache s /\
    sc_dist_cache sc = s_dist_cache s /\
    sc_cost_cache sc = s_cost_cache s /\ sc_pb sc = pbp /\
    length (sc_routes sc) = length (s_routes s) /\
    0 <= s_trucks s /\
    length owned = Z.to_nat (s_trucks s) /\
    (forall (i : nat) (rl : loc) (locs : list loc),
       owned !! i = Some (rl, locs) ->
       sc_routes sc !! i = Some (Some rl) /\
       exists r : Route,
         s_routes s !! i = Some (Some r) /\ route_repr h pbp rl r locs) /\
    sc_unrouted sc = head ul /\
    length ul = length (s_unrouted s) /\ NoDup ul /\
    dll h (head ul) None (zip ul (s_unrouted s)).

(** The addresses of the routes and nodes of a solution. *)
Definition footprint (owned : list (loc * list loc)) (ul : list loc)
  : gset nat :=
  list_to_set (map fst owned) ∪ list_to_set (concat (map snd owned)) ∪
  list_to_set ul.

End Heap.

Import Heap.

(** ** A small instance in memory *)

(** [ex_sol] in memory: the problem at address 0, the solution at 1, its
    route at 2 with the chain depot, customer 1, depot at 3, 4 and 5, and
    the unrouted customer 2 at 6. *)
Definition ex_heap : gmap nat cell :=
  list_to_map
    [(0%nat, CProblem);
     (1%nat, CSolution
               {| sc_routes := [Some 2%nat; None]; sc_trucks := 1;
                  sc_unrouted := Some 6%nat; sc_num_unrouted := 1;
                  sc_time := 0; sc_saturation_time := 0;
                  sc_workers_cache := 0; sc_dist_cache := 0;
                  sc_cost_cache := 0; sc_pb := Some 0%nat |});
     (2%nat, CRoute
               {| rc_id := 0; rc_depot_id := 3; rc_nodes := Some 3%nat;
                  rc_tail := Some 5%nat; rc_len := 3; rc_load := 10;
                  rc_workers := 1; rc_pb := Some 0%nat |});
     (3%nat, CNode {| nc_data := ex_depot; nc_prev := None;
                      nc_next := Some 4%nat |});
     (4%nat, CNode {| nc_data := ex_node1; nc_prev := Some 3%nat;
                      nc_next := Some 5%nat |});
     (5%nat, CNode {| nc_data := ex_depot; nc_prev := Some 4%nat;
                      nc_next := None |});
     (6%nat, CNode {| nc_data := ex_node2; nc_prev := None;
                      nc_next := None |})].

(** The addresses of the route of [ex_sol] and of its nodes, and of its
    unrouted node. *)
Definition ex_owned : list (nat * list nat) := [(2, [3; 4; 5])]%nat.
Definition ex_ul : list nat := [6%nat].

(** ** Auxiliary notions for the statements about chains *)

(** The demands of the nodes of a chain, added up. *)
Definition total_demand (chain : list Node) : Q :=
  foldr (fun n acc => (n_demand n + acc)%Q) 0%Q chain.

(** ** More of solution.c *)

(** The loop of [calc_dist] over the routes [indices]. *)
Fixpoint calc_dist_loop (pb : Problem) (sol : Solution) (dist : Q)
    (indices : list nat) : option Q :=
  match indices with
  | [] => Some dist
  | i :: rest =>
      route ← route_at sol i;
      calc_dist_loop pb sol (dist + calc_length pb route)%Q rest
  end.

(** [double calc_dist(Solution* sol)]. *)
Definition calc_dist (pb : Problem) (sol : Solution) : option Q :=
  calc_dist_loop pb sol 0 (seq 0 (Z.to_nat (s_trucks sol))).

(** The customers of a route: its chain without the two depots. *)
Definition customers (r : Route) : list Node :=
  removelast (tail (r_nodes r)).

(** The routes in the first [trucks] slots of a solution. *)
Definition live_routes (sol : Solution) : list Route :=
  omap id (take (Z.to_nat (s_trucks sol)) (s_routes sol)).

(** ** Start times that are up to date *)

(** The start times of a route are up to date when computing them again,
    the earliest ones from the opening depot and the latest ones from the
    closing depot, changes nothing. *)
Definition up_to_date (pb : Problem) (r : Route) : Prop :=
  r_nodes (calc_ests pb r 0 (r_workers r)) = r_nodes r /\
  r_nodes (calc_lsts pb r (length (r_nodes r) - 1) (r_workers r))
  = r_nodes r.

(** What the forward pass reads and writes of a node, and what the
    backward pass reads and writes. *)
Definition fwd (n : Node) : nat * Q * Q := (n_id n, n_est n, n_aest n).
Definition bwd (n : Node) : nat * Q * Q := (n_id n, n_lst n, n_alst n).

(** The earliest start time of each node of [chain] but the last is the
    one the forward pass gives it, [prev] preceding the chain; the same
    for every node of [chain]. *)
Fixpoint ests_chain (c_m : nat -> nat -> Q) (prev : Node)
    (chain : list Node) : Prop :=
  match chain with
  | n :: ((_ :: _) as rest) =>
      n_aest n = Common.max (n_est n)
                   (n_aest prev + c_m (n_id prev) (n_id n))%Q /\
      ests_chain c_m n rest
  | _ => True
  end.

Fixpoint ests_all (c_m : nat -> nat -> Q) (prev : Node)
    (chain : list Node) : Prop :=
  match chain with
  | n :: rest =>
      n_aest n = Common.max (n_est n)
                   (n_aest prev + c_m (n_id prev) (n_id n))%Q /\
      ests_all c_m n rest
  | [] => True
  end.

(** The latest start time of each node of [chain_rev] but the last is the
    one the backward pass gives it, [succ] following the chain, which is
    listed from its end; the same for every node. *)
Fixpoint lsts_chain (c_m : nat -> nat -> Q) (succ : Node)
    (chain_rev : list Node) : Prop :=
  match chain_rev with
  | n :: ((_ :: _) as rest) =>
      n_alst n = Common.fmin (n_lst n)
                   (n_alst succ - c_m (n_id n) (n_id succ))%Q /\
      lsts_chain c_m n rest
  | _ => True
  end.

Fixpoint lsts_all (c_m : nat -> nat -> Q) (succ : Node)
    (chain_rev : list Node) : Prop :=
  match chain_rev with
  | n :: rest =>
      n_alst n = Common.fmin (n_lst n)
                   (n_alst succ - c_m (n_id n) (n_id succ))%Q /\
      lsts_all c_m n rest
  | [] => True
  end.

(** The two passes of a chain, pointwise. *)
Definition schedule_ok (c_m : nat -> nat -> Q) (nodes : list Node) : Prop :=
  match nodes with
  | [] => True
  | head :: rest =>
      n_aest head = n_est head /\ ests_chain c_m head rest
  end /\
  match rev nodes with
  | [] => True
  | tl :: before =>
      n_alst tl = n_lst tl /\ lsts_chain c_m tl before
  end.

(** The forward pass and the backward pass of a chain, each alone. *)
Definition fwd_ok (c_m : nat -> nat -> Q) (nodes : list Node) : Prop :=
  match nodes with
  | [] => True
  | head :: rest => n_aest head = n_est head /\ ests_chain c_m head rest
  end.

Definition bwd_ok (c_m : nat -> nat -> Q) (nodes_rev : list Node) : Prop :=
  match nodes_rev with
  | [] => True
  | tl :: before => n_alst tl = n_lst tl /\ lsts_chain c_m tl before
  end.

Definition fwd_all (c_m : nat -> nat -> Q) (nodes : list Node) : Prop :=
  match nodes with
  | [] => True
  | head :: rest => n_aest head = n_est head /\ ests_all c_m head rest
  end.

Definition bwd_all (c_m : nat -> nat -> Q) (nodes_rev : list Node) : Prop :=
  match nodes_rev with
  | [] => True
  | tl :: before => n_alst tl = n_lst tl /\ lsts_all c_m tl before
  end.

(** The chain [P ++ M ++ S] after the forward pass from the first node
    behind [P], whose last node is [prev], and the backward pass from the
    last node before [S], whose first node is then [succ]: what [add_nodes]
    and [remove_nodes] leave. *)
Definition repass (c_m : nat -> nat -> Q) (P M S : list Node)
    (prev succ : Node) : list Node :=
  let N2 := P ++ calc_ests_actual c_m prev (M ++ S) in
  let k := (length P + length M)%nat in
  rev (calc_lsts_loop c_m succ (rev (take k N2))) ++ drop k N2.

(** ** The final feasibility check (route.c) *)

(** The loop of [is_feasible]: [chain] starts at [n], [prev] is [n->prev];
    the load added up, or [None] when the loop ends with [return 0] at a
    node whose time window is missed. *)
Fixpoint is_feasible_loop (c_m : nat -> nat -> Q) (prev : Node)
    (chain : list Node) (load est : Q) : option Q :=
  match chain with
  | [] => Some load
  | n :: rest =>
      let load := (load + n_demand n)%Q in
      let est := Common.max (n_est n)
                   (est + c_m (n_id prev) (n_id n))%Q in
      if Qltb (n_lst n) est then None
      else is_feasible_loop c_m n rest load est
  end.

(** [int is_feasible(Route* r)]; a route without nodes is the NULL that
    [r->nodes->next] would dereference. *)
Definition is_feasible (pb : Problem) (r : Route) : option bool :=
  match r_nodes r with
  | [] => None
  | head :: rest =>
      match is_feasible_loop (pb_c_m pb (r_workers r)) head rest 0
              (n_est head) with
      | None => Some false
      | Some load => Some (negb (Qltb (inject_Z (pb_capacity pb)) load))
      end
  end.

(** Leaving the node with id [pid] at time [t], every node of [chain] is
    reached within its time window. *)
Fixpoint reach (c_m : nat -> nat -> Q) (t : Q) (pid : nat)
    (chain : list Node) : Prop :=
  match chain with
  | [] => True
  | n :: rest =>
      let t' := Common.max (n_est n) (t + c_m pid (n_id n))%Q in
      (t' <= n_lst n)%Q /\ reach c_m t' (n_id n) rest
  end.

(** What [can_insert] tests of a run that is entered at time [t] from the
    node with id [pid] and followed by [succ]. *)
Fixpoint fits (c_m : nat -> nat -> Q) (t : Q) (pid : nat)
    (run : list Node) (succ : Node) : Prop :=
  match run with
  | [] => (t + c_m pid (n_id succ) <= n_alst succ)%Q
  | n :: rest =>
      let t' := Common.max (t + c_m pid (n_id n))%Q (n_est n) in
      (t' <= n_lst n)%Q /\ fits c_m t' (n_id n) rest succ
  end.

(** The [load] of a route is the demand of its nodes behind the opening
    depot, which is what [is_feasible] adds up. *)
Definition load_ok (r : Route) : Prop :=
  (r_load r == total_demand (tail (r_nodes r)))%Q.

(** The route after [route->workers = workers]. *)
Definition with_workers (r : Route) (workers : Z) : Route :=
  {| r_id := r_id r; r_depot_id := r_depot_id r; r_nodes := r_nodes r;
     r_len := r_len r; r_load := r_load r; r_workers := workers |}.

(** The node after [n->aest = n->aest_cache]. *)
Definition commit (n : Node) : Node := set_aest n (n_aest_cache n).

(** Two chains that differ at most in the values of [aest_cache]. *)
Definition same_but_cache (l l' : list Node) : Prop :=
  map (fun n => set_aest_cache n 0) l = map (fun n => set_aest_cache n 0) l'.

(** ** What the local search keeps of a route *)

(** The route [r'] is [r] with other values of [aest_cache]. *)
Definition same_route (r r' : Route) : Prop :=
  same_but_cache (r_nodes r') (r_nodes r) /\
  with_nodes r' (r_nodes r) = r.

(** Without the nodes at [first .. last] the source meets its time windows
    with [dw] workers less, [dw] being 0 or leaving a worker. *)
Definition can_drop (pb : Problem) (source : Route) (first last : nat)
    (dw : Z) : Prop :=
  dw = 0 \/
  (1 <= dw <= r_workers source - 1 /\
   forall (dep : Node) (rest : list Node),
     take first (r_nodes source) ++ drop (S last) (r_nodes source)
     = dep :: rest ->
     reach (pb_c_m pb (r_workers source - dw)) (n_est dep) (n_id dep) rest).

(** What [update_move] has computed and tested of a move of [k] nodes from
    [source] to [target] when it records it. *)
Definition approved (pb : Problem) (tl : Tabulist) (source target : Route)
    (k : nat) (dt : Z) (m' : Move) : Prop :=
  exists (first a : nat) (after succ : Node),
    let last := (first + k - 1)%nat in
    let run := run_of (r_nodes source) first last in
    (exists fp f l ln : Node,
       r_nodes source !! (first - 1)%nat = Some fp /\
       r_nodes source !! first = Some f /\
       r_nodes source !! last = Some l /\
       r_nodes source !! S last = Some ln /\
       m_delta_dist m'
       = calc_delta_dist_move (pb_c_m pb 0) fp f l ln after succ) /\
    is_move_tabu tl (map n_id run) (r_id target) = Some false /\
    m_source m' = Some (r_id source) /\
    m_target m' = Some (r_id target) /\
    m_first m' = Some first /\ m_last m' = Some last /\
    m_after m' = Some a /\
    m_delta_trucks m' = dt /\
    (1 <= first)%nat /\ (S last < length (r_nodes source))%nat /\
    r_nodes target !! a = Some after /\
    r_nodes target !! S a = Some succ /\
    Qltb (inject_Z (pb_capacity pb)) (r_load target + sum_demands run)
    = false /\
    fits (pb_c_m pb (r_workers target)) (n_aest after) (n_id after) run
         succ /\
    (if dt =? 0 then can_drop pb source first last (m_delta_workers m')
     else m_delta_workers m' = r_workers source).

(** ** More of the insertion engine (route.c) *)

(** The cost and the attractiveness [get_best_insertion] computes for the
    position between [after] and [next]. *)
Definition best_insertion_cost (pb : Problem) (r : Route) (n after next : Node)
  : Q :=
  let alpha := cfg_alpha (pb_cfg pb) in
  let alpha2 := (1 - alpha)%Q in
  let c_m := pb_c_m pb (r_workers r) in
  let d := pb_c_m pb 0 in
  let mu := cfg_mu (pb_cfg pb) in
  let cost := (d (n_id after) (n_id n) + d (n_id n) (n_id next) -
               mu * d (n_id after) (n_id next))%Q in
  if negb (Qeq_bool alpha2 0) then
    let cost := (cost * alpha)%Q in
    let est_node :=
      Common.max (n_est n)
                 (n_aest after + c_m (n_id after) (n_id n))%Q in
    let est_succ :=
      Common.max (n_aest next)
                 (est_node + c_m (n_id n) (n_id next))%Q in
    (alpha2 * (est_succ - n_aest next))%Q
  else cost.

Definition best_insertion_attract (pb : Problem) (r : Route)
    (n after next : Node) : Q :=
  let lambda := cfg_lambda (pb_cfg pb) in
  let d := pb_c_m pb 0 in
  let attract :=
    (lambda * d DEPOT (n_id n) - best_insertion_cost pb r n after next)%Q in
  if Qltb attract 0 then MIN_DELTA else attract.

(** A [double] that may be infinite. *)
Inductive Ext : Type :=
| NegInf : Ext
| Fin : Q -> Ext
| PosInf : Ext.

(** [x < e] for a finite [x]. *)
Definition lt_ext (x : Q) (e : Ext) : bool :=
  match e with
  | NegInf => false
  | Fin y => Qltb x y
  | PosInf => true
  end.

(** route.h: [struct insertion] as the callers of [calc_best_insertion]
    hold it: the pointers may be NULL, [cost] may be [INFINITY] and
    [attractiveness] [-INFINITY]; [target] is the id of the route pointed
    to and [after] a position in it.  The list links are not used. *)
Record Insertion_buf := mkInsertion_buf {
  b_target : option nat;
  b_node : option Node;
  b_after : option nat;
  b_cost : Ext;
  b_attractiveness : Ext
}.

(** The loop [while (after != route->tail)] of [calc_best_insertion]:
    [chain] starts at [after], [pos] is its position; [cost_time] keeps its
    value from one position to the next. *)
Fixpoint calc_best_insertion_loop (pb : Problem) (route : Route)
    (node : Node) (pos : nat) (chain : list Node) (cost_time : Q)
    (updated : bool) (ins : Insertion_buf) : bool * Insertion_buf :=
  match chain with
  | after :: ((next :: _) as rest) =>
      if negb (can_insert_one pb route node after next) then
        calc_best_insertion_loop pb route node (S pos) rest cost_time
          updated ins
      else
        let d := pb_c_m pb 0 in
        let c_m := pb_c_m pb (r_workers route) in
        let alpha := cfg_alpha (pb_cfg pb) in
        let alpha2 := (1 - alpha)%Q in
        let mu := cfg_mu (pb_cfg pb) in
        let lambda := cfg_lambda (pb_cfg pb) in
        let cost_dist :=
          (d (n_id after) (n_id node) + d (n_id node) (n_id next) -
           mu * d (n_id after) (n_id next))%Q in
        let cost_time :=
          if negb (Qeq_bool alpha2 0) then
            let est_node :=
              Common.max (n_est node)
                (n_aest after + c_m (n_id after) (n_id node))%Q in
            let est_succ :=
              Common.max (n_est next)
                (est_node + c_m (n_id node) (n_id next))%Q in
            (est_succ - n_aest next)%Q
          else cost_time in
        let cost := (alpha * cost_dist + alpha2 * cost_time)%Q in
        let cost := (cost - lambda * d 0%nat (n_id node))%Q in
        if lt_ext cost (b_cost ins) then
          calc_best_insertion_loop pb route node (S pos) rest cost_time true
            {| b_target := Some (r_id route); b_node := Some node;
               b_after := Some pos; b_cost := Fin cost;
               b_attractiveness := b_attractiveness ins |}
        else
          calc_best_insertion_loop pb route node (S pos) rest cost_time
            updated ins
  | _ => (updated, ins)
  end.

(** [int calc_best_insertion(Route *route, Node *node, Insertion *ins)]: the
    value returned and the record afterwards. *)
Definition calc_best_insertion (pb : Problem) (route : Route) (node : Node)
    (ins : Insertion_buf) : bool * Insertion_buf :=
  if exceeds_capacity pb route node then (false, ins)
  else calc_best_insertion_loop pb route node 0 (r_nodes route) 0 false ins.

(** The cost [calc_best_insertion] gives the position between [after] and
    [next]. *)
Definition insertion_cost (pb : Problem) (route : Route)
    (node after next : Node) : Q :=
  let d := pb_c_m pb 0 in
  let c_m := pb_c_m pb (r_workers route) in
  let alpha := cfg_alpha (pb_cfg pb) in
  let alpha2 := (1 - alpha)%Q in
  let mu := cfg_mu (pb_cfg pb) in
  let lambda := cfg_lambda (pb_cfg pb) in
  let cost_dist :=
    (d (n_id after) (n_id node) + d (n_id node) (n_id next) -
     mu * d (n_id after) (n_id next))%Q in
  let cost_time :=
    if negb (Qeq_bool alpha2 0) then
      let est_node :=
        Common.max (n_est node)
          (n_aest after + c_m (n_id after) (n_id node))%Q in
      let est_succ :=
        Common.max (n_est next)
          (est_node + c_m (n_id node) (n_id next))%Q in
      (est_succ - n_aest next)%Q
    else 0%Q in
  (alpha * cost_dist + alpha2 * cost_time -
   lambda * d 0%nat (n_id node))%Q.

(** [e1 <= e2] on doubles that may be infinite. *)
Definition le_ext (e1 e2 : Ext) : Prop :=
  match e1, e2 with
  | NegInf, _ => True
  | _, PosInf => True
  | Fin x, Fin y => (x <= y)%Q
  | _, _ => False
  end.

(** ** The sorted list of insertions (route.h, route.c) *)

(** limits.h: [LONG_MAX] of a 64 bit [long]. *)
Definition LONG_MAX : Z := 2 ^ 63 - 1.

(** route.h: [struct insertion_list]; [il_items] holds the records from
    [head] to [tail]. *)
Record Insertion_List := mkInsertion_List {
  il_items : list Insertion;
  il_size : Z;
  il_max_size : Z
}.

(** [void init_insertion_list(Insertion_List* il, long max_size)]. *)
Definition init_insertion_list (max_size : Z) : Insertion_List :=
  {| il_items := [];
     il_size := 0;
     il_max_size := if max_size =? 0 then LONG_MAX else max_size |}.

(** [while (temp->attractiveness < ins->attractiveness) temp = temp->prev;]
    followed by the linking of [ins] behind [temp]: [back] holds [temp],
    [temp->prev], ... up to the head; the records passed stay behind
    [ins].  Running off the head is [None]. *)
Fixpoint link_behind (back : list Insertion) (ins : Insertion)
  : option (list Insertion) :=
  match back with
  | [] => None
  | temp :: rest =>
      if Qltb (i_attractiveness temp) (i_attractiveness ins) then
        r ← link_behind rest ins; Some (temp :: r)
      else Some (ins :: temp :: rest)
  end.

(** [int update_insertion_list(Insertion_List* il, Insertion* ins)]: the
    value returned, the list and the records handed to [free]. *)
Definition update_insertion_list (il : Insertion_List) (ins : Insertion)
  : option (Z * Insertion_List * list Insertion) :=
  if il_size il =? 0 then
    Some (1, {| il_items := [ins]; il_size := il_size il + 1;
                il_max_size := il_max_size il |}, [])
  else if il_max_size il =? 1 then
    hd ← head (il_items il);
    if Qltb (i_attractiveness ins) (i_attractiveness hd) then
      Some (0, il, [ins])
    else
      Some (1, {| il_items := [ins]; il_size := il_size il;
                  il_max_size := il_max_size il |}, [hd])
  else if il_size il <? il_max_size il then
    hd ← head (il_items il);
    if Qltb (i_attractiveness hd) (i_attractiveness ins) then
      Some (1, {| il_items := ins :: il_items il;
                  il_size := il_size il + 1;
                  il_max_size := il_max_size il |}, [])
    else
      back ← link_behind (rev (il_items il)) ins;
      Some (1, {| il_items := rev back; il_size := il_size il + 1;
                  il_max_size := il_max_size il |}, [])
  else
    tl ← last (il_items il);
    hd ← head (il_items il);
    if Qltb (i_attractiveness ins) (i_attractiveness tl) then
      Some (0, il, [ins])
    else
      items ←
        (if Qltb (i_attractiveness hd) (i_attractiveness ins) then
           Some (ins :: il_items il)
         else
           back ← link_behind (tail (rev (il_items il))) ins;
           Some (rev back ++ [tl]));
      Some (1, {| il_items := removelast items; il_size := il_size il;
                  il_max_size := il_max_size il |}, [tl]).

(** The records of a list stand by falling attractiveness. *)
Definition by_attractiveness (l : list Insertion) : Prop :=
  StronglySorted
    (fun a b => (i_attractiveness b <= i_attractiveness a)%Q) l.

(** Records with the attractiveness values [3; 2; 2; 1] and a list of at
    most three of them. *)
Definition ex_insertion (attract : Q) : Insertion :=
  {| i_target := 0; i_node := ex_node2; i_after := 0; i_cost := 0;
     i_attractiveness := attract |}.

Definition ex_il : Insertion_List :=
  {| il_items := [ex_insertion 3; ex_insertion 2; ex_insertion 1];
     il_size := 3; il_max_size := 3 |}.

(** ** The customers of a solution *)

(** The ids of the customers of a route, in the order of the chain, and
    those of all routes of a solution, route by route. *)
Definition customer_ids (r : Route) : list nat := map n_id (customers r).

Definition routed_ids (sol : Solution) : list nat :=
  concat (map customer_ids (live_routes sol)).

(** ** Solomon's I1 construction (vrptwms.c, route.c, solution.c) *)

(** The loop of [get_best_seed] over the chain [unrouted], whose first node
    stands at position [pos] of the whole chain; a pointer into the chain is
    the position it points to, [None] is NULL. *)
Fixpoint get_best_seed_loop (c_m : nat -> nat -> Q) (pos : nat)
    (unrouted : list Node) (max_dist : Q) (best_cand : option nat)
  : option nat :=
  match unrouted with
  | [] => best_cand
  | n :: rest =>
      if Qltb max_dist (c_m 0%nat (n_id n)) then
        get_best_seed_loop c_m (S pos) rest (c_m 0%nat (n_id n)) (Some pos)
      else get_best_seed_loop c_m (S pos) rest max_dist best_cand
  end.

(** [static Node* get_best_seed(Node* unrouted, double **c_m)]. *)
Definition get_best_seed (unrouted : list Node) (c_m : nat -> nat -> Q)
  : option nat :=
  get_best_seed_loop c_m 0 unrouted (-1) None.

(** [void remove_unrouted(Solution* sol, Node* nl)], [nl] being the node at
    position [pos] of the unrouted chain. *)
Definition remove_unrouted (sol : Solution) (pos : nat) : Solution :=
  {| s_routes := s_routes sol; s_trucks := s_trucks sol;
     s_unrouted := delete pos (s_unrouted sol);
     s_num_unrouted := s_num_unrouted sol - 1;
     s_time := s_time sol; s_saturation_time := s_saturation_time sol;
     s_workers_cache := s_workers_cache sol;
     s_dist_cache := s_dist_cache sol; s_cost_cache := s_cost_cache sol |}.

(** [Route* new_route(Solution* sol, Node* seed, int workers)]: the
    solution afterwards and the slot of the new route.  [depot] is the node
    [pb->nodes[DEPOT]] that [new_depot] clones; a negative [trucks] or one
    behind the array is an index out of bounds. *)
Definition new_route (pb : Problem) (depot : Node) (sol : Solution)
    (seed : Node) (workers : Z) : option (Solution * nat) :=
  if s_trucks sol <? 0 then None
  else
    let slot := Z.to_nat (s_trucks sol) in
    let route :=
      {| r_id := slot;
         r_depot_id := Z.to_nat (pb_num_nodes pb + s_trucks sol);
         r_nodes := [cloned_node depot; seed; cloned_node depot];
         r_len := ONE_CUSTOMER; r_load := n_demand seed;
         r_workers := workers |} in
    let r1 := calc_ests pb route 0 workers in
    let r2 := calc_lsts pb r1 (length (r_nodes r1) - 1) workers in
    routes ← set_slot (s_routes sol) slot (Some r2);
    Some (with_routes sol routes (s_trucks sol + 1), slot).

(** [isinf]. *)
Definition isinf (e : Ext) : bool :=
  match e with
  | Fin _ => false
  | _ => true
  end.

(** The record after [ins.cost = cost]. *)
Definition with_cost (ins : Insertion_buf) (cost : Ext) : Insertion_buf :=
  {| b_target := b_target ins; b_node := b_node ins; b_after := b_after ins;
     b_cost := cost; b_attractiveness := b_attractiveness ins |}.

(** [solve_solomon] with [pb->cfg->deterministic] set.  The loop
    [while (unrouted)] that calls [calc_best_insertion] for each node of
    the unrouted chain: [ins_node] is the position in the chain of the node
    [ins.node] points to, [pos] that of the first node of [unrouted]. *)
Fixpoint solve_solomon_scan (pb : Problem) (route : Route) (pos : nat)
    (unrouted : list Node) (ins : Insertion_buf) (ins_node : option nat)
  : Insertion_buf * option nat :=
  match unrouted with
  | [] => (ins, ins_node)
  | n :: rest =>
      let (updated, ins') := calc_best_insertion pb route n ins in
      solve_solomon_scan pb route (S pos) rest ins'
        (if updated then Some pos else ins_node)
  end.

(** The loop [while (sol->unrouted)] that fills the route in [slot]; [None]
    when the fuel runs out or a NULL pointer is followed. *)
Fixpoint solve_solomon_fill (fuel : nat) (pb : Problem) (sol : Solution)
    (slot : nat) (ins : Insertion_buf) (ins_node : option nat)
  : option (Solution * Insertion_buf * option nat) :=
  match fuel with
  | O => None
  | S fuel' =>
      match s_unrouted sol with
      | [] => Some (sol, ins, ins_node)
      | _ :: _ =>
          route ← route_at sol slot;
          let (ins1, node1) :=
            solve_solomon_scan pb route 0 (s_unrouted sol)
              (with_cost ins PosInf) ins_node in
          if isinf (b_cost ins1) then Some (sol, ins1, node1)
          else
            pos ← node1;
            node ← s_unrouted sol !! pos;
            target_id ← b_target ins1;
            after ← b_after ins1;
            let sol1 := remove_unrouted sol pos in
            found ← lookup_route sol1 target_id;
            solve_solomon_fill fuel' pb
              (store_route sol1 found.1
                 (add_nodes pb found.2 [node] after))
              slot ins1 node1
      end
  end.

(** The outer loop [while (sol->unrouted)]: the value returned and the
    solution. *)
Fixpoint solve_solomon_loop (fuel : nat) (pb : Problem) (depot : Node)
    (sol : Solution) (workers fleetsize : Z) (ins : Insertion_buf)
    (ins_node : option nat) : option (Z * Solution) :=
  match fuel with
  | O => None
  | S fuel' =>
      match s_unrouted sol with
      | [] => Some (0, sol)
      | _ :: _ =>
          if s_trucks sol =? fleetsize then Some (s_num_unrouted sol, sol)
          else
            seed_pos ← get_best_seed (s_unrouted sol) (pb_c_m pb 0);
            seed ← s_unrouted sol !! seed_pos;
            made ← new_route pb depot (remove_unrouted sol seed_pos) seed
                     workers;
            filled ← solve_solomon_fill fuel' pb made.1 made.2 ins ins_node;
            solve_solomon_loop fuel' pb depot filled.1.1 workers fleetsize
              filled.1.2 filled.2
      end
  end.

(** [int solve_solomon(Solution* sol, int workers, int fleetsize)]. *)
Definition solve_solomon (fuel : nat) (pb : Problem) (depot : Node)
    (sol : Solution) (workers fleetsize : Z) : option (Z * Solution) :=
  solve_solomon_loop fuel pb depot sol workers fleetsize
    {| b_target := None; b_node := None; b_after := None; b_cost := PosInf;
       b_attractiveness := Fin 0 |} None.

(** The route of a solution in slot [j] has the id [j], as [new_route]
    numbers them. *)
Definition ids_are_slots (sol : Solution) : Prop :=
  forall (j : nat) (r : Route), route_at sol j = Some r -> r_id r = j.

(** What the record of [solve_solomon] holds after a scan of the chain
    [unrouted] that found a position in [route]. *)
Definition found_insertion (pb : Problem) (route : Route)
    (unrouted : list Node) (ins : Insertion_buf) (ins_node : option nat)
  : Prop :=
  exists (pos p : nat) (node after next : Node) (cost : Q),
    ins_node = Some pos /\ unrouted !! pos = Some node /\
    b_target ins = Some (r_id route) /\ b_after ins = Some p /\
    b_cost ins = Fin cost /\
    r_nodes route !! p = Some after /\ r_nodes route !! S p = Some next /\
    insertion_test pb route node after next = true.

(** ** Emptying a route (local_search.c) *)

(** The loop [for (j = 0; j < sol->trucks; ++j)] of [empty_route] over the
    slots [js]: the record after the calls of [calc_best_insertion] for the
    node [n]; a slot without route is a NULL pointer followed. *)
Fixpoint empty_route_scan (pb : Problem) (sol : Solution) (route_idx : nat)
    (n : Node) (js : list nat) (ins : Insertion_buf)
  : option Insertion_buf :=
  match js with
  | [] => Some ins
  | j :: rest =>
      if Nat.eqb j route_idx then
        empty_route_scan pb sol route_idx n rest ins
      else
        route ← route_at sol j;
        empty_route_scan pb sol route_idx n rest
          (calc_best_insertion pb route n ins).2
  end.

(** The loop [while (n != source->tail)] of [empty_route]: [n] is the node
    behind the opening depot of the source, since the nodes before it have
    left the route. *)
Fixpoint empty_route_loop (fuel : nat) (pb : Problem) (sol : Solution)
    (route_idx : nat) : option (Z * Solution) :=
  match fuel with
  | O => None
  | S fuel' =>
      source ← route_at sol route_idx;
      match r_nodes source with
      | _ :: n :: _ :: _ =>
          ins ← empty_route_scan pb sol route_idx n
                  (seq 0 (Z.to_nat (s_trucks sol)))
                  {| b_target := None; b_node := Some n; b_after := None;
                     b_cost := PosInf; b_attractiveness := Fin 0 |};
          if isinf (b_cost ins) then Some (0, sol)
          else
            let sol1 :=
              store_route sol route_idx (remove_nodes pb source 1 1) in
            target_id ← b_target ins;
            after ← b_after ins;
            found ← lookup_route sol1 target_id;
            let sol2 :=
              store_route sol1 found.1 (add_nodes pb found.2 [n] after) in
            source' ← route_at sol2 route_idx;
            if r_len source' =? EMPTY then Some (1, sol2)
            else empty_route_loop fuel' pb sol2 route_idx
      | [_; _] => Some (0, sol)
      | _ => None
      end
  end.

(** [static int empty_route(Solution* sol, int route_idx)]: the value
    returned and the solution; [None] when the fuel runs out or a NULL
    pointer is followed. *)
Definition empty_route (fuel : nat) (pb : Problem) (sol : Solution)
    (route_idx : nat) : option (Z * Solution) :=
  source ← route_at sol route_idx;
  match r_nodes source with
  | [] => None
  | _ :: _ =>
      if r_len source =? EMPTY then Some (1, sol)
      else empty_route_loop fuel pb sol route_idx
  end.

(** What the record of [empty_route] holds after a scan that found a
    position for the node [n] in a route other than the one in slot
    [route_idx]. *)
Definition found_target (pb : Problem) (sol : Solution) (route_idx : nat)
    (n : Node) (ins : Insertion_buf) : Prop :=
  exists (j p : nat) (target : Route) (after next : Node) (cost : Q),
    j <> route_idx /\ route_at sol j = Some target /\
    b_target ins = Some (r_id target) /\ b_after ins = Some p /\
    b_cost ins = Fin cost /\
    r_nodes target !! p = Some after /\ r_nodes target !! S p = Some next /\
    insertion_test pb target n after next = true.

(** ** Distributing the nodes of a route (vns.c) *)

(** The loop [while (n != source->tail)] of [distribute_nodes]: [pos] is
    the position of [n] in the source, [old_len] the [len] the source had
    at the call.  The loop over the routes is the one of [empty_route];
    a node without position goes on to the next node, which stands at
    [pos] once [n] has left the route. *)
Fixpoint distribute_nodes_loop (fuel : nat) (pb : Problem) (sol : Solution)
    (route_idx pos : nat) (old_len : Z) : outcome Z :=
  match fuel with
  | O => Undefined
  | S fuel' =>
      match route_at sol route_idx with
      | None => Undefined
      | Some source =>
          if Nat.eqb (S pos) (length (r_nodes source)) then
            Returns sol (old_len - r_len source)
          else
            match r_nodes source !! pos with
            | None => Undefined
            | Some n =>
                match empty_route_scan pb sol route_idx n
                        (seq 0 (Z.to_nat (s_trucks sol)))
                        {| b_target := None; b_node := Some n;
                           b_after := None; b_cost := PosInf;
                           b_attractiveness := Fin 0 |} with
                | None => Undefined
                | Some ins =>
                    if isinf (b_cost ins) then
                      distribute_nodes_loop fuel' pb sol route_idx (S pos)
                        old_len
                    else
                      let sol1 :=
                        store_route sol route_idx
                          (remove_nodes pb source pos pos) in
                      match b_target ins, b_after ins with
                      | Some target_id, Some after =>
                          match lookup_route sol1 target_id with
                          | None => Undefined
                          | Some (ti, target) =>
                              let sol2 :=
                                store_route sol1 ti
                                  (add_nodes pb target [n] after) in
                              match route_at sol2 route_idx with
                              | None => Undefined
                              | Some source' =>
                                  if r_len source' =? EMPTY then
                                    match remove_route sol2 route_idx with
                                    | Returns sol3 _ =>
                                        Returns sol3 (old_len - EMPTY)
                                    | Exits sol3 => Exits sol3
                                    | Undefined => Undefined
                                    end
                                  else
                                    distribute_nodes_loop fuel' pb sol2
                                      route_idx pos old_len
                              end
                          end
                      | _, _ => Undefined
                      end
                end
            end
      end
  end.

(** [static int distribute_nodes(Solution* sol, int route_idx)]. *)
Definition distribute_nodes (fuel : nat) (pb : Problem) (sol : Solution)
    (route_idx : nat) : outcome Z :=
  match route_at sol route_idx with
  | None => Undefined
  | Some source =>
      match r_nodes source with
      | [] => Undefined
      | _ :: _ =>
          if r_len source =? EMPTY then Returns sol 0
          else distribute_nodes_loop fuel pb sol route_idx 1 (r_len source)
      end
  end.

(** ** The objective of a solution *)

(** Sums over the routes of a solution. *)
Definition sumZ (f : Route -> Z) (l : list Route) : Z :=
  foldr (fun r acc => f r + acc) 0 l.

(** The workers and the distance of all routes. *)
Definition total_workers (sol : Solution) : Z :=
  sumZ r_workers (live_routes sol).

(** ** The same code in the arithmetic of the machine *)

(** The statements about the insertion test, the comparator of moves and
    the hash of the cache depend on how sums, differences and products are
    rounded.  For them the code is embedded once more with [double] as
    IEEE 754 binary64 and [long double] as the 80-bit extended format of
    x86-64, both with rounding to nearest, ties to even. *)
Module Double.

Definition double : Type := spec_float.

Definition prec : Z := 53.
Definition emax : Z := 1024.

(** [x + y], [x - y], [x * y] and [x / y] on [double]. *)
Definition add (x y : double) : double := SFadd prec emax x y.
Definition sub (x y : double) : double := SFsub prec emax x y.
Definition mul (x y : double) : double := SFmul prec emax x y.
Definition div (x y : double) : double := SFdiv prec emax x y.

(** [x <= y] and [x < y]; [x >= y] is [le y x] and [x > y] is [lt y x].  A
    comparison with NaN is false. *)
Definition le (x y : double) : bool := SFleb x y.
Definition lt (x y : double) : bool := SFltb x y.

(** The conversion of an integer to [double]. *)
Definition of_Z (z : Z) : double := binary_normalize prec emax z 0 false.

(** The decimal constant [num / 10^digits], as the compiler rounds it. *)
Definition of_decimal (num : Z) (digits : Z) : double :=
  div (of_Z num) (of_Z (10 ^ digits)).

Definition is_nan (x : double) : bool :=
  match x with S754_nan => true | _ => false end.

Definition is_finite (x : double) : bool :=
  match x with S754_zero _ | S754_finite _ _ _ => true | _ => false end.

(** The rational number a finite value stands for. *)
Definition value (x : spec_float) : Q :=
  match x with
  | S754_finite s m e =>
      let z := cond_Zopp s (Z.pos m) in
      if 0 <=? e then inject_Z (z * 2 ^ e)
      else Qmake z (2 ^ Z.to_pos (- e))
  | _ => 0%Q
  end.

(** common.h: [static const double MIN_DELTA = 1e-13]. *)
Definition MIN_DELTA : double := Eval vm_compute in of_decimal 1 13.

(** common.h: [static inline double max(double x, double y)
    { return x > y ? x : y; }]. *)
Definition max (x y : double) : double := if lt y x then x else y.

(** [fmin] of math.h: the smaller number, a NaN counting as missing. *)
Definition fmin (x y : double) : double :=
  if is_nan x then y else if is_nan y then x
  else if lt y x then y else x.

(** node.h: [struct node]. *)
Record Node := mkNode {
  n_id : nat;
  n_x : double;
  n_y : double;
  n_demand : double;
  n_est : double;
  n_lst : double;
  n_service_time : double;
  n_aest : double;
  n_alst : double;
  n_aest_cache : double;
  n_alst_cache : double
}.

(** problemreader.h: [struct problem], the fields read here: the capacity
    (an [unsigned int]), the cost matrices and the number of nodes. *)
Record Problem := mkProblem {
  pb_capacity : Z;
  pb_c_m : Z -> nat -> nat -> double;
  pb_num_nodes : Z
}.

(** route.h: [struct route]. *)
Record Route := mkRoute {
  r_id : nat;
  r_depot_id : nat;
  r_nodes : list Node;
  r_len : Z;
  r_load : double;
  r_workers : Z
}.

(** local_search.h: [struct move]. *)
Record Move := mkMove {
  m_source : option nat;
  m_target : option nat;
  m_first : option nat;
  m_last : option nat;
  m_after : option nat;
  m_delta_trucks : Z;
  m_delta_workers : Z;
  m_delta_dist : double;
  m_improving : bool
}.

(** solution.h: [struct solution]. *)
Record Solution := mkSolution {
  s_routes : list (option Route);
  s_trucks : Z;
  s_unrouted : list Node;
  s_num_unrouted : Z;
  s_time : Z;
  s_saturation_time : Z;
  s_workers_cache : Z;
  s_dist_cache : double;
  s_cost_cache : double
}.

(** route.h: [can_insert_one(route, n, pred)], with [succ] standing for
    [pred->next]. *)
Definition can_insert_one (pb : Problem) (route : Route) (n pred succ : Node)
  : bool :=
  let c_m := pb_c_m pb (r_workers route) in
  let earliest_arrival := add (n_aest pred) (c_m (n_id pred) (n_id n)) in
  let latest_arrival := sub (n_alst succ) (c_m (n_id n) (n_id succ)) in
  le earliest_arrival (n_lst n) && le (n_est n) latest_arrival &&
  le earliest_arrival latest_arrival.

(** The guard that opens [calc_best_insertion]:
    [if (pb->capacity < route->load + node->demand) return 0]. *)
Definition exceeds_capacity (pb : Problem) (route : Route) (n : Node) : bool :=
  lt (of_Z (pb_capacity pb)) (add (r_load route) (n_demand n)).

(** The test a position has to pass before [calc_best_insertion] computes
    its cost: the capacity guard did not return and [can_insert_one] holds. *)
Definition insertion_test (pb : Problem) (route : Route) (n pred succ : Node)
  : bool :=
  negb (exceeds_capacity pb route n) && can_insert_one pb route n pred succ.

(** local_search.c: [int delta_is_higher(Move* m, int d_trucks,
    int d_workers, double d_dist)]. *)
Definition delta_is_higher (m : Move) (d_trucks d_workers : Z)
    (d_dist : double) : bool :=
  if negb (d_trucks =? 0) && (m_delta_trucks m =? 0) then true
  else if d_trucks =? m_delta_trucks m then
    if m_delta_workers m <? d_workers then true
    else if (d_workers =? m_delta_workers m) &&
            lt (m_delta_dist m) (sub d_dist MIN_DELTA) then true
    else false
  else false.

(** The order the specification names, the difference [x - MIN_DELTA]
    being the one the machine computes. *)
Definition lex_higher (t w : Z) (x : double) (t' w' : Z) (x' : double)
  : Prop :=
  t' < t \/
  (t = t' /\
   (w' < w \/ (w = w' /\ lt x' (sub x MIN_DELTA) = true))).

(** The same order with the difference taken exactly. *)
Definition lex_higher_exact (t w : Z) (x : double) (t' w' : Z) (x' : double)
  : Prop :=
  t' < t \/
  (t = t' /\
   (w' < w \/ (w = w' /\ (value x' < value x - (1 # 10 ^ 13))%Q))).

(** [long double]: 64 bits of mantissa. *)
Definition ld_prec : Z := 64.
Definition ld_emax : Z := 16384.

(** The conversion of an [unsigned long] and the product on
    [long double]; a [double] is a [long double] as it stands. *)
Definition ld_of_unsigned_long (z : Z) : spec_float :=
  binary_normalize ld_prec ld_emax z 0 false.
Definition ld_mul (x y : spec_float) : spec_float :=
  SFmul ld_prec ld_emax x y.

(** [static_cast<unsigned long int>(x)]: the fraction is discarded; the
    conversion is undefined when the result does not fit. *)
Definition to_unsigned_long (x : spec_float) : option Z :=
  match x with
  | S754_zero _ => Some 0
  | S754_finite s m e =>
      let t := if 0 <=? e then Z.pos m * 2 ^ e else Z.shiftr (Z.pos m) (- e) in
      let z := cond_Zopp s t in
      if (0 <=? z) && (z <=? u64_max) then Some z else None
  | _ => None
  end.

(** cache.hpp: [class Cache], the map from hash values to counters and
    the factor. *)
Record Cache := mkCache {
  m_cache : gmap Z Z;
  m_factor : Z
}.

(** [Cache::Cache(const Problem& pb)]:
    [m_factor = numeric_limits<unsigned long>::max() / pb.num_nodes], the
    [int] converted to [unsigned long] first.  The division has no defined
    result for [num_nodes = 0]; the statements are about [num_nodes > 0]. *)
Definition Cache_new (pb : Problem) : Cache :=
  {| m_cache := ∅; m_factor := u64_max / wrap64 (pb_num_nodes pb) |}.

(** [unsigned long int Cache::hash(const Solution& s) const]:
    [long double cost(s.cost_cache)] and
    [static_cast<unsigned long int>(cost * m_factor)]. *)
Definition Cache_hash (c : Cache) (s : Solution) : option Z :=
  let cost := s_cost_cache s in
  to_unsigned_long (ld_mul cost (ld_of_unsigned_long (m_factor c))).

(** [void Cache::add(const Solution& s)]. *)
Definition Cache_add (c : Cache) (s : Solution) : option Cache :=
  h ← Cache_hash c s;
  Some {| m_cache := <[h := 1]> (m_cache c); m_factor := m_factor c |}.

(** [unsigned long int Cache::contains(const Solution& s)]: the value
    returned and the cache afterwards. *)
Definition Cache_contains (c : Cache) (s : Solution) : option (Z * Cache) :=
  hash_value ← Cache_hash c s;
  match m_cache c !! hash_value with
  | Some n =>
      let n' := wrap64 (n + 1) in
      Some (n', {| m_cache := <[hash_value := n']> (m_cache c);
                   m_factor := m_factor c |})
  | None => Some (0, c)
  end.

End Double.

(** ** The feasibility of an insertion, as the specification words it *)

(** Section 4.1 with the sums and differences the machine computes. *)
Definition insertion_feasible (pb : Double.Problem) (r : Double.Route)
    (k p succ : Double.Node) : Prop :=
  let tau := Double.pb_c_m pb (Double.r_workers r) in
  let arrival :=
    Double.add (Double.n_aest p) (tau (Double.n_id p) (Double.n_id k)) in
  let departure :=
    Double.sub (Double.n_alst succ)
               (tau (Double.n_id k) (Double.n_id succ)) in
  Double.le (Double.max arrival (Double.n_est k)) (Double.n_lst k) = true /\
  Double.le (Double.n_est k) departure = true /\
  Double.le arrival departure = true /\
  Double.le (Double.add (Double.r_load r) (Double.n_demand k))
            (Double.of_Z (Double.pb_capacity pb)) = true.

(** Section 4.1 with exact sums and differences of the numbers stored. *)
Definition insertion_feasible_exact (pb : Double.Problem) (r : Double.Route)
    (k p succ : Double.Node) : Prop :=
  let tau i j := Double.value (Double.pb_c_m pb (Double.r_workers r) i j) in
  let arrival :=
    (Double.value (Double.n_aest p) +
     tau (Double.n_id p) (Double.n_id k))%Q in
  let departure :=
    (Double.value (Double.n_alst succ) -
     tau (Double.n_id k) (Double.n_id succ))%Q in
  (Common.max arrival (Double.value (Double.n_est k)) <=
   Double.value (Double.n_lst k))%Q /\
  (departure >= Double.value (Double.n_est k))%Q /\
  (arrival <= departure)%Q /\
  (Double.value (Double.r_load r) + Double.value (Double.n_demand k) <=
   inject_Z (Double.pb_capacity pb))%Q.

(** ** A small instance in machine numbers *)

(** Travel and service times: 0.05 between the depot and customer 1, 0.4
    between customer 2 and the others. *)
Definition dex_c_m (w : Z) (i j : nat) : Double.double :=
  match i, j with
  | 0%nat, 1%nat | 1%nat, 0%nat => Double.of_decimal 5 2
  | 0%nat, 2%nat | 2%nat, 0%nat | 1%nat, 2%nat | 2%nat, 1%nat =>
      Double.of_decimal 4 1
  | _, _ => Double.of_Z 0
  end.

Definition dex_pb : Double.Problem :=
  {| Double.pb_capacity := 10; Double.pb_c_m := dex_c_m;
     Double.pb_num_nodes := 3 |}.

Definition dex_node (id : nat) (demand est lst aest alst : Double.double)
  : Double.Node :=
  {| Double.n_id := id; Double.n_x := Double.of_Z 0;
     Double.n_y := Double.of_Z 0; Double.n_demand := demand;
     Double.n_est := est; Double.n_lst := lst;
     Double.n_service_time := Double.of_Z 0;
     Double.n_aest := aest; Double.n_alst := alst;
     Double.n_aest_cache := Double.of_Z 0;
     Double.n_alst_cache := Double.of_Z 0 |}.

(** The route depot, 1, depot with one worker: customer 1 has the window
    [0.1, 10], the depot [0, 1000]; the start times are those the
    propagation gives. *)
Definition dex_depot : Double.Node :=
  dex_node 0 (Double.of_Z 0) (Double.of_Z 0) (Double.of_Z 1000)
    (Double.of_Z 0)
    (Double.sub (Double.of_Z 10) (Double.of_decimal 5 2)).

Definition dex_node1 : Double.Node :=
  dex_node 1 (Double.of_Z 1) (Double.of_decimal 1 1) (Double.of_Z 10)
    (Double.of_decimal 1 1) (Double.of_Z 10).

Definition dex_depot_end : Double.Node :=
  dex_node 0 (Double.of_Z 0) (Double.of_Z 0) (Double.of_Z 1000)
    (Double.add (Double.of_decimal 1 1) (Double.of_decimal 5 2))
    (Double.of_Z 1000).

(** Customer 2, with the window [0, 0.5]. *)
Definition dex_node2 : Double.Node :=
  dex_node 2 (Double.of_Z 1) (Double.of_Z 0) (Double.of_decimal 5 1)
    (Double.of_Z 0) (Double.of_Z 0).

Definition dex_route : Double.Route :=
  {| Double.r_id := 0; Double.r_depot_id := 3;
     Double.r_nodes := [dex_depot; dex_node1; dex_depot_end];
     Double.r_len := 3; Double.r_load := Double.of_Z 1;
     Double.r_workers := 1 |}.

(** A solution that costs 1.75 and one that costs 2.5. *)
Definition dex_solution (cost : Double.double) : Double.Solution :=
  {| Double.s_routes := []; Double.s_trucks := 0; Double.s_unrouted := [];
     Double.s_num_unrouted := 0; Double.s_time := 0;
     Double.s_saturation_time := 0; Double.s_workers_cache := 0;
     Double.s_dist_cache := Double.of_Z 0; Double.s_cost_cache := cost |}.

Definition dex_cache : Double.Cache :=
  {| Double.m_cache := ∅;
     Double.m_factor := Double.m_factor (Double.Cache_new dex_pb) |}.

(** A route with both depots whose [len] counts the nodes of its chain. *)
Definition len_counts (r : Route) : Prop :=
  (2 <= length (r_nodes r))%nat /\
  r_len r = Z.of_nat (length (r_nodes r)).

(** What the construction keeps: the routes have their slots as ids, no
    unrouted node is nearer to the depot than distance 0, the array has a
    slot for each unrouted node and [num_unrouted] counts them. *)
Definition building (pb : Problem) (sol : Solution) : Prop :=
  solution_wf sol /\ ids_are_slots sol /\
  Forall (fun n : Node => (0 <= pb_c_m pb 0 0%nat (n_id n))%Q)
         (s_unrouted sol) /\
  (Z.to_nat (s_trucks sol) + length (s_unrouted sol)
   <= length (s_routes sol))%nat /\
  s_num_unrouted sol = Z.of_nat (length (s_unrouted sol)).

(** * Properties *)

(** ** Comparisons on rationals *)

Lemma Qleb_le x y : Qleb x y = true <-> (x <= y)%Q.
Proof. unfold Qleb. apply Qle_bool_iff. Qed.

Lemma Qltb_lt x y : Qltb x y = true <-> (x < y)%Q.
Proof.
  unfold Qltb. rewrite negb_true_iff, <- not_true_iff_false, Qle_bool_iff.
  split; [apply Qnot_le_lt | apply Qlt_not_le].
Qed.

Lemma Qltb_ge x y : Qltb x y = false <-> (y <= x)%Q.
Proof.
  unfold Qltb. rewrite negb_false_iff. apply Qle_bool_iff.
Qed.

Lemma max_ge_r x y : (y <= Common.max x y)%Q.
Proof.
  unfold Common.max. destruct (Qltb y x) eqn:E; [| lra].
  apply Qltb_lt in E. lra.
Qed.

(** ** Comparisons and sums of floating-point numbers *)

Ltac float_cases :=
  unfold Double.le, Double.lt, SFleb, SFltb, SFcompare;
  repeat match goal with
  | x : Double.double |- _ => destruct x as [[|] | [|] | | [|] ? ?]
  | x : spec_float |- _ => destruct x as [[|] | [|] | | [|] ? ?]
  end;
  cbn; intros; try discriminate; try reflexivity; try tauto;
  repeat match goal with
  | H : context [Pos.compare_cont Eq ?a ?b] |- _ =>
      change (Pos.compare_cont Eq a b) with (Pos.compare a b) in H
  | |- context [Pos.compare_cont Eq ?a ?b] =>
      change (Pos.compare_cont Eq a b) with (Pos.compare a b)
  end;
  repeat match goal with
  | H : context [Z.compare ?a ?b] |- _ =>
      destruct (Z.compare_spec a b); subst; cbn in *
  | |- context [Z.compare ?a ?b] =>
      destruct (Z.compare_spec a b); subst; cbn in *
  | H : context [Pos.compare ?a ?b] |- _ =>
      destruct (Pos.compare_spec a b); subst; cbn in *
  | |- context [Pos.compare ?a ?b] =>
      destruct (Pos.compare_spec a b); subst; cbn in *
  end;
  try discriminate; try reflexivity; try tauto; try lia.

Lemma double_le_trans (x y z : Double.double) :
  Double.le x y = true -> Double.le y z = true -> Double.le x z = true.
Proof. float_cases. Qed.

Lemma double_lt_false_le (x y : Double.double) :
  Double.is_nan x = false -> Double.is_nan y = false ->
  Double.lt y x = false -> Double.le x y = true.
Proof. float_cases. Qed.

Lemma double_le_lt_false (x y : Double.double) :
  Double.le x y = true -> Double.lt y x = false.
Proof. float_cases. Qed.

Lemma double_le_not_nan (x y : Double.double) :
  Double.le x y = true ->
  Double.is_nan x = false /\ Double.is_nan y = false.
Proof. float_cases. Qed.

Lemma shr_1_nonneg (mrs : shr_record) :
  0 <= shr_m mrs -> 0 <= shr_m (shr_1 mrs).
Proof.
  destruct mrs as [m r s]. simpl.
  destruct m as [| [p | p |] | [p | p |]]; simpl; lia.
Qed.

Lemma iter_pos_shr_1_nonneg (p : positive) :
  forall mrs : shr_record,
    0 <= shr_m mrs -> 0 <= shr_m (SpecFloat.iter_pos shr_1 p mrs).
Proof.
  induction p as [p IH | p IH |]; intros mrs H; simpl.
  - apply IH, IH, shr_1_nonneg, H.
  - apply IH, IH, H.
  - apply shr_1_nonneg, H.
Qed.

Lemma shr_fexp_nonneg (prec emax m e : Z) (l : location) :
  0 <= m -> 0 <= shr_m (fst (shr_fexp prec emax m e l)).
Proof.
  intros H. unfold shr_fexp, shr.
  assert (H0 : 0 <= shr_m (shr_record_of_loc m l))
    by (destruct l as [| []]; exact H).
  destruct (fexp prec emax (Zdigits2 m + e) - e) as [| p | p]; simpl;
    [exact H0 | | exact H0].
  apply iter_pos_shr_1_nonneg, H0.
Qed.

Lemma round_nearest_even_nonneg (m : Z) (l : location) :
  0 <= m -> 0 <= round_nearest_even m l.
Proof.
  intros H. unfold round_nearest_even.
  destruct l as [| []]; [done | | done | lia].
  destruct (Z.even m); lia.
Qed.

Lemma binary_round_aux_not_nan (prec emax : Z) (sx : bool) (mx e : Z)
    (lx : location) :
  0 <= mx ->
  Double.is_nan (binary_round_aux prec emax sx mx e lx) = false.
Proof.
  intros H. unfold binary_round_aux.
  pose proof (shr_fexp_nonneg prec emax mx e lx H) as H1.
  destruct (shr_fexp prec emax mx e lx) as [mrs' e']. simpl in H1.
  pose proof (shr_fexp_nonneg prec emax
                (round_nearest_even (shr_m mrs') (loc_of_shr_record mrs'))
                e' loc_Exact (round_nearest_even_nonneg _ _ H1)) as H2.
  destruct (shr_fexp prec emax _ e' loc_Exact) as [mrs'' e'']. simpl in H2.
  destruct (shr_m mrs'') as [| m | m]; [done | | lia].
  by destruct (e'' <=? emax - prec).
Qed.

Lemma binary_normalize_not_nan (prec emax m e : Z) (szero : bool) :
  Double.is_nan (binary_normalize prec emax m e szero) = false.
Proof.
  unfold binary_normalize, binary_round.
  destruct m as [| p | p]; [done | |];
    destruct (shl_align p e _) as [mz ez];
    by apply binary_round_aux_not_nan.
Qed.

Lemma double_add_not_nan (x y : Double.double) :
  Double.is_finite x = true -> Double.is_finite y = true ->
  Double.is_nan (Double.add x y) = false.
Proof.
  intros Hx Hy. unfold Double.add, SFadd.
  destruct x as [sx | sx | | sx mx e1]; try done;
    destruct y as [sy | sy | | sy my e2]; try done.
  - by destruct sx, sy.
  - apply binary_normalize_not_nan.
Qed.

(** ** C1: the single-node insertion test *)

(** C1 (as amended).  For a route [r] with a finite load, adjacent nodes
    [p] and [succ = p.next] of it and a node [k] with a finite demand and
    [est k <= lst k], the test made before a position is costed (capacity
    guard and [can_insert_one]) succeeds exactly when
    [max(aest p + tau(p,k), est k) <= lst k],
    [alst succ - tau(k,succ) >= est k],
    [aest p + tau(p,k) <= alst succ - tau(k,succ)] and
    [load + demand k <= capacity], each sum and difference being the
    [double] the machine computes. *)
Theorem insertion_test_rounded (pb : Double.Problem) (r : Double.Route)
    (k p succ : Double.Node) (pos : nat) :
  Double.r_nodes r !! pos = Some p ->
  Double.r_nodes r !! S pos = Some succ ->
  Double.le (Double.n_est k) (Double.n_lst k) = true ->
  Double.is_finite (Double.r_load r) = true ->
  Double.is_finite (Double.n_demand k) = true ->
  Double.insertion_test pb r k p succ = true <->
  insertion_feasible pb r k p succ.
Proof.
  intros _ _ Hwin Hload Hdemand.
  unfold Double.insertion_test, Double.exceeds_capacity,
    Double.can_insert_one, insertion_feasible.
  set (tau := Double.pb_c_m pb (Double.r_workers r)).
  set (arrival := Double.add (Double.n_aest p) _).
  set (departure := Double.sub (Double.n_alst succ) _).
  set (total := Double.add (Double.r_load r) (Double.n_demand k)).
  assert (Htotal : Double.is_nan total = false)
    by (by apply double_add_not_nan).
  assert (Hcap : Double.is_nan (Double.of_Z (Double.pb_capacity pb)) = false)
    by apply binary_normalize_not_nan.
  rewrite !andb_true_iff, negb_true_iff.
  split.
  - intros (Hguard & (Ha & Hd) & Had).
    split; [| split; [done |]; split; [done |]].
    + unfold Double.max.
      by destruct (Double.lt (Double.n_est k) arrival).
    + by apply double_lt_false_le.
  - intros (Hmax & Hd & Had & Hguard).
    split; [by apply double_le_lt_false |].
    split; [split; [| done] | done].
    unfold Double.max in Hmax.
    destruct (Double.lt (Double.n_est k) arrival) eqn:E; [done |].
    apply (double_le_trans _ (Double.n_est k)); [| done].
    apply double_lt_false_le; [| | done].
    + by apply double_le_not_nan in Had as [? _].
    + by apply double_le_not_nan in Hwin as [? _].
Qed.

Lemma insertion_test_rounded_witness :
  Double.insertion_test dex_pb dex_route dex_node2 dex_node1 dex_depot_end
  = true <->
  insertion_feasible dex_pb dex_route dex_node2 dex_node1 dex_depot_end.
Proof.
  apply (insertion_test_rounded dex_pb dex_route dex_node2 dex_node1
           dex_depot_end 1).
  - reflexivity.
  - reflexivity.
  - vm_compute. reflexivity.
  - reflexivity.
  - reflexivity.
Defined.

(** C1, as stated with exact sums, fails.  On the route depot, 1, depot,
    which meets the invariants of the data model (customer 1 starts at
    [max(est, aest(depot) + tau) = 0.1] and at the latest at
    [min(lst, alst(depot) - tau) = 10], its demand is the load), customer 2
    with the window [0, 0.5] passes the test behind customer 1: the machine
    adds 0.1 and 0.4 to 0.5.  The numbers stored for 0.1 and 0.4 add up to
    more than 0.5, so the first condition of the claim does not hold of
    them. *)
Lemma insertion_test_exact_sum_fails :
  let tau := Double.pb_c_m dex_pb (Double.r_workers dex_route) in
  Double.r_nodes dex_route = [dex_depot; dex_node1; dex_depot_end] /\
  Double.n_aest dex_node1
  = Double.max (Double.n_est dex_node1)
               (Double.add (Double.n_aest dex_depot) (tau 0 1)%nat) /\
  Double.n_alst dex_node1
  = Double.fmin (Double.n_lst dex_node1)
                (Double.sub (Double.n_alst dex_depot_end) (tau 1 0)%nat) /\
  Double.le (Double.n_aest dex_node1) (Double.n_lst dex_node1) = true /\
  Double.r_load dex_route = Double.n_demand dex_node1 /\
  Double.le (Double.r_load dex_route)
            (Double.of_Z (Double.pb_capacity dex_pb)) = true /\
  Double.le (Double.n_est dex_node2) (Double.n_lst dex_node2) = true /\
  Double.insertion_test dex_pb dex_route dex_node2 dex_node1 dex_depot_end
  = true /\
  ~ insertion_feasible_exact dex_pb dex_route dex_node2 dex_node1
      dex_depot_end.
Proof.
  repeat split; try (vm_compute; reflexivity).
  intros (H & _). vm_compute in H. by apply H.
Qed.

(** ** C3: the hierarchical comparator *)

(** C3 (as amended).  With both truck deltas in {0,1}, [delta_is_higher]
    answers 1 exactly when the candidate triple is lexicographically above
    the incumbent's, the distance counting as greater when the [double]
    that the machine computes for [d_dist - MIN_DELTA] is greater than the
    incumbent's distance. *)
Theorem delta_is_higher_lex_rounded (m : Double.Move)
    (d_trucks d_workers : Z) (d_dist : Double.double) :
  Double.m_delta_trucks m = 0 \/ Double.m_delta_trucks m = 1 ->
  d_trucks = 0 \/ d_trucks = 1 ->
  Double.delta_is_higher m d_trucks d_workers d_dist = true <->
  Double.lex_higher d_trucks d_workers d_dist
    (Double.m_delta_trucks m) (Double.m_delta_workers m)
    (Double.m_delta_dist m).
Proof.
  intros Hm Hd. unfold Double.delta_is_higher, Double.lex_higher.
  destruct (negb (d_trucks =? 0) && (Double.m_delta_trucks m =? 0)) eqn:E1.
  - apply andb_true_iff in E1 as [E1 E2].
    apply negb_true_iff, Z.eqb_neq in E1. apply Z.eqb_eq in E2.
    split; [intros _; left; lia | reflexivity].
  - destruct (d_trucks =? Double.m_delta_trucks m) eqn:E2.
    + apply Z.eqb_eq in E2.
      destruct (Double.m_delta_workers m <? d_workers) eqn:E3.
      * apply Z.ltb_lt in E3. split; [intros _; right; auto | reflexivity].
      * apply Z.ltb_ge in E3.
        destruct ((d_workers =? Double.m_delta_workers m) &&
                  Double.lt (Double.m_delta_dist m)
                            (Double.sub d_dist Double.MIN_DELTA)) eqn:E4.
        -- apply andb_true_iff in E4 as [E4 E5]. apply Z.eqb_eq in E4.
           split; [intros _; right; auto | reflexivity].
        -- split; [discriminate |].
           intros [H | [_ [H | [H1 H2]]]]; try lia.
           apply andb_false_iff in E4 as [E4 | E4].
           ++ apply Z.eqb_neq in E4. lia.
           ++ congruence.
    + apply Z.eqb_neq in E2. split; [discriminate |].
      intros [H | [H _]]; [| lia].
      apply andb_false_iff in E1 as [E1 | E1].
      * apply negb_false_iff, Z.eqb_eq in E1. lia.
      * apply Z.eqb_neq in E1. lia.
Qed.

Lemma delta_is_higher_lex_rounded_witness :
  Double.delta_is_higher
    (Double.mkMove None None None None None 0 2 (Double.of_decimal 5 1) true)
    1 1 (Double.of_Z 0) = true <->
  Double.lex_higher 1 1 (Double.of_Z 0) 0 2 (Double.of_decimal 5 1).
Proof.
  apply (delta_is_higher_lex_rounded
           (Double.mkMove None None None None None 0 2
              (Double.of_decimal 5 1) true) 1 1 (Double.of_Z 0)).
  - left. reflexivity.
  - right. reflexivity.
Defined.

(** C3, as stated with the exact difference, fails.  Against an incumbent
    that saves no truck, no worker and the distance 600, a candidate that
    saves no truck, no worker and the next [double] above 600, which is
    [600 + 2^-43], is beyond the tolerance: [2^-43] is more than [1e-13],
    as a decimal number and as the constant stored.  The machine rounds
    the difference to 600 and [delta_is_higher] answers 0. *)
Lemma delta_is_higher_exact_difference_fails :
  let incumbent :=
    Double.mkMove None None None None None 0 0 (Double.of_Z 600) true in
  let d_dist := Double.add (Double.of_Z 600) (S754_finite false 1 (-43)) in
  Double.value d_dist == 600 + (1 # 2 ^ 43) /\
  Double.sub d_dist Double.MIN_DELTA = Double.of_Z 600 /\
  Double.delta_is_higher incumbent 0 0 d_dist = false /\
  Double.lex_higher_exact 0 0 d_dist 0 0 (Double.of_Z 600) /\
  (Double.value (Double.of_Z 600)
   < Double.value d_dist - Double.value Double.MIN_DELTA)%Q.
Proof.
  repeat split; try (vm_compute; reflexivity).
  right. split; [reflexivity |]. right. split; [reflexivity |].
  vm_compute. reflexivity.
Qed.

(** ** C2: the record returned by [get_best_insertion] *)

(** C2.  On the route depot, 1, depot with [alpha = 1/2], [mu = 1] and
    [lambda = 1], the best insertion of node 2 is after the opening depot;
    the specified cost there is 6 (distance term 3/2, time term 9/2), the
    cost stored is 9/2: the assignment in the [alpha2] branch replaces the
    distance term instead of adding to it.  The attractiveness stored,
    [lambda d(0,2) - 9/2 = 1/2], is computed from that cost. *)
Theorem get_best_insertion_cost_drops_distance :
  exists ins : Insertion,
    get_best_insertion ex_pb ex_route ex_node2 = Some ins /\
    i_after ins = 0%nat /\
    (i_cost ins == 9 # 2)%Q /\
    (i_attractiveness ins == 1 # 2)%Q /\
    (spec_c1 ex_pb ex_route ex_node2 ex_depot ex_node1 == 6)%Q /\
    ~ (i_cost ins == spec_c1 ex_pb ex_route ex_node2 ex_depot ex_node1)%Q.
Proof.
  eexists. split; [vm_compute; reflexivity |].
  repeat split; try (vm_compute; reflexivity).
  vm_compute. discriminate.
Qed.

(** ** C8: the solution cache *)

Lemma wrap64_small (z : Z) : 0 <= z <= u64_max -> wrap64 z = z.
Proof.
  intros H. unfold wrap64. apply Z.mod_small.
  unfold u64_max in H. lia.
Qed.

Lemma wrap64_range (z : Z) : 0 <= wrap64 z <= u64_max.
Proof.
  unfold wrap64, u64_max.
  pose proof (Z.mod_pos_bound z u64_modulus ltac:(reflexivity)). lia.
Qed.

Lemma to_unsigned_long_floor (x : spec_float) :
  Double.is_finite x = true ->
  (0 <= Double.value x)%Q -> (Double.value x < inject_Z u64_modulus)%Q ->
  Double.to_unsigned_long x = Some (Qfloor (Double.value x)).
Proof.
  intros Hfin H0 Hlt.
  assert (Hb0 : 0 <= Qfloor (Double.value x)).
  { change 0 with (Qfloor 0). by apply Qfloor_resp_le. }
  assert (Hb1 : Qfloor (Double.value x) < u64_modulus).
  { rewrite Zlt_Qlt. eapply Qle_lt_trans; [apply Qfloor_le | exact Hlt]. }
  destruct x as [sx | sx | | sx m e]; try done.
  unfold Double.value in *. unfold Double.to_unsigned_long.
  destruct (0 <=? e) eqn:E.
  - apply Z.leb_le in E. rewrite Qfloor_Z in *.
    pose proof (Z.pow_pos_nonneg 2 e ltac:(lia) E) as Hpow.
    assert (sx = false) as -> by (destruct sx; [simpl in Hb0; nia | done]).
    simpl in *. unfold u64_max.
    destruct (0 <=? Z.pos m * 2 ^ e) eqn:E1; [| apply Z.leb_gt in E1; lia].
    destruct (Z.pos m * 2 ^ e <=? u64_modulus - 1) eqn:E2;
      [reflexivity | apply Z.leb_gt in E2; lia].
  - apply Z.leb_gt in E.
    assert (Hq : Qfloor (cond_Zopp sx (Z.pos m) # 2 ^ Z.to_pos (- e))
                 = cond_Zopp sx (Z.pos m) / 2 ^ (- e)).
    { simpl. f_equal. rewrite Pos2Z.inj_pow, Z2Pos.id by lia. reflexivity. }
    rewrite Hq in *.
    assert (Hpow : 0 < 2 ^ (- e)) by (apply Z.pow_pos_nonneg; lia).
    assert (sx = false) as ->.
    { destruct sx; [| done]. exfalso. simpl in Hb0.
      assert (Z.neg m / 2 ^ (- e) < 0); [| lia].
      apply Z.div_lt_upper_bound; lia. }
    simpl in *. rewrite Z.shiftr_div_pow2 by lia. unfold u64_max.
    destruct (0 <=? Z.pos m / 2 ^ (- e)) eqn:E1;
      [| apply Z.leb_gt in E1; lia].
    destruct (Z.pos m / 2 ^ (- e) <=? u64_modulus - 1) eqn:E2;
      [reflexivity | apply Z.leb_gt in E2; lia].
Qed.

Lemma double_eqb_cases (x y : spec_float) :
  SFeqb x y = true ->
  x = y \/ exists sx sy, x = S754_zero sx /\ y = S754_zero sy.
Proof.
  unfold SFeqb, SFcompare.
  destruct x as [[|] | [|] | | [|] mx e1], y as [[|] | [|] | | [|] my e2];
    try discriminate; try (by left); try (by right; eexists _, _);
    (destruct (Z.compare_spec e1 e2); try discriminate; subst;
     change (Pos.compare_cont Eq mx my) with (Pos.compare mx my);
     destruct (Pos.compare_spec mx my); try discriminate; subst;
     by left).
Qed.

Lemma Cache_hash_equal_cost (c : Double.Cache) (s s' : Double.Solution) :
  SFeqb (Double.s_cost_cache s') (Double.s_cost_cache s) = true ->
  Double.Cache_hash c s' = Double.Cache_hash c s.
Proof.
  intros H. unfold Double.Cache_hash.
  destruct (double_eqb_cases _ _ H) as [-> | (sx & sy & -> & ->)]; [done |].
  unfold Double.ld_mul, SFmul.
  by destruct (Double.ld_of_unsigned_long (Double.m_factor c)).
Qed.

(** C8 (as amended).  For a cache of a problem with [num_nodes > 0] and a
    solution [s] whose cost is finite and not negative, let [p] be the
    product of the cost and the factor [u64_max / num_nodes] that the
    machine computes in [long double], finite and below 2^64.  The hash is
    the floor of [p], the same for every solution of equal cost; [add]
    stores 1 under the hash; [contains] answers 0 and leaves the cache alone
    when the hash is absent, and otherwise stores and answers the counter
    plus one. *)
Theorem cache_hash_rounded (pb : Double.Problem) (entries : gmap Z Z)
    (s : Double.Solution) :
  0 < Double.pb_num_nodes pb <= u64_max ->
  let factor := u64_max / Double.pb_num_nodes pb in
  let p := Double.ld_mul (Double.s_cost_cache s)
                         (Double.ld_of_unsigned_long factor) in
  Double.is_finite (Double.s_cost_cache s) = true ->
  (0 <= Double.value (Double.s_cost_cache s))%Q ->
  Double.is_finite p = true ->
  (Double.value p < inject_Z u64_modulus)%Q ->
  let c := {| Double.m_cache := entries;
              Double.m_factor := Double.m_factor (Double.Cache_new pb) |} in
  let h := Qfloor (Double.value p) in
  Double.m_factor c = factor /\
  Double.Cache_hash c s = Some h /\
  (forall s' : Double.Solution,
     SFeqb (Double.s_cost_cache s') (Double.s_cost_cache s) = true ->
     Double.Cache_hash c s' = Double.Cache_hash c s) /\
  (exists c', Double.Cache_add c s = Some c' /\
              Double.m_cache c' = <[h := 1]> entries /\
              Double.m_cache c' !! h = Some 1 /\
              Double.m_factor c' = factor) /\
  (entries !! h = None -> Double.Cache_contains c s = Some (0, c)) /\
  (forall n : Z,
     entries !! h = Some n ->
     Double.Cache_contains c s =
       Some (wrap64 (n + 1),
             {| Double.m_cache := <[h := wrap64 (n + 1)]> entries;
                Double.m_factor := factor |}) /\
     (0 <= n < u64_max -> wrap64 (n + 1) = n + 1)).
Proof.
  intros Hn factor p Hcfin Hcost Hpfin Hfit c h.
  assert (Hf : Double.m_factor c = factor).
  { unfold c, factor. simpl. rewrite wrap64_small; [reflexivity | lia]. }
  assert (Hpos : (0 <= Double.value p)%Q).
  { unfold p, Double.ld_mul, SFmul in *.
    destruct (Double.s_cost_cache s) as [sx | sx | | sx mx e1]; try done;
      destruct (Double.ld_of_unsigned_long factor)
        as [sy | sy | | sy my e2] eqn:Hfac; try done.
    assert (sx = false) as ->.
    { destruct sx; [| done]. exfalso. revert Hcost. unfold Double.value.
      destruct (0 <=? e1) eqn:E.
      - apply Z.leb_le in E. unfold Qle. simpl.
        pose proof (Z.pow_pos_nonneg 2 e1 ltac:(lia) E). nia.
      - unfold Qle. simpl. lia. }
    assert (sy = false) as ->.
    { unfold Double.ld_of_unsigned_long, binary_normalize in Hfac.
      assert (H0 : 0 <= factor)
        by (unfold factor; apply Z.div_pos; [by vm_compute | lia]).
      destruct factor as [| f | f]; [done | | lia].
      unfold binary_round, binary_round_aux in Hfac.
      destruct (shl_align f 0 _) as [mz ez].
      destruct (shr_fexp _ _ (Z.pos mz) ez loc_Exact) as [mrs' e'].
      destruct (shr_fexp _ _ _ e' loc_Exact) as [mrs'' e''].
      destruct (shr_m mrs''); try done.
      destruct (e'' <=? _); [by injection Hfac as <- _ _ | done]. }
    simpl. unfold binary_round_aux.
    destruct (shr_fexp _ _ (Z.pos (mx * my)) (e1 + e2) loc_Exact)
      as [mrs' e'].
    destruct (shr_fexp _ _ _ e' loc_Exact) as [mrs'' e''].
    destruct (shr_m mrs'') as [| m | m]; try done.
    destruct (e'' <=? _); [| done].
    unfold Double.value. simpl.
    destruct (0 <=? e'') eqn:E.
    - apply Z.leb_le in E. unfold Qle. simpl.
      pose proof (Z.pow_pos_nonneg 2 e'' ltac:(lia) E). nia.
    - unfold Qle. simpl. lia. }
  assert (Hh : Double.Cache_hash c s = Some h).
  { unfold Double.Cache_hash. rewrite Hf. fold p.
    by apply to_unsigned_long_floor. }
  split; [exact Hf |]. split; [exact Hh |]. split.
  - intros s' Heq. by apply Cache_hash_equal_cost.
  - split.
    { eexists. unfold Double.Cache_add. rewrite Hh. simpl.
      split; [reflexivity |]. simpl. split; [reflexivity |].
      split; [apply lookup_insert_eq | exact Hf]. }
    split.
    + intros Habs. unfold Double.Cache_contains. rewrite Hh. simpl.
      rewrite Habs. reflexivity.
    + intros n Hsome. split.
      * unfold Double.Cache_contains. rewrite Hh. simpl. rewrite Hsome.
        fold factor. unfold c in Hf. simpl in Hf. rewrite Hf. reflexivity.
      * intros Hr. apply wrap64_small. lia.
Qed.

Lemma cache_hash_rounded_witness :
  Double.Cache_hash dex_cache (dex_solution (Double.of_decimal 25 1)) =
  Some (Qfloor (Double.value
                  (Double.ld_mul (Double.of_decimal 25 1)
                     (Double.ld_of_unsigned_long (u64_max / 3))))).
Proof.
  assert (H1 : 0 < Double.pb_num_nodes dex_pb <= u64_max)
    by (by vm_compute).
  assert (H2 : Double.is_finite
                 (Double.s_cost_cache
                    (dex_solution (Double.of_decimal 25 1))) = true)
    by reflexivity.
  assert (H3 : (0 <= Double.value
                       (Double.s_cost_cache
                          (dex_solution (Double.of_decimal 25 1))))%Q)
    by (by vm_compute).
  assert (H4 : Double.is_finite
                 (Double.ld_mul
                    (Double.s_cost_cache
                       (dex_solution (Double.of_decimal 25 1)))
                    (Double.ld_of_unsigned_long
                       (u64_max / Double.pb_num_nodes dex_pb))) = true)
    by (by vm_compute).
  assert (H5 : (Double.value
                  (Double.ld_mul
                     (Double.s_cost_cache
                        (dex_solution (Double.of_decimal 25 1)))
                     (Double.ld_of_unsigned_long
                        (u64_max / Double.pb_num_nodes dex_pb))) <
                inject_Z u64_modulus)%Q)
    by (by vm_compute).
  exact (proj1 (proj2 (cache_hash_rounded dex_pb ∅
                         (dex_solution (Double.of_decimal 25 1))
                         H1 H2 H3 H4 H5))).
Defined.

(** C8, as stated with the exact product, fails.  With three nodes the
    factor is [(2^64 - 1) / 3]; for a solution that costs 1.75 the exact
    product is 10760600709663905108.75, which fits 64 bits and whose floor
    ends in 108.  A [long double] has 64 bits of mantissa, so the machine
    rounds the product to the nearest integer and the hash ends in 109. *)
Lemma cache_hash_not_floor_of_product :
  let s := dex_solution (S754_finite false 7 (-2)) in
  let factor := u64_max / Double.pb_num_nodes dex_pb in
  Double.m_factor dex_cache = factor /\
  Double.value (Double.s_cost_cache s) == 7 # 4 /\
  (0 <= Double.value (Double.s_cost_cache s))%Q /\
  (Double.value (Double.s_cost_cache s) * inject_Z factor
   < inject_Z u64_modulus)%Q /\
  Qfloor (Double.value (Double.s_cost_cache s) * inject_Z factor)
  = 10760600709663905108 /\
  Double.Cache_hash dex_cache s = Some 10760600709663905109.
Proof.
  repeat split; try (vm_compute; reflexivity).
  vm_compute. discriminate.
Qed.

(** ** Indexed arrays: reads after writes *)

Section matrix.
Context {A : Type}.
Implicit Types (m : list (list A)) (i j : nat) (v : A).

Lemma mset_is_Some m i j v : is_Some (mget m i j) -> is_Some (mset m i j v).
Proof.
  unfold mget, mset. destruct (m !! i) as [row |]; simpl; [| by intros []].
  destruct (row !! j); simpl; [eauto | by intros []].
Qed.

Lemma mset_mget_eq m m' i j v : mset m i j v = Some m' -> mget m' i j = Some v.
Proof.
  unfold mget, mset. destruct (m !! i) as [row |] eqn:Hi; simpl; [| done].
  destruct (row !! j) eqn:Hj; simpl; [| done].
  intros [= <-]. apply lookup_lt_Some in Hi as Hli.
  apply lookup_lt_Some in Hj as Hlj.
  rewrite list_lookup_insert_eq by done. simpl.
  by rewrite list_lookup_insert_eq.
Qed.

Lemma mset_mget_ne m m' i j v i' j' :
  mset m i j v = Some m' -> ~ (i' = i /\ j' = j) ->
  mget m' i' j' = mget m i' j'.
Proof.
  unfold mget, mset. destruct (m !! i) as [row |] eqn:Hi; simpl; [| done].
  destruct (row !! j) eqn:Hj; simpl; [| done].
  intros [= <-] Hne. destruct (decide (i' = i)) as [-> | Hii].
  - apply lookup_lt_Some in Hi as Hli.
    rewrite list_lookup_insert_eq by done. rewrite Hi. simpl.
    apply list_lookup_insert_ne. intros ->. by apply Hne.
  - by rewrite list_lookup_insert_ne.
Qed.

Lemma mset_mget_is_Some m m' i j v i' j' :
  mset m i j v = Some m' ->
  is_Some (mget m' i' j') <-> is_Some (mget m i' j').
Proof.
  intros Hset. destruct (decide (i' = i /\ j' = j)) as [[-> ->] | Hne].
  - rewrite (mset_mget_eq _ _ _ _ _ Hset). split; [| eauto].
    intros _. unfold mget, mset in *.
    destruct (m !! i) as [row |]; simpl in *; [| done].
    destruct (row !! j); simpl in *; [eauto | done].
  - by rewrite (mset_mget_ne _ _ _ _ _ _ _ Hset Hne).
Qed.
End matrix.

(** ** C4: how long a node stays tabu on the route it left *)

Lemma update_tabulist_loop_spec (t : list (list Z)) (run : list nat)
    (source : nat) (v : Z) :
  Forall (fun k => is_Some (mget t k source)) run ->
  exists t',
    update_tabulist_loop t run source v = Some t' /\
    (forall k, k ∈ run -> mget t' k source = Some v) /\
    (forall i j, ~ (i ∈ run /\ j = source) -> mget t' i j = mget t i j) /\
    (forall i j, is_Some (mget t' i j) <-> is_Some (mget t i j)).
Proof.
  revert t. induction run as [| k rest IH]; intros t Hrun.
  - exists t. split; [done |]. split; [intros k Hk; by inversion Hk |].
    by split.
  - inversion Hrun as [| ? ? Hk Hrest]; subst. simpl.
    destruct (mset_is_Some t k source v Hk) as [t1 Ht1]. rewrite Ht1. simpl.
    assert (Hrest1 : Forall (fun k' => is_Some (mget t1 k' source)) rest).
    { eapply Forall_impl; [exact Hrest |]. intros k' Hk'.
      by apply (mset_mget_is_Some _ _ _ _ _ k' source Ht1). }
    destruct (IH t1 Hrest1) as (t' & Hloop & Hin & Hout & Hsome).
    exists t'. split; [exact Hloop |]. split; [| split].
    + intros k' Hk'. destruct (decide (k' ∈ rest)) as [Hr | Hr];
        [by apply Hin |].
      apply elem_of_cons in Hk' as [-> | Hk']; [| done].
      rewrite Hout by (intros [? _]; done).
      by apply (mset_mget_eq _ _ _ _ _ Ht1).
    + intros i j Hne. rewrite Hout.
      * apply (mset_mget_ne _ _ _ _ _ _ _ Ht1). intros [-> ->].
        apply Hne. split; [left | done].
      * intros [Hi ->]. apply Hne. split; [by right | done].
    + intros i j. rewrite Hsome.
      apply (mset_mget_is_Some _ _ _ _ _ _ _ Ht1).
Qed.

Lemma update_tabulist_move_spec (tl : Tabulist) (run : list nat)
    (source : nat) :
  tl_active tl = true -> run <> [] ->
  Forall (fun k => is_Some (mget (tl_nodes_routes tl) k source)) run ->
  exists tl1,
    update_tabulist_move tl run source = Some tl1 /\
    tl_active tl1 = true /\
    tl_iteration tl1 = wrap64 (tl_iteration tl + 1) /\
    tl_nodes_routes_tabutime tl1 = tl_nodes_routes_tabutime tl /\
    (forall k, k ∈ run ->
       mget (tl_nodes_routes tl1) k source =
       Some (wrap64 (tl_iteration tl1 + tl_nodes_routes_tabutime tl))) /\
    (forall i j, ~ (i ∈ run /\ j = source) ->
       mget (tl_nodes_routes tl1) i j = mget (tl_nodes_routes tl) i j) /\
    (forall i j, is_Some (mget (tl_nodes_routes tl1) i j) <->
                 is_Some (mget (tl_nodes_routes tl) i j)).
Proof.
  intros Hact Hne Hrun. unfold update_tabulist_move. rewrite Hact. simpl.
  destruct (update_tabulist_loop_spec (tl_nodes_routes tl) run source
              (wrap64 (wrap64 (tl_iteration tl + 1) +
                       tl_nodes_routes_tabutime tl)) Hrun)
    as (t' & Hloop & Hin & Hout & Hsome).
  destruct run as [| k rest]; [done |]. rewrite Hloop. simpl.
  eexists. split; [reflexivity |]. simpl. repeat split; try done.
  - by apply Hsome.
  - by apply Hsome.
Qed.

Lemma update_tabulist_moves_spec (tl1 : Tabulist)
    (later : list (list nat * nat)) (k s : nat) :
  tl_active tl1 = true ->
  0 <= tl_iteration tl1 ->
  tl_iteration tl1 + Z.of_nat (length later) <= u64_max ->
  Forall (fun mv : list nat * nat =>
            mv.1 <> [] /\
            Forall (fun k' => is_Some (mget (tl_nodes_routes tl1) k' mv.2))
                   mv.1 /\
            ~ (k ∈ mv.1 /\ mv.2 = s)) later ->
  exists tl2,
    update_tabulist_moves tl1 later = Some tl2 /\
    tl_active tl2 = true /\
    tl_iteration tl2 = tl_iteration tl1 + Z.of_nat (length later) /\
    tl_nodes_routes_tabutime tl2 = tl_nodes_routes_tabutime tl1 /\
    mget (tl_nodes_routes tl2) k s = mget (tl_nodes_routes tl1) k s /\
    (forall i j, is_Some (mget (tl_nodes_routes tl2) i j) <->
                 is_Some (mget (tl_nodes_routes tl1) i j)).
Proof.
  revert tl1. induction later as [| [run src] rest IH];
    intros tl1 Hact H0 Hmax Hlater.
  - exists tl1. simpl. repeat split; try done. lia.
  - inversion Hlater as [| ? ? (Hne & Hrun & Hother) Hrest]; subst.
    simpl in Hne, Hrun, Hother.
    change (length ((run, src) :: rest)) with (S (length rest)) in *.
    rewrite Nat2Z.inj_succ in *.
    destruct (update_tabulist_move_spec tl1 run src Hact Hne Hrun)
      as (tl' & Hmove & Hact' & Hit & Htt & _ & Hout & Hsome).
    simpl. rewrite Hmove. simpl.
    assert (Hit' : tl_iteration tl' = tl_iteration tl1 + 1).
    { rewrite Hit. apply wrap64_small. lia. }
    destruct (IH tl') as (tl2 & Hmoves & Hact2 & Hit2 & Htt2 & Hcell & Hs2).
    + exact Hact'.
    + lia.
    + lia.
    + eapply Forall_impl; [exact Hrest |].
      intros [run' src'] (Hne' & Hrun' & Hother'). simpl in *.
      repeat split; try done.
      eapply Forall_impl; [exact Hrun' |]. intros k' Hk'. by apply Hsome.
    + exists tl2. split; [exact Hmoves |]. split; [exact Hact2 |].
      split; [rewrite Hit2, Hit'; lia |].
      split; [by rewrite Htt2 |]. split.
      * rewrite Hcell. apply Hout. intros [Hk ->]. by apply Hother.
      * intros i j. rewrite Hs2. apply Hsome.
Qed.

Lemma is_move_tabu_loop_hit (tl : Tabulist) (run : list nat) (k s : nat)
    (v : Z) :
  Forall (fun k' => is_Some (mget (tl_nodes_routes tl) k' s)) run ->
  k ∈ run ->
  mget (tl_nodes_routes tl) k s = Some v ->
  tl_iteration tl < v ->
  is_move_tabu_loop tl run s = Some true.
Proof.
  intros Hrun Hk Hv Hlt. induction run as [| k' rest IH]; [by inversion Hk |].
  inversion Hrun as [| ? ? [v' Hv'] Hrest]; subst. simpl. rewrite Hv'. simpl.
  destruct (tl_iteration tl <? v') eqn:E; [done |].
  apply elem_of_cons in Hk as [-> | Hk]; [| by apply IH].
  rewrite Hv in Hv'. injection Hv' as <-. apply Z.ltb_ge in E. lia.
Qed.

(** C4 (as amended).  With an active tabu list, applying a move whose run
    contains node [k] off route [s] sets the counter to
    [t = iteration + 1] (modulo 2^64) and, when [t + tabutime] fits 64
    bits, stores [t + tabutime] in [T[k][s]].  After any [later] applied
    moves that do not write [T[k][s]] and do not make the counter pass
    2^64 - 1, the counter is [t + length later], a candidate move of [k]
    alone onto [s] is tabu exactly while the counter is below
    [t + tabutime], that is while fewer than [tabutime] moves were applied
    since, and every candidate run that contains [k] is tabu during that
    time. *)
Theorem tabu_window (tl : Tabulist) (run : list nat) (s k : nat)
    (later : list (list nat * nat)) :
  tl_active tl = true ->
  k ∈ run ->
  Forall (fun k' => is_Some (mget (tl_nodes_routes tl) k' s)) run ->
  Forall (fun mv : list nat * nat =>
            mv.1 <> [] /\
            Forall (fun k' => is_Some (mget (tl_nodes_routes tl) k' mv.2))
                   mv.1 /\
            ~ (k ∈ mv.1 /\ mv.2 = s)) later ->
  0 <= tl_nodes_routes_tabutime tl ->
  wrap64 (tl_iteration tl + 1) + tl_nodes_routes_tabutime tl <= u64_max ->
  wrap64 (tl_iteration tl + 1) + Z.of_nat (length later) <= u64_max ->
  exists tl1 tl2 : Tabulist,
    let t := tl_iteration tl1 in
    let tabutime := tl_nodes_routes_tabutime tl in
    update_tabulist_move tl run s = Some tl1 /\
    t = wrap64 (tl_iteration tl + 1) /\
    mget (tl_nodes_routes tl1) k s = Some (t + tabutime) /\
    update_tabulist_moves tl1 later = Some tl2 /\
    tl_iteration tl2 = t + Z.of_nat (length later) /\
    is_move_tabu tl2 [k] s = Some (tl_iteration tl2 <? t + tabutime) /\
    (is_move_tabu tl2 [k] s = Some true <->
     Z.of_nat (length later) < tabutime) /\
    (forall run' : list nat,
       k ∈ run' ->
       Forall (fun k' => is_Some (mget (tl_nodes_routes tl) k' s)) run' ->
       Z.of_nat (length later) < tabutime ->
       is_move_tabu tl2 run' s = Some true).
Proof.
  intros Hact Hk Hrun Hlater Htt Hfit Hcount.
  assert (Hne : run <> []) by (intros ->; by inversion Hk).
  destruct (update_tabulist_move_spec tl run s Hact Hne Hrun)
    as (tl1 & Hmove & Hact1 & Hit1 & Htt1 & Hin & Hout & Hsome).
  pose proof (wrap64_range (tl_iteration tl + 1)) as Hr.
  assert (Hcell1 : mget (tl_nodes_routes tl1) k s =
                   Some (tl_iteration tl1 + tl_nodes_routes_tabutime tl)).
  { rewrite (Hin k Hk). f_equal. apply wrap64_small. rewrite Hit1. lia. }
  destruct (update_tabulist_moves_spec tl1 later k s)
    as (tl2 & Hmoves & Hact2 & Hit2 & Htt2 & Hcell2 & Hsome2).
  - exact Hact1.
  - rewrite Hit1. lia.
  - rewrite Hit1. exact Hcount.
  - eapply Forall_impl; [exact Hlater |].
    intros [run' src'] (Hne' & Hrun' & Hother'). simpl in *.
    repeat split; try done.
    eapply Forall_impl; [exact Hrun' |]. intros k' Hk'. by apply Hsome.
  - rewrite Hcell1 in Hcell2.
    assert (Htabu : is_move_tabu tl2 [k] s =
                    Some (tl_iteration tl2 <?
                          tl_iteration tl1 + tl_nodes_routes_tabutime tl)).
    { unfold is_move_tabu. rewrite Hact2. simpl. rewrite Hcell2. simpl.
      by destruct (tl_iteration tl2 <? _). }
    exists tl1, tl2. simpl. split; [exact Hmove |]. split; [exact Hit1 |].
    split; [exact Hcell1 |]. split; [exact Hmoves |]. split; [exact Hit2 |].
    split; [exact Htabu |]. split.
    + rewrite Htabu, Hit2. split.
      * intros [= E]. apply Z.ltb_lt in E. lia.
      * intros Hlt. f_equal. apply Z.ltb_lt. lia.
    + intros run' Hk' Hrun' Hlt. unfold is_move_tabu. rewrite Hact2. simpl.
      destruct run' as [| k0 rest]; [by inversion Hk' |].
      eapply is_move_tabu_loop_hit; [| exact Hk' | exact Hcell2 | lia].
      eapply Forall_impl; [exact Hrun' |]. intros k' Hs.
      apply Hsome2. by apply Hsome.
Qed.

Lemma tabu_window_witness :
  exists tl1 tl2 : Tabulist,
    update_tabulist_move (new_tabulist ex_pb) [1%nat; 2%nat] 0%nat = Some tl1 /\
    update_tabulist_moves tl1 [([2%nat], 1%nat)] = Some tl2 /\
    is_move_tabu tl2 [1%nat] 0%nat = Some true.
Proof.
  destruct (tabu_window (new_tabulist ex_pb) [1%nat; 2%nat] 0%nat 1%nat
              [([2%nat], 1%nat)])
    as (tl1 & tl2 & H1 & _ & _ & H2 & _ & _ & H3 & _).
  - reflexivity.
  - apply list_elem_of_here.
  - repeat constructor; vm_compute; eauto.
  - repeat constructor; simpl; [discriminate | vm_compute; eauto |].
    intros [_ H]. discriminate H.
  - vm_compute. discriminate.
  - vm_compute. discriminate.
  - vm_compute. discriminate.
  - exists tl1, tl2. split; [exact H1 |]. split; [exact H2 |].
    apply H3. vm_compute. reflexivity.
Defined.

(** C4, the claim as stated fails when [t + tabutime] passes 2^64 - 1: with
    [tabutime = -1] in the configuration the list holds
    [tabutime = 2^64 - 1]; the first applied move of node 1 off route 0 sets
    the counter to [t = 1] and stores [T[1][0] = 0]; the counter is below
    [t + tabutime], and the move of node 1 back onto route 0 is not tabu. *)
Lemma tabu_window_wraps :
  tl_active (new_tabulist ex_pb_negative_tabutime) = true /\
  tl_nodes_routes_tabutime (new_tabulist ex_pb_negative_tabutime) = u64_max /\
  update_tabulist_move (new_tabulist ex_pb_negative_tabutime) [1%nat] 0%nat =
    Some {| tl_active := true; tl_iteration := 1;
            tl_nodes_routes := [[0; 0]; [0; 0]; [0; 0]];
            tl_nodes_routes_tabutime := u64_max |} /\
  1 < 1 + u64_max /\
  is_move_tabu {| tl_active := true; tl_iteration := 1;
                  tl_nodes_routes := [[0; 0]; [0; 0]; [0; 0]];
                  tl_nodes_routes_tabutime := u64_max |} [1%nat] 0%nat =
    Some false.
Proof. repeat split. Qed.

(** ** C5: the lower bound of the pheromone matrix *)

Lemma square_of_lengths {A : Type} (p : list (list A)) (side : nat) :
  length p = side -> Forall (fun row => length row = side) p ->
  square p side.
Proof.
  intros Hlen Hrows i j. unfold mget. split.
  - intros [v Hv]. destruct (p !! i) as [row |] eqn:Hi; simpl in Hv; [| done].
    apply lookup_lt_Some in Hi as Hli. apply lookup_lt_Some in Hv as Hlj.
    rewrite Forall_forall in Hrows.
    rewrite (Hrows row) in Hlj; [lia |].
    eapply list_elem_of_lookup_2. exact Hi.
  - intros [Hi Hj]. rewrite <- Hlen in Hi.
    apply lookup_lt_is_Some in Hi as [row Hrow]. rewrite Hrow. simpl.
    apply lookup_lt_is_Some. rewrite Forall_forall in Hrows.
    rewrite (Hrows row); [done |].
    eapply list_elem_of_lookup_2. exact Hrow.
Qed.

Lemma square_preserved {A : Type} (p p' : list (list A)) (side : nat) :
  (forall i j, is_Some (mget p' i j) <-> is_Some (mget p i j)) ->
  square p side -> square p' side.
Proof. intros Hsame Hsq i j. rewrite Hsame. apply Hsq. Qed.

Lemma mset_cell_ok (lo : Q) (p p' : list (list Q)) (i j : nat) (v : Q) :
  mset p i j v = Some p' -> (lo <= v)%Q ->
  cell_ok lo p' i j /\
  (forall i' j', cell_ok lo p i' j' -> cell_ok lo p' i' j').
Proof.
  intros Hset Hv. split.
  - intros w Hw. rewrite (mset_mget_eq _ _ _ _ _ Hset) in Hw.
    by injection Hw as <-.
  - intros i' j' Hok w Hw.
    destruct (decide (i' = i /\ j' = j)) as [[-> ->] | Hne].
    + rewrite (mset_mget_eq _ _ _ _ _ Hset) in Hw. by injection Hw as <-.
    + rewrite (mset_mget_ne _ _ _ _ _ _ _ Hset Hne) in Hw. by apply Hok.
Qed.

Lemma decay_row_spec (rho lo : Q) (p : list (list Q)) (i : nat)
    (js : list nat) :
  Forall (fun j => is_Some (mget p i j)) js ->
  exists p',
    decay_row rho lo p i js = Some p' /\
    (forall i' j', is_Some (mget p' i' j') <-> is_Some (mget p i' j')) /\
    (forall i' j', cell_ok lo p i' j' -> cell_ok lo p' i' j') /\
    (forall j, j ∈ js -> cell_ok lo p' i j).
Proof.
  revert p. induction js as [| j js IH]; intros p Hjs.
  - exists p. split; [done |]. split; [done |]. split; [done |].
    intros j Hj. by inversion Hj.
  - inversion Hjs as [| ? ? [v Hv] Hrest]; subst. simpl. rewrite Hv. simpl.
    destruct (mset_is_Some p i j (Common.max (v * rho) lo)
                (ex_intro _ v Hv)) as [p1 Hp1].
    rewrite Hp1. simpl.
    destruct (mset_cell_ok lo p p1 i j _ Hp1 (max_ge_r _ _)) as [Hij Hpres].
    destruct (IH p1) as (p' & Hrow & Hsome & Hok & Hnew).
    { eapply Forall_impl; [exact Hrest |]. intros j' Hj'.
      by apply (mset_mget_is_Some _ _ _ _ _ _ _ Hp1). }
    exists p'. split; [exact Hrow |]. split; [| split].
    + intros i' j'. rewrite Hsome.
      apply (mset_mget_is_Some _ _ _ _ _ _ _ Hp1).
    + intros i' j' H. apply Hok. by apply Hpres.
    + intros j' Hj'. apply elem_of_cons in Hj' as [-> | Hj'].
      * by apply Hok.
      * by apply Hnew.
Qed.

Lemma decay_rows_spec (rho lo : Q) (p : list (list Q)) (rows js : list nat) :
  Forall (fun i => Forall (fun j => is_Some (mget p i j)) js) rows ->
  exists p',
    decay_rows rho lo p rows js = Some p' /\
    (forall i' j', is_Some (mget p' i' j') <-> is_Some (mget p i' j')) /\
    (forall i' j', cell_ok lo p i' j' -> cell_ok lo p' i' j') /\
    (forall i j, i ∈ rows -> j ∈ js -> cell_ok lo p' i j).
Proof.
  revert p. induction rows as [| i rows IH]; intros p Hrows.
  - exists p. split; [done |]. split; [done |]. split; [done |].
    intros i j Hi. by inversion Hi.
  - inversion Hrows as [| ? ? Hi Hrest]; subst. simpl.
    destruct (decay_row_spec rho lo p i js Hi) as (p1 & Hrow & Hs1 & Hok1 & Hn1).
    rewrite Hrow. simpl.
    destruct (IH p1) as (p' & Hrs & Hsome & Hok & Hnew).
    { eapply Forall_impl; [exact Hrest |]. intros i' Hi'.
      eapply Forall_impl; [exact Hi' |]. intros j' Hj'. by apply Hs1. }
    exists p'. split; [exact Hrs |]. split; [| split].
    + intros i' j'. rewrite Hsome. apply Hs1.
    + intros i' j' H. apply Hok. by apply Hok1.
    + intros i' j' Hi' Hj'. apply elem_of_cons in Hi' as [-> | Hi'].
      * apply Hok. by apply Hn1.
      * by apply Hnew.
Qed.

Lemma madd_spec (lo : Q) (p : list (list Q)) (i j : nat) (v : Q) :
  is_Some (mget p i j) -> (0 <= v)%Q ->
  exists p',
    madd p i j v = Some p' /\
    (forall i' j', is_Some (mget p' i' j') <-> is_Some (mget p i' j')) /\
    (forall i' j', cell_ok lo p i' j' -> cell_ok lo p' i' j').
Proof.
  intros [x Hx] Hv. unfold madd. rewrite Hx. simpl.
  destruct (mset_is_Some p i j (x + v)%Q (ex_intro _ x Hx)) as [p' Hp'].
  exists p'. split; [exact Hp' |]. split.
  - intros i' j'. apply (mset_mget_is_Some _ _ _ _ _ _ _ Hp').
  - intros i' j' Hok w Hw.
    destruct (decide (i' = i /\ j' = j)) as [[-> ->] | Hne].
    + rewrite (mset_mget_eq _ _ _ _ _ Hp') in Hw. injection Hw as <-.
      specialize (Hok x Hx). lra.
    + rewrite (mset_mget_ne _ _ _ _ _ _ _ Hp' Hne) in Hw. by apply Hok.
Qed.

Lemma reinforce_edges_spec (lo : Q) (side : nat) (p : list (list Q))
    (v : Q) (prev : Node) (chain : list Node) :
  square p side -> (0 <= v)%Q -> chain <> [] ->
  (n_id prev < side)%nat -> Forall (fun n => (n_id n < side)%nat) chain ->
  exists p',
    reinforce_edges p v prev chain = Some p' /\
    square p' side /\
    (forall i' j', cell_ok lo p i' j' -> cell_ok lo p' i' j').
Proof.
  intros Hsq Hv. revert p prev Hsq.
  induction chain as [| n rest IH]; intros p prev Hsq Hne Hprev Hids;
    [done |].
  inversion Hids as [| ? ? Hn Hrest]; subst.
  destruct rest as [| n' rest'].
  - exists p. by split.
  - change (reinforce_edges p v prev (n :: n' :: rest')) with
      (p' ← madd p (n_id prev) (n_id n) v;
       reinforce_edges p' v n (n' :: rest')).
    destruct (madd_spec lo p (n_id prev) (n_id n) v) as (p1 & Hadd & Hs1 & Hok1);
      [by apply Hsq | exact Hv |].
    rewrite Hadd. simpl.
    destruct (IH p1 n) as (p' & Hed & Hsq' & Hok');
      [by eapply square_preserved | done | exact Hn | exact Hrest |].
    exists p'. split; [exact Hed |]. split; [exact Hsq' |].
    intros i' j' H. apply Hok'. by apply Hok1.
Qed.

Lemma reinforce_route_spec (lo : Q) (side num_nodes : nat)
    (p : list (list Q)) (v : Q) (sol : Solution) (r : nat) (route : Route) :
  square p side -> (0 <= v)%Q ->
  route_at sol r = Some route ->
  (3 <= length (r_nodes route))%nat ->
  Forall (fun n => (n_id n < side)%nat) (r_nodes route) ->
  (num_nodes + r < side)%nat ->
  exists p',
    reinforce_route p num_nodes v sol r = Some p' /\
    square p' side /\
    (forall i' j', cell_ok lo p i' j' -> cell_ok lo p' i' j').
Proof.
  intros Hsq Hv Hroute Hlen Hids Hdepot. unfold reinforce_route.
  rewrite Hroute. simpl.
  destruct (r_nodes route) as [| head [| first rest]] eqn:Hchain;
    simpl in Hlen; try lia.
  destruct rest as [| second rest']; simpl in Hlen; [lia |].
  set (rest := second :: rest') in *.
  destruct (lookup_lt_is_Some_2 (head :: first :: rest) (length rest))
    as [tail_prev Htp]; [simpl; lia |].
  rewrite Htp. simpl.
  assert (Htpid : (n_id tail_prev < side)%nat).
  { rewrite Forall_forall in Hids. apply Hids.
    eapply list_elem_of_lookup_2. exact Htp. }
  inversion Hids as [| ? ? Hhead Hids1]; subst.
  inversion Hids1 as [| ? ? Hfirst Hrest]; subst.
  destruct (madd_spec lo p (num_nodes + r) (n_id first) v)
    as (p1 & Hadd1 & Hs1 & Hok1); [by apply Hsq | exact Hv |].
  rewrite Hadd1. simpl.
  assert (Hsq1 : square p1 side) by (by eapply square_preserved).
  destruct (madd_spec lo p1 (n_id tail_prev) (num_nodes + r) v)
    as (p2 & Hadd2 & Hs2 & Hok2); [by apply Hsq1 | exact Hv |].
  rewrite Hadd2. simpl.
  assert (Hsq2 : square p2 side) by (by eapply square_preserved).
  destruct (reinforce_edges_spec lo side p2 v first rest)
    as (p' & Hed & Hsq' & Hok'); try done.
  exists p'. split; [exact Hed |]. split; [exact Hsq' |].
  intros i' j' H. apply Hok', Hok2, Hok1, H.
Qed.

Lemma reinforce_routes_spec (lo : Q) (side num_nodes : nat)
    (p : list (list Q)) (v : Q) (sol : Solution) (rs : list nat) :
  square p side -> (0 <= v)%Q ->
  pheromone_ready side num_nodes sol ->
  Forall (fun r => (r < Z.to_nat (s_trucks sol))%nat) rs ->
  exists p',
    reinforce_routes p num_nodes v sol rs = Some p' /\
    square p' side /\
    (forall i' j', cell_ok lo p i' j' -> cell_ok lo p' i' j').
Proof.
  intros Hsq Hv Hready. revert p Hsq.
  induction rs as [| r rs IH]; intros p Hsq Hrs.
  - exists p. by split.
  - inversion Hrs as [| ? ? Hr Hrest]; subst. simpl.
    destruct (Hready r Hr) as (route & Hroute & Hlen & Hids & Hdepot).
    destruct (reinforce_route_spec lo side num_nodes p v sol r route)
      as (p1 & Hone & Hsq1 & Hok1); try done.
    rewrite Hone. simpl.
    destruct (IH p1 Hsq1 Hrest) as (p' & Hall & Hsq' & Hok').
    exists p'. split; [exact Hall |]. split; [exact Hsq' |].
    intros i' j' H. apply Hok', Hok1, H.
Qed.

(** C5.  With [0 <= rho <= 1] and [min_pheromone > 0], a square pheromone
    matrix of side [2 num_nodes - 1] and a solution whose routes hold a
    customer and carry node ids and virtual depot ids inside the matrix:
    [update_pheromone] returns, and every cell with row and column in
    [1 .. 2 num_nodes - 2] holds at least [min_pheromone] afterwards. *)
Theorem update_pheromone_lower_bound (pb : Problem) (p_m : list (list Q))
    (sol : Solution) :
  let rho := cfg_rho (pb_cfg pb) in
  let min_pheromone := cfg_min_pheromone (pb_cfg pb) in
  let side := Z.to_nat (2 * pb_num_nodes pb - 1) in
  (0 <= rho)%Q -> (rho <= 1)%Q -> (0 < min_pheromone)%Q ->
  length p_m = side ->
  Forall (fun row => length row = side) p_m ->
  pheromone_ready side (Z.to_nat (pb_num_nodes pb)) sol ->
  exists p' : list (list Q),
    update_pheromone pb p_m sol = Some p' /\
    forall i j : nat,
      (1 <= i < side)%nat -> (1 <= j < side)%nat ->
      exists v : Q, mget p' i j = Some v /\ (min_pheromone <= v)%Q.
Proof.
  intros rho lo side Hrho0 Hrho1 Hlo Hlen Hrows Hready.
  pose proof (square_of_lengths p_m side Hlen Hrows) as Hsq.
  unfold update_pheromone. fold rho lo side.
  set (cells := seq 1 (side - 1)).
  assert (Hcells : forall i, i ∈ cells <-> (1 <= i < side)%nat).
  { intros i. unfold cells. rewrite elem_of_seq. lia. }
  destruct (decay_rows_spec rho lo p_m cells cells)
    as (p1 & Hdecay & Hs1 & _ & Hnew).
  { rewrite Forall_forall. intros i Hi. rewrite Forall_forall. intros j Hj.
    apply Hsq. apply Hcells in Hi, Hj. lia. }
  rewrite Hdecay. simpl.
  assert (Hsq1 : square p1 side) by (by eapply square_preserved).
  destruct (reinforce_routes_spec lo side (Z.to_nat (pb_num_nodes pb)) p1
              (1 - rho)%Q sol (seq 0 (Z.to_nat (s_trucks sol))))
    as (p' & Hre & Hsq' & Hok'); try done.
  { lra. }
  { rewrite Forall_forall. intros r Hr. apply elem_of_seq in Hr. lia. }
  exists p'. split; [exact Hre |]. intros i j Hi Hj.
  destruct (proj2 (Hsq' i j)) as [v Hv]; [lia |].
  exists v. split; [exact Hv |].
  apply (Hok' i j); [| exact Hv]. apply Hnew; by apply Hcells.
Qed.

(** ** C6: a second [reduce_service_workers] changes nothing *)

Lemma calc_ests_cache_static (c_m : nat -> nat -> Q) (prev : Node)
    (chain : list Node) :
  map static (calc_ests_cache c_m prev chain) = map static chain.
Proof.
  revert prev. induction chain as [| n rest IH]; intros prev; [done |].
  simpl. by rewrite IH.
Qed.

Lemma calc_lsts_loop_static (c_m : nat -> nat -> Q) (succ : Node)
    (chain_rev : list Node) :
  map static (calc_lsts_loop c_m succ chain_rev) = map static chain_rev.
Proof.
  revert succ. induction chain_rev as [| n rest IH]; intros succ; [done |].
  destruct rest as [| n' rest']; [done |].
  change (calc_lsts_loop c_m succ (n :: n' :: rest')) with
    (set_alst n (Common.fmin (n_lst n)
                   (n_alst succ - c_m (n_id n) (n_id succ))%Q) ::
     calc_lsts_loop c_m
       (set_alst n (Common.fmin (n_lst n)
                      (n_alst succ - c_m (n_id n) (n_id succ))%Q))
       (n' :: rest')).
  rewrite map_cons, IH. done.
Qed.

Lemma calc_lsts_similar (pb : Problem) (route : Route) (pos : nat)
    (workers : Z) :
  similar route (calc_lsts pb route pos workers).
Proof.
  unfold similar, calc_lsts.
  destruct (Nat.eqb (S pos) (length (r_nodes route))).
  - destruct (rev (r_nodes route)) as [| tail before] eqn:Hrev; [done |].
    simpl. split; [done |].
    rewrite map_app, map_rev, calc_lsts_loop_static, <- map_rev. simpl.
    rewrite <- (rev_involutive (r_nodes route)), Hrev. simpl.
    by rewrite map_app.
  - destruct (r_nodes route !! S pos) as [succ |]; [| done].
    simpl. split; [done |].
    rewrite map_app, map_rev, calc_lsts_loop_static, <- map_rev,
      rev_involutive, <- map_app.
    by rewrite take_drop.
Qed.

Lemma calc_ests_cache_similar (c_m : nat -> nat -> Q) (prev prev' : Node)
    (chain chain' : list Node) :
  n_id prev = n_id prev' -> n_aest_cache prev = n_aest_cache prev' ->
  map static chain = map static chain' ->
  map (fun n => (static n, n_aest_cache n)) (calc_ests_cache c_m prev chain) =
  map (fun n => (static n, n_aest_cache n))
      (calc_ests_cache c_m prev' chain').
Proof.
  revert prev prev' chain'.
  induction chain as [| n rest IH]; intros prev prev' chain' Hid Hc Hst;
    destruct chain' as [| n' rest']; try done.
  simpl in Hst. injection Hst as Hnid Hnest Hnlst Hrest.
  simpl. unfold static at 1 3. simpl.
  rewrite Hid, Hc, Hnid, Hnest, Hnlst. f_equal.
  apply IH; simpl; done.
Qed.

Lemma is_feasible_with_similar (pb : Problem) (r r' : Route) (w : Z) :
  similar r r' ->
  (is_feasible_with pb r w).1 = (is_feasible_with pb r' w).1 /\
  similar r (is_feasible_with pb r w).2.
Proof.
  intros [Hw Hst]. unfold is_feasible_with. rewrite <- Hw.
  destruct (r_workers r =? w) eqn:E; [done |].
  unfold calc_ests. rewrite <- Hw, E.
  destruct (r_nodes r) as [| head rest] eqn:Hr;
    destruct (r_nodes r') as [| head' rest'] eqn:Hr'; try done.
  - simpl. rewrite Hr, Hr'. split; [done |]. split; [done |]. by rewrite Hr.
  - simpl in Hst. injection Hst as Hid Hest Hlst Hrest. simpl. split.
    + set (f := fun n => negb (Qltb (n_lst n) (n_aest_cache n))).
      set (g := fun x : nat * Q * Q * Q => negb (Qltb x.1.2 x.2)).
      assert (Hfg : forall l, forallb f l =
                forallb g (map (fun n => (static n, n_aest_cache n)) l)).
      { induction l as [| a l IHl]; [done |]. simpl. by rewrite IHl. }
      rewrite !Hfg. f_equal. apply calc_ests_cache_similar; simpl; done.
    + split; [done |]. simpl. rewrite Hr. simpl.
      by rewrite calc_ests_cache_static.
Qed.

Lemma similar_trans (r1 r2 r3 : Route) :
  similar r1 r2 -> similar r2 r3 -> similar r1 r3.
Proof. intros [H1 H2] [H3 H4]. split; congruence. Qed.

(** Once the loop has stopped at a route, it makes no step from any route
    similar to that one. *)
Lemma reduce_service_workers_loop_stable (pb : Problem) (k : nat)
    (route : Route) (reduced : Z) :
  Z.to_nat (r_workers route - 1) = k ->
  forall (r' : Route) (reduced' : Z),
    similar (reduce_service_workers_loop pb k route reduced).2 r' ->
    (reduce_service_workers_loop pb (Z.to_nat (r_workers r' - 1)) r'
       reduced').1 = reduced' /\
    r_workers (reduce_service_workers_loop pb (Z.to_nat (r_workers r' - 1))
                 r' reduced').2 = r_workers r'.
Proof.
  revert route reduced. induction k as [| k IH]; intros route reduced Hk.
  - intros r' reduced' [Hw _]. simpl in Hw. rewrite <- Hw, Hk. done.
  - intros r' reduced'. simpl.
    destruct (is_feasible_with pb route (Z.of_nat (S k)))
      as [feasible route1] eqn:Hf.
    destruct feasible.
    + apply IH. simpl. lia.
    + simpl. intros Hsim.
      destruct (is_feasible_with_similar pb route route (Z.of_nat (S k)))
        as [_ Hsim1]; [done |].
      rewrite Hf in Hsim1. simpl in Hsim1.
      assert (Hrr' : similar route r') by (by eapply similar_trans).
      destruct Hrr' as [Hw Hst]. rewrite <- Hw, Hk. simpl.
      destruct (is_feasible_with_similar pb route r' (Z.of_nat (S k)))
        as [Hfst _]; [done |].
      rewrite Hf in Hfst. simpl in Hfst.
      destruct (is_feasible_with_similar pb r' r' (Z.of_nat (S k)))
        as [_ [Hw' _]]; [done |].
      destruct (is_feasible_with pb r' (Z.of_nat (S k))) as [f' r1'].
      simpl in *. subst f'. simpl. split; [done |]. by rewrite <- Hw'.
Qed.

(** C6.  For every route, a second call of [reduce_service_workers] right
    after a first one returns 0 and leaves the worker count as the first
    call set it. *)
Theorem reduce_service_workers_idempotent (pb : Problem) (route : Route) :
  let first_call := reduce_service_workers pb route in
  let second_call := reduce_service_workers pb first_call.2 in
  second_call.1 = 0 /\ r_workers second_call.2 = r_workers first_call.2.
Proof.
  intros first_call second_call.
  assert (Hsim : similar
            (reduce_service_workers_loop pb
               (Z.to_nat (r_workers route - 1)) route 0).2 first_call.2).
  { unfold first_call, reduce_service_workers.
    destruct (reduce_service_workers_loop pb _ route 0) as [red r1]. simpl.
    destruct (negb (red =? 0)); simpl; [apply calc_lsts_similar | done]. }
  destruct (reduce_service_workers_loop_stable pb
              (Z.to_nat (r_workers route - 1)) route 0 eq_refl
              first_call.2 0 Hsim) as [H1 H2].
  unfold second_call, reduce_service_workers.
  destruct (reduce_service_workers_loop pb _ first_call.2 0) as [red r2].
  simpl in *. subst red. simpl. done.
Qed.

(** ** C9: removing a route from a solution *)

Lemma shift_routes_spec (n : nat) :
  forall (routes : list (option Route)) (i : nat),
    (i + n < length routes)%nat ->
    exists routes',
      shift_routes routes (seq i n) = Some routes' /\
      length routes' = length routes /\
      (forall j, (j < i)%nat -> routes' !! j = routes !! j) /\
      (forall j, (i <= j < i + n)%nat -> routes' !! j = routes !! S j) /\
      (forall j, (i + n <= j)%nat -> routes' !! j = routes !! j).
Proof.
  induction n as [| n IH]; intros routes i Hlen.
  - exists routes. simpl. repeat split; try done. intros j Hj. lia.
  - simpl. destruct (lookup_lt_is_Some_2 routes (S i)) as [slot Hslot];
      [lia |].
    rewrite Hslot. simpl. unfold set_slot.
    destruct (lookup_lt_is_Some_2 routes i) as [old Hold]; [lia |].
    rewrite Hold. simpl.
    destruct (IH (<[i := slot]> routes) (S i)) as (routes' & Hs & Hl & Hlo & Hmid & Hhi).
    { rewrite length_insert. lia. }
    exists routes'. split; [exact Hs |]. rewrite length_insert in Hl.
    split; [exact Hl |]. split; [| split].
    + intros j Hj. rewrite Hlo by lia. apply list_lookup_insert_ne. lia.
    + intros j Hj. destruct (decide (j = i)) as [-> | Hne].
      * rewrite Hlo by lia. rewrite list_lookup_insert_eq by lia. done.
      * rewrite Hmid by lia. apply list_lookup_insert_ne. lia.
    + intros j Hj. rewrite Hhi by lia. apply list_lookup_insert_ne. lia.
Qed.

Lemma omap_id_lookup {A : Type} (l : list (option A)) :
  Forall is_Some l ->
  length (omap id l) = length l /\
  forall k r, omap id l !! k = Some r -> l !! k = Some (Some r).
Proof.
  induction l as [| slot l IH]; intros Hall; [done |].
  inversion Hall as [| ? ? [r0 ->] Hall']; subst.
  change (omap id (Some r0 :: l)) with (r0 :: omap id l).
  destruct (IH Hall') as [Hlen Hlook]. split; [simpl; by rewrite Hlen |].
  intros [| k] r Hk; simpl in *; [by injection Hk as -> | by apply Hlook].
Qed.

Lemma live_routes_lookup (sol : Solution) :
  (forall j, (j < Z.to_nat (s_trucks sol))%nat ->
     exists r, s_routes sol !! j = Some (Some r)) ->
  length (live_routes sol) = Z.to_nat (s_trucks sol) /\
  forall k r, live_routes sol !! k = Some r ->
              s_routes sol !! k = Some (Some r).
Proof.
  intros Hlive. set (n := Z.to_nat (s_trucks sol)) in *.
  assert (Hn : (n <= length (s_routes sol))%nat).
  { destruct n as [| n']; [lia |]. destruct (Hlive n') as [r Hr]; [lia |].
    apply lookup_lt_Some in Hr. lia. }
  assert (Hall : Forall is_Some (take n (s_routes sol))).
  { apply Forall_forall. intros slot Hslot.
    apply list_elem_of_lookup in Hslot as [j Hj].
    pose proof (lookup_lt_Some _ _ _ Hj) as Hlt.
    rewrite length_take in Hlt. rewrite lookup_take_lt in Hj by lia.
    destruct (Hlive j) as [r Hr]; [lia |]. rewrite Hr in Hj.
    injection Hj as <-. by eexists. }
  destruct (omap_id_lookup _ Hall) as [Hlen Hlook]. unfold live_routes.
  fold n. split; [rewrite Hlen, length_take; lia |].
  intros k r Hk. pose proof (Hlook k r Hk) as Hk'.
  pose proof (lookup_lt_Some _ _ _ Hk') as Hlt. rewrite length_take in Hlt.
  by rewrite lookup_take_lt in Hk' by lia.
Qed.

Lemma reset_solution_loop_spec (rs : list Route) :
  forall (b : nat) (routes : list (option Route)) (unrouted : list Node)
         (freed : list Route),
    (forall k r, rs !! k = Some r ->
       routes !! (b + k)%nat = Some (Some r) /\
       (2 <= length (r_nodes r))%nat /\
       (r_len r = EMPTY <-> length (r_nodes r) = 2%nat)) ->
    exists (routes' : list (option Route)) (freed' : list Route),
      reset_solution_loop routes unrouted freed (seq b (length rs))
      = Some (routes', concat (map customers (rev rs)) ++ unrouted, freed') /\
      length freed' = (length freed + length rs)%nat /\
      map r_id freed' = map r_id freed ++ map r_id rs /\
      (Forall (fun r => length (r_nodes r) = 2%nat) freed ->
       Forall (fun r => length (r_nodes r) = 2%nat) freed') /\
      length routes' = length routes /\
      (forall j, (b <= j < b + length rs)%nat -> routes' !! j = Some None) /\
      (forall j, (j < b \/ b + length rs <= j)%nat ->
                 routes' !! j = routes !! j).
Proof.
  induction rs as [| r rs IH]; intros b routes unrouted freed Hrs.
  - exists routes, freed. simpl. split; [done |]. split; [lia |].
    split; [by rewrite app_nil_r |]. split; [done |]. split; [done |].
    split; [intros j Hj; lia | done].
  - destruct (Hrs 0%nat r eq_refl) as (Hr & Hlen & Hempty).
    rewrite Nat.add_0_r in Hr.
    assert (Hrest :
              forall k r', rs !! k = Some r' ->
                <[b := None]> routes !! (S b + k)%nat = Some (Some r') /\
                (2 <= length (r_nodes r'))%nat /\
                (r_len r' = EMPTY <-> length (r_nodes r') = 2%nat)).
    { intros k r' Hk. destruct (Hrs (S k) r' Hk) as (Hk' & H2 & H3).
      split; [| done]. rewrite list_lookup_insert_ne by lia.
      by replace (S b + k)%nat with (b + S k)%nat by lia. }
    assert (Hcust : concat (map customers (rev (r :: rs))) ++ unrouted
                    = concat (map customers (rev rs)) ++
                      customers r ++ unrouted).
    { simpl. rewrite map_app, concat_app. simpl.
      rewrite app_nil_r. by rewrite <- app_assoc. }
    rewrite Hcust.
    change (seq b (length (r :: rs))) with (b :: seq (S b) (length rs)).
    change (reset_solution_loop routes unrouted freed
              (b :: seq (S b) (length rs))) with
      (slot ← routes !! b;
       r0 ← slot;
       routes1 ← set_slot routes b None;
       if r_len r0 =? EMPTY then
         reset_solution_loop routes1 unrouted (freed ++ [r0])
           (seq (S b) (length rs))
       else
         match r_nodes r0 with
         | head :: first :: others =>
             tl ← last (first :: others);
             let cs := removelast (first :: others) in
             match cs ++ unrouted with
             | [] => None
             | unrouted' =>
                 reset_solution_loop routes1 unrouted'
                   (freed ++ [with_nodes r0 [head; tl]])
                   (seq (S b) (length rs))
             end
         | _ => None
         end).
    rewrite Hr. simpl. unfold set_slot at 1. rewrite Hr. simpl.
    destruct (r_len r =? EMPTY) eqn:E.
    + apply Z.eqb_eq in E. pose proof (proj1 Hempty E) as H2.
      assert (Hc : customers r = []).
      { unfold customers.
        destruct (r_nodes r) as [| h [| t [| x rest]]]; simpl in H2; try lia.
        done. }
      rewrite Hc. simpl.
      destruct (IH (S b) (<[b := None]> routes) unrouted (freed ++ [r])
                  Hrest)
        as (routes' & freed' & Hrun & Hfl & Hids & Hfa & Hrl & Hin & Hout).
      exists routes', freed'. split; [exact Hrun |].
      rewrite length_app in Hfl. simpl in *.
      split; [lia |].
      split; [by rewrite Hids, map_app, <- app_assoc |]. split.
      { intros Hf. apply Hfa. apply Forall_app. split; [done |].
        by apply Forall_singleton. }
      rewrite length_insert in Hrl. split; [done |]. split.
      * intros j Hj. destruct (decide (j = b)) as [-> | Hne].
        -- rewrite Hout by lia. apply list_lookup_insert_eq.
           apply lookup_lt_Some in Hr. lia.
        -- apply Hin. lia.
      * intros j Hj. rewrite Hout by lia. apply list_lookup_insert_ne. lia.
    + apply Z.eqb_neq in E.
      destruct (r_nodes r) as [| head [| first [| second others]]]
        eqn:Hnodes; simpl in Hlen; try lia.
      { exfalso. apply E, Hempty. done. }
      destruct (last (first :: second :: others)) as [tl |] eqn:Hlast;
        [| by apply last_None in Hlast].
      cbn [mbind option_bind].
      change ((first :: removelast (second :: others)) ++ unrouted)
        with (first :: removelast (second :: others) ++ unrouted).
      cbv iota.
      assert (Hc : customers r = first :: removelast (second :: others)).
      { unfold customers. by rewrite Hnodes. }
      rewrite Hc.
      destruct (IH (S b) (<[b := None]> routes)
                  ((first :: removelast (second :: others)) ++ unrouted)
                  (freed ++ [with_nodes r [head; tl]]) Hrest)
        as (routes' & freed' & Hrun & Hfl & Hids & Hfa & Hrl & Hin & Hout).
      exists routes', freed'. split; [exact Hrun |].
      rewrite length_app in Hfl. simpl in *.
      split; [lia |].
      split; [by rewrite Hids, map_app, <- app_assoc |]. split.
      { intros Hf. apply Hfa. apply Forall_app. split; [done |].
        by apply Forall_singleton. }
      rewrite length_insert in Hrl. split; [done |]. split.
      * intros j Hj. destruct (decide (j = b)) as [-> | Hne].
        -- rewrite Hout by lia. apply list_lookup_insert_eq.
           apply lookup_lt_Some in Hr. lia.
        -- apply Hin. lia.
      * intros j Hj. rewrite Hout by lia. apply list_lookup_insert_ne. lia.
Qed.

Lemma remove_route_empty (sol : Solution) (i : nat) (route : Route) :
  route_at sol i = Some route ->
  r_len route = EMPTY ->
  Z.of_nat i < s_trucks sol ->
  s_trucks sol <= Z.of_nat (length (s_routes sol)) ->
  exists routes' : list (option Route),
    remove_route sol i =
      Returns (with_routes sol routes' (s_trucks sol - 1)) [route] /\
    length routes' = length (s_routes sol) /\
    (forall j, (j < i)%nat -> routes' !! j = s_routes sol !! j) /\
    (forall j, (i <= j)%nat -> Z.of_nat j < s_trucks sol - 1 ->
               routes' !! j = s_routes sol !! S j) /\
    routes' !! Z.to_nat (s_trucks sol - 1) = Some None /\
    (forall j, s_trucks sol <= Z.of_nat j ->
               routes' !! j = s_routes sol !! j).
Proof.
  intros Hroute Hlen Hi Htrucks. unfold remove_route. rewrite Hroute.
  rewrite Hlen. simpl.
  destruct (shift_routes_spec (Z.to_nat (s_trucks sol - 1) - i)
              (s_routes sol) i) as (r1 & Hs & Hl & Hlo & Hmid & Hhi); [lia |].
  rewrite Hs.
  destruct (s_trucks sol - 1 <? 0) eqn:E; [apply Z.ltb_lt in E; lia |].
  unfold set_slot.
  destruct (lookup_lt_is_Some_2 r1 (Z.to_nat (s_trucks sol - 1)))
    as [old Hold]; [lia |].
  rewrite Hold. simpl. eexists. split; [reflexivity |].
  rewrite length_insert. split; [exact Hl |]. split; [| split; [| split]].
  - intros j Hj. rewrite list_lookup_insert_ne by lia. by apply Hlo.
  - intros j Hj1 Hj2. rewrite list_lookup_insert_ne by lia.
    apply Hmid. lia.
  - apply list_lookup_insert_eq. lia.
  - intros j Hj. rewrite list_lookup_insert_ne by lia. apply Hhi. lia.
Qed.

(** C9 (as amended).  If the route in slot [i] has a [len] other than 2,
    [remove_route] ends the program and the solution is as it was.  If its
    [len] is 2 (with [i] below [trucks] and the array at least [trucks]
    long), the call returns after handing that route to [free_route];
    [trucks] is one less, the slots below [i] are as before, the slots from
    [i] on hold what the next slot held, the slot [trucks - 1] is NULL, and
    nothing else of the solution changed.  [reset_solution], too, lowers
    the number of trucks: on a solution whose first [trucks] slots hold
    routes with both depots, those with a [len] of 2 being the ones
    without customers, it returns after handing each of these routes to
    [free_route], in the order of the slots, and leaves NULL in their slots
    and [trucks = 0]. *)
Theorem remove_route_spec (sol : Solution) (i : nat) (route : Route) :
  route_at sol i = Some route ->
  (r_len route <> EMPTY -> remove_route sol i = Exits sol) /\
  (r_len route = EMPTY ->
   Z.of_nat i < s_trucks sol ->
   s_trucks sol <= Z.of_nat (length (s_routes sol)) ->
   exists routes' : list (option Route),
     remove_route sol i =
       Returns (with_routes sol routes' (s_trucks sol - 1)) [route] /\
     length routes' = length (s_routes sol) /\
     (forall j, (j < i)%nat -> routes' !! j = s_routes sol !! j) /\
     (forall j, (i <= j)%nat -> Z.of_nat j < s_trucks sol - 1 ->
                routes' !! j = s_routes sol !! S j) /\
     routes' !! Z.to_nat (s_trucks sol - 1) = Some None /\
     (forall j, s_trucks sol <= Z.of_nat j ->
                routes' !! j = s_routes sol !! j)) /\
  (forall (sol0 : Solution) (num_nodes : Z),
     (forall j, (j < Z.to_nat (s_trucks sol0))%nat ->
        exists r, s_routes sol0 !! j = Some (Some r) /\
                  (2 <= length (r_nodes r))%nat /\
                  (r_len r = EMPTY <-> length (r_nodes r) = 2%nat)) ->
     exists (sol1 : Solution) (freed : list Route),
       reset_solution sol0 num_nodes = Returns sol1 freed /\
       s_trucks sol1 = 0 /\
       map r_id freed = map r_id (live_routes sol0) /\
       (forall j, (j < Z.to_nat (s_trucks sol0))%nat ->
                  s_routes sol1 !! j = Some None)).
Proof.
  intros Hroute. split; [| split].
  - intros Hlen. unfold remove_route. rewrite Hroute.
    apply Z.eqb_neq in Hlen. by rewrite Hlen.
  - intros Hlen Hi Htrucks. by apply remove_route_empty.
  - intros sol0 num_nodes Hok.
    destruct (live_routes_lookup sol0) as [Hlen Hlook].
    { intros j Hj. destruct (Hok j Hj) as (r & Hr & _). by exists r. }
    destruct (reset_solution_loop_spec (live_routes sol0) 0 (s_routes sol0)
                (s_unrouted sol0) [])
      as (routes' & freed & Hrun & _ & Hids & _ & _ & Hin & _).
    { intros k r Hk. pose proof (Hlook k r Hk) as Hslot.
      pose proof (lookup_lt_Some _ _ _ Hk) as Hlt. rewrite Hlen in Hlt.
      destruct (Hok k Hlt) as (r' & Hr' & H2 & H3).
      rewrite Hslot in Hr'. injection Hr' as <-. done. }
    rewrite Hlen in Hrun, Hin.
    unfold reset_solution. rewrite Hrun.
    eexists _, freed. split; [reflexivity |]. simpl.
    split; [done |]. split; [done |].
    intros j Hj. apply Hin. lia.
Qed.

Lemma remove_route_spec_witness :
  exists routes' : list (option Route),
    remove_route ex_sol_emptied 0 =
      Returns (with_routes ex_sol_emptied routes' 1) [ex_route_empty] /\
    routes' !! 0%nat = Some (Some ex_route) /\
    routes' !! 1%nat = Some None.
Proof.
  destruct (remove_route_spec ex_sol_emptied 0 ex_route_empty eq_refl)
    as (_ & H & _).
  destruct H as (routes' & Hr & _ & _ & Hmid & Hlast & _).
  - reflexivity.
  - vm_compute. reflexivity.
  - vm_compute. discriminate.
  - exists routes'. split; [exact Hr |]. split; [| exact Hlast].
    rewrite Hmid; [reflexivity | lia | vm_compute; reflexivity].
Defined.

(** C9, the last clause of the claim as stated fails: [reset_solution]
    lowers the number of trucks of a solution from 1 to 0 without a call
    of [remove_route]. *)
Lemma reset_solution_lowers_trucks :
  s_trucks ex_sol = 1 /\
  match reset_solution ex_sol 3 with
  | Returns sol' freed => Some (s_trucks sol', s_unrouted sol', length freed)
  | _ => None
  end = Some (0, [ex_node1; ex_node2], 1%nat).
Proof. split; reflexivity. Qed.

Lemma update_pheromone_lower_bound_witness :
  exists p' : list (list Q),
    update_pheromone ex_pb ex_pheromone ex_sol = Some p' /\
    forall i j : nat,
      (1 <= i < 5)%nat -> (1 <= j < 5)%nat ->
      exists v : Q,
        mget p' i j = Some v /\ (cfg_min_pheromone ex_cfg <= v)%Q.
Proof.
  apply (update_pheromone_lower_bound ex_pb ex_pheromone ex_sol).
  - vm_compute. discriminate.
  - vm_compute. discriminate.
  - vm_compute. reflexivity.
  - reflexivity.
  - repeat constructor.
  - intros r Hr. assert (r = 0%nat) as -> by (vm_compute in Hr; lia).
    exists ex_route. split; [reflexivity |]. split; [simpl; lia |].
    split; [repeat constructor; simpl; lia | simpl; lia].
Defined.

(** The worker count of a route with three workers goes down to one, and
    the second call finds nothing to remove. *)
Example reduce_service_workers_example :
  let r3 := {| r_id := 0; r_depot_id := 3;
               r_nodes := [ex_depot; ex_node1; ex_depot];
               r_len := 3; r_load := 10; r_workers := 3 |} in
  (reduce_service_workers ex_pb r3).1 = 1 /\
  r_workers (reduce_service_workers ex_pb r3).2 = 1 /\
  (reduce_service_workers ex_pb (reduce_service_workers ex_pb r3).2).1 = 0.
Proof. repeat split. Qed.

(** ** C10: performing a move that empties its source route *)

Lemma zsum_app (f : nat -> Z) (l1 l2 : list nat) :
  zsum f (l1 ++ l2) = zsum f l1 + zsum f l2.
Proof.
  unfold zsum. induction l1 as [| j l1 IH]; simpl; [done |].
  rewrite IH. lia.
Qed.

Lemma zsum_ext (f g : nat -> Z) (l : list nat) :
  (forall j, j ∈ l -> f j = g j) -> zsum f l = zsum g l.
Proof.
  unfold zsum. induction l as [| j l IH]; intros H; simpl; [done |].
  rewrite H by left. rewrite IH; [done |]. intros j' Hj'. apply H. by right.
Qed.

Lemma zsum_shift (f : nat -> Z) (b n : nat) :
  zsum (fun j => f (S j)) (seq b n) = zsum f (seq (S b) n).
Proof.
  unfold zsum. revert b. induction n as [| n IH]; intros b; simpl; [done |].
  by rewrite IH.
Qed.

Lemma calc_workers_loop_sum (sol : Solution) (indices : list nat) :
  forall acc : Z,
    (forall j, j ∈ indices -> is_Some (route_at sol j)) ->
    calc_workers_loop sol acc indices =
    Some (acc + zsum (workers_at (s_routes sol)) indices).
Proof.
  induction indices as [| i rest IH]; intros acc Hall; simpl.
  - f_equal. unfold zsum. simpl. lia.
  - destruct (Hall i) as [r Hr]; [left |]. rewrite Hr. simpl.
    rewrite IH by (intros j Hj; apply Hall; by right).
    f_equal. unfold zsum at 2. simpl. fold (zsum (workers_at (s_routes sol)) rest).
    unfold workers_at at 2. unfold route_at in Hr.
    destruct (s_routes sol !! i) as [[r' |] |]; simpl in Hr; try done.
    injection Hr as ->. lia.
Qed.

Lemma lookup_route_from_Some (routes : list (option Route)) (id : nat) :
  forall (base i : nat) (r : Route),
    lookup_route_from routes id base = Some (i, r) ->
    exists k, i = (base + k)%nat /\ routes !! k = Some (Some r) /\
              r_id r = id /\
              forall j r', (j < k)%nat -> routes !! j = Some (Some r') ->
                           r_id r' <> id.
Proof.
  induction routes as [| slot rest IH]; intros base i r H; [done |].
  simpl in H. destruct slot as [r0 |].
  - destruct (Nat.eqb (r_id r0) id) eqn:E.
    + injection H as <- <-. exists 0%nat. apply Nat.eqb_eq in E.
      split; [lia |]. split; [done |]. split; [done |]. intros j r' Hj. lia.
    + apply IH in H as (k & -> & Hk & Hid & Hbefore). exists (S k).
      split; [lia |]. split; [done |]. split; [done |].
      intros j r' Hj Hr'. destruct j as [| j].
      * simpl in Hr'. injection Hr' as <-. by apply Nat.eqb_neq.
      * apply (Hbefore j); [lia | done].
  - apply IH in H as (k & -> & Hk & Hid & Hbefore). exists (S k).
    split; [lia |]. split; [done |]. split; [done |].
    intros j r' Hj Hr'. destruct j as [| j]; [done |].
    apply (Hbefore j); [lia | done].
Qed.

Lemma lookup_route_from_intro (routes : list (option Route)) (id : nat) :
  forall (base k : nat) (r : Route),
    routes !! k = Some (Some r) -> r_id r = id ->
    (forall j r', (j < k)%nat -> routes !! j = Some (Some r') ->
                  r_id r' <> id) ->
    lookup_route_from routes id base = Some ((base + k)%nat, r).
Proof.
  induction routes as [| slot rest IH]; intros base k r Hk Hid Hbefore;
    [done |].
  destruct k as [| k].
  - simpl in Hk. injection Hk as ->. simpl.
    apply Nat.eqb_eq in Hid. rewrite Hid. do 2 f_equal. lia.
  - simpl in Hk. simpl. destruct slot as [r0 |].
    + assert (Hne : r_id r0 <> id) by (apply (Hbefore 0%nat); [lia | done]).
      apply Nat.eqb_neq in Hne. rewrite Hne.
      rewrite (IH (S base) k r Hk Hid).
      * do 2 f_equal. lia.
      * intros j r' Hj Hr'. apply (Hbefore (S j)); [lia | done].
    + rewrite (IH (S base) k r Hk Hid).
      * do 2 f_equal. lia.
      * intros j r' Hj Hr'. apply (Hbefore (S j)); [lia | done].
Qed.

Lemma lookup_route_from_None (routes : list (option Route)) (id : nat) :
  forall base : nat,
    (forall j r', routes !! j = Some (Some r') -> r_id r' <> id) ->
    lookup_route_from routes id base = None.
Proof.
  induction routes as [| slot rest IH]; intros base Hall; [done |].
  simpl. destruct slot as [r0 |].
  - assert (Hne : r_id r0 <> id) by (by apply (Hall 0%nat)).
    apply Nat.eqb_neq in Hne. rewrite Hne. apply IH.
    intros j r' Hr'. by apply (Hall (S j)).
  - apply IH. intros j r' Hr'. by apply (Hall (S j)).
Qed.

Lemma get_route_index_loop_found (sol : Solution) (id si : nat) (r : Route) :
  route_at sol si = Some r -> r_id r = id ->
  (forall j, (j < si)%nat ->
     exists r', route_at sol j = Some r' /\ r_id r' <> id) ->
  forall n b, (b <= si < b + n)%nat ->
    get_route_index_loop sol id (seq b n) = Returns sol si.
Proof.
  intros Hsi Hid Hbefore. induction n as [| n IH]; intros b Hb; [lia |].
  simpl. destruct (decide (b = si)) as [-> | Hne].
  - rewrite Hsi. apply Nat.eqb_eq in Hid. by rewrite Hid.
  - destruct (Hbefore b) as (r' & Hr' & Hne'); [lia |].
    rewrite Hr'. apply Nat.eqb_neq in Hne'. rewrite Hne'. apply IH. lia.
Qed.

Lemma calc_ests_fields (pb : Problem) (route : Route) (pos : nat)
    (workers : Z) :
  r_id (calc_ests pb route pos workers) = r_id route /\
  r_workers (calc_ests pb route pos workers) = r_workers route /\
  r_len (calc_ests pb route pos workers) = r_len route.
Proof.
  unfold calc_ests. destruct pos as [| before].
  - destruct (r_nodes route) as [| head rest]; [done |].
    by destruct (r_workers route =? workers).
  - by destruct (r_nodes route !! before).
Qed.

Lemma calc_lsts_fields (pb : Problem) (route : Route) (pos : nat)
    (workers : Z) :
  r_id (calc_lsts pb route pos workers) = r_id route /\
  r_workers (calc_lsts pb route pos workers) = r_workers route /\
  r_len (calc_lsts pb route pos workers) = r_len route.
Proof.
  unfold calc_lsts. destruct (Nat.eqb _ _).
  - by destruct (rev (r_nodes route)).
  - by destruct (r_nodes route !! S pos).
Qed.

Lemma add_nodes_fields (pb : Problem) (r : Route) (run : list Node)
    (after : nat) :
  r_id (add_nodes pb r run after) = r_id r /\
  r_workers (add_nodes pb r run after) = r_workers r.
Proof.
  unfold add_nodes.
  destruct (calc_lsts_fields pb
              (calc_ests pb (add_nodes_noupdate r run after) (S after)
                 (r_workers (add_nodes_noupdate r run after)))
              (after + length run)
              (r_workers
                 (calc_ests pb (add_nodes_noupdate r run after) (S after)
                    (r_workers (add_nodes_noupdate r run after)))))
    as (H1 & H2 & _).
  destruct (calc_ests_fields pb (add_nodes_noupdate r run after) (S after)
              (r_workers (add_nodes_noupdate r run after)))
    as (H3 & H4 & _).
  rewrite H1, H2, H3, H4. done.
Qed.

Lemma solution_wf_slots (sol : Solution) :
  solution_wf sol ->
  (forall j, (j < Z.to_nat (s_trucks sol))%nat ->
     exists r, s_routes sol !! j = Some (Some r)) /\
  (forall j r, s_routes sol !! j = Some (Some r) ->
     (j < Z.to_nat (s_trucks sol))%nat).
Proof.
  intros (H0 & Hlen & Hlive & Hnull & _). split.
  - intros j Hj.
    destruct (lookup_lt_is_Some_2 (s_routes sol) j) as [slot Hslot]; [lia |].
    rewrite Forall_forall in Hlive.
    destruct (Hlive slot) as [r ->]; [| by exists r].
    eapply list_elem_of_lookup_2. rewrite lookup_take_lt by done. exact Hslot.
  - intros j r Hj.
    destruct (decide (j < Z.to_nat (s_trucks sol))%nat) as [| Hge]; [done |].
    rewrite Forall_forall in Hnull.
    assert (Some r = (None : option Route)); [| done].
    apply Hnull. eapply (list_elem_of_lookup_2 _ (j - Z.to_nat (s_trucks sol))).
    rewrite lookup_drop. rewrite <- Hj. f_equal. lia.
Qed.

Lemma solution_wf_ids (sol : Solution) (i j : nat) (r r' : Route) :
  solution_wf sol ->
  s_routes sol !! i = Some (Some r) -> s_routes sol !! j = Some (Some r') ->
  r_id r = r_id r' -> i = j.
Proof.
  intros Hwf Hi Hj Hid.
  destruct (solution_wf_slots sol Hwf) as [_ Hlt].
  pose proof (Hlt i r Hi) as Hi'. pose proof (Hlt j r' Hj) as Hj'.
  destruct Hwf as (_ & Hlen & Hlive & _ & Hnd).
  set (n := Z.to_nat (s_trucks sol)) in *.
  assert (Hall : forall l : list (option Route),
            Forall (fun slot => is_Some slot) l ->
            forall k rk, l !! k = Some (Some rk) ->
                         omap (fmap r_id) l !! k = Some (r_id rk)).
  { induction l as [| slot l IH]; intros Hl k rk Hk; [done |].
    inversion Hl as [| ? ? [r0 ->] Hl']; subst. simpl.
    destruct k as [| k]; simpl in *; [by injection Hk as -> | by apply IH]. }
  eapply (NoDup_lookup _ i j (r_id r) Hnd).
  - apply Hall; [done |]. by rewrite lookup_take_lt.
  - rewrite Hid. apply Hall; [done |]. by rewrite lookup_take_lt.
Qed.

Lemma perform_move_truck_saving (pb : Problem) (sol : Solution)
    (tl : Tabulist) (m : Move) (first last after sid tid si ti : nat)
    (source target : Route) :
  solution_wf sol ->
  m_first m = Some first -> m_last m = Some last -> m_after m = Some after ->
  m_source m = Some sid -> m_target m = Some tid ->
  m_delta_trucks m <> 0 ->
  lookup_route sol sid = Some (si, source) ->
  lookup_route sol tid = Some (ti, target) ->
  sid <> tid ->
  let run := run_of (r_nodes source) first last in
  r_len source = EMPTY + Z.of_nat (length run) ->
  (tl_active tl = false \/
   (run <> [] /\
    Forall (fun k => is_Some (mget (tl_nodes_routes tl) k sid))
           (map n_id run))) ->
  exists (sol' : Solution) (tl' : Tabulist) (ti' : nat) (W : Z),
    perform_move pb sol tl m =
      Returns sol' (tl', init_move (m_improving m),
                    [remove_nodes_noupdate source first last]) /\
    update_tabulist_move tl (map n_id run) sid = Some tl' /\
    s_trucks sol' = s_trucks sol - 1 /\
    lookup_route sol' sid = None /\
    lookup_route sol' tid = Some (ti', add_nodes pb target run after) /\
    calc_workers sol = Some W /\
    calc_workers sol' = Some (W - r_workers source).
Proof.
  intros Hwf Hfirst Hlast Hafter Hsrc Htgt Hdt Hls Hlt Hne run Hlen Htabu.
  destruct (solution_wf_slots sol Hwf) as [Hlive Hbound].
  pose proof Hwf as (HT0 & Hcap & _).
  set (R := s_routes sol) in *. set (n := Z.to_nat (s_trucks sol)) in *.
  pose proof Hls as Hls0. pose proof Hlt as Hlt0.
  unfold lookup_route in Hls, Hlt.
  apply lookup_route_from_Some in Hls as (k & -> & Hsi & Hsid & Hsbefore).
  apply lookup_route_from_Some in Hlt as (k' & -> & Hti & Htid & Htbefore).
  simpl in *. fold R in Hsi, Hti, Hsbefore, Htbefore.
  rename k into si. rename k' into ti.
  pose proof (Hbound si source Hsi) as Hsin.
  pose proof (Hbound ti target Hti) as Htin.
  assert (Hsiti : si <> ti).
  { intros ->. rewrite Hsi in Hti. injection Hti as ->. congruence. }
  (* the tabu list *)
  assert (Htl : exists tl', update_tabulist_move tl (map n_id run) sid =
                            Some tl').
  { destruct Htabu as [Hoff | [Hrun Hrange]].
    - exists tl. unfold update_tabulist_move. by rewrite Hoff.
    - destruct (tl_active tl) eqn:Hact.
      + destruct (update_tabulist_move_spec tl (map n_id run) sid Hact)
          as (tl1 & Htl1 & _); [| done | by exists tl1].
        intros Hnil. apply map_eq_nil in Hnil. done.
      + exists tl. unfold update_tabulist_move. by rewrite Hact. }
  destruct Htl as [tl' Htl'].
  set (source' := remove_nodes_noupdate source first last).
  set (sol1 := store_route sol si source').
  assert (Hr1 : forall j, j <> si -> s_routes sol1 !! j = R !! j).
  { intros j Hj. unfold sol1, store_route. simpl. fold R.
    by rewrite list_lookup_insert_ne. }
  assert (Hr1si : s_routes sol1 !! si = Some (Some source')).
  { unfold sol1, store_route. simpl. fold R.
    apply list_lookup_insert_eq. lia. }
  assert (Hidx : get_route_index sol1 (r_id source) = Returns sol1 si).
  { unfold get_route_index.
    apply (get_route_index_loop_found sol1 (r_id source) si source').
    - unfold route_at. by rewrite Hr1si.
    - done.
    - intros j Hj. destruct (Hlive j) as [r' Hr']; [lia |].
      exists r'. split.
      + unfold route_at. rewrite Hr1 by lia. fold R in Hr'. by rewrite Hr'.
      + rewrite Hsid. apply (Hsbefore j r'); [lia | done].
    - simpl. fold n. lia. }
  destruct (remove_route_empty sol1 si source')
    as (R2 & Hrm & HlenR2 & Hlo & Hmid & Hnull & Hhi).
  { unfold route_at. by rewrite Hr1si. }
  { unfold source', remove_nodes_noupdate. simpl. fold run. lia. }
  { simpl. lia. }
  { simpl. rewrite length_insert. fold R. lia. }
  simpl in Hrm, HlenR2, Hlo, Hmid, Hnull, Hhi.
  rewrite length_insert in HlenR2. fold R in HlenR2.
  (* every route left in the array comes from a slot other than [si] *)
  assert (Hslots : forall j r', R2 !! j = Some (Some r') ->
            exists j0, j0 <> si /\ R !! j0 = Some (Some r') /\
                       (j0 < n)%nat /\
                       j0 = if decide (j < si)%nat then j else S j).
  { intros j r' Hj. destruct (decide (j < si)%nat) as [Hjs | Hjs].
    - exists j. rewrite Hlo in Hj by done.
      fold (s_routes sol1) in Hj. rewrite Hr1 in Hj by lia.
      repeat split; try done; try lia; try (by apply (Hbound j r')).
    - destruct (decide (Z.of_nat j < s_trucks sol - 1)) as [Hjn | Hjn].
      + exists (S j). rewrite Hmid in Hj by lia.
        fold (s_routes sol1) in Hj. rewrite Hr1 in Hj by lia.
        repeat split; try done; try lia.
      + destruct (decide (j = Z.to_nat (s_trucks sol - 1))) as [-> | Hjl].
        * rewrite Hnull in Hj. done.
        * rewrite Hhi in Hj by lia.
          fold (s_routes sol1) in Hj. rewrite Hr1 in Hj by lia.
          apply Hbound in Hj. fold n in Hj. lia. }
  set (ti' := if decide (ti < si)%nat then ti else (ti - 1)%nat).
  assert (Hti' : R2 !! ti' = Some (Some target)).
  { unfold ti'. destruct (decide (ti < si)%nat) as [Hts | Hts].
    - rewrite Hlo by done. fold (s_routes sol1). by rewrite Hr1.
    - rewrite Hmid by lia. fold (s_routes sol1).
      rewrite Hr1 by lia. rewrite <- Hti. f_equal. lia. }
  assert (Htbefore' : forall j r', (j < ti')%nat ->
            R2 !! j = Some (Some r') -> r_id r' <> tid).
  { intros j r' Hj Hr'. destruct (Hslots j r' Hr') as (j0 & _ & Hj0 & _ & Hdef).
    apply (Htbefore j0 r'); [| done]. unfold ti' in Hj.
    destruct (decide (j < si)%nat); destruct (decide (ti < si)%nat); lia. }
  set (target' := add_nodes pb target run after).
  destruct (add_nodes_fields pb target run after) as [Hidt Hwt].
  fold target' in Hidt, Hwt.
  set (sol2 := with_routes sol1 R2 (s_trucks sol - 1)).
  set (sol3 := store_route sol2 ti' target').
  assert (HR3 : s_routes sol3 = <[ti' := Some target']> R2) by done.
  assert (Hti'len : (ti' < length R2)%nat) by (by eapply lookup_lt_Some).
  exists sol3, tl', ti', (zsum (workers_at R) (seq 0 n)).
  split; [| split; [exact Htl' |]; split; [done |]; split; [| split; [| split]]].
  - unfold perform_move.
    rewrite Hfirst, Hlast, Hafter, Hsrc, Htgt, Hls0. fold run.
    rewrite Hsid, Htl'.
    apply Z.eqb_neq in Hdt. rewrite Hdt. simpl negb. cbv iota.
    fold source'. fold sol1. rewrite <- Hsid at 1. rewrite Hidx.
    rewrite Hrm.
    fold sol2. unfold lookup_route. simpl.
    rewrite (lookup_route_from_intro R2 tid 0 ti' target Hti' Htid Htbefore').
    done.
  - unfold lookup_route. rewrite HR3. apply lookup_route_from_None.
    intros j r' Hr'. destruct (decide (j = ti')) as [-> | Hjt].
    + rewrite list_lookup_insert_eq in Hr' by done. injection Hr' as <-.
      congruence.
    + rewrite list_lookup_insert_ne in Hr' by done.
      destruct (Hslots j r' Hr') as (j0 & Hj0 & Hr0 & _ & _).
      intros Heq. apply Hj0.
      apply (solution_wf_ids sol j0 si r' source Hwf); [done | done |].
      congruence.
  - unfold lookup_route. rewrite HR3.
    rewrite (lookup_route_from_intro (<[ti' := Some target']> R2) tid 0 ti'
               target'); [done | | congruence |].
    + by apply list_lookup_insert_eq.
    + intros j r' Hj Hr'. rewrite list_lookup_insert_ne in Hr' by lia.
      by apply (Htbefore' j r').
  - unfold calc_workers. rewrite calc_workers_loop_sum; [done |].
    intros j Hj. apply elem_of_seq in Hj. destruct (Hlive j) as [r' Hr']; [lia |].
    unfold route_at. fold R. rewrite Hr'. by eexists.
  - unfold calc_workers. simpl s_trucks.
    assert (Hval : forall j, (j < n - 1)%nat ->
              exists r', s_routes sol3 !! j = Some (Some r') /\
                r_workers r' =
                workers_at R (if decide (j < si)%nat then j else S j)).
    { intros j Hj. rewrite HR3. destruct (decide (j = ti')) as [-> | Hjt].
      - exists target'. split; [by apply list_lookup_insert_eq |].
        rewrite Hwt. unfold ti'. unfold workers_at.
        destruct (decide (ti < si)%nat) as [Hts | Hts].
        + destruct (decide (ti < si)%nat); [| lia]. by rewrite Hti.
        + destruct (decide (ti - 1 < si)%nat); [lia |].
          replace (S (ti - 1)) with ti by lia. by rewrite Hti.
      - rewrite list_lookup_insert_ne by done.
        destruct (decide (j < si)%nat) as [Hjs | Hjs].
        + destruct (Hlive j) as [r' Hr']; [lia |]. exists r'.
          rewrite Hlo by done. fold (s_routes sol1). rewrite Hr1 by lia.
          split; [done |]. unfold workers_at. fold R in Hr'. by rewrite Hr'.
        + destruct (Hlive (S j)) as [r' Hr']; [lia |]. exists r'.
          rewrite Hmid by lia. fold (s_routes sol1). rewrite Hr1 by lia.
          split; [done |]. unfold workers_at. fold R in Hr'. by rewrite Hr'. }
    rewrite calc_workers_loop_sum.
    + f_equal. replace (Z.to_nat (s_trucks sol - 1)) with (n - 1)%nat by lia.
      rewrite (zsum_ext _
                 (fun j => workers_at R (if decide (j < si)%nat then j else S j))).
      * assert (HW : zsum (workers_at R) (seq 0 n) =
                     zsum (workers_at R) (seq 0 si) + r_workers source +
                     zsum (workers_at R) (seq (S si) (n - 1 - si))).
        { replace n with (si + S (n - 1 - si))%nat at 1 by lia.
          rewrite seq_app, zsum_app. simpl. unfold zsum at 2. simpl.
          fold (zsum (workers_at R) (seq (S si) (n - 1 - si))).
          unfold workers_at at 2. rewrite Hsi. lia. }
        rewrite HW.
        replace (n - 1)%nat with (si + (n - 1 - si))%nat at 1 by lia.
        rewrite seq_app, zsum_app. simpl.
        rewrite (zsum_ext _ (workers_at R) (seq 0 si)).
        -- rewrite (zsum_ext _ (fun j => workers_at R (S j))
                      (seq si (n - 1 - si))).
           ++ rewrite zsum_shift. lia.
           ++ intros j Hj. apply elem_of_seq in Hj.
              destruct (decide (j < si)%nat); [lia | done].
        -- intros j Hj. apply elem_of_seq in Hj.
           destruct (decide (j < si)%nat); [done | lia].
      * intros j Hj. apply elem_of_seq in Hj.
        destruct (Hval j) as (r' & Hr' & Hw); [lia |].
        unfold workers_at at 1. by rewrite Hr'.
    + intros j Hj. apply elem_of_seq in Hj. simpl in Hj.
      destruct (Hval j) as (r' & Hr' & _); [lia |].
      unfold route_at. rewrite Hr'. by eexists.
Qed.

(** ** C7: a clone is a deep copy *)

Lemma s_malloc_spec (h : gmap nat cell) (c : cell) (l : nat)
    (h' : gmap nat cell) :
  s_malloc h c = (l, h') ->
  (l ∉ dom h) /\ h !! l = None /\ h' = <[l := c]> h.
Proof.
  unfold s_malloc. intros [= <- <-].
  pose proof (is_fresh (dom h)) as Hf.
  split; [exact Hf |]. split; [| done]. by apply not_elem_of_dom.
Qed.

Lemma clone_node_spec (h : gmap nat cell) (n : nat) (cn : node_cell) :
  h !! n = Some (CNode cn) ->
  exists c : nat,
    clone_node h n =
      Some (c, <[c := CNode {| nc_data := cloned_node (nc_data cn);
                               nc_prev := None; nc_next := None |}]> h) /\
    (c ∉ dom h) /\ h !! c = None.
Proof.
  intros Hn. unfold clone_node, get_node. rewrite Hn. simpl.
  destruct (s_malloc h (CNode {| nc_data := cloned_node (nc_data cn);
                                 nc_prev := None; nc_next := None |}))
    as [c h'] eqn:Hm.
  apply s_malloc_spec in Hm as (Hf & Hnone & ->). by exists c.
Qed.

Lemma dll_frame (cells : list (nat * Node)) :
  forall (h h' : gmap nat cell) (p prev : option nat),
    dll h p prev cells ->
    (forall l, l ∈ map fst cells -> h' !! l = h !! l) ->
    dll h' p prev cells.
Proof.
  induction cells as [| [l d] rest IH]; intros h h' p prev Hd Hsame; [done |].
  destruct Hd as (-> & nx & Hl & Hrest). split; [done |]. exists nx. split.
  - rewrite Hsame; [done |]. simpl. left.
  - apply (IH h); [done |]. intros l' Hl'. apply Hsame. simpl. by right.
Qed.

Lemma dll_dom (cells : list (nat * Node)) :
  forall (h : gmap nat cell) (p prev : option nat),
    dll h p prev cells -> forall l, l ∈ map fst cells -> l ∈ dom h.
Proof.
  induction cells as [| [l d] rest IH]; intros h p prev Hd l' Hl'.
  - by inversion Hl'.
  - destruct Hd as (-> & nx & Hl & Hrest). simpl in Hl'.
    apply elem_of_cons in Hl' as [-> | Hl'].
    + apply elem_of_dom. by eexists.
    + by apply (IH h nx (Some l)).
Qed.

(** Linking a new last node behind the last node [t] of a chain. *)
Lemma dll_snoc (cells : list (nat * Node)) :
  forall (h h' : gmap nat cell) (p prev : option nat) (t : nat) (dt : Node)
         (c : nat) (d : Node),
    dll h p prev (cells ++ [(t, dt)]) ->
    NoDup (map fst (cells ++ [(t, dt)])) ->
    (forall l, l ∈ map fst cells -> h' !! l = h !! l) ->
    (forall ct, h !! t = Some (CNode ct) ->
       h' !! t = Some (CNode {| nc_data := nc_data ct;
                                nc_prev := nc_prev ct;
                                nc_next := Some c |})) ->
    h' !! c = Some (CNode {| nc_data := d; nc_prev := Some t;
                             nc_next := None |}) ->
    dll h' p prev (cells ++ [(t, dt); (c, d)]).
Proof.
  induction cells as [| [l dl] rest IH];
    intros h h' p prev t dt c d Hd Hnd Hsame Ht Hc.
  - simpl in *. destruct Hd as (-> & nx & Hl & ->). split; [done |].
    exists (Some c). split; [by apply (Ht _ Hl) |]. split; [done |].
    exists None. by split.
  - simpl in *. destruct Hd as (-> & nx & Hl & Hrest). split; [done |].
    exists nx. split; [rewrite Hsame; [done | left] |].
    apply NoDup_cons in Hnd as [_ Hnd].
    apply (IH h); try done. intros l' Hl'. apply Hsame. by right.
Qed.

(** The loop over the unrouted chain: [rest] is what is left of the
    original chain, [built ++ [(t, dt)]] the chain cloned so far. *)
Lemma clone_unrouted_loop_spec (rest : list (nat * Node)) :
  forall (fuel : nat) (h : gmap nat cell) (n prevp : option nat)
         (built : list (nat * Node)) (t : nat) (dt : Node)
         (hd prevh : option nat),
    (length rest <= fuel)%nat ->
    dll h n prevp rest ->
    t ∉ map fst rest ->
    dll h hd prevh (built ++ [(t, dt)]) ->
    NoDup (map fst (built ++ [(t, dt)])) ->
    exists (h' : gmap nat cell) (new_locs : list nat),
      clone_unrouted_loop fuel h n t = Some h' /\
      length new_locs = length rest /\
      dll h' hd prevh
          (built ++ (t, dt) :: zip new_locs (map cloned_node (map snd rest))) /\
      NoDup (map fst built ++ t :: new_locs) /\
      (forall l, l ∈ new_locs -> l ∉ dom h) /\
      (forall l, l ∈ dom h -> l <> t -> h' !! l = h !! l) /\
      (forall l, l ∈ dom h -> l ∈ dom h').
Proof.
  induction rest as [| [nl d] rest IH];
    intros fuel h n prevp built t dt hd prevh Hfuel Hrest Ht Hbuilt Hnd.
  - simpl in Hrest. subst n. exists h, []. simpl.
    split; [by destruct fuel |]. split; [done |]. split; [done |].
    rewrite map_app in Hnd. simpl in Hnd.
    split; [done |]. split; [intros l Hl; by inversion Hl |]. by split.
  - destruct Hrest as (-> & nx & Hnl & Hrest').
    destruct fuel as [| fuel]; [simpl in Hfuel; lia |].
    simpl in Hfuel.
    destruct (clone_node_spec h nl _ Hnl) as (c & Hclone & Hcf & Hcnone).
    simpl in Hclone.
    set (h1 := <[c := CNode {| nc_data := cloned_node d; nc_prev := None;
                               nc_next := None |}]> h) in *.
    assert (Htdom : t ∈ dom h).
    { apply (dll_dom _ _ _ _ Hbuilt). rewrite map_app. simpl.
      apply elem_of_app. right. left. }
    assert (Htc : t <> c) by (intros ->; done).
    apply elem_of_dom in Htdom as [ct0 Hct0].
    assert (Hct : exists ct, h !! t = Some (CNode ct)).
    { clear -Hbuilt Hct0. revert hd prevh Hbuilt.
      induction built as [| [l dl] built IHb]; intros hd prevh Hbuilt.
      - simpl in Hbuilt. destruct Hbuilt as (_ & nx & Hl & _). by eexists.
      - simpl in Hbuilt. destruct Hbuilt as (_ & nx & _ & Hb). by eapply IHb. }
    destruct Hct as [ct Hct].
    set (h2 := <[t := CNode {| nc_data := nc_data ct; nc_prev := nc_prev ct;
                               nc_next := Some c |}]> h1).
    set (h3 := <[c := CNode {| nc_data := cloned_node d; nc_prev := Some t;
                               nc_next := None |}]> h2).
    assert (Hnlc : nl <> c).
    { intros ->. apply Hcf. apply elem_of_dom. by eexists. }
    assert (Hnlt : nl <> t).
    { intros ->. apply Ht. simpl. left. }
    assert (Hh3 : forall l, l <> c -> l <> t -> h3 !! l = h !! l).
    { intros l Hlc Hlt. unfold h3, h2, h1.
      rewrite lookup_insert_ne by done. rewrite lookup_insert_ne by done.
      by rewrite lookup_insert_ne. }
    assert (Hdom3 : forall l, l ∈ dom h -> l ∈ dom h3).
    { intros l Hl. unfold h3, h2, h1. rewrite !dom_insert. set_solver. }
    destruct (IH fuel h3 nx (Some nl) (built ++ [(t, dt)]) c (cloned_node d)
                hd prevh)
      as (h' & new_locs & Hloop & Hlen & Hdll & Hnd' & Hfresh & Hsame & Hdom').
    + lia.
    + apply (dll_frame _ h); [done |]. intros l Hl. apply Hh3.
      * intros ->. apply Hcf. by apply (dll_dom _ _ _ _ Hrest').
      * intros ->. apply Ht. simpl. by right.
    + intros Hc. apply Hcf. by apply (dll_dom _ _ _ _ Hrest').
    + rewrite <- app_assoc. simpl.
      apply (dll_snoc built h h3 hd prevh t dt c (cloned_node d)); try done.
      * intros l Hl. apply Hh3.
        -- intros ->. apply Hcf. apply (dll_dom _ _ _ _ Hbuilt).
           rewrite map_app. apply elem_of_app. by left.
        -- intros ->. rewrite map_app in Hnd. apply NoDup_app in Hnd.
           destruct Hnd as (_ & Hnd & _). apply (Hnd t Hl). simpl. left.
      * intros ct' Hct'. rewrite Hct in Hct'. injection Hct' as <-.
        unfold h3. rewrite lookup_insert_ne by done. unfold h2.
        by rewrite lookup_insert_eq.
      * unfold h3. by rewrite lookup_insert_eq.
    + rewrite map_app. simpl. apply NoDup_app. split; [done |]. split.
      * intros l Hl Hlc. apply list_elem_of_singleton in Hlc as ->.
        apply Hcf. by apply (dll_dom _ _ _ _ Hbuilt).
      * apply NoDup_singleton.
    + exists h', (c :: new_locs). split.
      { assert (E1 : set_next h1 t (Some c) = Some h2).
        { unfold set_next, get_node, h1. rewrite lookup_insert_ne by done.
          by rewrite Hct. }
        assert (E2 : set_prev h2 c (Some t) = Some h3).
        { unfold set_prev, get_node, h2. rewrite lookup_insert_ne by done.
          unfold h1. by rewrite lookup_insert_eq. }
        assert (E3 : get_node h3 nl
                     = Some {| nc_data := d; nc_prev := prevp;
                               nc_next := nx |}).
        { unfold get_node. rewrite Hh3 by done. by rewrite Hnl. }
        change (clone_unrouted_loop (S fuel) h (Some nl) t) with
          ('(c0, h0) ← clone_node h nl;
           h4 ← set_next h0 t (Some c0);
           h5 ← set_prev h4 c0 (Some t);
           cell ← get_node h5 nl;
           clone_unrouted_loop fuel h5 (nc_next cell) c0).
        rewrite Hclone. simpl. rewrite E1. simpl. rewrite E2. simpl.
        rewrite E3. simpl. exact Hloop. }
      split; [simpl; by rewrite Hlen |]. split.
      { rewrite <- app_assoc in Hdll. simpl in Hdll. exact Hdll. }
      split.
      { rewrite map_app in Hnd'. simpl in Hnd'.
        rewrite <- app_assoc in Hnd'. exact Hnd'. }
      split.
      { intros l Hl. apply elem_of_cons in Hl as [-> | Hl]; [done |].
        intros Hld. apply (Hfresh l Hl). by apply Hdom3. }
      split.
      { intros l Hl Hlt. rewrite Hsame.
        - apply Hh3; [| done]. intros ->. done.
        - by apply Hdom3.
        - intros ->. done. }
      intros l Hl. by apply Hdom', Hdom3.
Qed.

(** The last node of a chain is a node cell. *)
Lemma dll_last_cell (built : list (nat * Node)) :
  forall (h : gmap nat cell) (hd prevh : option nat) (t : nat) (dt : Node),
    dll h hd prevh (built ++ [(t, dt)]) ->
    exists ct : node_cell, h !! t = Some (CNode ct) /\ nc_data ct = dt.
Proof.
  induction built as [| [l dl] built IHb]; intros h hd prevh t dt Hbuilt.
  - simpl in Hbuilt. destruct Hbuilt as (_ & nx & Hl & _). by eexists.
  - simpl in Hbuilt. destruct Hbuilt as (_ & nx & _ & Hb). by eapply IHb.
Qed.

(** The loop of [clone_route]: as the loop over the unrouted chain, with
    the tail kept in the route cell at [clone]. *)
Lemma clone_route_loop_spec (rest : list (nat * Node)) :
  forall (fuel : nat) (h : gmap nat cell) (n prevp : option nat)
         (built : list (nat * Node)) (t : nat) (dt : Node)
         (hd prevh : option nat) (clone : nat) (rc : route_cell),
    (length rest <= fuel)%nat ->
    dll h n prevp rest ->
    t ∉ map fst rest ->
    clone ∉ map fst rest ->
    clone ∉ map fst (built ++ [(t, dt)]) ->
    h !! clone = Some (CRoute rc) ->
    rc_tail rc = Some t ->
    dll h hd prevh (built ++ [(t, dt)]) ->
    NoDup (map fst (built ++ [(t, dt)])) ->
    exists (h' : gmap nat cell) (new_locs : list nat),
      clone_route_loop fuel h clone n = Some h' /\
      length new_locs = length rest /\
      dll h' hd prevh
          (built ++ (t, dt) :: zip new_locs (map cloned_node (map snd rest))) /\
      NoDup (map fst built ++ t :: new_locs) /\
      (forall l, l ∈ new_locs -> l ∉ dom h) /\
      (forall l, l ∈ dom h -> l <> t -> l <> clone -> h' !! l = h !! l) /\
      (forall l, l ∈ dom h -> l ∈ dom h') /\
      h' !! clone =
        Some (CRoute {| rc_id := rc_id rc; rc_depot_id := rc_depot_id rc;
                        rc_nodes := rc_nodes rc;
                        rc_tail := last (t :: new_locs);
                        rc_len := rc_len rc; rc_load := rc_load rc;
                        rc_workers := rc_workers rc; rc_pb := rc_pb rc |}).
Proof.
  induction rest as [| [nl d] rest IH];
    intros fuel h n prevp built t dt hd prevh clone rc
           Hfuel Hrest Ht Hcl Hclb Hrc Htail Hbuilt Hnd.
  - simpl in Hrest. subst n. exists h, []. simpl.
    split; [by destruct fuel |]. split; [done |]. split; [done |].
    rewrite map_app in Hnd. simpl in Hnd.
    split; [done |]. split; [intros l Hl; by inversion Hl |].
    split; [done |]. split; [done |].
    rewrite Hrc, <- Htail. by destruct rc.
  - destruct Hrest as (-> & nx & Hnl & Hrest').
    destruct fuel as [| fuel]; [simpl in Hfuel; lia |].
    simpl in Hfuel.
    destruct (clone_node_spec h nl _ Hnl) as (c & Hclone & Hcf & Hcnone).
    simpl in Hclone.
    set (h1 := <[c := CNode {| nc_data := cloned_node d; nc_prev := None;
                               nc_next := None |}]> h) in *.
    assert (Htdom : t ∈ dom h).
    { apply (dll_dom _ _ _ _ Hbuilt). rewrite map_app. simpl.
      apply elem_of_app. right. left. }
    assert (Htc : t <> c) by (intros ->; done).
    destruct (dll_last_cell _ _ _ _ _ _ Hbuilt) as (ct & Hct & _).
    assert (Hclc : clone <> c).
    { intros ->. apply Hcf. apply elem_of_dom. by eexists. }
    assert (Hclt : clone <> t).
    { intros ->. apply Hclb. rewrite map_app. apply elem_of_app. right.
      simpl. left. }
    assert (Hclnl : clone <> nl).
    { intros ->. apply Hcl. simpl. left. }
    set (h2 := <[t := CNode {| nc_data := nc_data ct; nc_prev := nc_prev ct;
                               nc_next := Some c |}]> h1).
    set (h3 := <[c := CNode {| nc_data := cloned_node d; nc_prev := Some t;
                               nc_next := None |}]> h2).
    set (rc4 := {| rc_id := rc_id rc; rc_depot_id := rc_depot_id rc;
                   rc_nodes := rc_nodes rc; rc_tail := Some c;
                   rc_len := rc_len rc; rc_load := rc_load rc;
                   rc_workers := rc_workers rc; rc_pb := rc_pb rc |}).
    set (h4 := <[clone := CRoute rc4]> h3).
    assert (Hnlc : nl <> c).
    { intros ->. apply Hcf. apply elem_of_dom. by eexists. }
    assert (Hnlt : nl <> t).
    { intros ->. apply Ht. simpl. left. }
    assert (Hh4 : forall l, l <> c -> l <> t -> l <> clone ->
                            h4 !! l = h !! l).
    { intros l Hlc Hlt Hlcl. unfold h4, h3, h2, h1.
      rewrite lookup_insert_ne by done.
      rewrite lookup_insert_ne by done. rewrite lookup_insert_ne by done.
      by rewrite lookup_insert_ne. }
    assert (Hdom4 : forall l, l ∈ dom h -> l ∈ dom h4).
    { intros l Hl. unfold h4, h3, h2, h1. rewrite !dom_insert. set_solver. }
    assert (Hclbuilt : clone ∉ map fst built).
    { intros Hin. apply Hclb. rewrite map_app. apply elem_of_app. by left. }
    destruct (IH fuel h4 nx (Some nl) (built ++ [(t, dt)]) c (cloned_node d)
                hd prevh clone rc4)
      as (h' & new_locs & Hloop & Hlen & Hdll & Hnd' & Hfresh & Hsame & Hdom'
          & Hrc').
    + lia.
    + apply (dll_frame _ h); [done |]. intros l Hl. apply Hh4.
      * intros ->. apply Hcf. by apply (dll_dom _ _ _ _ Hrest').
      * intros ->. apply Ht. simpl. by right.
      * intros ->. apply Hcl. simpl. by right.
    + intros Hc. apply Hcf. by apply (dll_dom _ _ _ _ Hrest').
    + intros Hc. apply Hcl. simpl. by right.
    + rewrite <- app_assoc. simpl. rewrite map_app. simpl.
      intros Hin. apply elem_of_app in Hin as [Hin | Hin]; [done |].
      apply elem_of_cons in Hin as [Hin | Hin]; [done |].
      apply list_elem_of_singleton in Hin. done.
    + unfold h4. by rewrite lookup_insert_eq.
    + done.
    + rewrite <- app_assoc. simpl.
      apply (dll_snoc built h h4 hd prevh t dt c (cloned_node d)); try done.
      * intros l Hl. apply Hh4.
        -- intros ->. apply Hcf. apply (dll_dom _ _ _ _ Hbuilt).
           rewrite map_app. apply elem_of_app. by left.
        -- intros ->. rewrite map_app in Hnd. apply NoDup_app in Hnd.
           destruct Hnd as (_ & Hnd & _). apply (Hnd t Hl). simpl. left.
        -- intros ->. done.
      * intros ct' Hct'. rewrite Hct in Hct'. injection Hct' as <-.
        unfold h4. rewrite lookup_insert_ne by done.
        unfold h3. rewrite lookup_insert_ne by done. unfold h2.
        by rewrite lookup_insert_eq.
      * unfold h4. rewrite lookup_insert_ne by done.
        unfold h3. by rewrite lookup_insert_eq.
    + rewrite map_app. simpl. apply NoDup_app. split; [done |]. split.
      * intros l Hl Hlc. apply list_elem_of_singleton in Hlc as ->.
        apply Hcf. by apply (dll_dom _ _ _ _ Hbuilt).
      * apply NoDup_singleton.
    + exists h', (c :: new_locs). split.
      { assert (E0 : get_route h1 clone = Some rc).
        { unfold get_route, h1. rewrite lookup_insert_ne by done.
          by rewrite Hrc. }
        assert (E1 : set_next h1 t (Some c) = Some h2).
        { unfold set_next, get_node, h1. rewrite lookup_insert_ne by done.
          by rewrite Hct. }
        assert (E2 : set_prev h2 c (Some t) = Some h3).
        { unfold set_prev, get_node, h2. rewrite lookup_insert_ne by done.
          unfold h1. by rewrite lookup_insert_eq. }
        assert (E2' : set_tail h3 clone (Some c) = Some h4).
        { unfold set_tail, get_route, h3. rewrite lookup_insert_ne by done.
          unfold h2. rewrite lookup_insert_ne by done.
          unfold h1. rewrite lookup_insert_ne by done.
          by rewrite Hrc. }
        assert (E3 : get_node h4 nl
                     = Some {| nc_data := d; nc_prev := prevp;
                               nc_next := nx |}).
        { unfold get_node. rewrite Hh4 by done. by rewrite Hnl. }
        change (clone_route_loop (S fuel) h clone (Some nl)) with
          ('(c0, h0) ← clone_node h nl;
           r ← get_route h0 clone;
           tail ← rc_tail r;
           h4 ← set_next h0 tail (Some c0);
           h5 ← set_prev h4 c0 (Some tail);
           h6 ← set_tail h5 clone (Some c0);
           cell ← get_node h6 nl;
           clone_route_loop fuel h6 clone (nc_next cell)).
        rewrite Hclone. simpl. rewrite E0. simpl. rewrite Htail. simpl.
        rewrite E1. simpl. rewrite E2. simpl. rewrite E2'. simpl.
        rewrite E3. simpl. exact Hloop. }
      split; [simpl; by rewrite Hlen |]. split.
      { rewrite <- app_assoc in Hdll. simpl in Hdll. exact Hdll. }
      split.
      { rewrite map_app in Hnd'. simpl in Hnd'.
        rewrite <- app_assoc in Hnd'. exact Hnd'. }
      split.
      { intros l Hl. apply elem_of_cons in Hl as [-> | Hl]; [done |].
        intros Hld. apply (Hfresh l Hl). by apply Hdom4. }
      split.
      { intros l Hl Hlt Hlcl. rewrite Hsame.
        - apply Hh4; [| done | done]. intros ->. done.
        - by apply Hdom4.
        - intros ->. done.
        - done. }
      split; [intros l Hl; by apply Hdom', Hdom4 |].
      rewrite Hrc'. done.
Qed.

Lemma map_fst_zip {A B : Type} (l : list A) :
  forall k : list B, length l = length k -> map fst (zip l k) = l.
Proof.
  induction l as [| a l IH]; intros [| b k] Hlen; simpl in *; try done.
  f_equal. apply IH. lia.
Qed.

Lemma map_snd_zip {A B : Type} (l : list A) :
  forall k : list B, length l = length k -> map snd (zip l k) = k.
Proof.
  induction l as [| a l IH]; intros [| b k] Hlen; simpl in *; try done.
  f_equal. apply IH. lia.
Qed.

(** Every address of a chain holds a node. *)
Lemma dll_cells (cells : list (nat * Node)) :
  forall (h : gmap nat cell) (p prev : option nat),
    dll h p prev cells ->
    forall l, l ∈ map fst cells -> exists c, h !! l = Some (CNode c).
Proof.
  induction cells as [| [l d] rest IH]; intros h p prev Hd l' Hl'.
  - by inversion Hl'.
  - destruct Hd as (-> & nx & Hl & Hrest). simpl in Hl'.
    apply elem_of_cons in Hl' as [-> | Hl'].
    + by eexists.
    + by apply (IH h nx (Some l)).
Qed.

(** A route is not affected by changes to other cells. *)
Lemma route_repr_frame (h h' : gmap nat cell) (pbp : option nat) (rl : nat)
    (r : Route) (locs : list nat) :
  route_repr h pbp rl r locs ->
  h' !! rl = h !! rl ->
  (forall l, l ∈ locs -> h' !! l = h !! l) ->
  route_repr h' pbp rl r locs.
Proof.
  intros (rc & Hrc & Hid & Hdep & Hlen & Hload & Hw & Hpb & Hhd & Htl & Hne
          & Hlens & Hnd & Hdll) Hrl Hlocs.
  exists rc. rewrite Hrl. repeat (split; [done |]).
  apply (dll_frame _ h); [done |]. intros l Hl. apply Hlocs.
  by rewrite map_fst_zip in Hl.
Qed.

Lemma route_repr_cells (h : gmap nat cell) (pbp : option nat) (rl : nat)
    (r : Route) (locs : list nat) :
  route_repr h pbp rl r locs ->
  (exists rc, h !! rl = Some (CRoute rc)) /\
  (forall l, l ∈ locs -> exists c, h !! l = Some (CNode c)).
Proof.
  intros (rc & Hrc & Hid & Hdep & Hlen & Hload & Hw & Hpb & Hhd & Htl & Hne
          & Hlens & Hnd & Hdll).
  split; [by eexists |]. intros l Hl.
  apply (dll_cells _ _ _ _ Hdll). by rewrite map_fst_zip.
Qed.

(** [clone_route] builds a route with the same fields and a chain of new
    cells that hold the clones of the nodes, and leaves every cell that
    existed before as it was. *)
Lemma clone_route_spec (fuel : nat) (h : gmap nat cell) (pbp : option nat)
    (rl : nat) (r : Route) (locs : list nat) :
  route_repr h pbp rl r locs ->
  (length locs <= S fuel)%nat ->
  exists (cl : nat) (h' : gmap nat cell) (locs' : list nat),
    clone_route fuel h rl = Some (cl, h') /\
    route_repr h' pbp cl (cloned_route r) locs' /\
    (cl ∉ dom h) /\
    (forall l, l ∈ locs' -> l ∉ dom h) /\
    (forall l, l ∈ dom h -> h' !! l = h !! l) /\
    (forall l, l ∈ dom h -> l ∈ dom h').
Proof.
  intros (rc & Hrc & Hid & Hdep & Hlen & Hload & Hw & Hpb & Hhd & Htl & Hne
          & Hlens & Hnd & Hdll) Hfuel.
  destruct locs as [| l0 locs]; [done |].
  destruct (r_nodes r) as [| d0 ds] eqn:Hnodes; [done |].
  simpl in Hdll. destruct Hdll as (_ & nx & Hl0 & Hrest).
  simpl in Hlens, Hfuel, Hhd.
  set (rest := zip locs ds) in *.
  assert (Hrestlocs : map fst rest = locs) by (apply map_fst_zip; lia).
  assert (Hrestds : map snd rest = ds) by (apply map_snd_zip; lia).
  set (rc0 := {| rc_id := rc_id rc; rc_depot_id := rc_depot_id rc;
                 rc_nodes := None; rc_tail := None;
                 rc_len := rc_len rc; rc_load := rc_load rc;
                 rc_workers := rc_workers rc; rc_pb := rc_pb rc |}).
  set (cl := fresh (dom h)).
  set (h0 := <[cl := CRoute rc0]> h).
  destruct (s_malloc_spec h (CRoute rc0) cl h0 eq_refl)
    as (Hclf & Hclnone & Hh0).
  assert (Hl0cl : l0 <> cl).
  { intros ->. by rewrite Hclnone in Hl0. }
  assert (Hl0' : h0 !! l0 = Some (CNode {| nc_data := d0; nc_prev := None;
                                           nc_next := nx |})).
  { rewrite Hh0. by rewrite lookup_insert_ne. }
  destruct (clone_node_spec h0 l0 _ Hl0') as (c & Hclone & Hcf & Hcnone).
  simpl in Hclone.
  set (h1 := <[c := CNode {| nc_data := cloned_node d0; nc_prev := None;
                             nc_next := None |}]> h0) in *.
  assert (Hclc : cl <> c).
  { intros ->. apply Hcf. rewrite Hh0, dom_insert. set_solver. }
  assert (Hcdom : c ∉ dom h).
  { intros Hin. apply Hcf. rewrite Hh0, dom_insert. set_solver. }
  set (rc2 := {| rc_id := rc_id rc; rc_depot_id := rc_depot_id rc;
                 rc_nodes := Some c; rc_tail := None;
                 rc_len := rc_len rc; rc_load := rc_load rc;
                 rc_workers := rc_workers rc; rc_pb := rc_pb rc |}).
  set (rc3 := {| rc_id := rc_id rc; rc_depot_id := rc_depot_id rc;
                 rc_nodes := Some c; rc_tail := Some c;
                 rc_len := rc_len rc; rc_load := rc_load rc;
                 rc_workers := rc_workers rc; rc_pb := rc_pb rc |}).
  set (h2 := <[cl := CRoute rc2]> h1).
  set (h3 := <[cl := CRoute rc3]> h2).
  assert (Hh3 : forall l, l <> c -> l <> cl -> h3 !! l = h !! l).
  { intros l Hlc Hlcl. unfold h3, h2, h1. rewrite Hh0.
    rewrite lookup_insert_ne by done. rewrite lookup_insert_ne by done.
    rewrite lookup_insert_ne by done. by rewrite lookup_insert_ne. }
  assert (Hdom3 : forall l, l ∈ dom h -> l ∈ dom h3).
  { intros l Hl. unfold h3, h2, h1. rewrite Hh0, !dom_insert. set_solver. }
  assert (Hh3c : h3 !! c = Some (CNode {| nc_data := cloned_node d0;
                                          nc_prev := None;
                                          nc_next := None |})).
  { unfold h3, h2, h1. rewrite lookup_insert_ne by done.
    rewrite lookup_insert_ne by done. by rewrite lookup_insert_eq. }
  assert (Hrestdom : forall l, l ∈ map fst rest -> l ∈ dom h).
  { intros l Hl. by apply (dll_dom _ _ _ _ Hrest). }
  destruct (clone_route_loop_spec rest fuel h3 nx (Some l0) [] c
              (cloned_node d0) (Some c) None cl rc3)
    as (h' & new_locs & Hloop & Hlen' & Hdll' & Hnd' & Hfresh & Hsame & Hdom'
        & Hrc').
  - unfold rest. rewrite length_zip. lia.
  - apply (dll_frame _ h); [done |]. intros l Hl. apply Hh3.
    + intros ->. by apply Hcdom, Hrestdom.
    + intros ->. by apply Hclf, Hrestdom.
  - intros Hin. by apply Hcdom, Hrestdom.
  - intros Hin. by apply Hclf, Hrestdom.
  - simpl. intros Hin. apply list_elem_of_singleton in Hin. done.
  - unfold h3. by rewrite lookup_insert_eq.
  - done.
  - simpl. split; [done |]. exists None. by split.
  - simpl. apply NoDup_singleton.
  - exists cl, h', (c :: new_locs). split.
    { unfold clone_route, get_route. rewrite Hrc. simpl. rewrite Hhd. simpl.
      fold cl. fold rc0. fold h0.
      assert (E1 : set_nodes h1 cl (Some c) = Some h2).
      { unfold set_nodes, get_route, h1. rewrite lookup_insert_ne by done.
        rewrite Hh0. by rewrite lookup_insert_eq. }
      assert (E2 : set_tail h2 cl (Some c) = Some h3).
      { unfold set_tail, get_route, h2. by rewrite lookup_insert_eq. }
      assert (E3 : get_node h3 l0
                   = Some {| nc_data := d0; nc_prev := None;
                             nc_next := nx |}).
      { unfold get_node. rewrite Hh3; [by rewrite Hl0 | | done].
        intros ->. apply Hcdom. apply elem_of_dom. by eexists. }
      rewrite Hclone. simpl. rewrite E1. simpl. rewrite E2. simpl.
      rewrite E3. simpl. rewrite Hloop. done. }
    split.
    { eexists. split; [exact Hrc' |]. simpl.
      repeat (split; [done |]).
      split.
      { rewrite Hnodes. simpl. rewrite length_map, Hlen'. unfold rest.
        rewrite length_zip. lia. }
      split; [exact Hnd' |].
      rewrite Hnodes. simpl in Hdll'. rewrite Hrestds in Hdll'.
      exact Hdll'. }
    split; [done |]. split.
    { intros l Hl. apply elem_of_cons in Hl as [-> | Hl]; [done |].
      intros Hin. apply (Hfresh l Hl). by apply Hdom3. }
    split.
    { intros l Hl. rewrite Hsame.
      - apply Hh3; intros ->; done.
      - by apply Hdom3.
      - intros ->. done.
      - intros ->. done. }
    intros l Hl. by apply Hdom', Hdom3.
Qed.

(** The loop over the routes: [owned] lists the routes of the original from
    index [k] on, [ro] is the route each index stands for.  The loop fills
    the slots from [k] on of the array of the clone with new routes. *)
Lemma clone_routes_loop_spec (owned : list (nat * list nat)) :
  forall (fuel k : nat) (h : gmap nat cell) (pbp : option nat)
         (sl cls : nat) (sc csc : solution_cell) (ro : nat -> option Route),
    h !! sl = Some (CSolution sc) ->
    h !! cls = Some (CSolution csc) ->
    sl <> cls ->
    (k + length owned <= length (sc_routes csc))%nat ->
    (forall j rl locs,
       owned !! j = Some (rl, locs) ->
       sc_routes sc !! (k + j)%nat = Some (Some rl) /\
       (length locs <= S fuel)%nat /\
       exists r, ro (k + j)%nat = Some r /\ route_repr h pbp rl r locs) ->
    exists (h' : gmap nat cell) (owned' : list (nat * list nat))
           (arr' : list (option nat)),
      clone_routes_loop fuel h sl cls (seq k (length owned)) = Some h' /\
      length owned' = length owned /\
      h' !! cls =
        Some (CSolution
                {| sc_routes := arr'; sc_trucks := sc_trucks csc;
                   sc_unrouted := sc_unrouted csc;
                   sc_num_unrouted := sc_num_unrouted csc;
                   sc_time := sc_time csc;
                   sc_saturation_time := sc_saturation_time csc;
                   sc_workers_cache := sc_workers_cache csc;
                   sc_dist_cache := sc_dist_cache csc;
                   sc_cost_cache := sc_cost_cache csc;
                   sc_pb := sc_pb csc |}) /\
      length arr' = length (sc_routes csc) /\
      (forall i, (i < k \/ k + length owned <= i)%nat ->
                 arr' !! i = sc_routes csc !! i) /\
      (forall j cl locs',
         owned' !! j = Some (cl, locs') ->
         arr' !! (k + j)%nat = Some (Some cl) /\
         exists r, ro (k + j)%nat = Some r /\
                   route_repr h' pbp cl (cloned_route r) locs') /\
      (forall cl locs',
         (cl, locs') ∈ owned' ->
         (cl ∉ dom h) /\ forall l, l ∈ locs' -> l ∉ dom h) /\
      (forall l, l ∈ dom h -> l <> cls -> h' !! l = h !! l) /\
      (forall l, l ∈ dom h -> l ∈ dom h').
Proof.
  induction owned as [| [rl locs] owned IH];
    intros fuel k h pbp sl cls sc csc ro Hsl Hcls Hne Hlen Hown.
  - exists h, [], (sc_routes csc). simpl.
    split; [done |]. split; [done |].
    split; [rewrite Hcls; by destruct csc |].
    split; [done |]. split; [done |].
    split; [intros j cl locs' Hj; by rewrite lookup_nil in Hj |].
    split; [intros cl locs' Hin; by inversion Hin |]. by split.
  - destruct (Hown 0%nat rl locs eq_refl) as (Hslot & Hfuel & r & Hro & Hrepr).
    rewrite Nat.add_0_r in Hslot, Hro.
    destruct (clone_route_spec fuel h pbp rl r locs Hrepr Hfuel)
      as (cl & h1 & locs1 & Hcr & Hrepr1 & Hclf & Hlocsf & Hsame1 & Hdom1).
    assert (Hclsdom : cls ∈ dom h) by (apply elem_of_dom; by eexists).
    assert (Hsldom : sl ∈ dom h) by (apply elem_of_dom; by eexists).
    simpl in Hlen.
    assert (Hk : (k < length (sc_routes csc))%nat) by lia.
    destruct (lookup_lt_is_Some_2 _ _ Hk) as [slot0 Hslot0].
    set (csc2 := {| sc_routes := <[k := Some cl]> (sc_routes csc);
                    sc_trucks := sc_trucks csc;
                    sc_unrouted := sc_unrouted csc;
                    sc_num_unrouted := sc_num_unrouted csc;
                    sc_time := sc_time csc;
                    sc_saturation_time := sc_saturation_time csc;
                    sc_workers_cache := sc_workers_cache csc;
                    sc_dist_cache := sc_dist_cache csc;
                    sc_cost_cache := sc_cost_cache csc;
                    sc_pb := sc_pb csc |}).
    set (h2 := <[cls := CSolution csc2]> h1).
    assert (Eset : set_route_slot h1 cls k (Some cl) = Some h2).
    { unfold set_route_slot, get_solution. rewrite Hsame1 by done.
      rewrite Hcls. simpl. by rewrite Hslot0. }
    assert (Hdom2 : forall l, l ∈ dom h -> l ∈ dom h2).
    { intros l Hl. unfold h2. rewrite dom_insert. apply elem_of_union.
      right. by apply Hdom1. }
    assert (Hh2 : forall l, l ∈ dom h -> l <> cls -> h2 !! l = h !! l).
    { intros l Hl Hlcls. unfold h2. rewrite lookup_insert_ne by done.
      by apply Hsame1. }
    destruct (IH fuel (S k) h2 pbp sl cls sc csc2 ro)
      as (h' & owned' & arr' & Hloop & Hlen' & Hcls' & Harr & Hout & Hin
          & Hfresh & Hsame & Hdom').
    + by rewrite Hh2.
    + unfold h2. by rewrite lookup_insert_eq.
    + done.
    + simpl. rewrite length_insert. lia.
    + intros j rl2 locs2 Hj.
      destruct (Hown (S j) rl2 locs2 Hj) as (Hs2 & Hf2 & r2 & Hro2 & Hrepr2).
      replace (S k + j)%nat with (k + S j)%nat by lia.
      split; [done |]. split; [done |]. exists r2. split; [done |].
      destruct (route_repr_cells _ _ _ _ _ Hrepr2) as ([rc2 Hrc2] & Hcells2).
      apply (route_repr_frame h); [done | |].
      * apply Hh2; [apply elem_of_dom; by eexists |].
        intros ->. rewrite Hcls in Hrc2. done.
      * intros l Hl. destruct (Hcells2 l Hl) as [c Hc].
        apply Hh2; [apply elem_of_dom; by eexists |].
        intros ->. rewrite Hcls in Hc. done.
    + exists h', ((cl, locs1) :: owned'), arr'.
      split.
      { assert (E0 : get_solution h sl = Some sc).
        { unfold get_solution. by rewrite Hsl. }
        change (clone_routes_loop fuel h sl cls
                  (seq k (length ((rl, locs) :: owned)))) with
          (s ← get_solution h sl;
           slot ← sc_routes s !! k;
           route ← slot;
           '(r0, h0) ← clone_route fuel h route;
           h3 ← set_route_slot h0 cls k (Some r0);
           clone_routes_loop fuel h3 sl cls (seq (S k) (length owned))).
        rewrite E0. simpl. rewrite Hslot. simpl. rewrite Hcr. simpl.
        rewrite Eset. simpl. exact Hloop. }
      split; [simpl; by rewrite Hlen' |]. split; [exact Hcls' |].
      split; [rewrite Harr; simpl; apply length_insert |].
      split.
      { intros i Hi. simpl in Hi. rewrite Hout by lia. simpl.
        apply list_lookup_insert_ne. lia. }
      destruct (route_repr_cells _ _ _ _ _ Hrepr1) as ([rc1 Hrc1] & Hcells1).
      assert (Hcl2 : cl ∈ dom h2).
      { unfold h2. rewrite dom_insert. apply elem_of_union. right.
        apply elem_of_dom. by eexists. }
      assert (Hclcls : cl <> cls) by (intros ->; done).
      split.
      { intros [| j] cl' locs' Hj; simpl in Hj.
        - injection Hj as <- <-. rewrite Nat.add_0_r. split.
          { rewrite Hout by lia. simpl. by apply list_lookup_insert_eq. }
          exists r. split; [done |].
          apply (route_repr_frame h1); [done | |].
          + rewrite Hsame by done. unfold h2. by rewrite lookup_insert_ne.
          + intros l Hl. destruct (Hcells1 l Hl) as [c Hc].
            assert (Hlcls : l <> cls).
            { intros ->. by apply (Hlocsf cls Hl). }
            rewrite Hsame; [| | done].
            * unfold h2. by rewrite lookup_insert_ne.
            * unfold h2. rewrite dom_insert. apply elem_of_union. right.
              apply elem_of_dom. by eexists.
        - replace (k + S j)%nat with (S k + j)%nat by lia.
          by apply Hin. }
      split.
      { intros cl' locs' Hel. apply elem_of_cons in Hel as [Heq | Hel].
        - injection Heq as -> ->. by split.
        - destruct (Hfresh _ _ Hel) as [Ha Hb]. split.
          + intros Hd. by apply Ha, Hdom2.
          + intros l Hl Hd. by apply (Hb l Hl), Hdom2. }
      split.
      { intros l Hl Hlcls. rewrite Hsame; [by apply Hh2 | by apply Hdom2 |
                                          done]. }
      intros l Hl. by apply Hdom', Hdom2.
Qed.

(** *** The fields of a clone *)

Lemma lookup_map {A B : Type} (f : A -> B) (l : list A) :
  forall i : nat, map f l !! i = f <$> (l !! i).
Proof.
  induction l as [| a l IH]; intros [| i]; simpl; try done.
Qed.

(** The slots of the array of a clone below [trucks]. *)
Lemma cloned_solution_slot (pb : Problem) (s : Solution) (i : nat) :
  (i < Z.to_nat (s_trucks s))%nat ->
  (i < length (s_routes s))%nat ->
  s_routes (cloned_solution pb s) !! i
  = fmap cloned_route <$> (s_routes s !! i).
Proof.
  intros Hi Hlen. simpl. rewrite lookup_app_l.
  - rewrite lookup_map. by rewrite lookup_take_lt.
  - rewrite length_map, length_take. lia.
Qed.

Lemma cloned_solution_route_at (pb : Problem) (s : Solution) (i : nat) :
  (i < Z.to_nat (s_trucks s))%nat ->
  route_at (cloned_solution pb s) i = cloned_route <$> route_at s i.
Proof.
  intros Hi. unfold route_at.
  destruct (decide (i < length (s_routes s))%nat) as [Hlt | Hge].
  - rewrite cloned_solution_slot by done.
    destruct (s_routes s !! i) as [[r |] |]; done.
  - rewrite (lookup_ge_None_2 (s_routes s)) by lia. simpl.
    destruct (_ !! i) as [slot |] eqn:Hslot; [| done].
    apply lookup_app_Some in Hslot as [Hl | [_ Hr]].
    + apply lookup_lt_Some in Hl. rewrite length_map, length_take in Hl. lia.
    + apply lookup_replicate in Hr as [-> _]. done.
Qed.

Lemma calc_length_loop_cloned (d : nat -> nat -> Q) (chain : list Node) :
  forall (dist : Q) (prev : Node),
    calc_length_loop d dist (cloned_node prev) (map cloned_node chain)
    = calc_length_loop d dist prev chain.
Proof.
  induction chain as [| n rest IH]; intros dist prev; simpl; [done |].
  apply IH.
Qed.

Lemma calc_length_cloned (pb : Problem) (r : Route) :
  calc_length pb (cloned_route r) = calc_length pb r.
Proof.
  unfold calc_length. simpl. destruct (r_nodes r) as [| n rest]; [done |].
  simpl. apply calc_length_loop_cloned.
Qed.

Lemma map_n_id_cloned (chain : list Node) :
  map n_id (map cloned_node chain) = map n_id chain.
Proof.
  induction chain as [| n rest IH]; simpl; [done |]. by rewrite IH.
Qed.

Lemma calc_costs_loop_cloned (pb : Problem) (s : Solution)
    (indices : list nat) :
  forall (workers : Z) (dist : Q),
    (forall i, i ∈ indices -> (i < Z.to_nat (s_trucks s))%nat) ->
    calc_costs_loop pb (cloned_solution pb s) workers dist indices
    = calc_costs_loop pb s workers dist indices.
Proof.
  induction indices as [| i rest IH]; intros workers dist Hin; [done |].
  change (calc_costs_loop pb (cloned_solution pb s) workers dist (i :: rest))
    with (route ← route_at (cloned_solution pb s) i;
          calc_costs_loop pb (cloned_solution pb s)
            (workers + r_workers route)
            (dist + calc_length pb route)%Q rest).
  change (calc_costs_loop pb s workers dist (i :: rest))
    with (route ← route_at s i;
          calc_costs_loop pb s (workers + r_workers route)
            (dist + calc_length pb route)%Q rest).
  rewrite cloned_solution_route_at by (apply Hin; left).
  destruct (route_at s i) as [r |]; simpl; [| done].
  rewrite calc_length_cloned. apply IH. intros j Hj. apply Hin. by right.
Qed.

Lemma calc_costs_cloned (pb : Problem) (s : Solution) (cfg : Config) :
  fst <$> calc_costs pb (cloned_solution pb s) cfg
  = fst <$> calc_costs pb s cfg.
Proof.
  unfold calc_costs.
  change (s_trucks (cloned_solution pb s)) with (s_trucks s).
  rewrite calc_costs_loop_cloned.
  - by destruct (calc_costs_loop pb s 0 0 _) as [[w d] |].
  - intros i Hi. apply elem_of_seq in Hi. lia.
Qed.

(** [calc_costs] returns when the first [trucks] slots hold routes. *)
Lemma calc_costs_loop_returns (pb : Problem) (s : Solution)
    (indices : list nat) :
  forall (workers : Z) (dist : Q),
    (forall i, i ∈ indices -> is_Some (route_at s i)) ->
    is_Some (calc_costs_loop pb s workers dist indices).
Proof.
  induction indices as [| i rest IH]; intros workers dist Hin; [by eexists |].
  destruct (Hin i) as [r Hr]; [left |]. simpl. rewrite Hr. simpl.
  apply IH. intros j Hj. apply Hin. by right.
Qed.

(** *** The objects of a clone *)

Lemma elem_of_footprint (owned : list (nat * list nat)) (ul : list nat)
    (l : nat) :
  l ∈ footprint owned ul <->
  (exists rl locs, (rl, locs) ∈ owned /\ (l = rl \/ l ∈ locs)) \/ l ∈ ul.
Proof.
  unfold footprint. rewrite !elem_of_union, !elem_of_list_to_set. split.
  - intros [[Hl | Hl] | Hl]; [| | by right].
    + apply list_elem_of_In, in_map_iff in Hl as ([rl locs] & <- & Hin).
      left. exists rl, locs. split; [by apply list_elem_of_In |]. by left.
    + apply list_elem_of_In, in_concat in Hl as (locs & Hlocs & Hin).
      apply in_map_iff in Hlocs as ([rl locs'] & <- & Hin').
      left. exists rl, locs'. split; [by apply list_elem_of_In |].
      right. by apply list_elem_of_In.
  - intros [(rl & locs & Hin & [-> | Hl]) | Hl]; [| | by right].
    + left. left. apply list_elem_of_In, in_map_iff. exists (rl, locs).
      split; [done |]. by apply list_elem_of_In.
    + left. right. apply list_elem_of_In, in_concat. exists locs. split.
      * apply in_map_iff. exists (rl, locs). split; [done |].
        by apply list_elem_of_In.
      * by apply list_elem_of_In.
Qed.

(** The routes and nodes of a solution are allocated. *)
Lemma solution_repr_footprint (h : gmap nat cell) (pbp : option nat)
    (sl : nat) (s : Solution) (owned : list (nat * list nat))
    (ul : list nat) :
  solution_repr h pbp sl s owned ul ->
  forall l, l ∈ footprint owned ul -> l ∈ dom h.
Proof.
  intros (sc & Hsc & _ & _ & _ & _ & _ & _ & _ & _ & _ & _ & _ & Hown & _
          & Hlenul & _ & Hdll) l Hl.
  apply elem_of_footprint in Hl as [(rl & locs & Hin & Hl) | Hl].
  - apply list_elem_of_lookup in Hin as [i Hi].
    destruct (Hown i rl locs Hi) as (_ & r & _ & Hrepr).
    destruct (route_repr_cells _ _ _ _ _ Hrepr) as ([rc Hrc] & Hcells).
    destruct Hl as [-> | Hl]; [apply elem_of_dom; by eexists |].
    destruct (Hcells l Hl) as [c Hc]. apply elem_of_dom. by eexists.
  - apply (dll_dom _ _ _ _ Hdll). by rewrite map_fst_zip.
Qed.

(** A solution is not affected by changes to cells that are not its own. *)
Lemma solution_repr_frame (h h' : gmap nat cell) (pbp : option nat)
    (sl : nat) (s : Solution) (owned : list (nat * list nat))
    (ul : list nat) :
  solution_repr h pbp sl s owned ul ->
  (forall l, l ∈ dom h -> h' !! l = h !! l) ->
  solution_repr h' pbp sl s owned ul.
Proof.
  intros Hrepr Hsame.
  pose proof (solution_repr_footprint _ _ _ _ _ _ Hrepr) as Hfoot.
  destruct Hrepr as (sc & Hsc & Htr & Hnu & Htime & Hsat & Hwc & Hdc & Hcc
                     & Hpb & Hlen & Hnn & Hlo & Hown & Hunr & Hlenul & Hnd
                     & Hdll).
  exists sc. split.
  { rewrite Hsame; [done |]. apply elem_of_dom. by eexists. }
  repeat (split; [done |]). split.
  { intros i rl locs Hi. destruct (Hown i rl locs Hi) as (Hslot & r & Hr & Hrr).
    split; [done |]. exists r. split; [done |].
    assert (Hin : (rl, locs) ∈ owned) by (by apply list_elem_of_lookup_2 in Hi).
    apply (route_repr_frame h); [done | |].
    - apply Hsame, Hfoot, elem_of_footprint. left. exists rl, locs.
      split; [done |]. by left.
    - intros l Hl. apply Hsame, Hfoot, elem_of_footprint. left.
      exists rl, locs. split; [done |]. by right. }
  repeat (split; [done |]).
  apply (dll_frame _ h); [done |]. intros l Hl. rewrite map_fst_zip in Hl
    by done. apply Hsame, Hfoot, elem_of_footprint. by right.
Qed.

(** The unrouted chain of [clone_solution]: the chain at [p] is cloned and
    hung into the solution cell at [cls]. *)
Lemma clone_unrouted_spec (fuel : nat) (h : gmap nat cell) (cls : nat)
    (csc : solution_cell) (p : option nat) (ul : list nat)
    (ds : list Node) :
  h !! cls = Some (CSolution csc) ->
  sc_unrouted csc = None ->
  length ul = length ds ->
  (length ul <= S fuel)%nat ->
  dll h p None (zip ul ds) ->
  exists (h' : gmap nat cell) (ul' : list nat),
    match p with
    | None => Some (cls, h)
    | Some n =>
        '(c, h0) ← clone_node h n;
        h1 ← set_unrouted h0 cls (Some c);
        cell ← get_node h1 n;
        h2 ← clone_unrouted_loop fuel h1 (nc_next cell) c;
        Some (cls, h2)
    end = Some (cls, h') /\
    h' !! cls =
      Some (CSolution
              {| sc_routes := sc_routes csc; sc_trucks := sc_trucks csc;
                 sc_unrouted := head ul';
                 sc_num_unrouted := sc_num_unrouted csc;
                 sc_time := sc_time csc;
                 sc_saturation_time := sc_saturation_time csc;
                 sc_workers_cache := sc_workers_cache csc;
                 sc_dist_cache := sc_dist_cache csc;
                 sc_cost_cache := sc_cost_cache csc;
                 sc_pb := sc_pb csc |}) /\
    length ul' = length ds /\ NoDup ul' /\
    dll h' (head ul') None (zip ul' (map cloned_node ds)) /\
    (forall l, l ∈ ul' -> l ∉ dom h) /\
    (forall l, l ∈ dom h -> l <> cls -> h' !! l = h !! l) /\
    (forall l, l ∈ dom h -> l ∈ dom h').
Proof.
  intros Hcls Hunr Hlen Hfuel Hdll.
  destruct ul as [| u0 ul]; destruct ds as [| d0 ds]; try done.
  - simpl in Hdll. subst p. exists h, []. simpl.
    split; [done |]. split; [rewrite Hcls, <- Hunr; by destruct csc |].
    split; [done |]. split; [apply NoDup_nil_2 |]. split; [done |].
    split; [intros l Hl; by inversion Hl |]. by split.
  - simpl in Hdll, Hlen, Hfuel. destruct Hdll as (-> & nx & Hu0 & Hrest).
    set (rest := zip ul ds) in *.
    assert (Hrestds : map snd rest = ds) by (apply map_snd_zip; lia).
    destruct (clone_node_spec h u0 _ Hu0) as (c & Hclone & Hcf & Hcnone).
    simpl in Hclone.
    set (h1 := <[c := CNode {| nc_data := cloned_node d0; nc_prev := None;
                               nc_next := None |}]> h) in *.
    set (csc2 := {| sc_routes := sc_routes csc; sc_trucks := sc_trucks csc;
                    sc_unrouted := Some c;
                    sc_num_unrouted := sc_num_unrouted csc;
                    sc_time := sc_time csc;
                    sc_saturation_time := sc_saturation_time csc;
                    sc_workers_cache := sc_workers_cache csc;
                    sc_dist_cache := sc_dist_cache csc;
                    sc_cost_cache := sc_cost_cache csc;
                    sc_pb := sc_pb csc |}).
    set (h2 := <[cls := CSolution csc2]> h1).
    assert (Hclsc : cls <> c).
    { intros ->. apply Hcf. apply elem_of_dom. by eexists. }
    assert (Hu0c : u0 <> c).
    { intros ->. apply Hcf. apply elem_of_dom. by eexists. }
    assert (Hu0cls : u0 <> cls).
    { intros ->. rewrite Hcls in Hu0. done. }
    assert (Hh2 : forall l, l <> c -> l <> cls -> h2 !! l = h !! l).
    { intros l Hlc Hlcls. unfold h2, h1. rewrite lookup_insert_ne by done.
      by rewrite lookup_insert_ne. }
    assert (Hdom2 : forall l, l ∈ dom h -> l ∈ dom h2).
    { intros l Hl. unfold h2, h1. rewrite !dom_insert. set_solver. }
    assert (Hrestdom : forall l, l ∈ map fst rest -> l ∈ dom h).
    { intros l Hl. by apply (dll_dom _ _ _ _ Hrest). }
    assert (Hrestcls : forall l, l ∈ map fst rest -> l <> cls).
    { intros l Hl ->. destruct (dll_cells _ _ _ _ Hrest cls Hl) as [x Hx].
      rewrite Hcls in Hx. done. }
    destruct (clone_unrouted_loop_spec rest fuel h2 nx (Some u0) [] c
                (cloned_node d0) (Some c) None)
      as (h' & new_locs & Hloop & Hlen' & Hdll' & Hnd' & Hfresh & Hsame
          & Hdom').
    + unfold rest. rewrite length_zip. lia.
    + apply (dll_frame _ h); [done |]. intros l Hl. apply Hh2.
      * intros ->. by apply Hcf, Hrestdom.
      * by apply Hrestcls.
    + intros Hin. by apply Hcf, Hrestdom.
    + simpl. split; [done |]. exists None. split; [| done].
      unfold h2. rewrite lookup_insert_ne by done. unfold h1.
      by rewrite lookup_insert_eq.
    + simpl. apply NoDup_singleton.
    + exists h', (c :: new_locs). split.
      { assert (E1 : set_unrouted h1 cls (Some c) = Some h2).
        { unfold set_unrouted, get_solution, h1.
          rewrite lookup_insert_ne by done. by rewrite Hcls. }
        assert (E2 : get_node h2 u0
                     = Some {| nc_data := d0; nc_prev := None;
                               nc_next := nx |}).
        { unfold get_node. rewrite Hh2 by done. by rewrite Hu0. }
        rewrite Hclone. simpl. rewrite E1. simpl. rewrite E2. simpl.
        by rewrite Hloop. }
      split.
      { rewrite Hsame.
        - unfold h2. by rewrite lookup_insert_eq.
        - unfold h2. rewrite dom_insert. apply elem_of_union. left.
          by apply elem_of_singleton.
        - done. }
      split.
      { simpl. rewrite Hlen'. unfold rest. rewrite length_zip. lia. }
      split; [exact Hnd' |]. split.
      { simpl in Hdll'. rewrite Hrestds in Hdll'. exact Hdll'. }
      split.
      { intros l Hl. apply elem_of_cons in Hl as [-> | Hl]; [done |].
        intros Hin. apply (Hfresh l Hl). by apply Hdom2. }
      split.
      { intros l Hl Hlcls. rewrite Hsame.
        - apply Hh2; [| done]. intros ->. done.
        - by apply Hdom2.
        - intros ->. done. }
      intros l Hl. by apply Hdom', Hdom2.
Qed.

(** The array of a solution is at least [trucks] long. *)
Lemma solution_repr_trucks (h : gmap nat cell) (pbp : option nat) (sl : nat)
    (s : Solution) (owned : list (nat * list nat)) (ul : list nat) :
  solution_repr h pbp sl s owned ul ->
  (Z.to_nat (s_trucks s) <= length (s_routes s))%nat /\
  forall i, (i < Z.to_nat (s_trucks s))%nat -> is_Some (route_at s i).
Proof.
  intros (sc & Hsc & _ & _ & _ & _ & _ & _ & _ & _ & _ & _ & Hlo & Hown & _).
  assert (Hslots : forall i, (i < Z.to_nat (s_trucks s))%nat ->
                             exists r, s_routes s !! i = Some (Some r)).
  { intros i Hi. rewrite <- Hlo in Hi.
    destruct (lookup_lt_is_Some_2 _ _ Hi) as [[rl locs] Ho].
    destruct (Hown i rl locs Ho) as (_ & r & Hr & _). by exists r. }
  split.
  - destruct (decide (Z.to_nat (s_trucks s) <= length (s_routes s))%nat)
      as [Hle | Hgt]; [done |].
    destruct (Hslots (length (s_routes s))) as [r Hr]; [lia |].
    apply lookup_lt_Some in Hr. lia.
  - intros i Hi. destruct (Hslots i Hi) as [r Hr]. exists r.
    unfold route_at. by rewrite Hr.
Qed.

(** [clone_solution] on a solution in memory: it returns a new solution
    cell that holds the clone, built from new cells only, and leaves every
    cell that existed before as it was. *)
Lemma clone_solution_heap (pb : Problem) (fuel : nat) (h : gmap nat cell)
    (pbp : option nat) (sl : nat) (s : Solution)
    (owned : list (nat * list nat)) (ul : list nat) :
  solution_repr h pbp sl s owned ul ->
  s_trucks s <= pb_num_nodes pb ->
  (forall rl locs, (rl, locs) ∈ owned -> (length locs <= S fuel)%nat) ->
  (length ul <= S fuel)%nat ->
  exists (cl : nat) (h' : gmap nat cell) (owned' : list (nat * list nat))
         (ul' : list nat),
    clone_solution pb fuel h sl = Some (cl, h') /\
    solution_repr h' pbp cl (cloned_solution pb s) owned' ul' /\
    (forall l, l ∈ dom h -> h' !! l = h !! l) /\
    (cl ∉ dom h) /\
    (forall l, l ∈ footprint owned' ul' -> l ∉ dom h).
Proof.
  intros Hrepr Htn Hfuel Hfuelu.
  destruct (solution_repr_trucks _ _ _ _ _ _ Hrepr) as [Htlen _].
  destruct Hrepr as (sc & Hsc & Htr & Hnu & Htime & Hsat & Hwc & Hdc & Hcc
                     & Hpb & Hlen & Hnn & Hlo & Hown & Hunr & Hlenul & Hnd
                     & Hdll).
  set (csc0 := {| sc_routes := replicate (Z.to_nat (pb_num_nodes pb)) None;
                  sc_trucks := sc_trucks sc; sc_unrouted := None;
                  sc_num_unrouted := sc_num_unrouted sc;
                  sc_time := sc_time sc;
                  sc_saturation_time := sc_saturation_time sc;
                  sc_workers_cache := sc_workers_cache sc;
                  sc_dist_cache := sc_dist_cache sc;
                  sc_cost_cache := sc_cost_cache sc; sc_pb := sc_pb sc |}).
  set (cls := fresh (dom h)).
  set (h0 := <[cls := CSolution csc0]> h).
  destruct (s_malloc_spec h (CSolution csc0) cls h0 eq_refl)
    as (Hclsf & Hclsnone & _).
  assert (Hslcls : sl <> cls).
  { intros ->. by rewrite Hclsnone in Hsc. }
  assert (Hh0 : forall l, l ∈ dom h -> h0 !! l = h !! l).
  { intros l Hl. unfold h0. rewrite lookup_insert_ne; [done |].
    intros <-. done. }
  assert (Hdom0 : forall l, l ∈ dom h -> l ∈ dom h0).
  { intros l Hl. unfold h0. rewrite dom_insert. apply elem_of_union.
    by right. }
  destruct (clone_routes_loop_spec owned fuel 0 h0 pbp sl cls sc csc0
              (route_at s))
    as (h1 & owned' & arr' & Hloop & Hlen' & Hcls1 & Harr & _ & Hin
        & Hfresh & Hsame1 & Hdom1).
  { rewrite Hh0; [done |]. apply elem_of_dom. by eexists. }
  { unfold h0. by rewrite lookup_insert_eq. }
  { done. }
  { simpl. rewrite length_replicate. lia. }
  { intros j rl locs Hj. simpl.
    destruct (Hown j rl locs Hj) as (Hslot & r & Hr & Hrr).
    split; [done |]. split.
    { apply (Hfuel rl). by apply list_elem_of_lookup_2 in Hj. }
    exists r. split; [unfold route_at; by rewrite Hr |].
    destruct (route_repr_cells _ _ _ _ _ Hrr) as ([rc Hrc] & Hcells).
    apply (route_repr_frame h); [done | |].
    - apply Hh0. apply elem_of_dom. by eexists.
    - intros l Hl. destruct (Hcells l Hl) as [c Hc]. apply Hh0.
      apply elem_of_dom. by eexists. }
  set (csc1 := {| sc_routes := arr'; sc_trucks := sc_trucks csc0;
                  sc_unrouted := sc_unrouted csc0;
                  sc_num_unrouted := sc_num_unrouted csc0;
                  sc_time := sc_time csc0;
                  sc_saturation_time := sc_saturation_time csc0;
                  sc_workers_cache := sc_workers_cache csc0;
                  sc_dist_cache := sc_dist_cache csc0;
                  sc_cost_cache := sc_cost_cache csc0;
                  sc_pb := sc_pb csc0 |}) in *.
  assert (Hfoot : forall l, l ∈ list_to_set (C := gset nat) ul -> l ∈ dom h).
  { intros l Hl. apply elem_of_list_to_set in Hl.
    apply (dll_dom _ _ _ _ Hdll). by rewrite map_fst_zip. }
  destruct (clone_unrouted_spec fuel h1 cls csc1 (head ul) ul (s_unrouted s))
    as (h' & ul' & Hun & Hcls' & Hlenul' & Hndul' & Hdll' & Hfreshu & Hsame'
        & Hdom'); try done.
  { apply (dll_frame _ h); [done |]. intros l Hl.
    rewrite map_fst_zip in Hl by done.
    assert (Hld : l ∈ dom h) by (by apply Hfoot, elem_of_list_to_set).
    rewrite Hsame1; [by apply Hh0 | by apply Hdom0 |]. intros ->. done. }
  exists cls, h', owned', ul'. split.
  { unfold clone_solution, get_solution. rewrite Hsc. simpl.
    fold cls. fold csc0. fold h0. rewrite Htr, <- Hlo. rewrite Hloop. simpl.
    rewrite Hunr. exact Hun. }
  assert (Hclsdom1 : cls ∈ dom h1).
  { apply elem_of_dom. by eexists. }
  split.
  { eexists. split; [exact Hcls' |]. simpl.
    repeat (split; [done |]). split.
    { rewrite Harr. simpl. rewrite length_replicate, length_app, length_map,
        length_take, length_replicate. lia. }
    split; [done |]. split; [lia |]. split.
    { intros i cl locs' Hi. destruct (Hin i cl locs' Hi) as (Hslot & r & Hr
                                                             & Hrr).
      simpl in Hslot, Hr. split; [done |]. exists (cloned_route r).
      assert (Hi' : (i < Z.to_nat (s_trucks s))%nat).
      { apply lookup_lt_Some in Hi. lia. }
      split.
      { pose proof (cloned_solution_slot pb s i Hi') as Hslot'.
        simpl in Hslot'. rewrite Hslot' by lia.
        unfold route_at in Hr.
        destruct (s_routes s !! i) as [[r0 |] |]; simpl in Hr; try done.
        by injection Hr as ->. }
      destruct (route_repr_cells _ _ _ _ _ Hrr) as ([rc Hrc] & Hcells).
      apply (route_repr_frame h1); [done | |].
      - apply Hsame'; [apply elem_of_dom; by eexists |].
        intros ->. rewrite Hcls1 in Hrc. done.
      - intros l Hl. destruct (Hcells l Hl) as [c Hc].
        apply Hsame'; [apply elem_of_dom; by eexists |].
        intros ->. rewrite Hcls1 in Hc. done. }
    split; [done |]. split; [by rewrite length_map |]. by split. }
  split.
  { intros l Hl. assert (Hlcls : l <> cls) by (intros ->; done).
    rewrite Hsame'; [| by apply Hdom1, Hdom0 | done].
    rewrite Hsame1; [by apply Hh0 | by apply Hdom0 | done]. }
  split; [done |].
  intros l Hl Hld. apply elem_of_footprint in Hl as [(rl & locs & Hel & Hl)
                                                      | Hl].
  - destruct (Hfresh rl locs Hel) as [Ha Hb].
    destruct Hl as [-> | Hl]; [by apply Ha, Hdom0 |].
    by apply (Hb l Hl), Hdom0.
  - by apply (Hfreshu l Hl), Hdom1, Hdom0.
Qed.

Lemma solution_repr_pb (h : gmap nat cell) (pbp : option nat) (sl : nat)
    (s : Solution) (owned : list (nat * list nat)) (ul : list nat) :
  solution_repr h pbp sl s owned ul ->
  sc_pb <$> get_solution h sl = Some pbp.
Proof.
  intros (sc & Hsc & _ & _ & _ & _ & _ & _ & _ & Hpb & _).
  unfold get_solution. rewrite Hsc. simpl. by rewrite Hpb.
Qed.

(** C7: for a solution [s] held in memory at [sl], with at most
    [num_nodes] trucks, [clone_solution] returns (given fuel for its
    longest chain) the address of a new solution cell that holds
    [cloned_solution pb s], while [s] stays in memory as it was.  The clone
    has the same trucks, num_unrouted and cached totals; its routes, in the
    same array order, have the same id, depot_id, len, load and workers and
    the same sequence of node ids; its unrouted chain has the same node
    ids; [calc_costs] returns on [s], and returns the same value on the
    clone.  The solution cell, the route cells and the node cells of the
    clone are all new, so none of them is a cell of [s]; the pointer to the
    problem is the one of [s]. *)
Theorem clone_solution_deep_copy (pb : Problem) (cfg : Config) (fuel : nat)
    (h : gmap nat cell) (pbp : option nat) (sl : nat) (s : Solution)
    (owned : list (nat * list nat)) (ul : list nat) :
  solution_repr h pbp sl s owned ul ->
  s_trucks s <= pb_num_nodes pb ->
  (forall rl locs, (rl, locs) ∈ owned -> (length locs <= S fuel)%nat) ->
  (length ul <= S fuel)%nat ->
  exists (cl : nat) (h' : gmap nat cell) (owned' : list (nat * list nat))
         (ul' : list nat),
    clone_solution pb fuel h sl = Some (cl, h') /\
    solution_repr h' pbp cl (cloned_solution pb s) owned' ul' /\
    solution_repr h' pbp sl s owned ul /\
    (cl ∉ dom h) /\ cl <> sl /\
    (forall l, l ∈ footprint owned' ul' -> l ∉ dom h) /\
    footprint owned' ul' ## footprint owned ul /\
    sc_pb <$> get_solution h' cl = sc_pb <$> get_solution h sl /\
    s_trucks (cloned_solution pb s) = s_trucks s /\
    s_num_unrouted (cloned_solution pb s) = s_num_unrouted s /\
    s_workers_cache (cloned_solution pb s) = s_workers_cache s /\
    s_dist_cache (cloned_solution pb s) = s_dist_cache s /\
    s_cost_cache (cloned_solution pb s) = s_cost_cache s /\
    (forall i, (i < Z.to_nat (s_trucks s))%nat ->
       exists r r' : Route,
         route_at s i = Some r /\
         route_at (cloned_solution pb s) i = Some r' /\
         r_id r' = r_id r /\ r_depot_id r' = r_depot_id r /\
         r_len r' = r_len r /\ r_load r' = r_load r /\
         r_workers r' = r_workers r /\
         map n_id (r_nodes r') = map n_id (r_nodes r)) /\
    map n_id (s_unrouted (cloned_solution pb s)) = map n_id (s_unrouted s) /\
    is_Some (calc_costs pb s cfg) /\
    fst <$> calc_costs pb (cloned_solution pb s) cfg
    = fst <$> calc_costs pb s cfg.
Proof.
  intros Hrepr Htn Hfuel Hfuelu.
  destruct (clone_solution_heap pb fuel h pbp sl s owned ul Hrepr Htn Hfuel
              Hfuelu)
    as (cl & h' & owned' & ul' & Hrun & Hrepr' & Hsame & Hclf & Hfresh).
  destruct (solution_repr_trucks _ _ _ _ _ _ Hrepr) as [Htlen Hroutes].
  exists cl, h', owned', ul'.
  split; [done |]. split; [done |].
  split; [by apply (solution_repr_frame h) |]. split; [done |].
  split.
  { intros ->. apply Hclf. destruct Hrepr as (sc & Hsc & _).
    apply elem_of_dom. by eexists. }
  split; [done |]. split.
  { apply elem_of_disjoint. intros l Hl' Hl. apply (Hfresh l Hl').
    by apply (solution_repr_footprint _ _ _ _ _ _ Hrepr). }
  split.
  { rewrite (solution_repr_pb _ _ _ _ _ _ Hrepr').
    by rewrite (solution_repr_pb _ _ _ _ _ _ Hrepr). }
  do 5 (split; [done |]). split.
  { intros i Hi. destruct (Hroutes i Hi) as [r Hr].
    exists r, (cloned_route r). split; [done |]. split.
    { rewrite cloned_solution_route_at by done. by rewrite Hr. }
    simpl. do 5 (split; [done |]). apply map_n_id_cloned. }
  split; [apply map_n_id_cloned |]. split.
  { unfold calc_costs.
    destruct (calc_costs_loop_returns pb s (seq 0 (Z.to_nat (s_trucks s)))
                0 0) as [[w d] Hwd].
    - intros i Hi. apply elem_of_seq in Hi. apply Hroutes. lia.
    - rewrite Hwd. by eexists. }
  apply calc_costs_cloned.
Qed.

Lemma clone_solution_deep_copy_witness :
  exists (cl : nat) (h' : gmap nat cell) (owned' : list (nat * list nat))
         (ul' : list nat),
    clone_solution ex_pb 2 ex_heap 1 = Some (cl, h') /\
    solution_repr h' (Some 0%nat) cl (cloned_solution ex_pb ex_sol)
                  owned' ul' /\
    solution_repr h' (Some 0%nat) 1 ex_sol ex_owned ex_ul /\
    footprint owned' ul' ## footprint ex_owned ex_ul /\
    fst <$> calc_costs ex_pb (cloned_solution ex_pb ex_sol) ex_cfg
    = fst <$> calc_costs ex_pb ex_sol ex_cfg.
Proof.
  assert (Hrepr0 : solution_repr ex_heap (Some 0%nat) 1 ex_sol ex_owned
                     ex_ul).
  { exists {| sc_routes := [Some 2%nat; None]; sc_trucks := 1;
              sc_unrouted := Some 6%nat; sc_num_unrouted := 1;
              sc_time := 0; sc_saturation_time := 0;
              sc_workers_cache := 0; sc_dist_cache := 0;
              sc_cost_cache := 0; sc_pb := Some 0%nat |}.
    split; [vm_compute; reflexivity |].
    do 9 (split; [reflexivity |]). split; [simpl; lia |].
    split; [reflexivity |]. split.
    { intros [| i] rl locs Hi; [| by destruct i].
      injection Hi as <- <-. split; [reflexivity |].
      exists ex_route. split; [reflexivity |].
      exists {| rc_id := 0; rc_depot_id := 3; rc_nodes := Some 3%nat;
                rc_tail := Some 5%nat; rc_len := 3; rc_load := 10;
                rc_workers := 1; rc_pb := Some 0%nat |}.
      split; [vm_compute; reflexivity |].
      do 8 (split; [reflexivity |]). split; [done |].
      split; [reflexivity |].
      split; [apply (bool_decide_unpack _); vm_compute; reflexivity |].
      simpl. split; [reflexivity |]. exists (Some 4%nat).
      split; [vm_compute; reflexivity |]. split; [reflexivity |].
      exists (Some 5%nat). split; [vm_compute; reflexivity |].
      split; [reflexivity |]. exists None.
      split; [vm_compute; reflexivity |]. reflexivity. }
    split; [reflexivity |]. split; [reflexivity |].
    split; [apply (bool_decide_unpack _); vm_compute; reflexivity |].
    simpl. split; [reflexivity |]. exists None.
    split; [vm_compute; reflexivity |]. reflexivity. }
  assert (Htn : s_trucks ex_sol <= pb_num_nodes ex_pb) by (simpl; lia).
  assert (Hfuel : forall rl locs,
             (rl, locs) ∈ ex_owned -> (length locs <= 3)%nat).
  { intros rl locs Hin. apply list_elem_of_singleton in Hin.
    injection Hin as -> ->. simpl. lia. }
  assert (Hfuelu : (length ex_ul <= 3)%nat) by (simpl; lia).
  destruct (clone_solution_deep_copy ex_pb ex_cfg 2 ex_heap (Some 0%nat) 1
              ex_sol ex_owned ex_ul Hrepr0 Htn Hfuel Hfuelu)
    as (cl & h' & owned' & ul' & Hrun & Hrepr' & Hrepr & _ & _ & _ & Hdisj
        & _ & _ & _ & _ & _ & _ & _ & _ & _ & Hcost).
  exists cl, h', owned', ul'. split; [exact Hrun |].
  split; [exact Hrepr' |]. split; [exact Hrepr |].
  split; [exact Hdisj | exact Hcost].
Defined.

(** * Further properties of the code *)

(** ** Editing the chain of a route *)

Lemma run_of_inserted (nodes run : list Node) (after : nat) :
  (S after <= length nodes)%nat ->
  run_of (take (S after) nodes ++ run ++ drop (S after) nodes)
         (S after) (after + length run) = run.
Proof.
  intros Hlen. unfold run_of.
  rewrite drop_app_length' by (rewrite length_take; lia).
  replace (S (after + length run) - S after)%nat with (length run) by lia.
  by rewrite take_app_length.
Qed.

Lemma chain_without_inserted (nodes run : list Node) (after : nat) :
  (S after <= length nodes)%nat ->
  take (S after) (take (S after) nodes ++ run ++ drop (S after) nodes) ++
  drop (S (after + length run))
       (take (S after) nodes ++ run ++ drop (S after) nodes) = nodes.
Proof.
  intros Hlen.
  rewrite take_app_length' by (rewrite length_take; lia).
  replace (S (after + length run)) with (S after + length run)%nat by lia.
  rewrite <- drop_drop.
  rewrite drop_app_length' by (rewrite length_take; lia).
  rewrite drop_app_length. apply take_drop.
Qed.

Lemma chain_with_removed (nodes : list Node) (first last : nat) :
  (1 <= first)%nat -> (first <= last)%nat -> (S last <= length nodes)%nat ->
  take (S (first - 1)) (take first nodes ++ drop (S last) nodes) ++
  run_of nodes first last ++
  drop (S (first - 1)) (take first nodes ++ drop (S last) nodes) = nodes.
Proof.
  intros H1 H2 H3. replace (S (first - 1)) with first by lia.
  rewrite take_app_length' by (rewrite length_take; lia).
  rewrite drop_app_length' by (rewrite length_take; lia).
  unfold run_of.
  rewrite <- (take_drop first nodes) at 4. f_equal.
  rewrite <- (take_drop (S last - first) (drop first nodes)) at 2. f_equal.
  rewrite drop_drop. f_equal. lia.
Qed.

(** X2.  [add_nodes_noupdate] and [remove_nodes_noupdate] undo each other
    on the chain.  Removing a run that was just inserted behind position
    [after], and inserting a run of [r] again behind the node that preceded
    it, both give back the chain of [r], its [len], its id, its depot id
    and its workers.  (The [load] is added to and subtracted from and is
    not part of the statement.) *)
Theorem add_remove_nodes_round_trip (r : Route) (run : list Node)
    (after first last : nat) :
  run <> [] ->
  (S after <= length (r_nodes r))%nat ->
  (1 <= first)%nat -> (first <= last)%nat ->
  (S last <= length (r_nodes r))%nat ->
  let r1 := remove_nodes_noupdate (add_nodes_noupdate r run after)
              (S after) (after + length run) in
  let r2 := add_nodes_noupdate (remove_nodes_noupdate r first last)
              (run_of (r_nodes r) first last) (first - 1) in
  (r_nodes r1 = r_nodes r /\ r_len r1 = r_len r /\
   r_id r1 = r_id r /\ r_depot_id r1 = r_depot_id r /\
   r_workers r1 = r_workers r) /\
  (r_nodes r2 = r_nodes r /\ r_len r2 = r_len r /\
   r_id r2 = r_id r /\ r_depot_id r2 = r_depot_id r /\
   r_workers r2 = r_workers r).
Proof.
  intros Hrun Hafter H1 H2 H3. split.
  - unfold remove_nodes_noupdate, add_nodes_noupdate. simpl.
    rewrite run_of_inserted by done.
    split; [by apply chain_without_inserted |].
    split; [lia | done].
  - unfold remove_nodes_noupdate, add_nodes_noupdate. simpl.
    split; [by apply chain_with_removed |].
    split; [lia | done].
Qed.

Lemma add_remove_nodes_round_trip_witness :
  let r1 := remove_nodes_noupdate (add_nodes_noupdate ex_route [ex_node2] 0)
              1 1 in
  let r2 := add_nodes_noupdate (remove_nodes_noupdate ex_route 1 1)
              (run_of (r_nodes ex_route) 1 1) 0 in
  (r_nodes r1 = r_nodes ex_route /\ r_len r1 = r_len ex_route /\
   r_id r1 = r_id ex_route /\ r_depot_id r1 = r_depot_id ex_route /\
   r_workers r1 = r_workers ex_route) /\
  (r_nodes r2 = r_nodes ex_route /\ r_len r2 = r_len ex_route /\
   r_id r2 = r_id ex_route /\ r_depot_id r2 = r_depot_id ex_route /\
   r_workers r2 = r_workers ex_route).
Proof.
  apply (add_remove_nodes_round_trip ex_route [ex_node2] 0 1 1).
  - discriminate.
  - simpl. lia.
  - lia.
  - lia.
  - simpl. lia.
Defined.

(** ** What the propagation of start times leaves alone *)

Lemma calc_ests_actual_map {A : Type} (f : Node -> A) (c_m : nat -> nat -> Q)
    (chain : list Node) :
  (forall n v, f (set_aest n v) = f n) ->
  forall prev, map f (calc_ests_actual c_m prev chain) = map f chain.
Proof.
  intros Hf. induction chain as [| n rest IH]; intros prev; [done |].
  destruct rest as [| n' rest']; [done |].
  change (calc_ests_actual c_m prev (n :: n' :: rest')) with
    (set_aest n (Common.max (n_est n)
                   (n_aest prev + c_m (n_id prev) (n_id n))%Q) ::
     calc_ests_actual c_m
       (set_aest n (Common.max (n_est n)
                      (n_aest prev + c_m (n_id prev) (n_id n))%Q))
       (n' :: rest')).
  rewrite map_cons, IH, Hf. done.
Qed.

Lemma calc_ests_cache_map {A : Type} (f : Node -> A) (c_m : nat -> nat -> Q)
    (chain : list Node) :
  (forall n v, f (set_aest_cache n v) = f n) ->
  forall prev, map f (calc_ests_cache c_m prev chain) = map f chain.
Proof.
  intros Hf. induction chain as [| n rest IH]; intros prev; [done |].
  simpl. by rewrite IH, Hf.
Qed.

Lemma calc_lsts_loop_map {A : Type} (f : Node -> A) (c_m : nat -> nat -> Q)
    (chain_rev : list Node) :
  (forall n v, f (set_alst n v) = f n) ->
  forall succ, map f (calc_lsts_loop c_m succ chain_rev) = map f chain_rev.
Proof.
  intros Hf. induction chain_rev as [| n rest IH]; intros succ; [done |].
  destruct rest as [| n' rest']; [done |].
  change (calc_lsts_loop c_m succ (n :: n' :: rest')) with
    (set_alst n (Common.fmin (n_lst n)
                   (n_alst succ - c_m (n_id n) (n_id succ))%Q) ::
     calc_lsts_loop c_m
       (set_alst n (Common.fmin (n_lst n)
                      (n_alst succ - c_m (n_id n) (n_id succ))%Q))
       (n' :: rest')).
  rewrite map_cons, IH, Hf. done.
Qed.

Lemma calc_ests_map {A : Type} (f : Node -> A) (pb : Problem) (r : Route)
    (pos : nat) (w : Z) :
  (forall n v, f (set_aest n v) = f n) ->
  (forall n v, f (set_aest_cache n v) = f n) ->
  map f (r_nodes (calc_ests pb r pos w)) = map f (r_nodes r).
Proof.
  intros Hf Hc. unfold calc_ests. destruct pos as [| before].
  - destruct (r_nodes r) as [| head rest] eqn:E; [by rewrite E |].
    destruct (r_workers r =? w); simpl.
    + by rewrite calc_ests_actual_map, Hf.
    + by rewrite calc_ests_cache_map, Hc.
  - destruct (r_nodes r !! before) as [prev |]; [| done]. simpl.
    rewrite map_app.
    destruct (r_workers r =? w).
    + rewrite calc_ests_actual_map by done.
      by rewrite <- map_app, take_drop.
    + rewrite calc_ests_cache_map by done.
      by rewrite <- map_app, take_drop.
Qed.

Lemma calc_lsts_map {A : Type} (f : Node -> A) (pb : Problem) (r : Route)
    (pos : nat) (w : Z) :
  (forall n v, f (set_alst n v) = f n) ->
  map f (r_nodes (calc_lsts pb r pos w)) = map f (r_nodes r).
Proof.
  intros Hf. unfold calc_lsts. destruct (Nat.eqb _ _).
  - destruct (rev (r_nodes r)) as [| tl before] eqn:Hrev; [done |]. simpl.
    rewrite map_app. simpl. rewrite map_rev.
    rewrite calc_lsts_loop_map by done. rewrite Hf.
    rewrite <- (rev_involutive (r_nodes r)), Hrev. simpl.
    by rewrite map_app, map_rev.
  - destruct (r_nodes r !! S pos) as [succ |]; [| done]. simpl.
    rewrite map_app, map_rev, calc_lsts_loop_map by done.
    rewrite <- map_rev, rev_involutive, <- map_app. by rewrite take_drop.
Qed.

Lemma calc_ests_frame (pb : Problem) (r : Route) (pos : nat) (w : Z) :
  r_id (calc_ests pb r pos w) = r_id r /\
  r_depot_id (calc_ests pb r pos w) = r_depot_id r /\
  r_len (calc_ests pb r pos w) = r_len r /\
  r_load (calc_ests pb r pos w) = r_load r /\
  r_workers (calc_ests pb r pos w) = r_workers r.
Proof.
  unfold calc_ests. destruct pos as [| before].
  - destruct (r_nodes r) as [| head rest]; [done |].
    by destruct (r_workers r =? w).
  - by destruct (r_nodes r !! before).
Qed.

Lemma calc_lsts_frame (pb : Problem) (r : Route) (pos : nat) (w : Z) :
  r_id (calc_lsts pb r pos w) = r_id r /\
  r_depot_id (calc_lsts pb r pos w) = r_depot_id r /\
  r_len (calc_lsts pb r pos w) = r_len r /\
  r_load (calc_lsts pb r pos w) = r_load r /\
  r_workers (calc_lsts pb r pos w) = r_workers r.
Proof.
  unfold calc_lsts. destruct (Nat.eqb _ _).
  - by destruct (rev (r_nodes r)).
  - by destruct (r_nodes r !! S pos).
Qed.

(** [add_nodes] and [remove_nodes] change what the versions without update
    change, and start times. *)
Lemma add_nodes_map {A : Type} (f : Node -> A) (pb : Problem) (r : Route)
    (run : list Node) (after : nat) :
  (forall n v, f (set_aest n v) = f n) ->
  (forall n v, f (set_aest_cache n v) = f n) ->
  (forall n v, f (set_alst n v) = f n) ->
  map f (r_nodes (add_nodes pb r run after))
  = map f (r_nodes (add_nodes_noupdate r run after)).
Proof.
  intros H1 H2 H3. unfold add_nodes.
  rewrite calc_lsts_map by done. by rewrite calc_ests_map.
Qed.

Lemma add_nodes_frame (pb : Problem) (r : Route) (run : list Node)
    (after : nat) :
  let r1 := add_nodes_noupdate r run after in
  r_id (add_nodes pb r run after) = r_id r1 /\
  r_depot_id (add_nodes pb r run after) = r_depot_id r1 /\
  r_len (add_nodes pb r run after) = r_len r1 /\
  r_load (add_nodes pb r run after) = r_load r1 /\
  r_workers (add_nodes pb r run after) = r_workers r1.
Proof.
  intros r1. unfold add_nodes. fold r1.
  destruct (calc_lsts_frame pb (calc_ests pb r1 (S after) (r_workers r1))
              (after + length run)
              (r_workers (calc_ests pb r1 (S after) (r_workers r1))))
    as (-> & -> & -> & -> & ->).
  apply calc_ests_frame.
Qed.

Lemma remove_nodes_map {A : Type} (f : Node -> A) (pb : Problem) (r : Route)
    (first last : nat) :
  (forall n v, f (set_aest n v) = f n) ->
  (forall n v, f (set_aest_cache n v) = f n) ->
  (forall n v, f (set_alst n v) = f n) ->
  map f (r_nodes (remove_nodes pb r first last))
  = map f (r_nodes (remove_nodes_noupdate r first last)).
Proof.
  intros H1 H2 H3. unfold remove_nodes.
  rewrite calc_lsts_map by done. by rewrite calc_ests_map.
Qed.

Lemma remove_nodes_frame (pb : Problem) (r : Route) (first last : nat) :
  let r1 := remove_nodes_noupdate r first last in
  r_id (remove_nodes pb r first last) = r_id r1 /\
  r_depot_id (remove_nodes pb r first last) = r_depot_id r1 /\
  r_len (remove_nodes pb r first last) = r_len r1 /\
  r_load (remove_nodes pb r first last) = r_load r1 /\
  r_workers (remove_nodes pb r first last) = r_workers r1.
Proof.
  intros r1. unfold remove_nodes. fold r1.
  destruct (calc_lsts_frame pb (calc_ests pb r1 first (r_workers r1))
              (first - 1)
              (r_workers (calc_ests pb r1 first (r_workers r1))))
    as (-> & -> & -> & -> & ->).
  apply calc_ests_frame.
Qed.

(** ** The distance a move saves *)

Lemma default_last_cons {A : Type} (l : list A) :
  forall prev n : A, default prev (last (n :: l)) = default n (last l).
Proof.
  induction l as [| n' l IH]; intros prev n; [done |].
  rewrite last_cons_cons. rewrite (IH prev n'). by rewrite (IH n n').
Qed.

Lemma last_take_lookup {A : Type} (l : list A) (k : nat) (x : A) :
  l !! k = Some x -> last (take (S k) l) = Some x.
Proof.
  intros Hk. rewrite last_lookup. pose proof (lookup_lt_Some _ _ _ Hk).
  rewrite length_take. replace (Init.Nat.pred (S k `min` length l)) with k
    by lia.
  by rewrite lookup_take_lt by lia.
Qed.

Lemma head_drop_lookup {A : Type} (l : list A) (k : nat) :
  head (drop k l) = l !! k.
Proof. rewrite head_lookup, lookup_drop. f_equal. lia. Qed.

Lemma run_of_length (nodes : list Node) (i j : nat) :
  (S j <= length nodes)%nat ->
  length (run_of nodes i j) = (S j - i)%nat.
Proof. intros H. unfold run_of. rewrite length_take, length_drop. lia. Qed.

(** ** The routes of a solution *)

Lemma get_route_index_loop_absent (sol : Solution) (id : nat)
    (indices : list nat) :
  (forall j, j ∈ indices ->
     exists r, route_at sol j = Some r /\ r_id r <> id) ->
  get_route_index_loop sol id indices = Exits sol.
Proof.
  induction indices as [| i rest IH]; intros Hall; [done |].
  destruct (Hall i) as (r & Hr & Hne); [left |].
  simpl. rewrite Hr. apply Nat.eqb_neq in Hne. rewrite Hne.
  apply IH. intros j Hj. apply Hall. by right.
Qed.

Lemma solution_wf_route_at (sol : Solution) (i : nat) (r : Route) :
  solution_wf sol -> route_at sol i = Some r ->
  (i < Z.to_nat (s_trucks sol))%nat /\ s_routes sol !! i = Some (Some r).
Proof.
  intros Hwf Hr. unfold route_at in Hr.
  destruct (s_routes sol !! i) as [[r' |] |] eqn:Hslot; simpl in Hr;
    try done.
  injection Hr as ->. split; [| done].
  by apply (proj2 (solution_wf_slots sol Hwf) i r).
Qed.

Lemma get_route_index_wf_found (sol : Solution) (i : nat) (r : Route) :
  solution_wf sol -> route_at sol i = Some r ->
  get_route_index sol (r_id r) = Returns sol i.
Proof.
  intros Hwf Hr. destruct (solution_wf_slots sol Hwf) as [Hlive Hlt].
  destruct (solution_wf_route_at sol i r Hwf Hr) as [Hi Hslot].
  unfold get_route_index.
  apply (get_route_index_loop_found sol (r_id r) i r); try done; [| lia].
  intros j Hj. destruct (Hlive j) as [r' Hr']; [lia |].
  exists r'. split; [unfold route_at; by rewrite Hr' |].
  intros Hid.
  pose proof (solution_wf_ids sol j i r' r Hwf Hr' Hslot Hid). lia.
Qed.

Lemma get_route_index_wf_absent (sol : Solution) (id : nat) :
  solution_wf sol ->
  (forall i r, route_at sol i = Some r -> r_id r <> id) ->
  get_route_index sol id = Exits sol.
Proof.
  intros Hwf Hnone. destruct (solution_wf_slots sol Hwf) as [Hlive Hlt].
  unfold get_route_index.
  apply get_route_index_loop_absent. intros j Hj.
  apply elem_of_seq in Hj. destruct (Hlive j) as [r Hr]; [lia |].
  exists r. assert (Hat : route_at sol j = Some r)
    by (unfold route_at; by rewrite Hr).
  split; [done |]. by apply (Hnone j r).
Qed.

(** X5.  On a solution whose first [trucks] slots hold routes with
    pairwise different ids, [get_route_index] is the inverse of reading the
    id of the route in a slot, and it ends the program when no route has
    the id asked for. *)
Theorem get_route_index_inverse (sol : Solution) :
  solution_wf sol ->
  (forall i r, route_at sol i = Some r ->
     get_route_index sol (r_id r) = Returns sol i) /\
  (forall id,
     (forall i r, route_at sol i = Some r -> r_id r <> id) ->
     get_route_index sol id = Exits sol).
Proof.
  intros Hwf. split.
  - intros i r Hr. by apply get_route_index_wf_found.
  - intros id Hnone. by apply get_route_index_wf_absent.
Qed.

Lemma get_route_index_inverse_witness :
  (forall i r, route_at ex_sol_two i = Some r ->
     get_route_index ex_sol_two (r_id r) = Returns ex_sol_two i) /\
  (forall id,
     (forall i r, route_at ex_sol_two i = Some r -> r_id r <> id) ->
     get_route_index ex_sol_two id = Exits ex_sol_two).
Proof.
  apply (get_route_index_inverse ex_sol_two).
  unfold solution_wf. simpl. split; [lia |]. split; [lia |].
  split; [repeat constructor; eauto |]. split; [constructor |].
  apply (bool_decide_unpack _). vm_compute. reflexivity.
Defined.

(** ** The caches of a solution *)

Lemma calc_costs_loop_split (pb : Problem) (sol : Solution)
    (indices : list nat) :
  forall (workers : Z) (dist : Q),
    calc_costs_loop pb sol workers dist indices
    = w ← calc_workers_loop sol workers indices;
      d ← calc_dist_loop pb sol dist indices;
      Some (w, d).
Proof.
  induction indices as [| i rest IH]; intros workers dist; [done |].
  simpl. destruct (route_at sol i) as [route |]; simpl; [| done].
  apply IH.
Qed.

Lemma calc_workers_loop_routes (sol sol' : Solution) (indices : list nat) :
  s_routes sol' = s_routes sol ->
  forall workers,
    calc_workers_loop sol' workers indices
    = calc_workers_loop sol workers indices.
Proof.
  intros Hr. induction indices as [| i rest IH]; intros workers; [done |].
  simpl. unfold route_at. rewrite Hr.
  destruct (s_routes sol !! i) as [[route |] |]; simpl;
    first [done | apply IH].
Qed.

(** X6.  When [calc_costs] returns, the worker and distance caches it
    leaves are the values of [calc_workers] and [calc_dist], the value
    returned is the cost cache and is [calc_cost] of the trucks and these
    two caches, nothing but the three caches changed, and a second call
    returns the same value and changes nothing. *)
Theorem calc_costs_caches (pb : Problem) (sol sol' : Solution) (cfg : Config)
    (cost : Q) :
  calc_costs pb sol cfg = Some (cost, sol') ->
  calc_workers sol = Some (s_workers_cache sol') /\
  calc_dist pb sol = Some (s_dist_cache sol') /\
  s_cost_cache sol' = cost /\
  cost = calc_cost cfg (s_trucks sol) (s_workers_cache sol')
                   (s_dist_cache sol') /\
  s_routes sol' = s_routes sol /\ s_trucks sol' = s_trucks sol /\
  s_unrouted sol' = s_unrouted sol /\
  s_num_unrouted sol' = s_num_unrouted sol /\
  s_time sol' = s_time sol /\
  s_saturation_time sol' = s_saturation_time sol /\
  calc_costs pb sol' cfg = Some (cost, sol').
Proof.
  unfold calc_costs, calc_workers, calc_dist.
  rewrite calc_costs_loop_split.
  destruct (calc_workers_loop sol 0 _) as [w |] eqn:Hw; simpl; [| done].
  destruct (calc_dist_loop pb sol 0 _) as [d |] eqn:Hd; simpl; [| done].
  intros [= <- <-]. simpl. repeat (split; [done |]).
  rewrite calc_costs_loop_split.
  assert (Hw' : calc_workers_loop
                  {| s_routes := s_routes sol; s_trucks := s_trucks sol;
                     s_unrouted := s_unrouted sol;
                     s_num_unrouted := s_num_unrouted sol;
                     s_time := s_time sol;
                     s_saturation_time := s_saturation_time sol;
                     s_workers_cache := w; s_dist_cache := d;
                     s_cost_cache := calc_cost cfg (s_trucks sol) w d |}
                  0 (seq 0 (Z.to_nat (s_trucks sol))) = Some w).
  { by rewrite (calc_workers_loop_routes sol). }
  rewrite Hw'. simpl.
  assert (Hd' : forall indices dist,
            calc_dist_loop pb
              {| s_routes := s_routes sol; s_trucks := s_trucks sol;
                 s_unrouted := s_unrouted sol;
                 s_num_unrouted := s_num_unrouted sol;
                 s_time := s_time sol;
                 s_saturation_time := s_saturation_time sol;
                 s_workers_cache := w; s_dist_cache := d;
                 s_cost_cache := calc_cost cfg (s_trucks sol) w d |}
              dist indices = calc_dist_loop pb sol dist indices).
  { induction indices as [| i rest IH]; intros dist; [done |].
    simpl. unfold route_at. simpl.
    destruct (s_routes sol !! i) as [[route |] |]; simpl;
      first [done | apply IH]. }
  rewrite Hd', Hd. done.
Qed.

Lemma calc_costs_caches_witness :
  exists (cost : Q) (sol' : Solution),
    calc_costs ex_pb ex_sol_two ex_cfg = Some (cost, sol') /\
    calc_workers ex_sol_two = Some (s_workers_cache sol') /\
    calc_dist ex_pb ex_sol_two = Some (s_dist_cache sol') /\
    calc_costs ex_pb sol' ex_cfg = Some (cost, sol').
Proof.
  destruct (calc_costs ex_pb ex_sol_two ex_cfg) as [[cost sol'] |] eqn:E;
    [| vm_compute in E; discriminate].
  exists cost, sol'.
  destruct (calc_costs_caches ex_pb ex_sol_two sol' ex_cfg cost E)
    as (Hw & Hd & _ & _ & _ & _ & _ & _ & _ & _ & Hagain).
  by repeat split.
Defined.

(** ** Resetting a solution *)

Lemma length_concat_map_rev {A B : Type} (f : A -> list B) (l : list A) :
  length (concat (map f (rev l))) = length (concat (map f l)).
Proof.
  induction l as [| x l IH]; [done |].
  simpl. rewrite map_app, concat_app, !length_app, IH. simpl.
  rewrite app_nil_r. lia.
Qed.

(** X7.  [reset_solution] loses no customer.  On a solution whose first
    [trucks] slots hold routes with both depots, the routes with
    [len == EMPTY] being those without customers, it returns; the unrouted
    chain afterwards is the customers of the routes, those of the last
    route first, in front of the chain as it was; every route handed to
    [free_route] holds two nodes; the slots that held routes are NULL,
    [trucks] is 0 and [num_unrouted] is [num_nodes - 1], which is the
    number of unrouted nodes when the solution held [num_nodes - 1]
    customers. *)
Theorem reset_solution_unroutes_all (sol : Solution) (num_nodes : Z) :
  (forall j, (j < Z.to_nat (s_trucks sol))%nat ->
     exists r, s_routes sol !! j = Some (Some r) /\
               (2 <= length (r_nodes r))%nat /\
               (r_len r = EMPTY <-> length (r_nodes r) = 2%nat)) ->
  exists (sol' : Solution) (freed : list Route),
    reset_solution sol num_nodes = Returns sol' freed /\
    s_unrouted sol'
    = concat (map customers (rev (live_routes sol))) ++ s_unrouted sol /\
    s_trucks sol' = 0 /\ s_num_unrouted sol' = num_nodes - 1 /\
    length freed = Z.to_nat (s_trucks sol) /\
    Forall (fun r => length (r_nodes r) = 2%nat) freed /\
    length (s_routes sol') = length (s_routes sol) /\
    (forall j, (j < Z.to_nat (s_trucks sol))%nat ->
               s_routes sol' !! j = Some None) /\
    (forall j, (Z.to_nat (s_trucks sol) <= j)%nat ->
               s_routes sol' !! j = s_routes sol !! j) /\
    (Z.of_nat (length (concat (map customers (live_routes sol))) +
               length (s_unrouted sol)) = num_nodes - 1 ->
     s_num_unrouted sol' = Z.of_nat (length (s_unrouted sol'))).
Proof.
  intros Hok.
  destruct (live_routes_lookup sol) as [Hlen Hlook].
  { intros j Hj. destruct (Hok j Hj) as (r & Hr & _). by exists r. }
  destruct (reset_solution_loop_spec (live_routes sol) 0 (s_routes sol)
              (s_unrouted sol) [])
    as (routes' & freed & Hrun & Hfl & _ & Hfa & Hrl & Hin & Hout).
  { intros k r Hk. pose proof (Hlook k r Hk) as Hslot.
    pose proof (lookup_lt_Some _ _ _ Hk) as Hlt. rewrite Hlen in Hlt.
    destruct (Hok k Hlt) as (r' & Hr' & H2 & H3).
    rewrite Hslot in Hr'. injection Hr' as <-. done. }
  rewrite Hlen in Hrun, Hfl, Hin, Hout.
  unfold reset_solution. rewrite Hrun.
  eexists _, freed. split; [reflexivity |]. simpl.
  split; [done |]. split; [done |]. split; [done |]. split; [done |].
  split; [by apply Hfa |]. split; [done |].
  split; [intros j Hj; apply Hin; lia |].
  split; [intros j Hj; apply Hout; lia |].
  intros Hcount. rewrite <- Hcount. rewrite length_app.
  by rewrite length_concat_map_rev.
Qed.

Lemma reset_solution_unroutes_all_witness :
  exists (sol' : Solution) (freed : list Route),
    reset_solution ex_sol_two 3 = Returns sol' freed /\
    s_unrouted sol'
    = concat (map customers (rev (live_routes ex_sol_two))) ++
      s_unrouted ex_sol_two /\
    Forall (fun r => length (r_nodes r) = 2%nat) freed /\
    s_num_unrouted sol' = Z.of_nat (length (s_unrouted sol')).
Proof.
  destruct (reset_solution_unroutes_all ex_sol_two 3)
    as (sol' & freed & Hrun & Hun & _ & _ & _ & Hfa & _ & _ & _ & Hnum).
  - intros j Hj. simpl in Hj.
    destruct j as [| [| j]]; [| | lia].
    + exists ex_route. split; [reflexivity |]. split; [simpl; lia |].
      split; intros H; vm_compute in H; discriminate.
    + exists ex_route_b. split; [reflexivity |]. split; [simpl; lia |].
      split; intros H; vm_compute in H; discriminate.
  - exists sol', freed. split; [exact Hrun |]. split; [exact Hun |].
    split; [exact Hfa |]. apply Hnum. reflexivity.
Defined.

(** ** Removing a route and looking routes up afterwards *)

Lemma omap_sublist {A B : Type} (f : A -> option B) (l1 l2 : list A) :
  l1 `sublist_of` l2 -> omap f l1 `sublist_of` omap f l2.
Proof.
  induction 1 as [| x l1 l2 _ IH | x l1 l2 _ IH]; simpl.
  - constructor.
  - destruct (f x); [by constructor | done].
  - destruct (f x); [by constructor | done].
Qed.

Lemma omap_id_delete {A : Type} (l : list (option A)) :
  Forall is_Some l ->
  forall i, omap id (delete i l) = delete i (omap id l).
Proof.
  induction l as [| slot l IH]; intros Hall i; [done |].
  inversion Hall as [| ? ? [r0 ->] Hall']; subst.
  destruct i as [| i]; [done |].
  change (omap id (delete (S i) (Some r0 :: l)))
    with (r0 :: omap id (delete i l)).
  by rewrite IH.
Qed.

Lemma remove_route_wf (sol : Solution) (i : nat) (route : Route) :
  solution_wf sol -> route_at sol i = Some route -> r_len route = EMPTY ->
  exists routes' : list (option Route),
    remove_route sol i
    = Returns (with_routes sol routes' (s_trucks sol - 1)) [route] /\
    routes' = delete i (take (Z.to_nat (s_trucks sol)) (s_routes sol)) ++
              None :: drop (Z.to_nat (s_trucks sol)) (s_routes sol) /\
    solution_wf (with_routes sol routes' (s_trucks sol - 1)).
Proof.
  intros Hwf Hroute Hempty.
  destruct (solution_wf_route_at sol i route Hwf Hroute) as [Hi Hslot].
  pose proof Hwf as (H0 & Hlen & Hlive & Hnull & Hnd).
  set (n := Z.to_nat (s_trucks sol)) in *.
  destruct (remove_route_empty sol i route Hroute Hempty)
    as (routes' & Hrun & Hl & Hlo & Hmid & Hlast & Hhi); [lia | lia |].
  exists routes'. split; [exact Hrun |].
  assert (Hdl : length (delete i (take n (s_routes sol))) = (n - 1)%nat).
  { rewrite length_delete; [rewrite length_take; lia |].
    apply lookup_lt_is_Some_2. rewrite length_take. lia. }
  assert (Heq : routes' = delete i (take n (s_routes sol)) ++
                          None :: drop n (s_routes sol)).
  { apply list_eq. intros j.
    destruct (decide (j < n - 1)%nat) as [Hj | Hj].
    - rewrite lookup_app_l by lia.
      destruct (decide (j < i)%nat) as [Hji | Hji].
      + rewrite Hlo by done. rewrite list_lookup_delete_lt by done.
        by rewrite lookup_take_lt by lia.
      + rewrite Hmid by lia. rewrite list_lookup_delete_ge by lia.
        by rewrite lookup_take_lt by lia.
    - rewrite lookup_app_r by lia. rewrite Hdl.
      destruct (decide (j = n - 1)%nat) as [-> | Hne].
      + replace (n - 1 - (n - 1))%nat with 0%nat by lia. simpl.
        rewrite <- Hlast. f_equal. lia.
      + replace (j - (n - 1))%nat with (S (j - n)) by lia. simpl.
        rewrite lookup_drop. rewrite Hhi by lia. f_equal. lia. }
  split; [exact Heq |].
  unfold solution_wf. simpl.
  replace (Z.to_nat (s_trucks sol - 1)) with (n - 1)%nat by lia.
  split; [lia |]. split; [lia |].
  assert (Htake : take (n - 1) routes' = delete i (take n (s_routes sol))).
  { rewrite Heq. rewrite take_app_length'; done. }
  assert (Hdrop : drop (n - 1) routes' = None :: drop n (s_routes sol)).
  { rewrite Heq. rewrite drop_app_length'; done. }
  rewrite Htake, Hdrop. split; [| split].
  - rewrite delete_take_drop. apply Forall_app.
    split; [by apply Forall_take | by apply Forall_drop].
  - by constructor.
  - apply (sublist_NoDup _ (omap (fmap r_id) (take n (s_routes sol))));
      [exact Hnd | apply omap_sublist, sublist_delete].
Qed.

(** Where the routes stand after [remove_route]. *)
Lemma remove_route_slots (sol : Solution) (i : nat) (route : Route) :
  solution_wf sol -> route_at sol i = Some route -> r_len route = EMPTY ->
  exists sol' : Solution,
    remove_route sol i = Returns sol' [route] /\
    solution_wf sol' /\
    s_trucks sol' = s_trucks sol - 1 /\
    live_routes sol' = delete i (live_routes sol) /\
    (forall j r, route_at sol j = Some r -> j <> i ->
       route_at sol' (if decide (j < i)%nat then j else (j - 1)%nat)
       = Some r) /\
    (forall j' r, route_at sol' j' = Some r ->
       exists j, j <> i /\ route_at sol j = Some r) /\
    s_unrouted sol' = s_unrouted sol /\
    s_num_unrouted sol' = s_num_unrouted sol.
Proof.
  intros Hwf Hroute Hempty.
  destruct (remove_route_wf sol i route Hwf Hroute Hempty)
    as (routes' & Hrun & Heq & Hwf').
  destruct (solution_wf_route_at sol i route Hwf Hroute) as [Hi Hslot].
  pose proof Hwf as (H0 & Hlen & Hlive & Hnull & Hnd).
  set (n := Z.to_nat (s_trucks sol)) in *.
  set (sol' := with_routes sol routes' (s_trucks sol - 1)) in *.
  assert (Hdl : length (delete i (take n (s_routes sol))) = (n - 1)%nat).
  { rewrite length_delete; [rewrite length_take; lia |].
    apply lookup_lt_is_Some_2. rewrite length_take. lia. }
  exists sol'. split; [exact Hrun |]. split; [exact Hwf' |].
  split; [done |]. split; [| split; [| split; [| done]]].
  - unfold live_routes, sol'. simpl.
    replace (Z.to_nat (s_trucks sol - 1)) with (n - 1)%nat by lia. fold n.
    rewrite Heq. fold n. rewrite take_app_length' by done.
    by apply omap_id_delete.
  - intros j r Hr Hne.
    destruct (solution_wf_route_at sol j r Hwf Hr) as [Hj Hsj].
    unfold route_at, sol'. simpl. rewrite Heq. fold n.
    destruct (decide (j < i)%nat) as [Hlt | Hge].
    + rewrite lookup_app_l by lia. rewrite list_lookup_delete_lt by done.
      rewrite lookup_take_lt by lia. by rewrite Hsj.
    + rewrite lookup_app_l by lia. rewrite list_lookup_delete_ge by lia.
      rewrite lookup_take_lt by lia.
      replace (S (j - 1)) with j by lia. by rewrite Hsj.
  - intros j' r Hr.
    destruct (solution_wf_route_at sol' j' r Hwf' Hr) as [Hj' Hsj'].
    unfold sol' in Hj', Hsj'. simpl in Hj', Hsj'.
    replace (Z.to_nat (s_trucks sol - 1)) with (n - 1)%nat in Hj' by lia.
    rewrite Heq in Hsj'. fold n in Hsj'.
    rewrite lookup_app_l in Hsj' by lia.
    destruct (decide (j' < i)%nat) as [Hlt | Hge].
    + rewrite list_lookup_delete_lt in Hsj' by done.
      rewrite lookup_take_lt in Hsj' by lia.
      exists j'. split; [lia |]. unfold route_at. by rewrite Hsj'.
    + rewrite list_lookup_delete_ge in Hsj' by lia.
      rewrite lookup_take_lt in Hsj' by lia.
      exists (S j'). split; [lia |]. unfold route_at. by rewrite Hsj'.
Qed.

(** X8.  Removing the empty route in slot [i] of a solution whose routes
    have pairwise different ids leaves such a solution: its routes are the
    old ones without that route, in the same order, and [get_route_index]
    finds each of them one slot lower when it stood behind slot [i], in
    its old slot otherwise; asked for the id of the removed route it ends
    the program. *)
Theorem remove_route_then_index (sol : Solution) (i : nat) (route : Route) :
  solution_wf sol -> route_at sol i = Some route -> r_len route = EMPTY ->
  exists sol' : Solution,
    remove_route sol i = Returns sol' [route] /\
    solution_wf sol' /\
    live_routes sol' = delete i (live_routes sol) /\
    (forall j r, route_at sol j = Some r -> j <> i ->
       get_route_index sol' (r_id r)
       = Returns sol' (if decide (j < i)%nat then j else (j - 1)%nat)) /\
    get_route_index sol' (r_id route) = Exits sol'.
Proof.
  intros Hwf Hroute Hempty.
  destruct (remove_route_slots sol i route Hwf Hroute Hempty)
    as (sol' & Hrun & Hwf' & _ & Hlive & Hnew & Hold & _).
  destruct (solution_wf_route_at sol i route Hwf Hroute) as [Hi Hslot].
  exists sol'. split; [exact Hrun |]. split; [exact Hwf' |].
  split; [exact Hlive |]. split.
  - intros j r Hr Hne. apply get_route_index_wf_found; [done |].
    by apply Hnew.
  - apply get_route_index_wf_absent; [done |].
    intros j' r Hr Hid. destruct (Hold j' r Hr) as (j & Hne & Hj).
    destruct (solution_wf_route_at sol j r Hwf Hj) as [_ Hsj].
    apply Hne. by apply (solution_wf_ids sol j i r route Hwf Hsj Hslot).
Qed.

Lemma remove_route_then_index_witness :
  exists sol' : Solution,
    remove_route ex_sol_emptied 0 = Returns sol' [ex_route_empty] /\
    solution_wf sol' /\
    live_routes sol' = delete 0%nat (live_routes ex_sol_emptied) /\
    (forall j r, route_at ex_sol_emptied j = Some r -> j <> 0%nat ->
       get_route_index sol' (r_id r)
       = Returns sol' (if decide (j < 0)%nat then j else (j - 1)%nat)) /\
    get_route_index sol' (r_id ex_route_empty) = Exits sol'.
Proof.
  apply (remove_route_then_index ex_sol_emptied 0 ex_route_empty).
  - unfold solution_wf. simpl. split; [lia |]. split; [lia |].
    split; [repeat constructor; eauto |]. split; [constructor |].
    apply (bool_decide_unpack _). vm_compute. reflexivity.
  - reflexivity.
  - reflexivity.
Defined.

(** ** Start times that are up to date *)

Lemma set_aest_fix (n : Node) (v : Q) : set_aest n v = n <-> n_aest n = v.
Proof.
  split.
  - intros H. rewrite <- H. done.
  - intros <-. by destruct n.
Qed.

Lemma set_alst_fix (n : Node) (v : Q) : set_alst n v = n <-> n_alst n = v.
Proof.
  split.
  - intros H. rewrite <- H. done.
  - intros <-. by destruct n.
Qed.

Lemma calc_ests_actual_fix (c_m : nat -> nat -> Q) (chain : list Node) :
  forall prev,
    calc_ests_actual c_m prev chain = chain <-> ests_chain c_m prev chain.
Proof.
  induction chain as [| n rest IH]; intros prev; [done |].
  destruct rest as [| n' rest']; [done |].
  change (calc_ests_actual c_m prev (n :: n' :: rest')) with
    (set_aest n (Common.max (n_est n)
                   (n_aest prev + c_m (n_id prev) (n_id n))%Q) ::
     calc_ests_actual c_m
       (set_aest n (Common.max (n_est n)
                      (n_aest prev + c_m (n_id prev) (n_id n))%Q))
       (n' :: rest')).
  change (ests_chain c_m prev (n :: n' :: rest')) with
    (n_aest n = Common.max (n_est n)
                  (n_aest prev + c_m (n_id prev) (n_id n))%Q /\
     ests_chain c_m n (n' :: rest')).
  set (n1 := set_aest n _).
  split.
  - intros H.
    assert (Hn : n1 = n) by congruence.
    assert (Hrest : calc_ests_actual c_m n1 (n' :: rest') = n' :: rest')
      by congruence.
    apply IH in Hrest.
    pose proof Hn as Hn'. apply set_aest_fix in Hn'.
    split; [exact Hn' |]. rewrite <- Hn. exact Hrest.
  - intros [Hn Hrest]. apply set_aest_fix in Hn. fold n1 in Hn. rewrite Hn.
    f_equal. by apply IH.
Qed.

Lemma calc_lsts_loop_fix (c_m : nat -> nat -> Q) (chain_rev : list Node) :
  forall succ,
    calc_lsts_loop c_m succ chain_rev = chain_rev
    <-> lsts_chain c_m succ chain_rev.
Proof.
  induction chain_rev as [| n rest IH]; intros succ; [done |].
  destruct rest as [| n' rest']; [done |].
  change (calc_lsts_loop c_m succ (n :: n' :: rest')) with
    (set_alst n (Common.fmin (n_lst n)
                   (n_alst succ - c_m (n_id n) (n_id succ))%Q) ::
     calc_lsts_loop c_m
       (set_alst n (Common.fmin (n_lst n)
                      (n_alst succ - c_m (n_id n) (n_id succ))%Q))
       (n' :: rest')).
  change (lsts_chain c_m succ (n :: n' :: rest')) with
    (n_alst n = Common.fmin (n_lst n)
                  (n_alst succ - c_m (n_id n) (n_id succ))%Q /\
     lsts_chain c_m n (n' :: rest')).
  set (n1 := set_alst n _).
  split.
  - intros H.
    assert (Hn : n1 = n) by congruence.
    assert (Hrest : calc_lsts_loop c_m n1 (n' :: rest') = n' :: rest')
      by congruence.
    apply IH in Hrest.
    pose proof Hn as Hn'. apply set_alst_fix in Hn'.
    split; [exact Hn' |]. rewrite <- Hn. exact Hrest.
  - intros [Hn Hrest]. apply set_alst_fix in Hn. fold n1 in Hn. rewrite Hn.
    f_equal. by apply IH.
Qed.

(** [up_to_date] is [schedule_ok] for the matrix of the route's workers. *)
Lemma up_to_date_schedule_ok (pb : Problem) (r : Route) :
  up_to_date pb r <-> schedule_ok (pb_c_m pb (r_workers r)) (r_nodes r).
Proof.
  unfold up_to_date, schedule_ok.
  destruct (r_nodes r) as [| head rest] eqn:Hnodes.
  - unfold calc_ests, calc_lsts. rewrite Hnodes. simpl. rewrite Hnodes.
    tauto.
  - set (c := pb_c_m pb (r_workers r)).
    set (h1 := set_aest head (n_est head)).
    assert (E1 : r_nodes (calc_ests pb r 0 (r_workers r))
                 = h1 :: calc_ests_actual c h1 rest).
    { unfold calc_ests. rewrite Hnodes, Z.eqb_refl. done. }
    destruct (rev (head :: rest)) as [| tl before] eqn:Hrev.
    { apply (f_equal (@length Node)) in Hrev.
      rewrite length_rev in Hrev. done. }
    set (t1 := set_alst tl (n_lst tl)).
    assert (E2 : r_nodes (calc_lsts pb r (length (head :: rest) - 1)
                            (r_workers r))
                 = rev (t1 :: calc_lsts_loop c t1 before)).
    { unfold calc_lsts. rewrite Hnodes.
      replace (S (length (head :: rest) - 1) =? length (head :: rest))%nat
        with true by (symmetry; apply Nat.eqb_eq; simpl; lia).
      rewrite Hrev. done. }
    rewrite E1, E2.
    assert (HL : head :: rest = rev (tl :: before)).
    { rewrite <- Hrev. by rewrite rev_involutive. }
    split.
    + intros [H1 H2].
      assert (Hh : h1 = head) by congruence.
      assert (Hr : calc_ests_actual c h1 rest = rest) by congruence.
      rewrite HL in H2. apply (f_equal (@rev Node)) in H2.
      rewrite !rev_involutive in H2.
      assert (Ht : t1 = tl) by congruence.
      assert (Hb : calc_lsts_loop c t1 before = before) by congruence.
      rewrite Hh in Hr. rewrite Ht in Hb.
      apply set_aest_fix in Hh. apply set_alst_fix in Ht.
      split; (split; [done |]);
        [by apply calc_ests_actual_fix | by apply calc_lsts_loop_fix].
    + intros [[Hh Hr] [Ht Hb]].
      apply set_aest_fix in Hh. apply set_alst_fix in Ht.
      fold h1 in Hh. fold t1 in Ht. rewrite Hh, Ht.
      apply calc_ests_actual_fix in Hr. apply calc_lsts_loop_fix in Hb.
      rewrite Hr, Hb. split; [done |]. by rewrite HL.
Qed.

Lemma schedule_ok_split (c_m : nat -> nat -> Q) (nodes : list Node) :
  schedule_ok c_m nodes <-> fwd_ok c_m nodes /\ bwd_ok c_m (rev nodes).
Proof. done. Qed.

Lemma last_rev_head {A : Type} (l : list A) : last (rev l) = head l.
Proof. destruct l as [| x l]; [done |]. simpl. by rewrite last_snoc. Qed.

Lemma ests_all_chain (c_m : nat -> nat -> Q) (chain : list Node) :
  forall prev, ests_all c_m prev chain -> ests_chain c_m prev chain.
Proof.
  induction chain as [| n rest IH]; intros prev H; [done |].
  destruct rest as [| n' rest']; [done |].
  destruct H as [Hn Hrest]. split; [done |]. by apply IH.
Qed.

Lemma ests_chain_app (c_m : nat -> nat -> Q) (l1 l2 : list Node) :
  l2 <> [] ->
  forall prev,
    ests_chain c_m prev (l1 ++ l2)
    <-> ests_all c_m prev l1 /\ ests_chain c_m (default prev (last l1)) l2.
Proof.
  intros Hl2. induction l1 as [| n l1 IH]; intros prev.
  - simpl. tauto.
  - rewrite default_last_cons.
    assert (Hne : exists x rest, l1 ++ l2 = x :: rest).
    { destruct l1 as [| x l1']; [| by eexists _, _].
      destruct l2 as [| x l2']; [done | by eexists _, _]. }
    destruct Hne as (x & rest & Hne).
    change ((n :: l1) ++ l2) with (n :: (l1 ++ l2)).
    assert (Hc : ests_chain c_m prev (n :: l1 ++ l2)
                 <-> n_aest n = Common.max (n_est n)
                       (n_aest prev + c_m (n_id prev) (n_id n))%Q /\
                     ests_chain c_m n (l1 ++ l2)).
    { rewrite Hne. done. }
    rewrite Hc, IH. simpl. tauto.
Qed.

Lemma lsts_chain_app (c_m : nat -> nat -> Q) (l1 l2 : list Node) :
  l2 <> [] ->
  forall succ,
    lsts_chain c_m succ (l1 ++ l2)
    <-> lsts_all c_m succ l1 /\ lsts_chain c_m (default succ (last l1)) l2.
Proof.
  intros Hl2. induction l1 as [| n l1 IH]; intros succ.
  - simpl. tauto.
  - rewrite default_last_cons.
    assert (Hne : exists x rest, l1 ++ l2 = x :: rest).
    { destruct l1 as [| x l1']; [| by eexists _, _].
      destruct l2 as [| x l2']; [done | by eexists _, _]. }
    destruct Hne as (x & rest & Hne).
    change ((n :: l1) ++ l2) with (n :: (l1 ++ l2)).
    assert (Hc : lsts_chain c_m succ (n :: l1 ++ l2)
                 <-> n_alst n = Common.fmin (n_lst n)
                       (n_alst succ - c_m (n_id n) (n_id succ))%Q /\
                     lsts_chain c_m n (l1 ++ l2)).
    { rewrite Hne. done. }
    rewrite Hc, IH. simpl. tauto.
Qed.

Lemma ests_chain_calc (c_m : nat -> nat -> Q) (chain : list Node) :
  forall prev, ests_chain c_m prev (calc_ests_actual c_m prev chain).
Proof.
  intros prev. apply calc_ests_actual_fix. revert prev.
  induction chain as [| n rest IH]; intros prev; [done |].
  destruct rest as [| n' rest']; [done |].
  change (calc_ests_actual c_m prev (n :: n' :: rest')) with
    (set_aest n (Common.max (n_est n)
                   (n_aest prev + c_m (n_id prev) (n_id n))%Q) ::
     calc_ests_actual c_m
       (set_aest n (Common.max (n_est n)
                      (n_aest prev + c_m (n_id prev) (n_id n))%Q))
       (n' :: rest')).
  set (n1 := set_aest n _). set (E := calc_ests_actual c_m n1 (n' :: rest')).
  assert (HE : exists x rest, E = x :: rest).
  { unfold E. destruct rest' as [| n'' rest'']; by eexists _, _. }
  destruct HE as (x & rest & HE).
  assert (Hstep : calc_ests_actual c_m prev (n1 :: E)
                  = set_aest n1 (Common.max (n_est n1)
                       (n_aest prev + c_m (n_id prev) (n_id n1))%Q) ::
                    calc_ests_actual c_m
                      (set_aest n1 (Common.max (n_est n1)
                         (n_aest prev + c_m (n_id prev) (n_id n1))%Q)) E).
  { rewrite HE. done. }
  rewrite Hstep.
  assert (Hn1 : set_aest n1 (Common.max (n_est n1)
                  (n_aest prev + c_m (n_id prev) (n_id n1))%Q) = n1).
  { apply set_aest_fix. done. }
  rewrite Hn1. f_equal. unfold E. apply IH.
Qed.

Lemma lsts_chain_calc (c_m : nat -> nat -> Q) (chain : list Node) :
  forall succ, lsts_chain c_m succ (calc_lsts_loop c_m succ chain).
Proof.
  intros succ. apply calc_lsts_loop_fix. revert succ.
  induction chain as [| n rest IH]; intros succ; [done |].
  destruct rest as [| n' rest']; [done |].
  change (calc_lsts_loop c_m succ (n :: n' :: rest')) with
    (set_alst n (Common.fmin (n_lst n)
                   (n_alst succ - c_m (n_id n) (n_id succ))%Q) ::
     calc_lsts_loop c_m
       (set_alst n (Common.fmin (n_lst n)
                      (n_alst succ - c_m (n_id n) (n_id succ))%Q))
       (n' :: rest')).
  set (n1 := set_alst n _). set (E := calc_lsts_loop c_m n1 (n' :: rest')).
  assert (HE : exists x rest, E = x :: rest).
  { unfold E. destruct rest' as [| n'' rest'']; by eexists _, _. }
  destruct HE as (x & rest & HE).
  assert (Hstep : calc_lsts_loop c_m succ (n1 :: E)
                  = set_alst n1 (Common.fmin (n_lst n1)
                       (n_alst succ - c_m (n_id n1) (n_id succ))%Q) ::
                    calc_lsts_loop c_m
                      (set_alst n1 (Common.fmin (n_lst n1)
                         (n_alst succ - c_m (n_id n1) (n_id succ))%Q)) E).
  { rewrite HE. done. }
  rewrite Hstep.
  assert (Hn1 : set_alst n1 (Common.fmin (n_lst n1)
                  (n_alst succ - c_m (n_id n1) (n_id succ))%Q) = n1).
  { apply set_alst_fix. done. }
  rewrite Hn1. f_equal. unfold E. apply IH.
Qed.

Lemma ests_chain_ext (c_m : nat -> nat -> Q) (l : list Node) :
  forall (l' : list Node) (p p' : Node),
    fwd p = fwd p' -> map fwd l = map fwd l' ->
    ests_chain c_m p l -> ests_chain c_m p' l'.
Proof.
  induction l as [| n l IH]; intros [| n' l'] p p' Hp Hl; try done.
  simpl in Hl. unfold fwd in Hl at 1 3. injection Hl as Hn1 Hn2 Hn3 Hl.
  destruct l as [| m l], l' as [| m' l']; try done.
  intros [H1 H2]. unfold fwd in Hp. injection Hp as Hp1 Hp2 Hp3. split.
  - by rewrite <- Hn3, <- Hn2, <- Hn1, <- Hp3, <- Hp1.
  - apply (IH (m' :: l') n n'); [unfold fwd; congruence | done | done].
Qed.

Lemma lsts_all_ext (c_m : nat -> nat -> Q) (l : list Node) :
  forall (l' : list Node) (p p' : Node),
    bwd p = bwd p' -> map bwd l = map bwd l' ->
    lsts_all c_m p l -> lsts_all c_m p' l'.
Proof.
  induction l as [| n l IH]; intros [| n' l'] p p' Hp Hl; try done.
  simpl in Hl. unfold bwd in Hl at 1 3. injection Hl as Hn1 Hn2 Hn3 Hl.
  intros [H1 H2]. unfold bwd in Hp. injection Hp as Hp1 Hp2 Hp3. split.
  - by rewrite <- Hn3, <- Hn2, <- Hn1, <- Hp3, <- Hp1.
  - apply (IH l' n n'); [unfold bwd; congruence | done | done].
Qed.

Lemma lsts_chain_ext (c_m : nat -> nat -> Q) (l : list Node) :
  forall (l' : list Node) (p p' : Node),
    bwd p = bwd p' -> map bwd l = map bwd l' ->
    lsts_chain c_m p l -> lsts_chain c_m p' l'.
Proof.
  induction l as [| n l IH]; intros [| n' l'] p p' Hp Hl; try done.
  simpl in Hl. unfold bwd in Hl at 1 3. injection Hl as Hn1 Hn2 Hn3 Hl.
  destruct l as [| m l], l' as [| m' l']; try done.
  intros [H1 H2]. unfold bwd in Hp. injection Hp as Hp1 Hp2 Hp3. split.
  - by rewrite <- Hn3, <- Hn2, <- Hn1, <- Hp3, <- Hp1.
  - apply (IH (m' :: l') n n'); [unfold bwd; congruence | done | done].
Qed.

Lemma fwd_ok_ext (c_m : nat -> nat -> Q) (l l' : list Node) :
  map fwd l = map fwd l' -> fwd_ok c_m l -> fwd_ok c_m l'.
Proof.
  destruct l as [| h l], l' as [| h' l']; try done. simpl.
  intros Hm [H1 H2].
  assert (Hh : fwd h = fwd h') by congruence.
  assert (Hl : map fwd l = map fwd l') by congruence.
  split.
  - unfold fwd in Hh. congruence.
  - by apply (ests_chain_ext c_m l l' h h').
Qed.

Lemma bwd_ok_ext (c_m : nat -> nat -> Q) (l l' : list Node) :
  map bwd l = map bwd l' -> bwd_ok c_m l -> bwd_ok c_m l'.
Proof.
  destruct l as [| h l], l' as [| h' l']; try done. simpl.
  intros Hm [H1 H2].
  assert (Hh : bwd h = bwd h') by congruence.
  assert (Hl : map bwd l = map bwd l') by congruence.
  split.
  - unfold bwd in Hh. congruence.
  - by apply (lsts_chain_ext c_m l l' h h').
Qed.

Lemma calc_ests_actual_length (c_m : nat -> nat -> Q) (chain : list Node)
    (prev : Node) :
  length (calc_ests_actual c_m prev chain) = length chain.
Proof.
  rewrite <- (length_map (fun _ : Node => tt)).
  rewrite calc_ests_actual_map by done. by rewrite length_map.
Qed.

Lemma calc_lsts_loop_length (c_m : nat -> nat -> Q) (chain : list Node)
    (succ : Node) :
  length (calc_lsts_loop c_m succ chain) = length chain.
Proof.
  rewrite <- (length_map (fun _ : Node => tt)).
  rewrite calc_lsts_loop_map by done. by rewrite length_map.
Qed.

Lemma fwd_ok_prefix (c_m : nat -> nat -> Q) (P X : list Node) :
  X <> [] -> fwd_ok c_m (P ++ X) -> fwd_all c_m P.
Proof.
  intros HX. destruct P as [| head rest]; [done |]. simpl.
  intros [Hh Hc]. split; [done |]. by apply (ests_chain_app c_m rest X HX).
Qed.

Lemma bwd_ok_suffix (c_m : nat -> nat -> Q) (Y S : list Node) :
  Y <> [] -> bwd_ok c_m (rev (Y ++ S)) -> bwd_all c_m (rev S).
Proof.
  intros HY. rewrite rev_app_distr.
  destruct (rev S) as [| tl before]; [done |]. simpl.
  intros [Ht Hc]. split; [done |].
  apply (lsts_chain_app c_m before (rev Y)) in Hc; [tauto |].
  intros Hr. apply HY. apply (f_equal (@rev Node)) in Hr.
  by rewrite rev_involutive in Hr.
Qed.

Lemma repass_schedule_ok (c_m : nat -> nat -> Q) (P M S : list Node)
    (prev succ : Node) :
  last P = Some prev ->
  fwd_all c_m P ->
  S <> [] ->
  bwd_all c_m (rev S) ->
  (P ++ calc_ests_actual c_m prev (M ++ S)) !! (length P + length M)%nat
  = Some succ ->
  schedule_ok c_m (repass c_m P M S prev succ).
Proof.
  intros HP Hfwd HS Hbwd Hsucc. apply schedule_ok_split. unfold repass.
  set (E := calc_ests_actual c_m prev (M ++ S)) in *.
  set (N2 := P ++ E) in *. set (k := (length P + length M)%nat) in *.
  assert (HE : length E = (length M + length S)%nat).
  { unfold E. by rewrite calc_ests_actual_length, length_app. }
  assert (HSlen : (0 < length S)%nat).
  { destruct S; [done | simpl; lia]. }
  assert (Htake : take k N2 = P ++ take (length M) E).
  { unfold N2, k. rewrite take_app_add'; done. }
  assert (Hdrop : drop k N2 = drop (length M) E).
  { unfold N2, k. rewrite drop_app_add'; done. }
  assert (Hbwd_E : map bwd E = map bwd (M ++ S)).
  { unfold E. by rewrite calc_ests_actual_map. }
  assert (HD : map bwd (drop (length M) E) = map bwd S).
  { rewrite <- skipn_map, Hbwd_E, skipn_map. by rewrite drop_app_length. }
  split.
  - (* the forward pass *)
    apply (fwd_ok_ext c_m N2).
    { rewrite map_app, map_rev, calc_lsts_loop_map by done.
      rewrite <- map_rev, rev_involutive, <- map_app. by rewrite take_drop. }
    unfold N2. destruct P as [| head rest]; [done |].
    destruct Hfwd as [Hh Hall]. simpl. split; [done |].
    apply ests_chain_app.
    { intros HE0. rewrite HE0 in HE. simpl in HE. lia. }
    split; [done |].
    replace (default head (last rest)) with prev.
    + apply ests_chain_calc.
    + rewrite <- (default_last_cons rest head head). by rewrite HP.
  - (* the backward pass *)
    rewrite rev_app_distr, rev_involutive. rewrite Hdrop.
    set (D := drop (length M) E) in *.
    assert (HDh : head D = Some succ).
    { unfold D. rewrite head_drop_lookup.
      unfold N2, k in Hsucc. rewrite lookup_app_r in Hsucc by lia.
      rewrite <- Hsucc. f_equal. lia. }
    assert (Hbwd_D : bwd_all c_m (rev D)).
    { destruct (rev S) as [| tl before] eqn:HrS.
      { apply (f_equal (@length Node)) in HrS. rewrite length_rev in HrS.
        simpl in HrS. lia. }
      assert (HrD : map bwd (rev D) = map bwd (tl :: before)).
      { by rewrite map_rev, HD, <- map_rev, HrS. }
      destruct (rev D) as [| tl' before'] eqn:HrD'; [done |].
      simpl in HrD. destruct Hbwd as [Ht Hall].
      assert (Htl : bwd tl' = bwd tl) by congruence.
      assert (Hbf : map bwd before' = map bwd before) by congruence.
      split.
      - unfold bwd in Htl. congruence.
      - by apply (lsts_all_ext c_m before before' tl tl'). }
    destruct (rev D) as [| tl before] eqn:HrD.
    { apply (f_equal (@length Node)) in HrD. rewrite length_rev in HrD.
      unfold D in HrD. rewrite length_drop in HrD. simpl in HrD. lia. }
    destruct Hbwd_D as [Ht Hall]. simpl. split; [done |].
    apply lsts_chain_app.
    { intros HL. apply (f_equal (@length Node)) in HL.
      rewrite calc_lsts_loop_length, length_rev, Htake, length_app in HL.
      destruct P; [done | simpl in HL; lia]. }
    split; [done |].
    replace (default tl (last before)) with succ.
    + apply lsts_chain_calc.
    + rewrite <- (default_last_cons before tl tl). rewrite <- HrD.
      by rewrite last_rev_head, HDh.
Qed.

Lemma add_nodes_repass (pb : Problem) (r : Route) (run : list Node)
    (after : nat) (prev : Node) :
  (S after < length (r_nodes r))%nat ->
  r_nodes r !! after = Some prev ->
  let c_m := pb_c_m pb (r_workers r) in
  let P := take (S after) (r_nodes r) in
  let S0 := drop (S after) (r_nodes r) in
  exists succ : Node,
    (P ++ calc_ests_actual c_m prev (run ++ S0))
      !! (length P + length run)%nat = Some succ /\
    r_nodes (add_nodes pb r run after) = repass c_m P run S0 prev succ.
Proof.
  intros Hlen Hprev c_m P S0.
  assert (HP : length P = S after) by (unfold P; rewrite length_take; lia).
  assert (HS : length S0 = (length (r_nodes r) - S after)%nat)
    by (unfold S0; by rewrite length_drop).
  set (N2 := P ++ calc_ests_actual c_m prev (run ++ S0)).
  assert (HN2 : length N2 = (S after + length run + length S0)%nat).
  { unfold N2. rewrite length_app, calc_ests_actual_length, length_app. lia. }
  destruct (lookup_lt_is_Some_2 N2 (length P + length run)) as [succ Hsucc];
    [lia |].
  exists succ. split; [exact Hsucc |].
  unfold add_nodes.
  set (r1 := add_nodes_noupdate r run after).
  assert (Hr1 : r_nodes r1 = P ++ run ++ S0) by done.
  assert (Hw1 : r_workers r1 = r_workers r) by done.
  assert (Hr2 : r_nodes (calc_ests pb r1 (S after) (r_workers r1)) = N2).
  { unfold calc_ests. rewrite Z.eqb_refl, Hr1.
    rewrite (lookup_app_l P) by lia.
    unfold P at 1. rewrite lookup_take_lt by lia. rewrite Hprev. simpl.
    rewrite take_app_length' by done. rewrite drop_app_length' by done.
    done. }
  set (r2 := calc_ests pb r1 (S after) (r_workers r1)) in *.
  assert (Hw2 : r_workers r2 = r_workers r).
  { unfold r2. by destruct (calc_ests_frame pb r1 (S after) (r_workers r1))
      as (_ & _ & _ & _ & ->). }
  unfold calc_lsts. rewrite Hr2, Hw2.
  replace (S (after + length run)) with (length P + length run)%nat by lia.
  replace (length P + length run =? length N2)%nat with false
    by (symmetry; apply Nat.eqb_neq; lia).
  rewrite Hsucc. done.
Qed.

Lemma remove_nodes_repass (pb : Problem) (r : Route) (first last_ : nat)
    (prev : Node) :
  (1 <= first)%nat -> (first <= last_)%nat ->
  (S last_ < length (r_nodes r))%nat ->
  r_nodes r !! (first - 1)%nat = Some prev ->
  let c_m := pb_c_m pb (r_workers r) in
  let P := take first (r_nodes r) in
  let S0 := drop (S last_) (r_nodes r) in
  exists succ : Node,
    (P ++ calc_ests_actual c_m prev ([] ++ S0)) !! (length P + 0)%nat
    = Some succ /\
    r_nodes (remove_nodes pb r first last_) = repass c_m P [] S0 prev succ.
Proof.
  intros H1 H2 Hlen Hprev c_m P S0.
  assert (HP : length P = first) by (unfold P; rewrite length_take; lia).
  assert (HS : length S0 = (length (r_nodes r) - S last_)%nat)
    by (unfold S0; by rewrite length_drop).
  set (N2 := P ++ calc_ests_actual c_m prev ([] ++ S0)).
  assert (HN2 : length N2 = (first + length S0)%nat).
  { unfold N2. rewrite length_app, calc_ests_actual_length. simpl. lia. }
  destruct (lookup_lt_is_Some_2 N2 (length P + 0)) as [succ Hsucc]; [lia |].
  exists succ. split; [exact Hsucc |].
  unfold remove_nodes.
  set (r1 := remove_nodes_noupdate r first last_).
  assert (Hr1 : r_nodes r1 = P ++ S0) by done.
  assert (Hw1 : r_workers r1 = r_workers r) by done.
  assert (Hr2 : r_nodes (calc_ests pb r1 first (r_workers r1)) = N2).
  { unfold calc_ests. rewrite Z.eqb_refl, Hr1.
    destruct first as [| before]; [lia |].
    replace (S before - 1)%nat with before in Hprev by lia.
    rewrite (lookup_app_l P) by lia.
    unfold P at 1. rewrite lookup_take_lt by lia. rewrite Hprev. simpl.
    rewrite take_app_length' by done. rewrite drop_app_length' by done.
    done. }
  set (r2 := calc_ests pb r1 first (r_workers r1)) in *.
  assert (Hw2 : r_workers r2 = r_workers r).
  { unfold r2. by destruct (calc_ests_frame pb r1 first (r_workers r1))
      as (_ & _ & _ & _ & ->). }
  unfold calc_lsts. rewrite Hr2, Hw2.
  replace (S (first - 1)) with (length P + 0)%nat by lia.
  replace (length P + 0 =? length N2)%nat with false
    by (symmetry; apply Nat.eqb_neq; lia).
  rewrite Hsucc. unfold repass. simpl. done.
Qed.

Lemma add_nodes_keeps_schedule (pb : Problem) (r : Route) (run : list Node)
    (after : nat) :
  schedule_ok (pb_c_m pb (r_workers r)) (r_nodes r) ->
  (S after < length (r_nodes r))%nat ->
  schedule_ok (pb_c_m pb (r_workers r)) (r_nodes (add_nodes pb r run after)).
Proof.
  intros Hok Hlen.
  destruct (lookup_lt_is_Some_2 (r_nodes r) after) as [prev Hprev]; [lia |].
  destruct (add_nodes_repass pb r run after prev Hlen Hprev)
    as (succ & Hsucc & ->).
  apply schedule_ok_split in Hok as [Hf Hb].
  set (P := take (S after) (r_nodes r)) in *.
  set (S0 := drop (S after) (r_nodes r)) in *.
  assert (HPS : r_nodes r = P ++ S0) by (unfold P, S0; by rewrite take_drop).
  assert (HS0 : S0 <> []).
  { intros H0. apply (f_equal (@length Node)) in H0. unfold S0 in H0.
    rewrite length_drop in H0. simpl in H0. lia. }
  assert (HP0 : P <> []).
  { intros H0. assert (Hl : length P = S after)
      by (unfold P; rewrite length_take; lia).
    rewrite H0 in Hl. simpl in Hl. lia. }
  apply repass_schedule_ok; try done.
  - by apply last_take_lookup.
  - apply (fwd_ok_prefix _ P S0); [done |]. by rewrite <- HPS.
  - apply (bwd_ok_suffix _ P S0); [done |]. by rewrite <- HPS.
Qed.

Lemma remove_nodes_keeps_schedule (pb : Problem) (r : Route)
    (first last_ : nat) :
  schedule_ok (pb_c_m pb (r_workers r)) (r_nodes r) ->
  (1 <= first)%nat -> (first <= last_)%nat ->
  (S last_ < length (r_nodes r))%nat ->
  schedule_ok (pb_c_m pb (r_workers r))
              (r_nodes (remove_nodes pb r first last_)).
Proof.
  intros Hok H1 H2 Hlen.
  destruct (lookup_lt_is_Some_2 (r_nodes r) (first - 1)) as [prev Hprev];
    [lia |].
  destruct (remove_nodes_repass pb r first last_ prev H1 H2 Hlen Hprev)
    as (succ & Hsucc & ->).
  apply schedule_ok_split in Hok as [Hf Hb].
  set (P := take first (r_nodes r)) in *.
  set (S0 := drop (S last_) (r_nodes r)) in *.
  assert (HS0 : S0 <> []).
  { intros H0. apply (f_equal (@length Node)) in H0. unfold S0 in H0.
    rewrite length_drop in H0. simpl in H0. lia. }
  assert (HP0 : P <> []).
  { intros H0. assert (Hl : length P = first)
      by (unfold P; rewrite length_take; lia).
    rewrite H0 in Hl. simpl in Hl. lia. }
  apply repass_schedule_ok; try done.
  - unfold P. replace first with (S (first - 1)) by lia.
    by apply last_take_lookup.
  - apply (fwd_ok_prefix _ P (drop first (r_nodes r))).
    + intros H0. apply (f_equal (@length Node)) in H0.
      rewrite length_drop in H0. simpl in H0. lia.
    + unfold P. by rewrite take_drop.
  - apply (bwd_ok_suffix _ (take (S last_) (r_nodes r)) S0).
    + intros H0. assert (Hl : length (take (S last_) (r_nodes r)) = S last_)
        by (rewrite length_take; lia).
      rewrite H0 in Hl. simpl in Hl. lia.
    + unfold S0. by rewrite take_drop.
Qed.

(** X9.  [add_nodes] keeps the start times of a route up to date: when
    computing all earliest and latest start times of [r] again changes
    nothing, the same holds for the route after [add_nodes] has inserted a
    run behind a node other than the closing depot, whatever start times
    the nodes of the run carried. *)
Theorem add_nodes_up_to_date (pb : Problem) (r : Route) (run : list Node)
    (after : nat) :
  up_to_date pb r ->
  run <> [] ->
  (S after < length (r_nodes r))%nat ->
  up_to_date pb (add_nodes pb r run after).
Proof.
  intros Hup _ Hlen. apply up_to_date_schedule_ok.
  destruct (add_nodes_frame pb r run after) as (_ & _ & _ & _ & ->).
  simpl. apply add_nodes_keeps_schedule; [| done].
  by apply up_to_date_schedule_ok.
Qed.

(** X10.  [remove_nodes] keeps the start times of a route up to date: when
    computing them all again changes nothing on [r], it changes nothing on
    the route left after the customers at positions [first .. last] were
    removed. *)
Theorem remove_nodes_up_to_date (pb : Problem) (r : Route)
    (first last_ : nat) :
  up_to_date pb r ->
  (1 <= first)%nat -> (first <= last_)%nat ->
  (S last_ < length (r_nodes r))%nat ->
  up_to_date pb (remove_nodes pb r first last_).
Proof.
  intros Hup H1 H2 Hlen. apply up_to_date_schedule_ok.
  destruct (remove_nodes_frame pb r first last_) as (_ & _ & _ & _ & ->).
  simpl. apply remove_nodes_keeps_schedule; try done.
  by apply up_to_date_schedule_ok.
Qed.

Lemma add_nodes_up_to_date_witness :
  up_to_date ex_pb (add_nodes ex_pb ex_route [ex_node2] 0).
Proof.
  apply (add_nodes_up_to_date ex_pb ex_route [ex_node2] 0).
  - split; vm_compute; reflexivity.
  - discriminate.
  - simpl. lia.
Defined.

Lemma remove_nodes_up_to_date_witness :
  up_to_date ex_pb (remove_nodes ex_pb ex_route 1 1).
Proof.
  apply (remove_nodes_up_to_date ex_pb ex_route 1 1).
  - split; vm_compute; reflexivity.
  - lia.
  - lia.
  - simpl. lia.
Defined.

(** ** The feasibility check and [can_insert] as predicates *)

Lemma is_feasible_loop_reach (c_m : nat -> nat -> Q) (chain : list Node) :
  forall (prev : Node) (load t : Q),
    (reach c_m t (n_id prev) chain ->
     exists load', is_feasible_loop c_m prev chain load t = Some load' /\
                   (load' == load + total_demand chain)%Q) /\
    (is_Some (is_feasible_loop c_m prev chain load t) ->
     reach c_m t (n_id prev) chain).
Proof.
  induction chain as [| n rest IH]; intros prev load t.
  - split.
    + intros _. exists load. split; [done |]. unfold total_demand. simpl.
      lra.
    + done.
  - simpl. set (t' := Common.max (n_est n) (t + c_m (n_id prev) (n_id n))).
    split.
    + intros [Ht Hr].
      destruct (Qltb (n_lst n) t') eqn:E.
      { apply Qltb_lt in E. lra. }
      destruct (proj1 (IH n (load + n_demand n)%Q t') Hr) as (l' & Hl & Hq).
      exists l'. split; [done |]. rewrite Hq. unfold total_demand. simpl.
      lra.
    + destruct (Qltb (n_lst n) t') eqn:E; [by intros [? ?] |].
      apply Qltb_ge in E. intros Hs. split; [done |].
      by apply (proj2 (IH n (load + n_demand n)%Q t')).
Qed.

Lemma reach_ext (c_m : nat -> nat -> Q) (chain : list Node) :
  forall (chain' : list Node) (t : Q) (pid : nat),
    map static chain = map static chain' ->
    reach c_m t pid chain -> reach c_m t pid chain'.
Proof.
  induction chain as [| n rest IH]; intros [| n' rest'] t pid Hm; try done.
  simpl in Hm. unfold static in Hm at 1 3.
  injection Hm as Hid Hest Hlst Hm. simpl. intros [H1 H2].
  rewrite <- Hid, <- Hest, <- Hlst. split; [done |]. by apply IH.
Qed.

Lemma can_insert_loop_fits (c_m : nat -> nat -> Q) (rest : list Node) :
  forall (first succ : Node),
    fst (can_insert_loop c_m first rest succ) = true ->
    fits c_m (n_aest_cache first) (n_id first) rest succ.
Proof.
  induction rest as [| next rest IH]; intros first succ.
  - simpl. by rewrite Qleb_le.
  - change (can_insert_loop c_m first (next :: rest) succ) with
      (let next' :=
         set_aest_cache next
           (Common.max (n_aest_cache first + c_m (n_id first) (n_id next))%Q
                       (n_est next)) in
       if Qltb (n_lst next') (n_aest_cache next') then
         (false, first :: next' :: rest)
       else
         let (answer, run) := can_insert_loop c_m next' rest succ in
         (answer, first :: run)).
    intros Ha. cbv zeta in Ha.
    set (next' := set_aest_cache next _) in Ha.
    destruct (Qltb (n_lst next') (n_aest_cache next')) eqn:E; [done |].
    apply Qltb_ge in E.
    destruct (can_insert_loop c_m next' rest succ) as [answer run'] eqn:Hl.
    simpl in Ha. subst answer. split; [exact E |].
    apply (IH next' succ). by rewrite Hl.
Qed.

Lemma can_insert_fits (pb : Problem) (target : Route) (run : list Node)
    (after succ : Node) :
  fst (can_insert pb target run after succ) = true ->
  run <> [] /\
  fits (pb_c_m pb (r_workers target)) (n_aest after) (n_id after) run succ.
Proof.
  unfold can_insert. destruct run as [| first rest]; [done |].
  set (first' := set_aest_cache first _).
  destruct (Qltb (n_lst first') (n_aest_cache first')) eqn:E; [done |].
  apply Qltb_ge in E. intros Hl. split; [done |].
  split; [exact E |]. by apply (can_insert_loop_fits _ rest first' succ).
Qed.

Lemma total_demand_ext (l1 l2 : list Node) :
  map n_demand l1 = map n_demand l2 -> total_demand l1 = total_demand l2.
Proof.
  revert l2. unfold total_demand.
  induction l1 as [| n l1 IH]; intros [| m l2] Hm; try done.
  simpl in Hm. injection Hm as Hd Hm. simpl. by rewrite Hd, (IH l2 Hm).
Qed.

(** What [is_feasible] answers, in terms of the predicates. *)
Lemma is_feasible_true (pb : Problem) (r : Route) :
  is_feasible pb r = Some true <->
  exists head rest,
    r_nodes r = head :: rest /\
    reach (pb_c_m pb (r_workers r)) (n_est head) (n_id head) rest /\
    (total_demand rest <= inject_Z (pb_capacity pb))%Q.
Proof.
  unfold is_feasible. destruct (r_nodes r) as [| head rest].
  { split; [done |]. by intros (? & ? & ? & _). }
  pose proof (is_feasible_loop_reach (pb_c_m pb (r_workers r)) rest head
                0%Q (n_est head)) as [H1 H2].
  destruct (is_feasible_loop (pb_c_m pb (r_workers r)) head rest 0
              (n_est head)) as [load |] eqn:E.
  - assert (Hr : reach (pb_c_m pb (r_workers r)) (n_est head) (n_id head)
                   rest) by (apply H2; by eexists).
    destruct (H1 Hr) as (load' & Hl & Hq).
    assert (load' = load) by congruence. subst load'.
    split.
    + intros Ht. exists head, rest. split; [done |]. split; [done |].
      assert (Hc : Qltb (inject_Z (pb_capacity pb)) load = false).
      { destruct (Qltb (inject_Z (pb_capacity pb)) load); [done | done]. }
      apply Qltb_ge in Hc. lra.
    + intros (head' & rest' & Hn & _ & Hcap).
      assert (head' = head /\ rest' = rest) as [-> ->]
        by (split; congruence).
      assert (Hc : Qltb (inject_Z (pb_capacity pb)) load = false)
        by (apply Qltb_ge; lra).
      by rewrite Hc.
  - split; [done |]. intros (head' & rest' & Hn & Hr & _).
    assert (head' = head /\ rest' = rest) as [-> ->] by (split; congruence).
    destruct (H1 Hr) as (load' & Hl & _). done.
Qed.

(** ** Feasibility with another number of workers *)

Lemma calc_ests_cache_reach (c_m : nat -> nat -> Q) (rest : list Node) :
  forall p : Node,
    forallb (fun n => negb (Qltb (n_lst n) (n_aest_cache n)))
            (calc_ests_cache c_m p rest) = true
    <-> reach c_m (n_aest_cache p) (n_id p) rest.
Proof.
  induction rest as [| n rest IH]; intros p; [done |].
  simpl. set (n' := set_aest_cache n _).
  rewrite andb_true_iff, negb_true_iff, Qltb_ge, (IH n'). done.
Qed.

Lemma is_feasible_with_reach (pb : Problem) (r : Route) (w : Z)
    (dep : Node) (rest : list Node) :
  r_workers r <> w -> r_nodes r = dep :: rest ->
  fst (is_feasible_with pb r w) = true
  <-> reach (pb_c_m pb w) (n_est dep) (n_id dep) rest.
Proof.
  intros Hw Hnodes. unfold is_feasible_with.
  apply Z.eqb_neq in Hw. rewrite Hw. unfold calc_ests. rewrite Hw, Hnodes.
  simpl. by rewrite calc_ests_cache_reach.
Qed.

Lemma is_feasible_with_nodes (pb : Problem) (r : Route) (w : Z)
    (dep : Node) (rest : list Node) :
  r_workers r <> w -> r_nodes r = dep :: rest ->
  snd (is_feasible_with pb r w)
  = with_nodes r (set_aest_cache dep (n_est dep) ::
                  calc_ests_cache (pb_c_m pb w)
                    (set_aest_cache dep (n_est dep)) rest).
Proof.
  intros Hw Hnodes. unfold is_feasible_with.
  apply Z.eqb_neq in Hw. rewrite Hw. unfold calc_ests.
  by rewrite Hw, Hnodes.
Qed.

Lemma same_but_cache_map {A : Type} (f : Node -> A) (l l' : list Node) :
  (forall n v, f (set_aest_cache n v) = f n) ->
  same_but_cache l l' -> map f l = map f l'.
Proof.
  intros Hf H. apply (f_equal (map f)) in H. rewrite !map_map in H.
  rewrite (map_ext _ f) in H by (intros n; apply Hf).
  by rewrite (map_ext (fun n => f (set_aest_cache n 0)) f) in H
    by (intros n; apply Hf).
Qed.

Lemma calc_ests_cache_same (c_m : nat -> nat -> Q) (rest : list Node) :
  forall p, same_but_cache (calc_ests_cache c_m p rest) rest.
Proof.
  unfold same_but_cache.
  induction rest as [| n rest IH]; intros p; [done |].
  simpl. by rewrite IH.
Qed.

Lemma is_feasible_with_same (pb : Problem) (r : Route) (w : Z) :
  same_but_cache (r_nodes (snd (is_feasible_with pb r w))) (r_nodes r) /\
  r_id (snd (is_feasible_with pb r w)) = r_id r /\
  r_depot_id (snd (is_feasible_with pb r w)) = r_depot_id r /\
  r_len (snd (is_feasible_with pb r w)) = r_len r /\
  r_load (snd (is_feasible_with pb r w)) = r_load r /\
  r_workers (snd (is_feasible_with pb r w)) = r_workers r.
Proof.
  unfold is_feasible_with. destruct (r_workers r =? w) eqn:Hw; [done |].
  change (snd (?a, ?b)) with b.
  split; [| apply calc_ests_frame].
  unfold calc_ests. rewrite Hw.
  destruct (r_nodes r) as [| dep rest] eqn:Hnodes; [by rewrite Hnodes |].
  simpl. unfold same_but_cache. simpl. f_equal.
  apply calc_ests_cache_same.
Qed.

Lemma is_feasible_false (pb : Problem) (r : Route) (dep : Node)
    (rest : list Node) :
  r_nodes r = dep :: rest ->
  ~ reach (pb_c_m pb (r_workers r)) (n_est dep) (n_id dep) rest ->
  is_feasible pb r = Some false.
Proof.
  intros Hnodes Hn. unfold is_feasible. rewrite Hnodes.
  pose proof (is_feasible_loop_reach (pb_c_m pb (r_workers r)) rest dep
                0%Q (n_est dep)) as [_ H2].
  destruct (is_feasible_loop _ dep rest 0 (n_est dep)) as [load |];
    [| done].
  exfalso. apply Hn, H2. by eexists.
Qed.

(** X13: on a route that [is_feasible] accepts, [is_feasible_with], asked
    about a number of workers other than the one of the route, answers 1
    exactly when [is_feasible] accepts the route with that number of
    workers; and it changes nothing of the route but [aest_cache]. *)
Theorem is_feasible_with_agrees (pb : Problem) (r : Route) (w : Z) :
  r_workers r <> w ->
  is_feasible pb r = Some true ->
  (fst (is_feasible_with pb r w) = true
   <-> is_feasible pb (with_workers r w) = Some true) /\
  same_but_cache (r_nodes (snd (is_feasible_with pb r w))) (r_nodes r) /\
  with_nodes (snd (is_feasible_with pb r w)) (r_nodes r) = r.
Proof.
  intros Hw Hfeas.
  apply is_feasible_true in Hfeas as (dep & rest & Hnodes & _ & Hcap).
  split; [| split].
  - rewrite (is_feasible_with_reach pb r w dep rest Hw Hnodes).
    rewrite is_feasible_true. simpl. split.
    + intros Hr. exists dep, rest. by rewrite Hnodes.
    + intros (dep' & rest' & Hn & Hr & _).
      assert (dep' = dep /\ rest' = rest) as [-> ->]
        by (split; congruence).
      done.
  - apply is_feasible_with_same.
  - destruct (is_feasible_with_same pb r w) as (_ & H1 & H2 & H3 & H4 & H5).
    unfold with_nodes. rewrite H1, H2, H3, H4, H5.
    by destruct r.
Qed.

Lemma is_feasible_with_agrees_witness :
  (fst (is_feasible_with ex_pb ex_route 2) = true
   <-> is_feasible ex_pb (with_workers ex_route 2) = Some true) /\
  same_but_cache (r_nodes (snd (is_feasible_with ex_pb ex_route 2)))
                 (r_nodes ex_route) /\
  with_nodes (snd (is_feasible_with ex_pb ex_route 2)) (r_nodes ex_route)
  = ex_route.
Proof.
  apply (is_feasible_with_agrees ex_pb ex_route 2).
  - discriminate.
  - vm_compute. reflexivity.
Defined.

(** ** Reducing the workers of a route *)

Lemma commit_ests_all (c_m : nat -> nat -> Q) (rest : list Node) :
  forall p : Node,
    ests_all c_m (commit p) (map commit (calc_ests_cache c_m p rest)).
Proof.
  induction rest as [| n rest IH]; intros p; [done |].
  simpl. split; [done |]. apply IH.
Qed.

Lemma reduce_service_workers_loop_map {A : Type} (f : Node -> A)
    (pb : Problem) (k : nat) :
  (forall n v, f (set_aest n v) = f n) ->
  (forall n v, f (set_aest_cache n v) = f n) ->
  forall (route : Route) (reduced : Z),
    map f (r_nodes (snd (reduce_service_workers_loop pb k route reduced)))
    = map f (r_nodes route).
Proof.
  intros Hf1 Hf2. induction k as [| k IH]; intros route reduced; [done |].
  change (reduce_service_workers_loop pb (S k) route reduced) with
    (let (feasible, route1) := is_feasible_with pb route (Z.of_nat (S k)) in
     if feasible then
       let route2 :=
         {| r_id := r_id route1; r_depot_id := r_depot_id route1;
            r_nodes := map (fun n => set_aest n (n_aest_cache n))
                           (r_nodes route1);
            r_len := r_len route1; r_load := r_load route1;
            r_workers := Z.of_nat (S k) |} in
       reduce_service_workers_loop pb k route2 1
     else (reduced, route1)).
  destruct (is_feasible_with_same pb route (Z.of_nat (S k)))
    as (Hsame & _).
  apply (same_but_cache_map f _ _ Hf2) in Hsame.
  destruct (is_feasible_with pb route (Z.of_nat (S k)))
    as [feasible route1].
  simpl in Hsame. destruct feasible; [| done].
  rewrite IH. simpl. rewrite map_map.
  rewrite (map_ext _ f) by (intros n; apply Hf1). exact Hsame.
Qed.

Lemma reduce_service_workers_loop_frame (pb : Problem) (k : nat) :
  forall (route : Route) (reduced : Z),
    let r' := snd (reduce_service_workers_loop pb k route reduced) in
    r_id r' = r_id route /\ r_depot_id r' = r_depot_id route /\
    r_len r' = r_len route /\ r_load r' = r_load route.
Proof.
  induction k as [| k IH]; intros route reduced; [done |].
  change (reduce_service_workers_loop pb (S k) route reduced) with
    (let (feasible, route1) := is_feasible_with pb route (Z.of_nat (S k)) in
     if feasible then
       let route2 :=
         {| r_id := r_id route1; r_depot_id := r_depot_id route1;
            r_nodes := map (fun n => set_aest n (n_aest_cache n))
                           (r_nodes route1);
            r_len := r_len route1; r_load := r_load route1;
            r_workers := Z.of_nat (S k) |} in
       reduce_service_workers_loop pb k route2 1
     else (reduced, route1)).
  destruct (is_feasible_with_same pb route (Z.of_nat (S k)))
    as (_ & H1 & H2 & H3 & H4 & _).
  destruct (is_feasible_with pb route (Z.of_nat (S k)))
    as [feasible route1].
  simpl in H1, H2, H3, H4. destruct feasible; [| done].
  cbv zeta. set (route2 := mkRoute _ _ _ _ _ _).
  destruct (IH route2 1) as (I1 & I2 & I3 & I4).
  cbv zeta. rewrite I1, I2, I3, I4. done.
Qed.

(** The loop keeps the lowest number of workers, counted down from the one
    of the route, with which every time window is met. *)
Lemma reduce_service_workers_loop_spec (pb : Problem) (k : nat) :
  forall (route : Route) (reduced : Z) (dep : Node) (rest : list Node),
    r_workers route = Z.of_nat (S k) ->
    r_nodes route = dep :: rest ->
    exists (j : nat) (r' : Route),
      reduce_service_workers_loop pb k route reduced
      = (if decide (j = k) then reduced else 1, r') /\
      (j <= k)%nat /\
      r_workers r' = Z.of_nat (S j) /\
      (j = 0%nat \/
       ~ reach (pb_c_m pb (Z.of_nat j)) (n_est dep) (n_id dep) rest) /\
      ((j < k)%nat ->
       reach (pb_c_m pb (Z.of_nat (S j))) (n_est dep) (n_id dep) rest /\
       fwd_ok (pb_c_m pb (Z.of_nat (S j))) (r_nodes r')) /\
      (j = k -> same_but_cache (r_nodes r') (r_nodes route)).
Proof.
  induction k as [| k IH]; intros route reduced dep rest Hw Hnodes.
  - exists 0%nat, route. simpl.
    split; [done |]. split; [done |]. split; [done |].
    split; [by left |]. split; [lia | done].
  - change (reduce_service_workers_loop pb (S k) route reduced) with
      (let (feasible, route1) :=
         is_feasible_with pb route (Z.of_nat (S k)) in
       if feasible then
         let route2 :=
           {| r_id := r_id route1; r_depot_id := r_depot_id route1;
              r_nodes := map (fun n => set_aest n (n_aest_cache n))
                             (r_nodes route1);
              r_len := r_len route1; r_load := r_load route1;
              r_workers := Z.of_nat (S k) |} in
         reduce_service_workers_loop pb k route2 1
       else (reduced, route1)).
    assert (Hne : r_workers route <> Z.of_nat (S k)) by lia.
    pose proof (is_feasible_with_reach pb route _ dep rest Hne Hnodes)
      as Hiff.
    pose proof (is_feasible_with_nodes pb route _ dep rest Hne Hnodes)
      as Hsnd.
    destruct (is_feasible_with_same pb route (Z.of_nat (S k)))
      as (Hsame & _ & _ & _ & _ & Hw1).
    destruct (is_feasible_with pb route (Z.of_nat (S k)))
      as [feasible route1].
    simpl in Hiff, Hsnd, Hsame, Hw1.
    destruct feasible.
    + cbv zeta. set (route2 := mkRoute _ _ _ _ _ _).
      set (c_m := pb_c_m pb (Z.of_nat (S k))) in *.
      set (dep1 := set_aest_cache dep (n_est dep)) in *.
      assert (Hnodes2 : r_nodes route2
                        = commit dep1 ::
                          map commit (calc_ests_cache c_m dep1 rest)).
      { unfold route2. simpl. by rewrite Hsnd. }
      assert (Hfwd2 : fwd_ok c_m (r_nodes route2)).
      { rewrite Hnodes2. split; [done |].
        apply ests_all_chain, commit_ests_all. }
      assert (Hst : map static (map commit (calc_ests_cache c_m dep1 rest))
                    = map static rest).
      { rewrite map_map.
        rewrite (map_ext (fun n => static (commit n)) static) by done.
        apply calc_ests_cache_static. }
      destruct (IH route2 1 (commit dep1) _ eq_refl Hnodes2)
        as (j & r' & Hrun & Hj & Hw' & Hmin & Hlow & Heq).
      exists j, r'. split.
      { rewrite Hrun. destruct (decide (j = k)), (decide (j = S k));
          done || lia. }
      split; [lia |]. split; [done |]. split.
      { destruct Hmin as [Hmin | Hmin]; [by left | right].
        intros Hr. apply Hmin. simpl.
        apply (reach_ext _ rest); [by symmetry | exact Hr]. }
      split; [| lia].
      intros _. destruct (decide (j = k)) as [-> | Hjk].
      * fold c_m. split; [by apply Hiff |].
        specialize (Heq eq_refl).
        apply (fwd_ok_ext c_m (r_nodes route2)); [| done].
        symmetry. by apply same_but_cache_map.
      * destruct (Hlow ltac:(lia)) as [Hr Hf]. split; [| done].
        simpl in Hr. by apply (reach_ext _ _ rest) in Hr.
    + exists (S k), route1. rewrite decide_True by done.
      split; [done |]. split; [lia |]. split; [by rewrite Hw1 |].
      split.
      { right. intros Hr. apply Hiff in Hr. done. }
      split; [lia | done].
Qed.

Lemma is_feasible_intro (pb : Problem) (r' : Route) (dep : Node)
    (rest : list Node) :
  map static (r_nodes r') = map static (dep :: rest) ->
  map n_demand (r_nodes r') = map n_demand (dep :: rest) ->
  reach (pb_c_m pb (r_workers r')) (n_est dep) (n_id dep) rest ->
  (total_demand rest <= inject_Z (pb_capacity pb))%Q ->
  is_feasible pb r' = Some true.
Proof.
  intros Hs Hd Hr Hcap.
  destruct (r_nodes r') as [| dep' rest'] eqn:Hnodes'; [done |].
  simpl in Hs, Hd.
  assert (Hsr : map static rest = map static rest') by congruence.
  assert (Hdr : map n_demand rest' = map n_demand rest) by congruence.
  assert (Hsd : static dep' = static dep) by congruence.
  unfold static in Hsd.
  assert (Hid : n_id dep' = n_id dep) by congruence.
  assert (Hest : n_est dep' = n_est dep) by congruence.
  apply is_feasible_true. exists dep', rest'. split; [done |].
  rewrite Hid, Hest. split; [by apply (reach_ext _ rest) |].
  by rewrite (total_demand_ext _ _ Hdr).
Qed.

Lemma is_feasible_refuse (pb : Problem) (r' : Route) (dep : Node)
    (rest : list Node) :
  map static (r_nodes r') = map static (dep :: rest) ->
  ~ reach (pb_c_m pb (r_workers r')) (n_est dep) (n_id dep) rest ->
  is_feasible pb r' = Some false.
Proof.
  intros Hs Hn.
  destruct (r_nodes r') as [| dep' rest'] eqn:Hnodes'; [done |].
  simpl in Hs.
  assert (Hsr : map static rest' = map static rest) by congruence.
  assert (Hsd : static dep' = static dep) by congruence.
  unfold static in Hsd.
  assert (Hid : n_id dep' = n_id dep) by congruence.
  assert (Hest : n_est dep' = n_est dep) by congruence.
  apply (is_feasible_false pb r' dep' rest' Hnodes').
  rewrite Hid, Hest. intros Hr. apply Hn. by apply (reach_ext _ rest').
Qed.

Lemma calc_lsts_tail_bwd_ok (pb : Problem) (r : Route) (w : Z) :
  bwd_ok (pb_c_m pb w)
         (rev (r_nodes (calc_lsts pb r (length (r_nodes r) - 1) w))).
Proof.
  unfold calc_lsts.
  destruct (r_nodes r) as [| dep rest] eqn:Hnodes.
  { simpl. by rewrite Hnodes. }
  replace (S (length (dep :: rest) - 1)) with (length (dep :: rest))
    by (simpl; lia).
  rewrite Nat.eqb_refl.
  destruct (rev (dep :: rest)) as [| tl before] eqn:Hrev.
  { apply (f_equal (@length Node)) in Hrev. rewrite length_rev in Hrev.
    done. }
  change (r_nodes (with_nodes r ?l)) with l. rewrite rev_involutive.
  split; [done |]. apply lsts_chain_calc.
Qed.

Lemma reduce_service_workers_map {A : Type} (f : Node -> A) (pb : Problem)
    (r : Route) :
  (forall n v, f (set_aest n v) = f n) ->
  (forall n v, f (set_aest_cache n v) = f n) ->
  (forall n v, f (set_alst n v) = f n) ->
  map f (r_nodes (snd (reduce_service_workers pb r))) = map f (r_nodes r).
Proof.
  intros Hf1 Hf2 Hf3. unfold reduce_service_workers.
  pose proof (reduce_service_workers_loop_map f pb
                (Z.to_nat (r_workers r - 1)) Hf1 Hf2 r 0) as Hl.
  destruct (reduce_service_workers_loop pb _ r 0) as [reduced r1].
  simpl in Hl. destruct (negb (reduced =? 0)); [| done].
  simpl. by rewrite calc_lsts_map.
Qed.

Lemma reduce_service_workers_frame (pb : Problem) (r : Route) :
  let r' := snd (reduce_service_workers pb r) in
  r_id r' = r_id r /\ r_depot_id r' = r_depot_id r /\
  r_len r' = r_len r /\ r_load r' = r_load r.
Proof.
  unfold reduce_service_workers.
  pose proof (reduce_service_workers_loop_frame pb
                (Z.to_nat (r_workers r - 1)) r 0) as Hl.
  destruct (reduce_service_workers_loop pb _ r 0) as [reduced r1].
  simpl in Hl. destruct (negb (reduced =? 0)); [| done].
  simpl.
  destruct (calc_lsts_frame pb r1 (length (r_nodes r1) - 1) (r_workers r1))
    as (-> & -> & -> & -> & _).
  done.
Qed.

(** X14: [reduce_service_workers] is sound and cannot be pushed further.
    On a route with at least one worker that passes [is_feasible], the route
    it leaves passes [is_feasible] with its new number of workers, which is
    at least 1 and at most the old one; the value returned is 1 exactly when
    the number went down; with one worker less the route would miss a time
    window, unless one worker is left; the start times are up to date when
    workers were removed or when they were up to date before; and the load
    stays the demand of the nodes. *)
Theorem reduce_service_workers_sound (pb : Problem) (r : Route) :
  1 <= r_workers r ->
  is_feasible pb r = Some true ->
  let reduced := fst (reduce_service_workers pb r) in
  let r' := snd (reduce_service_workers pb r) in
  is_feasible pb r' = Some true /\
  1 <= r_workers r' <= r_workers r /\
  reduced = (if decide (r_workers r' < r_workers r) then 1 else 0) /\
  (r_workers r' = 1 \/
   is_feasible pb (with_workers r' (r_workers r' - 1)) = Some false) /\
  (reduced = 1 \/ up_to_date pb r -> up_to_date pb r') /\
  (load_ok r -> load_ok r').
Proof.
  intros Hw Hfeas reduced r'.
  pose proof (reduce_service_workers_map static pb r
                ltac:(done) ltac:(done) ltac:(done)) as Hstatic.
  pose proof (reduce_service_workers_map n_demand pb r
                ltac:(done) ltac:(done) ltac:(done)) as Hdemand.
  destruct (reduce_service_workers_frame pb r) as (_ & _ & _ & Hload).
  fold r' in Hstatic, Hdemand, Hload. simpl in Hload.
  apply is_feasible_true in Hfeas.
  destruct Hfeas as (dep & rest & Hnodes & Hreach & Hcap).
  rewrite Hnodes in Hstatic, Hdemand.
  set (k := Z.to_nat (r_workers r - 1)).
  assert (Hwk : r_workers r = Z.of_nat (S k)) by (unfold k; lia).
  destruct (reduce_service_workers_loop_spec pb k r 0 dep rest Hwk Hnodes)
    as (j & r1 & Hrun & Hj & Hw1 & Hmin & Hlow & Heq).
  assert (Hres : reduce_service_workers pb r
                 = if decide (j = k) then (0, r1)
                   else (1, calc_lsts pb r1 (length (r_nodes r1) - 1)
                              (r_workers r1))).
  { unfold reduce_service_workers. fold k. rewrite Hrun.
    by destruct (decide (j = k)). }
  assert (Hw' : r_workers r' = Z.of_nat (S j)).
  { unfold r'. rewrite Hres. destruct (decide (j = k)); [done |].
    simpl.
    by destruct (calc_lsts_frame pb r1 (length (r_nodes r1) - 1)
                   (r_workers r1)) as (_ & _ & _ & _ & ->). }
  assert (Hred : reduced = if decide (j = k) then 0 else 1).
  { unfold reduced. rewrite Hres. by destruct (decide (j = k)). }
  assert (Hreach' : reach (pb_c_m pb (r_workers r')) (n_est dep) (n_id dep)
                          rest).
  { rewrite Hw'. destruct (decide (j = k)) as [-> | Hjk].
    - by rewrite <- Hwk.
    - by destruct (Hlow ltac:(lia)). }
  split; [by apply (is_feasible_intro pb r' dep rest) |].
  split; [lia |].
  split.
  { rewrite Hred, Hw', Hwk.
    destruct (decide (j = k)), (decide (Z.of_nat (S j) < Z.of_nat (S k)));
      done || lia. }
  split.
  { destruct Hmin as [-> | Hmin]; [left; by rewrite Hw' | right].
    apply (is_feasible_refuse pb _ dep rest); [done |].
    simpl. rewrite Hw'. by replace (Z.of_nat (S j) - 1) with (Z.of_nat j)
      by lia. }
  split.
  - intros Hup. apply up_to_date_schedule_ok. rewrite Hw'.
    destruct (decide (j = k)) as [-> | Hjk].
    + destruct Hup as [Hup | Hup]; [by rewrite Hred in Hup |].
      apply up_to_date_schedule_ok in Hup. rewrite Hwk in Hup.
      specialize (Heq eq_refl).
      assert (Hr' : r' = r1) by (unfold r'; by rewrite Hres).
      rewrite Hr'. apply schedule_ok_split.
      apply schedule_ok_split in Hup as [Hf Hb]. split.
      * apply (fwd_ok_ext _ (r_nodes r)); [| done].
        symmetry. by apply same_but_cache_map.
      * apply (bwd_ok_ext _ (rev (r_nodes r))); [| done].
        rewrite !map_rev. f_equal. symmetry. by apply same_but_cache_map.
    + destruct (Hlow ltac:(lia)) as [_ Hf].
      assert (Hr' : r' = calc_lsts pb r1 (length (r_nodes r1) - 1)
                               (r_workers r1))
        by (unfold r'; by rewrite Hres).
      rewrite Hr'. apply schedule_ok_split. split.
      * apply (fwd_ok_ext _ (r_nodes r1)); [| done].
        symmetry. by apply calc_lsts_map.
      * rewrite <- Hw1. apply calc_lsts_tail_bwd_ok.
  - unfold load_ok. rewrite Hload, Hnodes.
    destruct (r_nodes r') as [| dep' rest'] eqn:Hnodes'; [done |].
    simpl tail. simpl in Hdemand.
    assert (Hd : map n_demand rest' = map n_demand rest) by congruence.
    by rewrite (total_demand_ext _ _ Hd).
Qed.

Lemma reduce_service_workers_sound_witness :
  let reduced := fst (reduce_service_workers ex_pb (with_workers ex_route 3))
  in
  let r' := snd (reduce_service_workers ex_pb (with_workers ex_route 3)) in
  is_feasible ex_pb r' = Some true /\
  1 <= r_workers r' <= 3 /\
  reduced = (if decide (r_workers r' < 3) then 1 else 0) /\
  (r_workers r' = 1 \/
   is_feasible ex_pb (with_workers r' (r_workers r' - 1)) = Some false) /\
  (reduced = 1 \/ up_to_date ex_pb (with_workers ex_route 3)
   -> up_to_date ex_pb r') /\
  (load_ok (with_workers ex_route 3) -> load_ok r').
Proof.
  apply (reduce_service_workers_sound ex_pb (with_workers ex_route 3)).
  - simpl. lia.
  - vm_compute. reflexivity.
Defined.

(** ** Workers that a move saves on its source *)

Lemma same_but_cache_trans (l1 l2 l3 : list Node) :
  same_but_cache l1 l2 -> same_but_cache l2 l3 -> same_but_cache l1 l3.
Proof. unfold same_but_cache. congruence. Qed.

Lemma same_but_cache_app (l1 l2 l1' l2' : list Node) :
  same_but_cache l1 l1' -> same_but_cache l2 l2' ->
  same_but_cache (l1 ++ l2) (l1' ++ l2').
Proof. unfold same_but_cache. rewrite !map_app. congruence. Qed.

Lemma same_but_cache_take (l l' : list Node) (i : nat) :
  same_but_cache l l' -> same_but_cache (take i l) (take i l').
Proof.
  unfold same_but_cache. intros H. rewrite <- !firstn_map. by rewrite H.
Qed.

Lemma same_but_cache_drop (l l' : list Node) (i : nat) :
  same_but_cache l l' -> same_but_cache (drop i l) (drop i l').
Proof.
  unfold same_but_cache. intros H. rewrite <- !skipn_map. by rewrite H.
Qed.

(** The loop of [move_reduces_workers] on a route with [max_reduction + 1]
    workers, started with [k] values left to try and the result [d0]. *)
Lemma move_reduces_workers_loop_spec (pb : Problem) (k : nat) :
  forall (src : Route) (d0 : Z) (dep : Node) (rest : list Node),
    let mx := r_workers src - 1 in
    let feasible e :=
      reach (pb_c_m pb (r_workers src - e)) (n_est dep) (n_id dep) rest in
    (Z.of_nat k <= mx) ->
    r_nodes src = dep :: rest ->
    let d := fst (move_reduces_workers_loop pb k src mx d0) in
    let src' := snd (move_reduces_workers_loop pb k src mx d0) in
    same_but_cache (r_nodes src') (r_nodes src) /\
    with_nodes src' (r_nodes src) = src /\
    ((d = d0 /\ (k = 0%nat \/ ~ feasible (mx - Z.of_nat k + 1))) \/
     (mx - Z.of_nat k + 1 <= d <= mx /\
      (forall e, mx - Z.of_nat k + 1 <= e <= d -> feasible e) /\
      (d = mx \/ ~ feasible (d + 1)))).
Proof.
  induction k as [| k IH]; intros src d0 dep rest mx feasible Hk Hnodes.
  - simpl. split; [done |]. split; [by destruct src |]. left. by split; [| left].
  - change (move_reduces_workers_loop pb (S k) src mx d0) with
      (let min_reduction := mx - Z.of_nat k in
       let (ok, source') :=
         is_feasible_with pb src (r_workers src - min_reduction) in
       if ok then
         move_reduces_workers_loop pb k source' mx min_reduction
       else (d0, source')).
    cbv zeta.
    assert (Hne : r_workers src <> r_workers src - (mx - Z.of_nat k))
      by lia.
    pose proof (is_feasible_with_reach pb src _ dep rest Hne Hnodes)
      as Hiff.
    pose proof (is_feasible_with_nodes pb src _ dep rest Hne Hnodes)
      as Hsnd.
    destruct (is_feasible_with_same pb src
                (r_workers src - (mx - Z.of_nat k)))
      as (Hsame & Hid1 & Hdp1 & Hlen1 & Hload1 & Hw1).
    destruct (is_feasible_with pb src (r_workers src - (mx - Z.of_nat k)))
      as [ok src1].
    simpl in Hiff, Hsnd, Hsame, Hid1, Hdp1, Hlen1, Hload1, Hw1.
    assert (Hback : with_nodes src1 (r_nodes src) = src).
    { unfold with_nodes. rewrite Hid1, Hdp1, Hlen1, Hload1, Hw1.
      by destruct src. }
    replace (mx - Z.of_nat (S k) + 1) with (mx - Z.of_nat k) by lia.
    destruct ok.
    + assert (Hmx1 : r_workers src1 - 1 = mx) by (unfold mx; lia).
      assert (Hnodes1 : r_nodes src1
                        = set_aest_cache dep (n_est dep) ::
                          calc_ests_cache
                            (pb_c_m pb (r_workers src - (mx - Z.of_nat k)))
                            (set_aest_cache dep (n_est dep)) rest)
        by (by rewrite Hsnd).
      pose proof (IH src1 (mx - Z.of_nat k) _ _ ltac:(lia) Hnodes1) as IH1.
      rewrite Hmx1 in IH1. cbv zeta in IH1.
      destruct IH1 as (Hs' & Hb' & Hd').
      set (res := move_reduces_workers_loop pb k src1 mx (mx - Z.of_nat k))
        in *.
      assert (Hfe : forall e,
                 reach (pb_c_m pb (r_workers src1 - e))
                       (n_est (set_aest_cache dep (n_est dep)))
                       (n_id (set_aest_cache dep (n_est dep)))
                       (calc_ests_cache
                          (pb_c_m pb (r_workers src - (mx - Z.of_nat k)))
                          (set_aest_cache dep (n_est dep)) rest)
                 <-> feasible e).
      { intros e. unfold feasible. rewrite Hw1. simpl.
        split; apply reach_ext; [| symmetry];
          apply calc_ests_cache_static. }
      split; [by apply (same_but_cache_trans _ (r_nodes src1)) |].
      split.
      { transitivity (with_nodes (with_nodes (snd res) (r_nodes src1))
                                 (r_nodes src)); [done |].
        by rewrite Hb'. }
      right. destruct Hd' as [(Hd & Hstop) | (Hrange & Hall & Hmax)].
      * rewrite Hd. split; [lia |]. split.
        -- intros e He. replace e with (mx - Z.of_nat k) by lia.
           by apply Hiff.
        -- destruct Hstop as [-> | Hstop]; [left; lia | right].
           intros Hf. apply Hstop. apply Hfe.
           by replace (mx - Z.of_nat k + 1) with (mx - Z.of_nat k + 1)
             in Hf by lia.
      * split; [lia |]. split.
        -- intros e He.
           destruct (decide (e = mx - Z.of_nat k)) as [-> | Hne'].
           ++ by apply Hiff.
           ++ apply Hfe, Hall. lia.
        -- destruct Hmax as [Hmax | Hmax]; [by left | right].
           intros Hf. by apply Hmax, Hfe.
    + simpl. split; [done |]. split; [done |]. left. split; [done |].
      right. intros Hf. apply Hiff in Hf. done.
Qed.

(** [move_reduces_workers] in terms of the time windows of the source
    without the run. *)
Lemma move_reduces_workers_reach (pb : Problem) (source : Route)
    (first last_ : nat) (min_reduction : Z) (dep : Node)
    (rest : list Node) :
  1 <= r_workers source ->
  0 <= min_reduction ->
  (1 <= first)%nat -> (first <= last_)%nat ->
  (S last_ < length (r_nodes source))%nat ->
  take first (r_nodes source) ++ drop (S last_) (r_nodes source)
  = dep :: rest ->
  let d := fst (move_reduces_workers pb source first last_ min_reduction) in
  let source' :=
    snd (move_reduces_workers pb source first last_ min_reduction) in
  let lo := if min_reduction =? 0 then 1 else min_reduction in
  let feasible e :=
    reach (pb_c_m pb (r_workers source - e)) (n_est dep) (n_id dep) rest in
  same_but_cache (r_nodes source') (r_nodes source) /\
  with_nodes source' (r_nodes source) = source /\
  ((d = 0 /\ (r_workers source - 1 < lo \/ ~ feasible lo)) \/
   (lo <= d <= r_workers source - 1 /\
    (forall e, lo <= e <= d -> feasible e) /\
    (d = r_workers source - 1 \/ ~ feasible (d + 1)))).
Proof.
  intros Hw Hmin H1 H2 H3 HU d source' lo feasible.
  set (N := r_nodes source) in *.
  set (U := take first N ++ drop (S last_) N) in *.
  set (unlinked := with_nodes source U).
  set (mx := r_workers source - 1).
  assert (Hlo : 1 <= lo)
    by (unfold lo; destruct (Z.eqb_spec min_reduction 0); lia).
  set (k := Z.to_nat (mx - lo + 1)).
  assert (Hres : move_reduces_workers pb source first last_ min_reduction
                 = (fst (move_reduces_workers_loop pb k unlinked mx 0),
                    with_nodes source
                      (take first
                         (r_nodes
                            (snd (move_reduces_workers_loop pb k unlinked
                                    mx 0))) ++
                       run_of N first last_ ++
                       drop first
                         (r_nodes
                            (snd (move_reduces_workers_loop pb k unlinked
                                    mx 0)))))).
  { unfold move_reduces_workers. fold N. fold U. fold unlinked. fold mx.
    replace (if min_reduction =? 0 then min_reduction + 1
             else min_reduction) with lo
      by (unfold lo; by destruct (Z.eqb_spec min_reduction 0) as [-> |]).
    fold k.
    by destruct (move_reduces_workers_loop pb k unlinked mx 0). }
  pose proof (move_reduces_workers_loop_spec pb k unlinked 0 dep rest
                ltac:(simpl; unfold k; fold mx; lia) HU) as Hspec.
  cbv zeta in Hspec. simpl r_workers in Hspec. fold mx in Hspec.
  set (res := move_reduces_workers_loop pb k unlinked mx 0) in *.
  destruct Hspec as (Hsame & Hback & Hd).
  simpl r_nodes in Hsame.
  assert (Hlen : length (take first N) = first)
    by (rewrite length_take; lia).
  unfold d, source'. rewrite Hres. simpl fst. simpl snd.
  split; [| split].
  - simpl r_nodes.
    assert (HN : take first N ++ run_of N first last_ ++ drop (S last_) N
                 = N).
    { pose proof (chain_with_removed N first last_ H1 H2 ltac:(lia)) as E.
      replace (S (first - 1)) with first in E by lia.
      rewrite take_app_length' in E by done.
      by rewrite drop_app_length' in E by done. }
    cut (same_but_cache
           (take first (r_nodes (snd res)) ++ run_of N first last_ ++
            drop first (r_nodes (snd res)))
           (take first N ++ run_of N first last_ ++ drop (S last_) N));
      [by rewrite HN |].
    apply same_but_cache_app.
    + apply (same_but_cache_take _ _ first) in Hsame.
      unfold U in Hsame. by rewrite take_app_length' in Hsame.
    + apply same_but_cache_app; [done |].
      apply (same_but_cache_drop _ _ first) in Hsame.
      unfold U in Hsame. by rewrite drop_app_length' in Hsame.
  - unfold with_nodes. simpl. by destruct source.
  - assert (Hk : mx - Z.of_nat k + 1 = lo \/ (k = 0%nat /\ mx < lo))
      by (unfold k; lia).
    destruct Hd as [(Hd & Hstop) | (Hrange & Hall & Hmax)].
    + left. split; [done |].
      destruct Hstop as [Hk0 | Hstop]; [left; unfold k in Hk0; lia |].
      destruct Hk as [Hk | [Hk0 Hlt]]; [| by left].
      right. by rewrite Hk in Hstop.
    + destruct Hk as [Hk | [Hk0 Hlt]]; [| rewrite Hk0 in Hrange; lia].
      rewrite Hk in Hrange, Hall. right. done.
Qed.

(** ** What [update_move] records *)

Lemma same_but_cache_sym (l l' : list Node) :
  same_but_cache l l' -> same_but_cache l' l.
Proof. unfold same_but_cache. congruence. Qed.

Lemma same_but_cache_length (l l' : list Node) :
  same_but_cache l l' -> length l = length l'.
Proof.
  intros H. apply (f_equal (@length Node)) in H. by rewrite !length_map in H.
Qed.

Lemma same_route_refl (r : Route) : same_route r r.
Proof. split; [done | by destruct r]. Qed.

Lemma same_route_fields (r r' : Route) :
  same_route r r' ->
  r_id r' = r_id r /\ r_depot_id r' = r_depot_id r /\ r_len r' = r_len r /\
  r_load r' = r_load r /\ r_workers r' = r_workers r.
Proof. intros [_ <-]. done. Qed.

Lemma same_route_sym (r r' : Route) : same_route r r' -> same_route r' r.
Proof.
  intros H. destruct (same_route_fields r r' H) as (H1 & H2 & H3 & H4 & H5).
  destruct H as [Hs _]. split; [by apply same_but_cache_sym |].
  unfold with_nodes. rewrite <- H1, <- H2, <- H3, <- H4, <- H5.
  by destruct r'.
Qed.

Lemma same_route_trans (r1 r2 r3 : Route) :
  same_route r1 r2 -> same_route r2 r3 -> same_route r1 r3.
Proof.
  intros H12 H23.
  destruct (same_route_fields r1 r2 H12) as (H1 & H2 & H3 & H4 & H5).
  destruct (same_route_fields r2 r3 H23) as (I1 & I2 & I3 & I4 & I5).
  destruct H12 as [Hs12 _], H23 as [Hs23 _]. split.
  - by apply (same_but_cache_trans _ (r_nodes r2)).
  - unfold with_nodes. rewrite I1, I2, I3, I4, I5, H1, H2, H3, H4, H5.
    by destruct r1.
Qed.

Lemma same_but_cache_run_of (l l' : list Node) (i j : nat) :
  same_but_cache l l' -> same_but_cache (run_of l i j) (run_of l' i j).
Proof.
  intros H. unfold run_of. by apply same_but_cache_take, same_but_cache_drop.
Qed.

Lemma fits_ext (c_m : nat -> nat -> Q) (run : list Node) :
  forall (run' : list Node) (t : Q) (pid : nat) (succ : Node),
    map static run = map static run' ->
    fits c_m t pid run succ -> fits c_m t pid run' succ.
Proof.
  induction run as [| n rest IH]; intros [| n' rest'] t pid succ Hm;
    try done.
  simpl in Hm. unfold static in Hm at 1 3.
  injection Hm as Hid Hest Hlst Hm. simpl. intros [H1 H2].
  rewrite <- Hid, <- Hest, <- Hlst. split; [done |]. by apply IH.
Qed.

Lemma sum_demands_ext (run run' : list Node) :
  map n_demand run = map n_demand run' -> sum_demands run = sum_demands run'.
Proof.
  destruct run as [| n rest], run' as [| n' rest']; try done.
  simpl. intros H. injection H as Hn H. rewrite Hn. clear Hn.
  generalize (n_demand n'). revert rest' H.
  induction rest as [| x rest IH]; intros [| x' rest'] H q; try done.
  simpl in H. injection H as Hx H. simpl. rewrite Hx. by apply IH.
Qed.

Lemma can_drop_same (pb : Problem) (s s' : Route) (first last_ : nat)
    (dw : Z) :
  same_route s s' -> can_drop pb s first last_ dw ->
  can_drop pb s' first last_ dw.
Proof.
  intros Hsame [-> | (Hdw & Hr)]; [by left | right].
  destruct (same_route_fields s s' Hsame) as (_ & _ & _ & _ & Hw).
  destruct Hsame as [Hs _]. rewrite Hw. split; [done |].
  intros dep' rest' HU'.
  assert (HsU : same_but_cache
                  (take first (r_nodes s') ++ drop (S last_) (r_nodes s'))
                  (take first (r_nodes s) ++ drop (S last_) (r_nodes s))).
  { apply same_but_cache_app;
      [by apply same_but_cache_take | by apply same_but_cache_drop]. }
  rewrite HU' in HsU.
  destruct (take first (r_nodes s) ++ drop (S last_) (r_nodes s))
    as [| dep rest] eqn:HU; [done |].
  pose proof (same_but_cache_map static _ _ ltac:(done) HsU) as Hst.
  simpl in Hst.
  assert (Hsd : static dep' = static dep) by congruence.
  assert (Hsr : map static rest = map static rest') by congruence.
  unfold static in Hsd.
  assert (Hid : n_id dep' = n_id dep) by congruence.
  assert (Hest : n_est dep' = n_est dep) by congruence.
  rewrite Hid, Hest. apply (reach_ext _ rest); [done |]. by apply Hr.
Qed.

Lemma same_but_cache_lookup (l l' : list Node) (i : nat) (x : Node) :
  same_but_cache l' l -> l !! i = Some x ->
  exists x' : Node, l' !! i = Some x' /\ n_id x' = n_id x.
Proof.
  intros Hs Hx.
  pose proof (same_but_cache_map n_id _ _ ltac:(done) Hs) as Hids.
  apply (f_equal (fun ids => ids !! i)) in Hids.
  change (map n_id l' !! i = map n_id l !! i) with
    ((n_id <$> l') !! i = (n_id <$> l) !! i) in Hids.
  rewrite !list_lookup_fmap, Hx in Hids. simpl in Hids.
  destruct (l' !! i) as [x' |]; [| done].
  exists x'. split; [done |]. simpl in Hids. congruence.
Qed.

Lemma approved_same (pb : Problem) (tl : Tabulist) (s s' target : Route)
    (k : nat) (dt : Z) (m' : Move) :
  same_route s s' -> approved pb tl s target k dt m' ->
  approved pb tl s' target k dt m'.
Proof.
  intros Hsame (first & a & after & succ & H).
  cbv zeta in H.
  destruct H as (Hdd & Htb & H1 & H2 & H3 & H4 & H5 & H6 & H7 & H8 & H9 &
                 H10 & H11 & H12 & H13).
  destruct (same_route_fields s s' Hsame) as (Hid & _ & _ & _ & Hw).
  pose proof Hsame as [Hs _].
  pose proof (same_but_cache_run_of _ _ first (first + k - 1) Hs) as Hrun.
  exists first, a, after, succ. cbv zeta.
  split.
  { destruct Hdd as (fp & f & l & ln & Hfp & Hf & Hl & Hln & Hdd).
    destruct (same_but_cache_lookup _ _ _ _ Hs Hfp) as (fp' & Hfp' & Efp).
    destruct (same_but_cache_lookup _ _ _ _ Hs Hf) as (f' & Hf' & Ef).
    destruct (same_but_cache_lookup _ _ _ _ Hs Hl) as (l' & Hl' & El).
    destruct (same_but_cache_lookup _ _ _ _ Hs Hln) as (ln' & Hln' & Eln).
    exists fp', f', l', ln'. repeat (split; [done |]).
    rewrite Hdd. unfold calc_delta_dist_move.
    by rewrite Efp, Ef, El, Eln. }
  split.
  { rewrite <- Htb. f_equal. by apply same_but_cache_map. }
  rewrite Hid, (same_but_cache_length _ _ Hs).
  split; [done |]. split; [done |]. split; [done |]. split; [done |].
  split; [done |]. split; [done |]. split; [done |]. split; [done |].
  split; [done |]. split; [done |]. split.
  { rewrite <- H11. do 2 f_equal. apply sum_demands_ext.
    by apply same_but_cache_map. }
  split.
  { apply (fits_ext _ (run_of (r_nodes s) first (first + k - 1)));
      [| done].
    symmetry. by apply same_but_cache_map. }
  destruct (dt =? 0); [by apply (can_drop_same pb s) | by rewrite Hw].
Qed.

Lemma can_insert_loop_same (c_m : nat -> nat -> Q) (rest : list Node) :
  forall (first succ : Node),
    same_but_cache (snd (can_insert_loop c_m first rest succ))
                   (first :: rest).
Proof.
  unfold same_but_cache.
  induction rest as [| next rest IH]; intros first succ; [done |].
  change (can_insert_loop c_m first (next :: rest) succ) with
    (let next' :=
       set_aest_cache next
         (Common.max (n_aest_cache first + c_m (n_id first) (n_id next))%Q
                     (n_est next)) in
     if Qltb (n_lst next') (n_aest_cache next') then
       (false, first :: next' :: rest)
     else
       let (answer, run) := can_insert_loop c_m next' rest succ in
       (answer, first :: run)).
  cbv zeta. set (next' := set_aest_cache next _).
  destruct (Qltb (n_lst next') (n_aest_cache next')); [done |].
  specialize (IH next' succ).
  destruct (can_insert_loop c_m next' rest succ) as [answer run'].
  simpl in IH. simpl. by rewrite IH.
Qed.

Lemma can_insert_same (pb : Problem) (target : Route) (run : list Node)
    (after succ : Node) :
  same_but_cache (snd (can_insert pb target run after succ)) run.
Proof.
  unfold can_insert. destruct run as [| first rest]; [done |].
  set (first' := set_aest_cache first _).
  destruct (Qltb (n_lst first') (n_aest_cache first')); [done |].
  apply (same_but_cache_trans _ (first' :: rest));
    [apply can_insert_loop_same | done].
Qed.

Lemma chain_split_run (nodes : list Node) (first last_ : nat) :
  (1 <= first)%nat -> (first <= last_)%nat ->
  (S last_ <= length nodes)%nat ->
  take first nodes ++ run_of nodes first last_ ++ drop (S last_) nodes
  = nodes.
Proof.
  intros H1 H2 H3.
  pose proof (chain_with_removed nodes first last_ H1 H2 H3) as E.
  replace (S (first - 1)) with first in E by lia.
  rewrite take_app_length' in E by (rewrite length_take; lia).
  by rewrite drop_app_length' in E by (rewrite length_take; lia).
Qed.

Lemma update_move_afters_approved (pb : Problem) (tl : Tabulist)
    (target : Route) (k first : nat) (dt dw : Z) (afters : list nat) :
  (1 <= k)%nat -> (1 <= first)%nat ->
  forall (updated : bool) (m : Move) (source : Route)
         (ret updated' : bool) (m' : Move) (source' : Route),
    (S (first + k - 1) < length (r_nodes source))%nat ->
    Qltb (inject_Z (pb_capacity pb))
         (r_load target +
          sum_demands (run_of (r_nodes source) first (first + k - 1)))
    = false ->
    (if dt =? 0 then can_drop pb source first (first + k - 1)%nat dw
     else dw = r_workers source) ->
    update_move_afters pb tl target first (first + k - 1) dt dw afters
      updated m source = Some (ret, updated', m', source') ->
    same_route source source' /\
    ((ret = false /\ updated' = updated /\ m' = m) \/
     (updated' = true /\ approved pb tl source target k dt m')).
Proof.
  intros Hk Hfirst. set (last_ := (first + k - 1)%nat).
  induction afters as [| a rest IH];
    intros updated m source ret updated' m' source' Hlen Hcap Hdw H.
  - simpl in H. injection H as <- <- <- <-.
    split; [apply same_route_refl |]. by left.
  - simpl in H.
    destruct (r_nodes target !! a) as [after |] eqn:Hafter; simpl in H;
      [| done].
    destruct (r_nodes target !! S a) as [after_next |] eqn:Hnext;
      simpl in H; [| done].
    destruct (r_nodes source !! (first - 1)%nat) as [fp |] eqn:Hfp;
      simpl in H; [| done].
    destruct (r_nodes source !! first) as [fn |] eqn:Hfn; simpl in H;
      [| done].
    destruct (r_nodes source !! last_) as [ln |] eqn:Hln; simpl in H;
      [| done].
    destruct (r_nodes source !! S last_) as [lnx |] eqn:Hlnx; simpl in H;
      [| done].
    set (dd := calc_delta_dist_move (pb_c_m pb 0) fp fn ln lnx after
                 after_next) in *.
    destruct (delta_is_higher m dt dw dd) eqn:Hhigher;
      [| by apply (IH _ _ _ _ _ _ _ Hlen Hcap Hdw) in H].
    pose proof (can_insert_same pb target
                  (run_of (r_nodes source) first last_) after after_next)
      as Hrun.
    pose proof (can_insert_fits pb target
                  (run_of (r_nodes source) first last_) after after_next)
      as Hfits.
    destruct (can_insert pb target (run_of (r_nodes source) first last_)
                after after_next) as [insertable run].
    simpl in Hrun, Hfits.
    set (src := with_nodes source _) in *.
    assert (Hsame : same_route source src).
    { split; [| unfold src; by destruct source].
      unfold src. simpl.
      apply (same_but_cache_trans _
               (take first (r_nodes source) ++
                run_of (r_nodes source) first last_ ++
                drop (S last_) (r_nodes source))).
      - apply same_but_cache_app; [done |].
        by apply same_but_cache_app.
      - rewrite chain_split_run by (unfold last_; lia). done. }
    pose proof (same_route_sym _ _ Hsame) as Hsame'.
    assert (Hstep : forall ret updated' m' source' updated0 m0,
              update_move_afters pb tl target first last_ dt dw rest
                updated0 m0 src = Some (ret, updated', m', source') ->
              same_route source source' /\
              ((ret = false /\ updated' = updated0 /\ m' = m0) \/
               (updated' = true /\ approved pb tl source target k dt m'))).
    { intros ret0 upd0 m0' src0' updated0 m0 H0.
      destruct Hsame as [Hs Hf].
      apply IH in H0 as [Hs0 H0].
      - split; [by apply (same_route_trans _ src) |].
        destruct H0 as [H0 | [H0 Happ]]; [by left | right].
        split; [done |]. by apply (approved_same pb tl src).
      - by rewrite (same_but_cache_length _ _ Hs).
      - rewrite <- Hcap. do 2 f_equal. apply sum_demands_ext.
        apply same_but_cache_map; [done |].
        by apply same_but_cache_run_of.
      - destruct (dt =? 0).
        + by apply (can_drop_same pb source).
        + rewrite Hdw. unfold src. done. }
    destruct insertable; [| by apply Hstep in H].
    assert (Hcand :
              is_move_tabu tl (map n_id run) (r_id target) = Some false ->
              approved pb tl source target k dt
              {| m_source := Some (r_id source);
                 m_target := Some (r_id target);
                 m_first := Some first; m_last := Some last_;
                 m_after := Some a; m_delta_trucks := dt;
                 m_delta_workers := dw; m_delta_dist := dd;
                 m_improving := m_improving m |}).
    { intros Hfree. exists first, a, after, after_next. cbv zeta. simpl.
      fold last_. destruct (Hfits eq_refl) as [_ Hfit].
      split; [by exists fp, fn, ln, lnx |].
      split.
      { rewrite <- Hfree. f_equal. symmetry.
        by apply same_but_cache_map. }
      repeat (split; [done |]). done. }
    destruct (is_move_tabu tl (map n_id run) (r_id target))
      as [tabu |] eqn:Htabu; simpl in H; [| done].
    destruct tabu; simpl in H; [by apply Hstep in H |].
    specialize (Hcand eq_refl).
    destruct (cfg_best_moves (pb_cfg pb)); simpl in H.
    + apply Hstep in H as [Hs H]. split; [exact Hs |]. right.
      destruct H as [(_ & -> & ->) | H]; [| exact H]. done.
    + injection H as <- <- <- <-. split; [exact Hsame |]. by right.
Qed.

Lemma approved_workers_nonneg (pb : Problem) (tl : Tabulist)
    (source target : Route) (k : nat) (dt : Z) (m' : Move) :
  1 <= r_workers source -> approved pb tl source target k dt m' ->
  0 <= m_delta_workers m'.
Proof.
  intros Hw (first & a & after & succ & H). cbv zeta in H.
  destruct H as (_ & _ & _ & _ & _ & _ & _ & _ & _ & _ & _ & _ & _ & _ &
                 Hdw).
  destruct (dt =? 0); [| lia].
  destruct Hdw as [-> | [Hdw _]]; lia.
Qed.

Lemma move_reduces_workers_can_drop (pb : Problem) (source : Route)
    (first last_ : nat) (min_reduction : Z) :
  1 <= r_workers source ->
  0 <= min_reduction ->
  (1 <= first)%nat -> (first <= last_)%nat ->
  (S last_ < length (r_nodes source))%nat ->
  same_route source
    (snd (move_reduces_workers pb source first last_ min_reduction)) /\
  can_drop pb source first last_
    (fst (move_reduces_workers pb source first last_ min_reduction)).
Proof.
  intros Hw Hmin H1 H2 H3.
  assert (HU : exists dep rest,
             take first (r_nodes source) ++ drop (S last_) (r_nodes source)
             = dep :: rest).
  { destruct (r_nodes source) as [| dep rest] eqn:HN; [simpl in H3; lia |].
    destruct first as [| f]; [lia |]. simpl. by eexists _, _. }
  destruct HU as (dep & rest & HU).
  destruct (move_reduces_workers_reach pb source first last_ min_reduction
              dep rest Hw Hmin H1 H2 H3 HU) as (Hsame & Hback & Hd).
  split; [by split |].
  destruct Hd as [(Hd & _) | (Hrange & Hall & _)]; [by left | right].
  assert (Hlo : 1 <= (if min_reduction =? 0 then 1 else min_reduction))
    by (destruct (Z.eqb_spec min_reduction 0); lia).
  split; [lia |]. intros dep' rest' HU'.
  assert (dep' = dep /\ rest' = rest) as [-> ->] by (split; congruence).
  apply Hall. lia.
Qed.

Lemma update_move_windows_approved (pb : Problem) (tl : Tabulist)
    (target : Route) (state : Z) (k : nat) (dt : Z) (firsts : list nat) :
  (1 <= k)%nat ->
  forall (dw : Z) (updated : bool) (m : Move) (source : Route)
         (updated' : bool) (m' : Move) (source' : Route),
    1 <= r_workers source ->
    0 <= m_delta_workers m ->
    Forall (fun f => (1 <= f)%nat /\
                     (S (f + k - 1) < length (r_nodes source))%nat) firsts ->
    (if dt =? 0 then (REDUCE_WORKERS <=? state) = false -> dw = 0
     else dw = r_workers source) ->
    update_move_windows pb tl target state k dt firsts dw updated m source =
      Some (updated', m', source') ->
    same_route source source' /\
    ((updated' = updated /\ m' = m) \/
     (updated' = true /\ approved pb tl source target k dt m')).
Proof.
  intros Hk.
  induction firsts as [| first rest IH];
    intros dw updated m source updated' m' source' Hw Hm Hfirsts Hdw H.
  - simpl in H. injection H as <- <- <-.
    split; [apply same_route_refl |]. by left.
  - apply Forall_cons in Hfirsts as [[Hf1 Hf2] Hfirsts].
    change (update_move_windows pb tl target state k dt (first :: rest) dw
              updated m source) with
      (let last := (first + k - 1)%nat in
       if Qltb (inject_Z (pb_capacity pb))
               (r_load target +
                sum_demands (run_of (r_nodes source) first last))%Q then
         update_move_windows pb tl target state k dt rest
           dw updated m source
       else
         let (delta_workers, source) :=
           if (REDUCE_WORKERS <=? state) && (dt =? 0) then
             move_reduces_workers pb source first last (m_delta_workers m)
           else (dw, source) in
         '(returned, updated, m, source) ←
           update_move_afters pb tl target first last dt
             delta_workers (seq 0 (length (r_nodes target) - 1))
             updated m source;
         if returned : bool then Some (true, m, source)
         else
           update_move_windows pb tl target state k dt rest
             delta_workers updated m source) in H.
    cbv zeta in H. set (last_ := (first + k - 1)%nat) in *.
    destruct (Qltb (inject_Z (pb_capacity pb))
                (r_load target +
                 sum_demands (run_of (r_nodes source) first last_)))
      eqn:Hcap.
    { by apply (IH _ _ _ _ _ _ _ Hw Hm Hfirsts Hdw) in H. }
    assert (Hpre : exists d src1,
               (if (REDUCE_WORKERS <=? state) && (dt =? 0)
                then move_reduces_workers pb source first last_
                       (m_delta_workers m)
                else (dw, source)) = (d, src1) /\
               same_route source src1 /\
               (if dt =? 0 then can_drop pb source first last_ d
                else d = r_workers source) /\
               (if dt =? 0 then (REDUCE_WORKERS <=? state) = false -> d = 0
                else d = r_workers source)).
    { destruct ((REDUCE_WORKERS <=? state) && (dt =? 0)) eqn:Hcond.
      - apply andb_true_iff in Hcond as [Hst Hdt]. rewrite Hdt.
        destruct (move_reduces_workers_can_drop pb source first last_
                    (m_delta_workers m) Hw Hm Hf1
                    ltac:(unfold last_; lia) Hf2) as [Hs Hc].
        exists (fst (move_reduces_workers pb source first last_
                       (m_delta_workers m))),
               (snd (move_reduces_workers pb source first last_
                       (m_delta_workers m))).
        split; [by destruct (move_reduces_workers _ _ _ _ _) |].
        split; [done |]. split; [done |]. by rewrite Hst.
      - exists dw, source. split; [done |].
        split; [apply same_route_refl |].
        destruct (dt =? 0) eqn:Hdt; [| done].
        rewrite andb_true_r in Hcond. split; [| done].
        left. by apply Hdw. }
    destruct Hpre as (d & src1 & Hpre & Hs1 & Hcd & Hd).
    rewrite Hpre in H.
    destruct (same_route_fields _ _ Hs1) as (_ & _ & _ & _ & Hw1).
    pose proof Hs1 as [Hsb1 _].
    destruct (update_move_afters pb tl target first last_ dt d
                (seq 0 (length (r_nodes target) - 1)) updated m src1)
      as [[[[ret upd2] m2] src2] |] eqn:Hafters; simpl in H; [| done].
    apply (update_move_afters_approved pb tl target k first dt d _ Hk Hf1)
      in Hafters.
    + destruct Hafters as [Hs2 Hm2].
      destruct (same_route_fields _ _ Hs2) as (_ & _ & _ & _ & Hw2).
      pose proof Hs2 as [Hsb2 _].
      pose proof (same_route_trans _ _ _ Hs1 Hs2) as Hs12.
      assert (Hm2' : (ret = false /\ upd2 = updated /\ m2 = m) \/
                     (upd2 = true /\ approved pb tl source target k dt m2)).
      { destruct Hm2 as [Hm2 | [Hu Ha]]; [by left | right].
        split; [done |].
        apply (approved_same pb tl src1 source);
          [by apply same_route_sym | done]. }
      destruct ret.
      * injection H as <- <- <-. split; [done |].
        destruct Hm2' as [(? & _) | [_ Ha]]; [done | right; by split].
      * apply IH in H.
        -- destruct H as [Hs3 H]. split; [by apply (same_route_trans _ src2) |].
           destruct H as [(-> & ->) | [Hu Ha]].
           ++ destruct Hm2' as [(_ & -> & ->) | [Hu Ha]];
                [by left | right; by split].
           ++ right. split; [done |].
              apply (approved_same pb tl src2 source);
                [by apply same_route_sym | done].
        -- lia.
        -- destruct Hm2' as [(_ & _ & ->) | [_ Ha]]; [done |].
           by apply (approved_workers_nonneg pb tl source target k dt).
        -- rewrite (same_but_cache_length _ _ Hsb2),
             (same_but_cache_length _ _ Hsb1). done.
        -- destruct (dt =? 0); [done | lia].
    + by rewrite (same_but_cache_length _ _ Hsb1).
    + rewrite <- Hcap. do 2 f_equal. apply sum_demands_ext.
      apply same_but_cache_map; [done |]. by apply same_but_cache_run_of.
    + destruct (dt =? 0); [by apply (can_drop_same pb source) | lia].
Qed.

(** A call of [update_move] that returns 1 has recorded an approved move. *)
Lemma update_move_approved (pb : Problem) (tl : Tabulist) (m : Move)
    (source target : Route) (state len : Z) (m' : Move) (source' : Route) :
  1 <= r_workers source ->
  0 <= m_delta_workers m ->
  update_move pb tl m source target state len = Some (1, m', source') ->
  1 <= len /\
  same_route source source' /\
  approved pb tl source target (Z.to_nat len)
           (if r_len source =? EMPTY + len then 1 else 0) m'.
Proof.
  intros Hw Hm H. unfold update_move in H.
  destruct (cfg_max_move (pb_cfg pb) <? len); [done |].
  destruct (r_len source <? EMPTY + len); [done |].
  set (dt := if r_len source =? EMPTY + len then 1 else 0) in *.
  destruct ((m_delta_trucks m =? 1) && (dt =? 0)); [done |].
  destruct (len <? 1) eqn:Hlen; [done |]. apply Z.ltb_ge in Hlen.
  destruct (length (r_nodes source) <? Z.to_nat len + 2)%nat eqn:Hlong;
    [done |].
  apply Nat.ltb_ge in Hlong.
  destruct (update_move_windows pb tl target state (Z.to_nat len) dt _ _
              false m source) as [[[updated m1] src1] |] eqn:Hwin;
    simpl in H; [| done].
  destruct updated; [| done]. injection H as <- <-.
  apply update_move_windows_approved in Hwin; try done; try lia.
  - destruct Hwin as [Hs [[? _] | [_ Ha]]]; done.
  - apply Forall_forall. intros f Hf. apply elem_of_seq in Hf. lia.
  - unfold dt. destruct (r_len source =? EMPTY + len); simpl; [done |].
    by intros _.
Qed.

Lemma run_of_Forall {A : Type} (P : A -> Prop) (l : list A) (i j : nat) :
  Forall P l -> Forall P (take (S j - i) (drop i l)).
Proof. intros H. by apply Forall_take, Forall_drop. Qed.

(** ** The solution after a move *)

Lemma omap_fmap_insert_same {A B : Type} (f : A -> B) (l : list (option A)) :
  forall (i : nat) (r r' : A),
    l !! i = Some (Some r) -> f r' = f r ->
    omap (fmap f) (<[i := Some r']> l) = omap (fmap f) l.
Proof.
  induction l as [| slot l IH]; intros i r r' Hi Hf; [done |].
  destruct i as [| i].
  - simpl in Hi. injection Hi as ->. simpl. by rewrite Hf.
  - simpl in Hi. pose proof (IH i r r' Hi Hf) as IH'.
    destruct slot as [x |]; simpl; [f_equal |]; exact IH'.
Qed.

Lemma omap_id_insert {A : Type} (l : list (option A)) :
  forall (i : nat) (r' : A),
    Forall is_Some l ->
    omap id (<[i := Some r']> l) = <[i := r']> (omap id l).
Proof.
  induction l as [| slot l IH]; intros i r' Hall; [done |].
  apply Forall_cons in Hall as [[x ->] Hall].
  destruct i as [| i]; [done |].
  change (omap id (Some x :: <[i := Some r']> l)
          = x :: <[i := r']> (omap id l)).
  change (x :: omap id (<[i := Some r']> l) = x :: <[i := r']> (omap id l)).
  f_equal. by apply IH.
Qed.

Lemma omap_id_lookup_Some {A : Type} (l : list (option A)) :
  forall (i : nat) (r : A),
    Forall is_Some l -> l !! i = Some (Some r) -> omap id l !! i = Some r.
Proof.
  induction l as [| slot l IH]; intros i r Hall Hi; [done |].
  apply Forall_cons in Hall as [[x ->] Hall].
  destruct i as [| i].
  - simpl in Hi. by injection Hi as ->.
  - simpl in Hi. change (omap id l !! i = Some r). by apply IH.
Qed.

Lemma live_routes_store (sol : Solution) (i : nat) (r r' : Route) :
  solution_wf sol -> route_at sol i = Some r ->
  live_routes (store_route sol i r') = <[i := r']> (live_routes sol).
Proof.
  intros Hwf Hr.
  destruct (solution_wf_route_at sol i r Hwf Hr) as [Hi Hslot].
  pose proof Hwf as (H0 & Hlen & Hlive & Hnull & Hnd).
  unfold live_routes, store_route. simpl.
  rewrite take_insert_lt by done. by apply omap_id_insert.
Qed.

Lemma live_routes_at (sol : Solution) (i : nat) (r : Route) :
  solution_wf sol -> route_at sol i = Some r -> live_routes sol !! i = Some r.
Proof.
  intros Hwf Hr.
  destruct (solution_wf_route_at sol i r Hwf Hr) as [Hi Hslot].
  pose proof Hwf as (H0 & Hlen & Hlive & Hnull & Hnd).
  unfold live_routes. apply omap_id_lookup_Some; [done |].
  by rewrite lookup_take_lt.
Qed.

Lemma delete_insert_same {A : Type} (l : list A) :
  forall (i : nat) (x : A), delete i (<[i := x]> l) = delete i l.
Proof.
  induction l as [| y l IH]; intros i x; [done |].
  destruct i as [| i]; [done |].
  change (y :: delete i (<[i := x]> l) = y :: delete i l). by rewrite IH.
Qed.

Lemma store_route_wf (sol : Solution) (i : nat) (r r' : Route) :
  solution_wf sol -> route_at sol i = Some r -> r_id r' = r_id r ->
  solution_wf (store_route sol i r') /\
  s_trucks (store_route sol i r') = s_trucks sol /\
  route_at (store_route sol i r') i = Some r' /\
  (forall j, j <> i -> route_at (store_route sol i r') j = route_at sol j).
Proof.
  intros Hwf Hr Hid.
  destruct (solution_wf_route_at sol i r Hwf Hr) as [Hi Hslot].
  pose proof Hwf as (H0 & Hlen & Hlive & Hnull & Hnd).
  set (n := Z.to_nat (s_trucks sol)) in *.
  split; [| split; [done |]; split].
  - unfold solution_wf, store_route. simpl. fold n.
    split; [done |]. split; [by rewrite length_insert |].
    rewrite take_insert_lt by done. rewrite drop_insert_lt by done.
    split; [| split; [done |]].
    + apply Forall_insert; [done | by eexists].
    + rewrite (omap_fmap_insert_same r_id _ i r r'); try done.
      by rewrite lookup_take_lt.
  - unfold route_at, store_route. simpl.
    rewrite list_lookup_insert_eq; [done |]. lia.
  - intros j Hj. unfold route_at, store_route. simpl.
    by rewrite list_lookup_insert_ne.
Qed.

Lemma lookup_route_wf (sol : Solution) (i : nat) (r : Route) :
  solution_wf sol -> route_at sol i = Some r ->
  lookup_route sol (r_id r) = Some (i, r).
Proof.
  intros Hwf Hr.
  destruct (solution_wf_route_at sol i r Hwf Hr) as [Hi Hslot].
  unfold lookup_route.
  rewrite (lookup_route_from_intro (s_routes sol) (r_id r) 0 i r Hslot
             eq_refl); [done |].
  intros j r' Hj Hr' Heq.
  assert (j = i); [| lia].
  by apply (solution_wf_ids sol j i r' r Hwf).
Qed.

Lemma route_at_wf_inj (sol : Solution) (i j : nat) (r r' : Route) :
  solution_wf sol -> route_at sol i = Some r -> route_at sol j = Some r' ->
  r_id r = r_id r' -> i = j.
Proof.
  intros Hwf Hi Hj Hid.
  destruct (solution_wf_route_at sol i r Hwf Hi) as [_ Hsi].
  destruct (solution_wf_route_at sol j r' Hwf Hj) as [_ Hsj].
  by apply (solution_wf_ids sol i j r r' Hwf).
Qed.

Lemma update_tabulist_move_returns (tl : Tabulist) (run : list nat)
    (source : nat) :
  (tl_active tl = false \/
   (run <> [] /\
    Forall (fun k => is_Some (mget (tl_nodes_routes tl) k source)) run)) ->
  exists tl', update_tabulist_move tl run source = Some tl'.
Proof.
  intros [Hoff | [Hrun Hrange]].
  - exists tl. unfold update_tabulist_move. by rewrite Hoff.
  - destruct (tl_active tl) eqn:Hact.
    + destruct (update_tabulist_move_spec tl run source Hact Hrun Hrange)
        as (tl1 & Htl1 & _).
      by exists tl1.
    + exists tl. unfold update_tabulist_move. by rewrite Hact.
Qed.

(** The route [perform_move] leaves in the place of the source when no
    truck is saved. *)
Lemma moved_source_id (pb : Problem) (source : Route) (first last_ : nat)
    (dw : Z) :
  let s1 := remove_nodes_noupdate source first last_ in
  let s2 := with_workers s1 (r_workers s1 - dw) in
  let s3 := calc_ests pb s2 0 (r_workers s2) in
  r_id (calc_lsts pb s3 (length (r_nodes s3) - 1) (r_workers s3))
  = r_id source /\
  r_id (remove_nodes pb source first last_) = r_id source.
Proof.
  intros s1 s2 s3. split.
  - destruct (calc_lsts_frame pb s3 (length (r_nodes s3) - 1)
                (r_workers s3)) as (H1 & _).
    destruct (calc_ests_frame pb s2 0 (r_workers s2)) as (H2 & _).
    fold s3 in H2. by rewrite H1, H2.
  - by destruct (remove_nodes_frame pb source first last_) as (-> & _).
Qed.

Lemma perform_move_slots (pb : Problem) (sol : Solution) (tl : Tabulist)
    (m : Move) (first last_ a si ti : nat) (source target : Route) :
  solution_wf sol ->
  m_first m = Some first -> m_last m = Some last_ -> m_after m = Some a ->
  m_source m = Some (r_id source) -> m_target m = Some (r_id target) ->
  route_at sol si = Some source -> route_at sol ti = Some target ->
  si <> ti ->
  let run := run_of (r_nodes source) first last_ in
  let s1 := remove_nodes_noupdate source first last_ in
  (m_delta_trucks m <> 0 -> r_len s1 = EMPTY) ->
  (tl_active tl = false \/
   (map n_id run <> [] /\
    Forall (fun k => is_Some (mget (tl_nodes_routes tl) k (r_id source)))
           (map n_id run))) ->
  let target' := add_nodes pb target run a in
  let s2 := with_workers s1 (r_workers s1 - m_delta_workers m) in
  let s3 := calc_ests pb s2 0 (r_workers s2) in
  let source'' :=
    if negb (m_delta_workers m =? 0) then
      calc_lsts pb s3 (length (r_nodes s3) - 1) (r_workers s3)
    else remove_nodes pb source first last_ in
  exists (sol' : Solution) (tl' : Tabulist) (freed : list Route),
    perform_move pb sol tl m
    = Returns sol' (tl', init_move (m_improving m), freed) /\
    solution_wf sol' /\
    s_trucks sol' = s_trucks sol - (if m_delta_trucks m =? 0 then 0 else 1) /\
    (forall j' r, route_at sol' j' = Some r ->
       r = target' \/ (m_delta_trucks m = 0 /\ r = source'') \/
       exists j, j <> si /\ j <> ti /\ route_at sol j = Some r) /\
    live_routes sol'
    = (if m_delta_trucks m =? 0
       then <[ti := target']> (<[si := source'']> (live_routes sol))
       else <[(if decide (ti < si)%nat then ti else (ti - 1)%nat)
               := target']> (delete si (live_routes sol))) /\
    s_unrouted sol' = s_unrouted sol /\
    s_num_unrouted sol' = s_num_unrouted sol /\
    freed = (if m_delta_trucks m =? 0 then [] else [s1]).
Proof.
  intros Hwf Hfirst Hlast Hafter Hsrc Htgt Hsi Hti Hne run s1 Hempty Htabu
         target' s2 s3 source''.
  destruct (update_tabulist_move_returns tl (map n_id run) (r_id source)
              Htabu) as [tl' Htl'].
  pose proof (lookup_route_wf sol si source Hwf Hsi) as Hls.
  destruct (add_nodes_frame pb target run a) as (Hidt & _).
  fold target' in Hidt. simpl in Hidt.
  destruct (moved_source_id pb source first last_ (m_delta_workers m))
    as [Hid4 Hidr].
  assert (Hids : r_id source'' = r_id source).
  { unfold source''. by destruct (negb (m_delta_workers m =? 0)). }
  assert (Hidne : r_id source <> r_id target).
  { intros E. apply Hne. by apply (route_at_wf_inj sol si ti source target). }
  destruct (Z.eqb_spec (m_delta_trucks m) 0) as [Hdt | Hdt].
  - (* no truck is saved *)
    destruct (store_route_wf sol si source source'' Hwf Hsi Hids)
      as (Hwf1 & Htr1 & Hat1 & Hother1).
    set (sol1 := store_route sol si source'') in *.
    assert (Hti1 : route_at sol1 ti = Some target)
      by (rewrite Hother1; [done | lia]).
    pose proof (lookup_route_wf sol1 ti target Hwf1 Hti1) as Hlt.
    destruct (store_route_wf sol1 ti target target' Hwf1 Hti1 Hidt)
      as (Hwf2 & Htr2 & Hat2 & Hother2).
    exists (store_route sol1 ti target'), tl', [].
    split; [| split; [done |]; split; [rewrite Htr2, Htr1; lia |];
              split; [| split; [| done]]].
    + unfold perform_move.
      rewrite Hfirst, Hlast, Hafter, Hsrc, Htgt, Hls. fold run.
      rewrite Htl'. rewrite Hdt. simpl negb. cbv iota.
      fold s1. unfold sol1, source'' in Hlt. unfold s3, s2 in Hlt.
      unfold with_workers in Hlt.
      destruct (negb (m_delta_workers m =? 0)); cbv zeta; by rewrite Hlt.
    + intros j' r Hr. destruct (decide (j' = ti)) as [-> | Hjt].
      * left. rewrite Hat2 in Hr. congruence.
      * rewrite Hother2 in Hr by done.
        destruct (decide (j' = si)) as [-> | Hjs].
        -- right. left. rewrite Hat1 in Hr. split; [done | congruence].
        -- right. right. exists j'. rewrite Hother1 in Hr by done. done.
    + rewrite (live_routes_store sol1 ti target target' Hwf1 Hti1).
      unfold sol1. by rewrite (live_routes_store sol si source source'').
  - (* a truck is saved *)
    specialize (Hempty Hdt).
    destruct (store_route_wf sol si source s1 Hwf Hsi eq_refl)
      as (Hwf1 & Htr1 & Hat1 & Hother1).
    set (sol1 := store_route sol si s1) in *.
    pose proof (get_route_index_wf_found sol1 si s1 Hwf1 Hat1) as Hidx.
    destruct (remove_route_slots sol1 si s1 Hwf1 Hat1 Hempty)
      as (sol2 & Hrm & Hwf2 & Htr2 & Hlive2 & Hnew & Hold & Hun2 & Hnum2).
    assert (Hti1 : route_at sol1 ti = Some target)
      by (rewrite Hother1; [done | lia]).
    set (ti' := if decide (ti < si)%nat then ti else (ti - 1)%nat).
    pose proof (Hnew ti target Hti1 ltac:(lia)) as Hti2. fold ti' in Hti2.
    pose proof (lookup_route_wf sol2 ti' target Hwf2 Hti2) as Hlt.
    destruct (store_route_wf sol2 ti' target target' Hwf2 Hti2 Hidt)
      as (Hwf3 & Htr3 & Hat3 & Hother3).
    exists (store_route sol2 ti' target'), tl', [s1].
    split; [| split; [done |]; split; [rewrite Htr3, Htr2, Htr1; lia |];
              split; [| split; [| split; [exact Hun2 |
                                          split; [exact Hnum2 | done]]]]].
    + unfold perform_move.
      rewrite Hfirst, Hlast, Hafter, Hsrc, Htgt, Hls. fold run.
      rewrite Htl'. apply Z.eqb_neq in Hdt. rewrite Hdt. simpl negb.
      cbv iota. fold s1. fold sol1.
      change (r_id source) with (r_id s1) at 1.
      rewrite Hidx, Hrm, Hlt. done.
    + intros j' r Hr. destruct (decide (j' = ti')) as [-> | Hjt].
      * left. rewrite Hat3 in Hr. congruence.
      * rewrite Hother3 in Hr by done. right. right.
        destruct (Hold j' r Hr) as (j & Hjs & Hj).
        rewrite Hother1 in Hj by done.
        exists j. split; [done |]. split; [| done].
        intros ->. apply Hjt.
        assert (r = target) as -> by congruence.
        by apply (route_at_wf_inj sol2 j' ti' target target).
    + rewrite (live_routes_store sol2 ti' target target' Hwf2 Hti2).
      rewrite Hlive2. unfold sol1.
      rewrite (live_routes_store sol si source s1 Hwf Hsi).
      by rewrite delete_insert_same.
Qed.

(** ** The insertion that [get_best_insertion] returns *)

Lemma drop_lookup_pair {A : Type} (l : list A) (pos : nat) (x y : A)
    (rest : list A) :
  drop pos l = x :: y :: rest ->
  l !! pos = Some x /\ l !! S pos = Some y /\ drop (S pos) l = y :: rest.
Proof.
  intros H.
  assert (H1 : l !! pos = Some x).
  { pose proof (lookup_drop l pos 0) as E. rewrite H in E. simpl in E.
    by rewrite Nat.add_0_r in E. }
  assert (H2 : l !! S pos = Some y).
  { pose proof (lookup_drop l pos 1) as E. rewrite H in E. simpl in E.
    by replace (pos + 1)%nat with (S pos) in E by lia. }
  split; [done |]. split; [done |].
  replace (S pos) with (pos + 1)%nat by lia.
  rewrite <- drop_drop, H. done.
Qed.

Lemma get_best_insertion_loop_spec (pb : Problem) (r : Route) (n : Node)
    (chain : list Node) :
  forall (pos : nat) (ins : option Insertion),
    drop pos (r_nodes r) = chain ->
    let res := get_best_insertion_loop pb r n pos chain ins in
    (ins = res \/
     exists (x : Insertion) (after next : Node),
       res = Some x /\ (pos <= i_after x)%nat /\
       r_nodes r !! i_after x = Some after /\
       r_nodes r !! S (i_after x) = Some next /\
       can_insert_one pb r n after next = true /\
       i_target x = r_id r /\ i_node x = n /\
       i_cost x = best_insertion_cost pb r n after next /\
       i_attractiveness x = best_insertion_attract pb r n after next) /\
    (forall old x, ins = Some old -> res = Some x ->
       (i_attractiveness old <= i_attractiveness x)%Q) /\
    (forall (p : nat) (after next : Node),
       (pos <= p)%nat ->
       r_nodes r !! p = Some after -> r_nodes r !! S p = Some next ->
       can_insert_one pb r n after next = true ->
       exists x, res = Some x /\
                 (best_insertion_attract pb r n after next
                  <= i_attractiveness x)%Q).
Proof.
  induction chain as [| after chain IH]; intros pos ins Hdrop res.
  { subst res. simpl. split; [by left |]. split.
    - intros old x -> [= ->]. lra.
    - intros p a' n' Hp Ha' Hn'.
      apply lookup_lt_Some in Hn'.
      apply (f_equal (@length Node)) in Hdrop.
      rewrite length_drop in Hdrop. simpl in Hdrop. lia. }
  destruct chain as [| next rest].
  { subst res. simpl. split; [by left |]. split.
    - intros old x -> [= ->]. lra.
    - intros p a' n' Hp Ha' Hn'.
      apply lookup_lt_Some in Hn'.
      apply (f_equal (@length Node)) in Hdrop.
      rewrite length_drop in Hdrop. simpl in Hdrop. lia. }
  destruct (drop_lookup_pair _ _ _ _ _ Hdrop) as (Hafter & Hnext & Hdrop').
  set (candidate :=
         {| i_target := r_id r; i_node := n; i_after := pos;
            i_cost := best_insertion_cost pb r n after next;
            i_attractiveness := best_insertion_attract pb r n after next |}).
  set (ins1 := match ins with
               | None => Some candidate
               | Some old =>
                   if Qltb (i_attractiveness old)
                           (best_insertion_attract pb r n after next)
                   then Some candidate else Some old
               end).
  assert (Hres : res = if negb (can_insert_one pb r n after next)
                       then get_best_insertion_loop pb r n (S pos)
                              (next :: rest) ins
                       else get_best_insertion_loop pb r n (S pos)
                              (next :: rest) ins1) by done.
  clearbody res.
  assert (Hhere : forall (p : nat) (a' n' : Node),
             (pos <= p)%nat ->
             r_nodes r !! p = Some a' -> r_nodes r !! S p = Some n' ->
             p = pos /\ a' = after /\ n' = next \/ (S pos <= p)%nat).
  { intros p a' n' Hp Ha' Hn'. destruct (decide (p = pos)) as [-> | Hne].
    - left. split; [done |]. split; congruence.
    - right. lia. }
  destruct (can_insert_one pb r n after next) eqn:Hcan; cbn [negb] in Hres.
  - destruct (IH (S pos) ins1 Hdrop') as (Hc & Hold & Hall).
    cbv zeta in Hc, Hold, Hall. rewrite <- Hres in Hc, Hold, Hall.
    assert (Hcand : exists (x : Insertion) (a0 n0 : Node),
               ins1 = Some x /\
               (ins = Some x \/
                (i_after x = pos /\ a0 = after /\ n0 = next /\
                 i_target x = r_id r /\ i_node x = n /\
                 i_cost x = best_insertion_cost pb r n after next /\
                 i_attractiveness x
                 = best_insertion_attract pb r n after next)) /\
               (best_insertion_attract pb r n after next
                <= i_attractiveness x)%Q /\
               (forall old, ins = Some old ->
                  (i_attractiveness old <= i_attractiveness x)%Q)).
    { unfold ins1. destruct ins as [old |].
      - destruct (Qltb (i_attractiveness old)
                    (best_insertion_attract pb r n after next)) eqn:E.
        + apply Qltb_lt in E. exists candidate, after, next.
          split; [done |]. split; [by right |]. simpl.
          split; [lra |]. intros ? [= <-]. lra.
        + apply Qltb_ge in E. exists old, after, next.
          split; [done |]. split; [by left |].
          split; [done |]. intros ? [= <-]. lra.
      - exists candidate, after, next. split; [done |].
        split; [by right |]. simpl. split; [lra | done]. }
    destruct Hcand as (x1 & a0 & n0 & Hins1 & Horigin & Hge & Holder).
    split; [| split].
    + destruct Hc as [Hc | (x & a' & n' & Hx & Hp & Hrest)].
      * rewrite <- Hc, Hins1.
        destruct Horigin as [-> | (Hp & -> & -> & Ht & Hn & Hcst & Hat)];
          [by left |].
        right. exists x1, after, next. rewrite Hp.
        split; [done |]. split; [lia |]. split; [done |].
        split; [done |]. split; [done |]. split; [done |].
        split; [done |]. by split.
      * right. exists x, a', n'. split; [done |]. split; [lia | done].
    + intros old x Hold' Hx.
      specialize (Hold x1 x Hins1 Hx). specialize (Holder old Hold'). lra.
    + intros p a' n' Hp Ha' Hn' Hcan'.
      destruct (Hhere p a' n' Hp Ha' Hn') as [(-> & -> & ->) | Hp'].
      * destruct Hc as [Hc | (x & _ & _ & Hx & _)].
        -- exists x1. split; [by rewrite <- Hc |]. done.
        -- exists x. split; [done |].
           specialize (Hold x1 x Hins1 Hx). lra.
      * by apply (Hall p a' n').
  - destruct (IH (S pos) ins Hdrop') as (Hc & Hold & Hall).
    cbv zeta in Hc, Hold, Hall. rewrite <- Hres in Hc, Hold, Hall.
    split; [| split; [done |]].
    + destruct Hc as [Hc | (x & a' & n' & Hx & Hp & Hrest)]; [by left |].
      right. exists x, a', n'. split; [done |]. split; [lia | done].
    + intros p a' n' Hp Ha' Hn' Hcan'.
      destruct (Hhere p a' n' Hp Ha' Hn') as [(-> & -> & ->) | Hp'].
      * congruence.
      * by apply (Hall p a' n').
Qed.

(** X18: [get_best_insertion] returns NULL exactly when no position of the
    route passes the capacity guard and [can_insert_one]; otherwise the
    record names the route, the node and a position that passes both, with
    the cost and the attractiveness computed for that position, and no
    position that passes them is more attractive. *)
Theorem get_best_insertion_sound (pb : Problem) (r : Route) (n : Node) :
  match get_best_insertion pb r n with
  | None =>
      forall (p : nat) (after next : Node),
        r_nodes r !! p = Some after -> r_nodes r !! S p = Some next ->
        insertion_test pb r n after next = false
  | Some ins =>
      exists after next : Node,
        r_nodes r !! i_after ins = Some after /\
        r_nodes r !! S (i_after ins) = Some next /\
        insertion_test pb r n after next = true /\
        i_target ins = r_id r /\ i_node ins = n /\
        i_cost ins = best_insertion_cost pb r n after next /\
        i_attractiveness ins = best_insertion_attract pb r n after next /\
        (forall (p : nat) (a' n' : Node),
           r_nodes r !! p = Some a' -> r_nodes r !! S p = Some n' ->
           insertion_test pb r n a' n' = true ->
           (best_insertion_attract pb r n a' n' <= i_attractiveness ins)%Q)
  end.
Proof.
  unfold get_best_insertion, insertion_test.
  destruct (exceeds_capacity pb r n) eqn:Hcap; [done |].
  destruct (get_best_insertion_loop_spec pb r n (r_nodes r) 0 None eq_refl)
    as (Hc & _ & Hall).
  cbv zeta in Hc, Hall.
  destruct (get_best_insertion_loop pb r n 0 (r_nodes r) None)
    as [ins |] eqn:Hres.
  - destruct Hc as [Hc | (x & after & next & Hx & _ & Ha & Hn & Hcan & Ht &
                          Hnode & Hcost & Hat)]; [done |].
    injection Hx as <-. exists after, next.
    split; [done |]. split; [done |]. split; [by rewrite Hcan |].
    split; [done |]. split; [done |]. split; [done |]. split; [done |].
    intros p a' n' Ha' Hn' Htest. simpl in Htest.
    destruct (Hall p a' n' ltac:(lia) Ha' Hn' Htest) as (x & Hx & Hle).
    by injection Hx as <-.
  - intros p after next Ha Hn. simpl.
    destruct (can_insert_one pb r n after next) eqn:Hcan; [| done].
    by destruct (Hall p after next ltac:(lia) Ha Hn Hcan) as (x & Hx & _).
Qed.

(** ** The insertion that [calc_best_insertion] records *)

Lemma le_ext_refl (e : Ext) : le_ext e e.
Proof. destruct e; simpl; [done | lra | done]. Qed.

Lemma le_ext_trans (e1 e2 e3 : Ext) :
  le_ext e1 e2 -> le_ext e2 e3 -> le_ext e1 e3.
Proof. destruct e1, e2, e3; simpl; try done. lra. Qed.

Lemma lt_ext_le (x : Q) (e : Ext) : lt_ext x e = true -> le_ext (Fin x) e.
Proof.
  destruct e; simpl; try done. intros H. apply Qltb_lt in H. lra.
Qed.

Lemma lt_ext_false (x : Q) (e : Ext) :
  lt_ext x e = false <-> le_ext e (Fin x).
Proof. destruct e; simpl; try done. apply Qltb_ge. Qed.

Lemma lt_ext_mono (x : Q) (e1 e2 : Ext) :
  lt_ext x e1 = true -> le_ext e1 e2 -> lt_ext x e2 = true.
Proof.
  destruct e1, e2; simpl; try done.
  rewrite !Qltb_lt. lra.
Qed.

Lemma calc_best_insertion_loop_spec (pb : Problem) (route : Route)
    (node : Node) (chain : list Node) :
  forall (pos : nat) (cost_time : Q) (updated : bool) (ins : Insertion_buf),
    drop pos (r_nodes route) = chain ->
    (Qeq_bool (1 - cfg_alpha (pb_cfg pb)) 0 = true -> cost_time = 0%Q) ->
    let res :=
      calc_best_insertion_loop pb route node pos chain cost_time updated ins
    in
    (res = (updated, ins) \/
     exists (p : nat) (after next : Node),
       fst res = true /\ (pos <= p)%nat /\
       r_nodes route !! p = Some after /\
       r_nodes route !! S p = Some next /\
       can_insert_one pb route node after next = true /\
       b_target (snd res) = Some (r_id route) /\
       b_node (snd res) = Some node /\
       b_after (snd res) = Some p /\
       b_cost (snd res) = Fin (insertion_cost pb route node after next) /\
       b_attractiveness (snd res) = b_attractiveness ins /\
       lt_ext (insertion_cost pb route node after next) (b_cost ins)
       = true) /\
    le_ext (b_cost (snd res)) (b_cost ins) /\
    (forall (p : nat) (after next : Node),
       (pos <= p)%nat ->
       r_nodes route !! p = Some after ->
       r_nodes route !! S p = Some next ->
       can_insert_one pb route node after next = true ->
       le_ext (b_cost (snd res))
              (Fin (insertion_cost pb route node after next))).
Proof.
  induction chain as [| after chain IH];
    intros pos cost_time updated ins Hdrop Hct res.
  { subst res. simpl. split; [by left |]. split; [apply le_ext_refl |].
    intros p a' n' Hp Ha' Hn'.
    apply lookup_lt_Some in Hn'.
    apply (f_equal (@length Node)) in Hdrop.
    rewrite length_drop in Hdrop. simpl in Hdrop. lia. }
  destruct chain as [| next rest].
  { subst res. simpl. split; [by left |]. split; [apply le_ext_refl |].
    intros p a' n' Hp Ha' Hn'.
    apply lookup_lt_Some in Hn'.
    apply (f_equal (@length Node)) in Hdrop.
    rewrite length_drop in Hdrop. simpl in Hdrop. lia. }
  destruct (drop_lookup_pair _ _ _ _ _ Hdrop) as (Hafter & Hnext & Hdrop').
  set (c_m := pb_c_m pb (r_workers route)).
  set (ct1 := if negb (Qeq_bool (1 - cfg_alpha (pb_cfg pb)) 0) then
                (Common.max (n_est next)
                   (Common.max (n_est node)
                      (n_aest after + c_m (n_id after) (n_id node)) +
                    c_m (n_id node) (n_id next)) - n_aest next)%Q
              else cost_time).
  set (cost := insertion_cost pb route node after next).
  set (cand := {| b_target := Some (r_id route); b_node := Some node;
                  b_after := Some pos; b_cost := Fin cost;
                  b_attractiveness := b_attractiveness ins |}).
  assert (Hres : res =
            if negb (can_insert_one pb route node after next) then
              calc_best_insertion_loop pb route node (S pos) (next :: rest)
                cost_time updated ins
            else if lt_ext cost (b_cost ins) then
              calc_best_insertion_loop pb route node (S pos) (next :: rest)
                ct1 true cand
            else
              calc_best_insertion_loop pb route node (S pos) (next :: rest)
                ct1 updated ins).
  { subst res.
    change (calc_best_insertion_loop pb route node pos
              (after :: next :: rest) cost_time updated ins) with
      (if negb (can_insert_one pb route node after next) then
         calc_best_insertion_loop pb route node (S pos) (next :: rest)
           cost_time updated ins
       else
         let cost' :=
           (cfg_alpha (pb_cfg pb) *
            (pb_c_m pb 0 (n_id after) (n_id node) +
             pb_c_m pb 0 (n_id node) (n_id next) -
             cfg_mu (pb_cfg pb) * pb_c_m pb 0 (n_id after) (n_id next)) +
            (1 - cfg_alpha (pb_cfg pb)) * ct1 -
            cfg_lambda (pb_cfg pb) * pb_c_m pb 0 0%nat (n_id node))%Q in
         if lt_ext cost' (b_cost ins) then
           calc_best_insertion_loop pb route node (S pos) (next :: rest)
             ct1 true
             {| b_target := Some (r_id route); b_node := Some node;
                b_after := Some pos; b_cost := Fin cost';
                b_attractiveness := b_attractiveness ins |}
         else
           calc_best_insertion_loop pb route node (S pos) (next :: rest)
             ct1 updated ins).
    destruct (negb (can_insert_one pb route node after next)); [done |].
    cbv zeta.
    assert (Hcost : (cfg_alpha (pb_cfg pb) *
                     (pb_c_m pb 0 (n_id after) (n_id node) +
                      pb_c_m pb 0 (n_id node) (n_id next) -
                      cfg_mu (pb_cfg pb) *
                      pb_c_m pb 0 (n_id after) (n_id next)) +
                     (1 - cfg_alpha (pb_cfg pb)) * ct1 -
                     cfg_lambda (pb_cfg pb) * pb_c_m pb 0 0%nat (n_id node))%Q
                    = cost).
    { unfold cost, insertion_cost, ct1. fold c_m.
      destruct (Qeq_bool (1 - cfg_alpha (pb_cfg pb)) 0) eqn:E; simpl;
        [| done].
      by rewrite (Hct eq_refl). }
    by rewrite Hcost. }
  clearbody res.
  assert (Hct1 : Qeq_bool (1 - cfg_alpha (pb_cfg pb)) 0 = true -> ct1 = 0%Q).
  { intros E. unfold ct1. rewrite E. simpl. by apply Hct. }
  assert (Hhere : forall (p : nat) (a' n' : Node),
             (pos <= p)%nat ->
             r_nodes route !! p = Some a' -> r_nodes route !! S p = Some n' ->
             p = pos /\ a' = after /\ n' = next \/ (S pos <= p)%nat).
  { intros p a' n' Hp Ha' Hn'. destruct (decide (p = pos)) as [-> | Hne].
    - left. split; [done |]. split; congruence.
    - right. lia. }
  destruct (can_insert_one pb route node after next) eqn:Hcan;
    cbn [negb] in Hres.
  - destruct (lt_ext cost (b_cost ins)) eqn:Hlt.
    + destruct (IH (S pos) ct1 true cand Hdrop' Hct1) as (Hc & Hle & Hall).
      cbv zeta in Hc, Hle, Hall. rewrite <- Hres in Hc, Hle, Hall.
      simpl in Hle.
      split; [| split].
      * right. destruct Hc as [-> | (p & a' & n' & H1 & H2 & H3 & H4 & H5 &
                                      H6 & H7 & H8 & H9 & H10 & H11)].
        -- exists pos, after, next. simpl. by repeat split.
        -- exists p, a', n'. split; [done |]. split; [lia |].
           split; [done |]. split; [done |]. split; [done |].
           split; [done |]. split; [done |]. split; [done |].
           split; [done |]. split; [done |].
           apply (lt_ext_mono _ (Fin cost)); [done |].
           by apply lt_ext_le.
      * apply (le_ext_trans _ (Fin cost)); [done | by apply lt_ext_le].
      * intros p a' n' Hp Ha' Hn' Hcan'.
        destruct (Hhere p a' n' Hp Ha' Hn') as [(-> & -> & ->) | Hp'];
          [done | by apply (Hall p a' n')].
    + destruct (IH (S pos) ct1 updated ins Hdrop' Hct1) as (Hc & Hle & Hall).
      cbv zeta in Hc, Hle, Hall. rewrite <- Hres in Hc, Hle, Hall.
      split; [| split; [done |]].
      * destruct Hc as [Hc | (p & a' & n' & H1 & H2 & Hrest)]; [by left |].
        right. exists p, a', n'. split; [done |]. split; [lia | done].
      * intros p a' n' Hp Ha' Hn' Hcan'.
        destruct (Hhere p a' n' Hp Ha' Hn') as [(-> & -> & ->) | Hp'];
          [| by apply (Hall p a' n')].
        apply (le_ext_trans _ (b_cost ins)); [done |].
        by apply lt_ext_false.
  - destruct (IH (S pos) cost_time updated ins Hdrop' Hct)
      as (Hc & Hle & Hall).
    cbv zeta in Hc, Hle, Hall. rewrite <- Hres in Hc, Hle, Hall.
    split; [| split; [done |]].
    + destruct Hc as [Hc | (p & a' & n' & H1 & H2 & Hrest)]; [by left |].
      right. exists p, a', n'. split; [done |]. split; [lia | done].
    + intros p a' n' Hp Ha' Hn' Hcan'.
      destruct (Hhere p a' n' Hp Ha' Hn') as [(-> & -> & ->) | Hp'];
        [congruence | by apply (Hall p a' n')].
Qed.

(** X19: [calc_best_insertion] records the cheapest position of the route
    that passes the capacity guard and [can_insert_one], when that is
    cheaper than the cost the record came with.  A call that returns 0
    leaves the record as it was; a call that returns 1 leaves the route, the
    node, such a position and the cost computed for it, which is below the
    cost the record had, and [attractiveness] untouched.  Afterwards no
    position that passes the tests costs less than the record says, and
    the record does not cost more than it did. *)
Theorem calc_best_insertion_spec (pb : Problem) (route : Route) (node : Node)
    (ins : Insertion_buf) :
  let updated := fst (calc_best_insertion pb route node ins) in
  let ins' := snd (calc_best_insertion pb route node ins) in
  (updated = false -> ins' = ins) /\
  (updated = true ->
   exists (p : nat) (after next : Node),
     r_nodes route !! p = Some after /\
     r_nodes route !! S p = Some next /\
     insertion_test pb route node after next = true /\
     b_target ins' = Some (r_id route) /\ b_node ins' = Some node /\
     b_after ins' = Some p /\
     b_cost ins' = Fin (insertion_cost pb route node after next) /\
     b_attractiveness ins' = b_attractiveness ins /\
     lt_ext (insertion_cost pb route node after next) (b_cost ins) = true) /\
  (forall (p : nat) (after next : Node),
     r_nodes route !! p = Some after -> r_nodes route !! S p = Some next ->
     insertion_test pb route node after next = true ->
     le_ext (b_cost ins')
            (Fin (insertion_cost pb route node after next))) /\
  le_ext (b_cost ins') (b_cost ins).
Proof.
  intros updated ins'.
  unfold calc_best_insertion in updated, ins'.
  unfold insertion_test.
  destruct (exceeds_capacity pb route node) eqn:Hcap.
  { subst updated ins'. simpl.
    split; [done |]. split; [done |]. split; [done |].
    apply le_ext_refl. }
  destruct (calc_best_insertion_loop_spec pb route node (r_nodes route) 0 0
              false ins eq_refl ltac:(done)) as (Hc & Hle & Hall).
  cbv zeta in Hc, Hle, Hall. fold updated in Hc. fold ins' in Hc, Hle, Hall.
  split; [| split; [| split]].
  - intros Hu.
    destruct Hc as [Hc | (p & a' & n' & H1 & _)]; [| congruence].
    unfold ins'. by rewrite Hc.
  - intros Hu.
    destruct Hc as [Hc | (p & after & next & H1 & _ & H3 & H4 & H5 & H6 &
                          H7 & H8 & H9 & H10 & H11)].
    { unfold updated in Hu. by rewrite Hc in Hu. }
    exists p, after, next.
    split; [done |]. split; [done |]. split; [by rewrite H5 |].
    split; [done |]. split; [done |]. split; [done |]. split; [done |].
    split; [done |]. done.
  - intros p after next Ha Hn Htest. simpl in Htest.
    by apply (Hall p after next ltac:(lia) Ha Hn).
  - done.
Qed.

(** ** The sorted list of insertions *)

Lemma elem_of_rev {A : Type} (x : A) (l : list A) : x ∈ rev l <-> x ∈ l.
Proof. rewrite !list_elem_of_In. symmetry. apply in_rev. Qed.

Lemma link_behind_spec (back : list Insertion) (ins : Insertion) :
  (exists t, t ∈ back /\
             (i_attractiveness ins <= i_attractiveness t)%Q) ->
  exists (lo hi' : list Insertion) (t : Insertion),
    back = lo ++ t :: hi' /\
    link_behind back ins = Some (lo ++ ins :: t :: hi') /\
    Forall (fun x => (i_attractiveness x < i_attractiveness ins)%Q) lo /\
    (i_attractiveness ins <= i_attractiveness t)%Q.
Proof.
  induction back as [| temp rest IH]; intros (t & Ht & Hle).
  { by apply elem_of_nil in Ht. }
  simpl.
  destruct (Qltb (i_attractiveness temp) (i_attractiveness ins)) eqn:E.
  - apply Qltb_lt in E.
    apply elem_of_cons in Ht as [-> | Ht]; [lra |].
    destruct IH as (lo & hi' & t' & -> & Hl & Hlo & Ht').
    { by exists t. }
    exists (temp :: lo), hi', t'. rewrite Hl. simpl.
    split; [done |]. split; [done |]. split; [by constructor | done].
  - apply Qltb_ge in E. exists [], rest, temp. by repeat split.
Qed.

Lemma by_attractiveness_insert (hi lo : list Insertion) (t ins : Insertion) :
  by_attractiveness (hi ++ t :: lo) ->
  (i_attractiveness ins <= i_attractiveness t)%Q ->
  Forall (fun x => (i_attractiveness x <= i_attractiveness ins)%Q) lo ->
  by_attractiveness (hi ++ t :: ins :: lo).
Proof.
  unfold by_attractiveness. intros Hs Ht Hlo.
  apply StronglySorted_app in Hs as (Hcross & Hhi & Htl).
  apply StronglySorted_cons in Htl as [Htlo Hslo].
  apply StronglySorted_app. split; [| split; [done |]].
  - intros x1 x2 H1 H2.
    apply elem_of_cons in H2 as [-> | H2]; [apply Hcross; [done | by left] |].
    apply elem_of_cons in H2 as [-> | H2].
    + pose proof (Hcross x1 t H1 ltac:(by left)). simpl in *. lra.
    + apply Hcross; [done | by right].
  - apply StronglySorted_cons. split.
    + constructor; [done | done].
    + apply StronglySorted_cons. by split.
Qed.

Lemma by_attractiveness_front (l : list Insertion) (hd ins : Insertion) :
  by_attractiveness l -> head l = Some hd ->
  (i_attractiveness hd <= i_attractiveness ins)%Q ->
  by_attractiveness (ins :: l).
Proof.
  unfold by_attractiveness. intros Hs Hh Hle.
  destruct l as [| x l]; [done |]. injection Hh as ->.
  apply StronglySorted_cons. split; [| done].
  apply StronglySorted_cons in Hs as [Hall _].
  constructor; [done |].
  apply Forall_forall. intros y Hy. rewrite Forall_forall in Hall.
  specialize (Hall y Hy). simpl in *. lra.
Qed.

Lemma by_attractiveness_init (l : list Insertion) (x : Insertion) :
  by_attractiveness (l ++ [x]) ->
  by_attractiveness l /\
  Forall (fun k => (i_attractiveness x <= i_attractiveness k)%Q) l.
Proof.
  unfold by_attractiveness. intros Hs.
  apply StronglySorted_app in Hs as (Hcross & Hl & _). split; [done |].
  apply Forall_forall. intros k Hk. apply Hcross; [done | by left].
Qed.

(** The list of [link_behind], read from the head. *)
Lemma link_behind_rev (items : list Insertion) (hd ins : Insertion) :
  by_attractiveness items ->
  head items = Some hd ->
  (i_attractiveness ins <= i_attractiveness hd)%Q ->
  exists back : list Insertion,
    link_behind (rev items) ins = Some back /\
    by_attractiveness (rev back) /\
    rev back ≡ₚ ins :: items /\
    (forall x, x ∈ rev back -> x = ins \/ x ∈ items).
Proof.
  intros Hs Hh Hle.
  destruct (link_behind_spec (rev items) ins) as (lo & hi' & t & Hrev & Hl &
                                                   Hlo & Ht).
  { exists hd. split; [| done]. apply elem_of_rev.
    destruct items as [| x l]; [done |]. injection Hh as ->. by left. }
  exists (lo ++ ins :: t :: hi'). split; [done |].
  assert (Hitems : items = rev hi' ++ t :: rev lo).
  { apply (f_equal (@rev Insertion)) in Hrev.
    rewrite rev_involutive in Hrev. rewrite Hrev.
    rewrite rev_app_distr. simpl. by rewrite <- app_assoc. }
  assert (Hback : rev (lo ++ ins :: t :: hi') = rev hi' ++ t :: ins :: rev lo).
  { rewrite rev_app_distr. simpl. by rewrite <- !app_assoc. }
  rewrite Hback, Hitems. split; [| split].
  - rewrite Hitems in Hs. apply by_attractiveness_insert; [done | done |].
    apply Forall_forall. intros x Hx.
    apply (proj1 (elem_of_rev x lo)) in Hx.
    rewrite Forall_forall in Hlo. specialize (Hlo x Hx). lra.
  - symmetry.
    etransitivity; [apply (Permutation_middle (rev hi') (t :: rev lo) ins) |].
    apply Permutation_app_head. apply perm_swap.
  - intros x Hx. apply elem_of_app in Hx as [Hx | Hx].
    { right. apply elem_of_app. by left. }
    apply elem_of_cons in Hx as [-> | Hx].
    { right. apply elem_of_app. right. by left. }
    apply elem_of_cons in Hx as [-> | Hx]; [by left |].
    right. apply elem_of_app. right. by right.
Qed.

(** X20: [update_insertion_list] keeps the list sorted and bounded and
    holds on to the best records.  On a list whose records stand by falling
    attractiveness, with [size] the number of records and at most
    [max_size >= 1], the call returns without following a NULL pointer; the
    list afterwards is again sorted, [size] is its length and at most
    [max_size]; every record of the old list and the new one is either in
    the list or was handed to [free], once; the value is 1 with the new
    record in the list, or 0 with the new record freed and the list as it
    was; no freed record is more attractive than a record kept; and a
    record is freed only when the list was full. *)
Theorem update_insertion_list_sorted (il : Insertion_List) (ins : Insertion) :
  by_attractiveness (il_items il) ->
  il_size il = Z.of_nat (length (il_items il)) ->
  1 <= il_max_size il ->
  il_size il <= il_max_size il ->
  exists (r : Z) (il' : Insertion_List) (freed : list Insertion),
    update_insertion_list il ins = Some (r, il', freed) /\
    by_attractiveness (il_items il') /\
    il_size il' = Z.of_nat (length (il_items il')) /\
    il_size il' <= il_max_size il' /\
    il_max_size il' = il_max_size il /\
    il_items il' ++ freed ≡ₚ ins :: il_items il /\
    (r = 1 /\ ins ∈ il_items il' \/ r = 0 /\ freed = [ins] /\ il' = il) /\
    (forall f k, f ∈ freed -> k ∈ il_items il' ->
       (i_attractiveness f <= i_attractiveness k)%Q) /\
    (freed = [] \/ il_size il = il_max_size il).
Proof.
  intros Hs Hsize Hmax Hle. unfold update_insertion_list.
  destruct il as [items size mx]. simpl in *.
  destruct (Z.eqb_spec size 0) as [H0 | H0].
  { (* the first element *)
    assert (items = []) as -> by (destruct items; [done | simpl in *; lia]).
    eexists _, _, _. split; [reflexivity |]. simpl.
    split; [repeat constructor |]. split; [lia |]. split; [lia |].
    split; [done |]. split; [done |].
    split; [left; split; [done | by left] |].
    split; [intros f k Hf; by apply elem_of_nil in Hf | by left]. }
  destruct items as [| hd rest]; [simpl in *; lia |].
  change (head (hd :: rest)) with (Some hd).
  cbn [mbind option_bind].
  assert (Hsize' : size = Z.of_nat (length rest) + 1)
    by (rewrite Hsize; cbn [length]; lia).
  destruct (Z.eqb_spec mx 1) as [H1 | H1].
  { (* a list of one record *)
    assert (rest = []) as ->
      by (destruct rest; [done | simpl in *; lia]).
    destruct (Qltb (i_attractiveness ins) (i_attractiveness hd)) eqn:E.
    - apply Qltb_lt in E. eexists _, _, _. split; [reflexivity |]. simpl.
      split; [done |]. split; [done |]. split; [done |]. split; [done |].
      split; [apply perm_swap |]. split; [by right |].
      split; [| right; simpl in Hsize; lia].
      intros f k Hf Hk. apply list_elem_of_singleton in Hf as ->.
      apply list_elem_of_singleton in Hk as ->. lra.
    - apply Qltb_ge in E. eexists _, _, _. split; [reflexivity |]. simpl.
      split; [repeat constructor |]. split; [done |]. split; [done |].
      split; [done |]. split; [done |].
      split; [left; split; [done | by left] |].
      split; [| right; simpl in Hsize; lia].
      intros f k Hf Hk. apply list_elem_of_singleton in Hf as ->.
      by apply list_elem_of_singleton in Hk as ->. }
  destruct (Z.ltb_spec size mx) as [Hlt | Hge].
  { (* room is left *)
    destruct (Qltb (i_attractiveness hd) (i_attractiveness ins)) eqn:E.
    - apply Qltb_lt in E. eexists _, _, _. split; [reflexivity |]. simpl.
      split; [apply (by_attractiveness_front _ hd); [done | done | lra] |].
      split; [lia |]. split; [lia |]. split; [done |].
      split; [by rewrite app_nil_r |].
      split; [left; split; [done | by left] |].
      split; [intros f k Hf; by apply elem_of_nil in Hf | by left].
    - apply Qltb_ge in E.
      destruct (link_behind_rev (hd :: rest) hd ins Hs eq_refl E)
        as (back & Hl & Hsb & Hperm & _).
      rewrite Hl. cbn [mbind option_bind].
      eexists _, _, _. split; [reflexivity |]. simpl.
      split; [done |].
      pose proof (Permutation_length Hperm) as Hlen. simpl in Hlen.
      split; [lia |]. split; [lia |]. split; [done |].
      split; [by rewrite app_nil_r |]. split.
      + left. split; [done |]. rewrite Hperm. by left.
      + split; [intros f k Hf; by apply elem_of_nil in Hf | by left]. }
  (* the list is full *)
  assert (Hfull : size = mx) by lia.
  destruct (last (hd :: rest)) as [tl |] eqn:Hlast;
    [| by apply last_None in Hlast].
  cbn [mbind option_bind].
  apply last_Some in Hlast as [init Hinit].
  assert (Hlen : (2 <= length (hd :: rest))%nat) by lia.
  rewrite Hinit in Hs, Hlen.
  destruct (by_attractiveness_init init tl Hs) as [Hsi Htl].
  assert (Hhd : head init = Some hd).
  { destruct init as [| x init']; [simpl in Hlen; lia |].
    simpl in Hinit. by injection Hinit as ->. }
  rewrite Hinit.
  destruct (Qltb (i_attractiveness ins) (i_attractiveness tl)) eqn:E.
  { apply Qltb_lt in E.
    exists 0, {| il_items := init ++ [tl]; il_size := size;
                 il_max_size := mx |}, [ins].
    split; [reflexivity |]. simpl.
    split; [done |]. split; [by rewrite <- Hinit |]. split; [done |].
    split; [done |].
    split; [symmetry; apply Permutation_cons_append |].
    split; [by right |]. split; [| by right].
    intros f k Hf Hk. apply list_elem_of_singleton in Hf as ->.
    apply elem_of_app in Hk as [Hk | Hk].
    - rewrite Forall_forall in Htl. specialize (Htl k Hk). lra.
    - apply list_elem_of_singleton in Hk as ->. lra. }
  apply Qltb_ge in E.
  assert (Hsz : size = Z.of_nat (S (length init))).
  { rewrite Hsize. f_equal. apply (f_equal (@length Insertion)) in Hinit.
    rewrite length_app in Hinit. simpl in *. lia. }
  destruct (Qltb (i_attractiveness hd) (i_attractiveness ins)) eqn:E2.
  - apply Qltb_lt in E2.
    exists 1, {| il_items := ins :: init; il_size := size;
                 il_max_size := mx |}, [tl].
    split.
    { cbn [mbind option_bind].
      change (ins :: init ++ [tl]) with ((ins :: init) ++ [tl]).
      by rewrite removelast_last. }
    cbn [il_items il_size il_max_size].
    split; [apply (by_attractiveness_front _ hd); [done | done | lra] |].
    split; [rewrite Hsz; cbn [length]; lia |]. split; [lia |].
    split; [done |]. split; [done |].
    split; [left; split; [done | by left] |]. split; [| by right].
    intros f k Hf Hk. apply list_elem_of_singleton in Hf as ->.
    apply elem_of_cons in Hk as [-> | Hk]; [done |].
    rewrite Forall_forall in Htl. by apply Htl.
  - apply Qltb_ge in E2.
    assert (Hrev : tail (rev (init ++ [tl])) = rev init).
    { by rewrite rev_app_distr. }
    destruct (link_behind_rev init hd ins Hsi Hhd E2)
      as (back & Hl & Hsb & Hperm & Hmem).
    exists 1, {| il_items := rev back; il_size := size;
                 il_max_size := mx |}, [tl].
    split.
    { rewrite Hrev, Hl. cbn [mbind option_bind].
      by rewrite removelast_last. }
    cbn [il_items il_size il_max_size].
    pose proof (Permutation_length Hperm) as Hlenb. cbn [length] in Hlenb.
    split; [done |]. split; [lia |]. split; [lia |]. split; [done |].
    split.
    { by rewrite Hperm. }
    split.
    { left. split; [done |]. rewrite Hperm. by left. }
    split; [| by right].
    intros f k Hf Hk. apply list_elem_of_singleton in Hf as ->.
    destruct (Hmem k Hk) as [-> | Hk']; [done |].
    rewrite Forall_forall in Htl. by apply Htl.
Qed.

Lemma update_insertion_list_sorted_witness :
  exists (r : Z) (il' : Insertion_List) (freed : list Insertion),
    update_insertion_list ex_il (ex_insertion 2) = Some (r, il', freed) /\
    by_attractiveness (il_items il') /\
    il_size il' = Z.of_nat (length (il_items il')) /\
    il_size il' <= il_max_size il' /\
    il_max_size il' = il_max_size ex_il /\
    il_items il' ++ freed ≡ₚ ex_insertion 2 :: il_items ex_il /\
    (r = 1 /\ ex_insertion 2 ∈ il_items il' \/
     r = 0 /\ freed = [ex_insertion 2] /\ il' = ex_il) /\
    (forall f k, f ∈ freed -> k ∈ il_items il' ->
       (i_attractiveness f <= i_attractiveness k)%Q) /\
    (freed = [] \/ il_size ex_il = il_max_size ex_il).
Proof.
  apply (update_insertion_list_sorted ex_il (ex_insertion 2)).
  - unfold by_attractiveness, ex_il. simpl.
    repeat (constructor; [| repeat (constructor; try (vm_compute; discriminate))]).
    constructor.
  - reflexivity.
  - simpl. lia.
  - simpl. lia.
Defined.

(** ** The customers of a solution across a move *)

Lemma map_removelast {A B : Type} (f : A -> B) (l : list A) :
  map f (removelast l) = removelast (map f l).
Proof.
  induction l as [| x l IH]; [done |].
  destruct l as [| y l]; [done |].
  change (f x :: map f (removelast (y :: l))
          = f x :: removelast (map f (y :: l))).
  by rewrite IH.
Qed.

Lemma customer_ids_nodes (r : Route) :
  customer_ids r = removelast (tail (map n_id (r_nodes r))).
Proof.
  unfold customer_ids, customers. rewrite map_removelast.
  by destruct (r_nodes r).
Qed.

Lemma customer_ids_same (r r' : Route) :
  map n_id (r_nodes r') = map n_id (r_nodes r) ->
  customer_ids r' = customer_ids r.
Proof. intros H. by rewrite !customer_ids_nodes, H. Qed.

Lemma ids_insert {A : Type} (ids run : list A) (after : nat) :
  (S after < length ids)%nat ->
  removelast (tail (take (S after) ids ++ run ++ drop (S after) ids))
  ≡ₚ run ++ removelast (tail ids).
Proof.
  intros Hlen. destruct ids as [| x ids]; [simpl in Hlen; lia |].
  cbn [length] in Hlen.
  change (removelast (take after ids ++ run ++ drop after ids)
          ≡ₚ run ++ removelast ids).
  assert (Hd : drop after ids <> []).
  { intros E. apply (f_equal length) in E. rewrite length_drop in E.
    simpl in E. lia. }
  rewrite app_assoc. rewrite removelast_app by done.
  rewrite <- (take_drop after ids) at 3.
  rewrite removelast_app by done.
  rewrite <- app_assoc. apply Permutation_app_swap_app.
Qed.

Lemma ids_remove {A : Type} (ids : list A) (first last_ : nat) :
  (1 <= first <= last_)%nat -> (S last_ < length ids)%nat ->
  removelast (tail (take first ids ++ drop (S last_) ids))
  ++ take (S last_ - first) (drop first ids)
  ≡ₚ removelast (tail ids).
Proof.
  intros Hfl Hlen. destruct ids as [| x ids]; [simpl in Hlen; lia |].
  cbn [length] in Hlen. destruct first as [| f]; [lia |].
  change (removelast (take f ids ++ drop last_ ids)
          ++ take (last_ - f) (drop f ids)
          ≡ₚ removelast ids).
  assert (Hd : drop last_ ids <> []).
  { intros E. apply (f_equal length) in E. rewrite length_drop in E.
    simpl in E. lia. }
  rewrite removelast_app by done.
  assert (Hsplit : ids = take f ids ++ take (last_ - f) (drop f ids)
                         ++ drop last_ ids).
  { rewrite <- (take_drop f ids) at 1. f_equal.
    rewrite <- (take_drop (last_ - f) (drop f ids)) at 1. f_equal.
    rewrite drop_drop. f_equal. lia. }
  rewrite Hsplit at 4.
  rewrite app_assoc. rewrite removelast_app by done.
  rewrite <- !app_assoc. apply Permutation_app_head.
  apply Permutation_app_comm.
Qed.

Lemma concat_insert_perm {A B : Type} (g : A -> list B) (l : list A)
    (i : nat) (r r' : A) (extra : list B) :
  l !! i = Some r -> g r' ≡ₚ extra ++ g r ->
  concat (map g (<[i := r']> l)) ≡ₚ extra ++ concat (map g l).
Proof.
  intros Hi Hg. pose proof (lookup_lt_Some _ _ _ Hi) as Hlt.
  rewrite insert_take_drop by done.
  rewrite <- (take_drop_middle l i r Hi) at 3.
  rewrite !map_app, !concat_app. simpl. rewrite Hg.
  rewrite <- app_assoc. apply Permutation_app_swap_app.
Qed.

Lemma concat_insert_perm_less {A B : Type} (g : A -> list B) (l : list A)
    (i : nat) (r r' : A) (gone : list B) :
  l !! i = Some r -> g r' ++ gone ≡ₚ g r ->
  concat (map g (<[i := r']> l)) ++ gone ≡ₚ concat (map g l).
Proof.
  intros Hi Hg. pose proof (lookup_lt_Some _ _ _ Hi) as Hlt.
  rewrite insert_take_drop by done.
  rewrite <- (take_drop_middle l i r Hi) at 3.
  rewrite !map_app, !concat_app. simpl. rewrite <- Hg.
  rewrite <- !app_assoc. apply Permutation_app_head.
  apply Permutation_app_head. apply Permutation_app_comm.
Qed.

Lemma concat_delete_perm {A B : Type} (g : A -> list B) (l : list A)
    (i : nat) (r : A) :
  l !! i = Some r ->
  concat (map g (delete i l)) ++ g r ≡ₚ concat (map g l).
Proof.
  intros Hi. rewrite delete_take_drop.
  rewrite <- (take_drop_middle l i r Hi) at 3.
  rewrite !map_app, !concat_app. simpl.
  rewrite <- !app_assoc. apply Permutation_app_head.
  apply Permutation_app_comm.
Qed.

Lemma add_nodes_customer_ids (pb : Problem) (r : Route) (run : list Node)
    (after : nat) :
  (S after < length (r_nodes r))%nat ->
  customer_ids (add_nodes pb r run after) ≡ₚ map n_id run ++ customer_ids r.
Proof.
  intros Hlen. rewrite !customer_ids_nodes.
  rewrite add_nodes_map by done.
  unfold add_nodes_noupdate. cbn [r_nodes].
  rewrite !map_app, <- firstn_map, <- skipn_map.
  apply ids_insert. by rewrite length_map.
Qed.

Lemma remove_nodes_noupdate_customer_ids (r : Route) (first last_ : nat) :
  (1 <= first <= last_)%nat -> (S last_ < length (r_nodes r))%nat ->
  customer_ids (remove_nodes_noupdate r first last_)
  ++ map n_id (run_of (r_nodes r) first last_)
  ≡ₚ customer_ids r.
Proof.
  intros Hfl Hlen. rewrite !customer_ids_nodes.
  unfold remove_nodes_noupdate, run_of. cbn [r_nodes].
  rewrite !map_app, <- !firstn_map, <- !skipn_map.
  apply ids_remove; [done |]. by rewrite length_map.
Qed.

(** X21: a move neither loses nor duplicates a customer.  In a solution
    whose routes have pairwise different ids, let a move take the nodes at
    the positions [first] to [last] of the route in slot [si], customers
    all of them, and put them behind position [after] of the route in
    another slot [ti], and let it announce a saved truck only when the
    source, whose [len] counts its nodes, keeps no customer.  Then
    [perform_move] returns, the ids of the customers of all routes are
    those of before, each as often as before, the target has gained
    exactly the ids of the moved nodes, the unrouted nodes are untouched,
    and a route handed to [free_route] has no customer. *)
Theorem perform_move_conserves (pb : Problem) (sol : Solution)
    (tl : Tabulist) (m : Move) (first last_ a si ti : nat)
    (source target : Route) :
  solution_wf sol ->
  m_first m = Some first -> m_last m = Some last_ -> m_after m = Some a ->
  m_source m = Some (r_id source) -> m_target m = Some (r_id target) ->
  route_at sol si = Some source -> route_at sol ti = Some target ->
  si <> ti ->
  (1 <= first <= last_)%nat -> (S last_ < length (r_nodes source))%nat ->
  (S a < length (r_nodes target))%nat ->
  r_len source = Z.of_nat (length (r_nodes source)) ->
  (m_delta_trucks m <> 0 ->
   r_len (remove_nodes_noupdate source first last_) = EMPTY) ->
  (tl_active tl = false \/
   Forall (fun n => is_Some (mget (tl_nodes_routes tl) (n_id n)
                                  (r_id source)))
          (run_of (r_nodes source) first last_)) ->
  exists (sol' : Solution) (tl' : Tabulist) (freed : list Route),
    perform_move pb sol tl m
    = Returns sol' (tl', init_move (m_improving m), freed) /\
    routed_ids sol' ≡ₚ routed_ids sol /\
    (exists (ti' : nat) (target' : Route),
       route_at sol' ti' = Some target' /\ r_id target' = r_id target /\
       customer_ids target'
       ≡ₚ map n_id (run_of (r_nodes source) first last_)
          ++ customer_ids target) /\
    s_unrouted sol' = s_unrouted sol /\
    Forall (fun r => customers r = []) freed.
Proof.
  intros Hwf Hfirst Hlast Hafter Hsrc Htgt Hsi Hti Hne Hfl Hlen Ha Hcount
         Hempty Htabu.
  set (run := run_of (r_nodes source) first last_) in *.
  set (s1 := remove_nodes_noupdate source first last_) in *.
  assert (Hrunlen : length run = (S last_ - first)%nat).
  { unfold run. rewrite run_of_length by lia. lia. }
  destruct (perform_move_slots pb sol tl m first last_ a si ti source target
              Hwf Hfirst Hlast Hafter Hsrc Htgt Hsi Hti Hne Hempty)
    as (sol' & tl' & freed & Hperf & Hwf' & Htr' & _ & Hlive & Hun & _ &
        Hfreed).
  { destruct Htabu as [Hoff | Hcells]; [by left | right]. fold run. split.
    - intros E. apply (f_equal length) in E.
      rewrite length_map, Hrunlen in E. simpl in E. lia.
    - by apply (proj2 (List.Forall_map n_id
                         (fun i => is_Some (mget (tl_nodes_routes tl) i
                                                 (r_id source))) run)). }
  fold run in Hlive. fold s1 in Hlive, Hfreed.
  set (target' := add_nodes pb target run a) in *.
  pose proof (add_nodes_customer_ids pb target run a Ha) as Htarget.
  fold target' in Htarget.
  pose proof (remove_nodes_noupdate_customer_ids source first last_ Hfl Hlen)
    as Hsource.
  fold s1 run in Hsource.
  pose proof (live_routes_at sol si source Hwf Hsi) as Hlsi.
  pose proof (live_routes_at sol ti target Hwf Hti) as Hlti.
  assert (Hidt : r_id target' = r_id target).
  { by destruct (add_nodes_frame pb target run a) as (H & _). }
  exists sol', tl', freed. split; [exact Hperf |].
  destruct (Z.eqb_spec (m_delta_trucks m) 0) as [Hdt | Hdt].
  - (* no truck is saved *)
    set (source'' :=
           if negb (m_delta_workers m =? 0)
           then calc_lsts pb _ _ _ else remove_nodes pb source first last_)
      in *.
    assert (Hs'' : customer_ids source'' = customer_ids s1).
    { apply customer_ids_same. unfold source''.
      destruct (negb (m_delta_workers m =? 0)).
      - rewrite calc_lsts_map by done. by rewrite calc_ests_map.
      - by rewrite remove_nodes_map. }
    split; [| split; [| split; [exact Hun | by rewrite Hfreed]]].
    + unfold routed_ids. rewrite Hlive.
      rewrite (concat_insert_perm customer_ids _ ti target target'
                 (map n_id run)); [| | exact Htarget].
      * rewrite Permutation_app_comm.
        apply (concat_insert_perm_less customer_ids _ si source source''
                 (map n_id run) Hlsi).
        by rewrite Hs''.
      * by rewrite list_lookup_insert_ne.
    + exists ti, target'. split; [| by split].
      assert (Hl : live_routes sol' !! ti = Some target').
      { rewrite Hlive. apply list_lookup_insert_eq.
        rewrite length_insert. by apply lookup_lt_Some in Hlti. }
      destruct (live_routes_lookup sol') as [_ Hback].
      { intros j Hj. pose proof Hwf' as (_ & _ & Hall & _).
        destruct (lookup_lt_is_Some_2 (take (Z.to_nat (s_trucks sol'))
                                            (s_routes sol')) j) as [slot Hs].
        { pose proof Hwf' as (_ & Hle & _). rewrite length_take. lia. }
        pose proof (Forall_lookup_1 _ _ _ _ Hall Hs) as [r Hr]. subst slot.
        exists r. by rewrite lookup_take_lt in Hs. }
      unfold route_at. by rewrite (Hback ti target' Hl).
  - (* a truck is saved *)
    specialize (Hempty Hdt).
    assert (Hnone : customers s1 = []).
    { unfold customers, s1, remove_nodes_noupdate. cbn [r_nodes].
      unfold s1, remove_nodes_noupdate in Hempty. cbn [r_len] in Hempty.
      fold run in Hempty. rewrite Hcount, Hrunlen in Hempty.
      unfold EMPTY in Hempty.
      assert (first = 1%nat) as -> by lia.
      assert (Hd : length (drop (S last_) (r_nodes source)) = 1%nat).
      { rewrite length_drop. lia. }
      destruct (r_nodes source) as [| x rest]; [simpl in Hlen; lia |].
      destruct (drop (S last_) (x :: rest)) as [| y [| z more]];
        simpl in Hd; try lia.
      done. }
    assert (Hnone' : customer_ids s1 = []).
    { unfold customer_ids. by rewrite Hnone. }
    rewrite Hnone' in Hsource. simpl in Hsource.
    set (ti' := if decide (ti < si)%nat then ti else (ti - 1)%nat) in *.
    assert (Hdel : delete si (live_routes sol) !! ti' = Some target).
    { pose proof (lookup_lt_Some _ _ _ Hlsi).
      unfold ti'. destruct (decide (ti < si)%nat).
      - by rewrite list_lookup_delete_lt.
      - rewrite list_lookup_delete_ge by lia.
        by replace (S (ti - 1)) with ti by lia. }
    split; [| split; [| split; [exact Hun |]]].
    + unfold routed_ids. rewrite Hlive.
      rewrite (concat_insert_perm customer_ids _ ti' target target'
                 (map n_id run) Hdel Htarget).
      rewrite Permutation_app_comm. rewrite Hsource.
      by apply concat_delete_perm.
    + exists ti', target'. split; [| by split].
      assert (Hl : live_routes sol' !! ti' = Some target').
      { rewrite Hlive. apply list_lookup_insert_eq.
        by apply lookup_lt_Some in Hdel. }
      destruct (live_routes_lookup sol') as [_ Hback].
      { intros j Hj. pose proof Hwf' as (_ & _ & Hall & _).
        destruct (lookup_lt_is_Some_2 (take (Z.to_nat (s_trucks sol'))
                                            (s_routes sol')) j) as [slot Hs].
        { pose proof Hwf' as (_ & Hle & _). rewrite length_take. lia. }
        pose proof (Forall_lookup_1 _ _ _ _ Hall Hs) as [r Hr]. subst slot.
        exists r. by rewrite lookup_take_lt in Hs. }
      unfold route_at. by rewrite (Hback ti' target' Hl).
    + rewrite Hfreed. by repeat constructor.
Qed.

Lemma perform_move_conserves_witness :
  exists (sol' : Solution) (tl' : Tabulist) (freed : list Route),
    perform_move ex_pb ex_sol_scanned (new_tabulist ex_pb) ex_move
    = Returns sol' (tl', init_move (m_improving ex_move), freed) /\
    routed_ids sol' ≡ₚ routed_ids ex_sol_scanned /\
    (exists (ti' : nat) (target' : Route),
       route_at sol' ti' = Some target' /\ r_id target' = r_id ex_route /\
       customer_ids target'
       ≡ₚ map n_id (run_of (r_nodes ex_route_b_scanned) 1 1)
          ++ customer_ids ex_route) /\
    s_unrouted sol' = s_unrouted ex_sol_scanned /\
    Forall (fun r => customers r = []) freed.
Proof.
  apply (perform_move_conserves ex_pb ex_sol_scanned (new_tabulist ex_pb)
           ex_move 1 1 0 1 0 ex_route_b_scanned ex_route).
  - unfold solution_wf. simpl. split; [lia |]. split; [lia |].
    split; [repeat constructor; eauto |]. split; [constructor |].
    apply (bool_decide_unpack _). vm_compute. reflexivity.
  - reflexivity.
  - reflexivity.
  - reflexivity.
  - reflexivity.
  - reflexivity.
  - reflexivity.
  - reflexivity.
  - lia.
  - lia.
  - simpl. lia.
  - simpl. lia.
  - reflexivity.
  - intros _. reflexivity.
  - right. repeat constructor; vm_compute; eauto.
Defined.

(** ** The seed of a route *)

Lemma get_best_seed_loop_spec (c_m : nat -> nat -> Q) (all : list Node)
    (rest : list Node) :
  forall (pos : nat) (max_dist : Q) (best_cand : option nat),
    drop pos all = rest -> (pos <= length all)%nat ->
    match best_cand with
    | None =>
        max_dist = (-1)%Q /\
        Forall (fun n => (c_m 0%nat (n_id n) <= -1)%Q) (take pos all)
    | Some p =>
        exists seed : Node,
          all !! p = Some seed /\ max_dist = c_m 0%nat (n_id seed) /\
          (-1 < max_dist)%Q /\
          Forall (fun n => (c_m 0%nat (n_id n) <= max_dist)%Q)
                 (take pos all) /\
          Forall (fun n => (c_m 0%nat (n_id n) < max_dist)%Q) (take p all)
    end ->
    match get_best_seed_loop c_m pos rest max_dist best_cand with
    | None => Forall (fun n => (c_m 0%nat (n_id n) <= -1)%Q) all
    | Some p =>
        exists seed : Node,
          all !! p = Some seed /\ (-1 < c_m 0%nat (n_id seed))%Q /\
          Forall (fun n => (c_m 0%nat (n_id n) <= c_m 0%nat (n_id seed))%Q)
                 all /\
          Forall (fun n => (c_m 0%nat (n_id n) < c_m 0%nat (n_id seed))%Q)
                 (take p all)
    end.
Proof.
  induction rest as [| n rest IH]; intros pos max_dist best_cand Hdrop Hpos
                                          Hinv.
  - assert (Hall : take pos all = all).
    { apply take_ge. apply (f_equal length) in Hdrop.
      rewrite length_drop in Hdrop. simpl in Hdrop. lia. }
    rewrite Hall in Hinv. simpl.
    destruct best_cand as [p |].
    + destruct Hinv as (seed & H1 & -> & H3 & H4 & H5). by exists seed.
    + by destruct Hinv.
  - assert (Hn : all !! pos = Some n).
    { pose proof (lookup_drop all pos 0) as H. rewrite Hdrop in H.
      simpl in H. by rewrite Nat.add_0_r in H. }
    assert (Hdrop' : drop (S pos) all = rest).
    { replace (S pos) with (pos + 1)%nat by lia.
      by rewrite <- drop_drop, Hdrop. }
    assert (Hpos' : (S pos <= length all)%nat)
      by (apply lookup_lt_Some in Hn; lia).
    assert (Htake : take (S pos) all = take pos all ++ [n])
      by (by apply take_S_r).
    change (get_best_seed_loop c_m pos (n :: rest) max_dist best_cand)
      with (if Qltb max_dist (c_m 0%nat (n_id n)) then
              get_best_seed_loop c_m (S pos) rest (c_m 0%nat (n_id n))
                (Some pos)
            else get_best_seed_loop c_m (S pos) rest max_dist best_cand).
    destruct (Qltb max_dist (c_m 0%nat (n_id n))) eqn:Hlt.
    + apply Qltb_lt in Hlt.
      apply IH; [done | done |].
      exists n. split; [done |]. split; [done |].
      assert (Hprev : Forall (fun n0 => (c_m 0%nat (n_id n0)
                                         < c_m 0%nat (n_id n))%Q)
                             (take pos all) /\ (-1 <= max_dist)%Q).
      { destruct best_cand as [p |].
        - destruct Hinv as (seed & H1 & H2 & H3 & H4 & H5).
          split; [| lra].
          eapply Forall_impl; [exact H4 |]. intros x Hx. simpl in Hx. lra.
        - destruct Hinv as [-> H4]. split; [| lra].
          eapply Forall_impl; [exact H4 |]. intros x Hx. simpl in Hx. lra. }
      destruct Hprev as [Hprev Hlow].
      split; [lra |]. split; [| done].
      rewrite Htake. apply Forall_app. split.
      * eapply Forall_impl; [exact Hprev |]. intros x Hx. simpl in Hx. lra.
      * repeat constructor. lra.
    + assert (Hge : (c_m 0%nat (n_id n) <= max_dist)%Q)
        by (by apply Qltb_ge).
      apply IH; [done | done |].
      destruct best_cand as [p |].
      * destruct Hinv as (seed & H1 & H2 & H3 & H4 & H5).
        exists seed. split; [done |]. split; [done |]. split; [done |].
        split; [| done].
        rewrite Htake. apply Forall_app. split; [done |].
        by repeat constructor.
      * destruct Hinv as [-> H4]. split; [done |].
        rewrite Htake. apply Forall_app. split; [done |].
        by repeat constructor.
Qed.

(** X22: [get_best_seed] returns the first of the unrouted nodes farthest
    from the depot.  It returns NULL when no unrouted node is farther than
    -1 from the depot, as on an empty chain; otherwise the node it returns
    is in the chain and farther than -1, no node of the chain is farther
    from the depot, and every node before it is nearer. *)
Theorem get_best_seed_farthest (unrouted : list Node)
    (c_m : nat -> nat -> Q) :
  match get_best_seed unrouted c_m with
  | None => Forall (fun n => (c_m 0%nat (n_id n) <= -1)%Q) unrouted
  | Some p =>
      exists seed : Node,
        unrouted !! p = Some seed /\ (-1 < c_m 0%nat (n_id seed))%Q /\
        Forall (fun n => (c_m 0%nat (n_id n) <= c_m 0%nat (n_id seed))%Q)
               unrouted /\
        Forall (fun n => (c_m 0%nat (n_id n) < c_m 0%nat (n_id seed))%Q)
               (take p unrouted)
  end.
Proof.
  unfold get_best_seed.
  apply (get_best_seed_loop_spec c_m unrouted unrouted 0 (-1) None);
    [done | lia |].
  split; [done |]. rewrite take_0. constructor.
Qed.

(** ** The scan of the unrouted nodes *)

Lemma calc_best_insertion_cases (pb : Problem) (route : Route) (node : Node)
    (ins : Insertion_buf) :
  calc_best_insertion pb route node ins = (false, ins) \/
  exists (ins' : Insertion_buf) (p : nat) (after next : Node) (cost : Q),
    calc_best_insertion pb route node ins = (true, ins') /\
    b_target ins' = Some (r_id route) /\ b_after ins' = Some p /\
    b_cost ins' = Fin cost /\
    r_nodes route !! p = Some after /\ r_nodes route !! S p = Some next /\
    insertion_test pb route node after next = true.
Proof.
  unfold calc_best_insertion, insertion_test.
  destruct (exceeds_capacity pb route node) eqn:Hcap; [by left |].
  destruct (calc_best_insertion_loop_spec pb route node (r_nodes route) 0 0
              false ins eq_refl ltac:(done)) as (Hc & _ & _).
  cbv zeta in Hc.
  destruct Hc as [Hc | (p & after & next & H1 & _ & H3 & H4 & H5 & H6 & _ &
                        H8 & H9 & _)]; [by left |].
  right.
  destruct (calc_best_insertion_loop pb route node 0 (r_nodes route) 0 false
              ins) as [updated ins'].
  simpl in *. subst updated.
  exists ins', p, after, next, (insertion_cost pb route node after next).
  split; [done |]. split; [done |]. split; [done |]. split; [done |].
  split; [done |]. split; [done |]. by rewrite H5.
Qed.

Lemma solve_solomon_scan_spec (pb : Problem) (route : Route)
    (all : list Node) (rest : list Node) :
  forall (pos : nat) (ins : Insertion_buf) (ins_node : option nat),
    drop pos all = rest ->
    b_cost ins = PosInf \/ found_insertion pb route all ins ins_node ->
    let res := solve_solomon_scan pb route pos rest ins ins_node in
    b_cost res.1 = PosInf \/ found_insertion pb route all res.1 res.2.
Proof.
  induction rest as [| n rest IH]; intros pos ins ins_node Hdrop Hinv res.
  - exact Hinv.
  - assert (Hn : all !! pos = Some n).
    { pose proof (lookup_drop all pos 0) as H. rewrite Hdrop in H.
      simpl in H. by rewrite Nat.add_0_r in H. }
    assert (Hdrop' : drop (S pos) all = rest).
    { replace (S pos) with (pos + 1)%nat by lia.
      by rewrite <- drop_drop, Hdrop. }
    unfold res.
    change (solve_solomon_scan pb route pos (n :: rest) ins ins_node)
      with (let (updated, ins') := calc_best_insertion pb route n ins in
            solve_solomon_scan pb route (S pos) rest ins'
              (if updated then Some pos else ins_node)).
    destruct (calc_best_insertion_cases pb route n ins)
      as [-> | (ins' & p & after & next & cost & -> & H1 & H2 & H3 & H4 &
                H5 & H6)].
    + by apply IH.
    + apply IH; [done |]. right.
      by exists pos, p, n, after, next, cost.
Qed.

(** ** A new route *)

Lemma take_S_insert {A : Type} (l : list A) :
  forall (i : nat) (x : A),
    (i < length l)%nat -> take (S i) (<[i := x]> l) = take i l ++ [x].
Proof.
  induction l as [| y l IH]; intros i x Hi; [simpl in Hi; lia |].
  destruct i as [| i]; [done |].
  cbn [length] in Hi.
  change (y :: take (S i) (<[i := x]> l) = y :: (take i l ++ [x])).
  f_equal. apply IH. lia.
Qed.

Lemma omap_elem_slot {A B : Type} (f : A -> B) (l : list (option A)) (y : B) :
  y ∈ omap (fmap f) l -> exists j x, l !! j = Some (Some x) /\ f x = y.
Proof.
  intros Hy. apply list_elem_of_omap in Hy as (slot & Hslot & Hf).
  destruct slot as [x |]; [| done]. simpl in Hf.
  apply list_elem_of_lookup in Hslot as [j Hj].
  exists j, x. split; [done | congruence].
Qed.

(** ** The construction *)

Lemma new_route_slots (pb : Problem) (depot : Node) (sol : Solution)
    (seed : Node) (workers : Z) :
  solution_wf sol -> ids_are_slots sol ->
  (Z.to_nat (s_trucks sol) < length (s_routes sol))%nat ->
  let n := Z.to_nat (s_trucks sol) in
  exists (sol' : Solution) (r : Route),
    new_route pb depot sol seed workers = Some (sol', n) /\
    solution_wf sol' /\ ids_are_slots sol' /\
    s_trucks sol' = s_trucks sol + 1 /\
    s_routes sol' = <[n := Some r]> (s_routes sol) /\
    route_at sol' n = Some r /\
    (forall j, j <> n -> route_at sol' j = route_at sol j) /\
    r_workers r = workers /\
    customer_ids r = [n_id seed] /\
    live_routes sol' = live_routes sol ++ [r] /\
    s_unrouted sol' = s_unrouted sol /\
    s_num_unrouted sol' = s_num_unrouted sol.
Proof.
  intros Hwf Hids Hroom n.
  pose proof Hwf as (H0 & Hlen & Hlive & Hnull & Hnd). fold n in Hlen, Hlive,
    Hnull, Hnd, Hroom.
  set (r0 := {| r_id := n;
                r_depot_id := Z.to_nat (pb_num_nodes pb + s_trucks sol);
                r_nodes := [cloned_node depot; seed; cloned_node depot];
                r_len := ONE_CUSTOMER; r_load := n_demand seed;
                r_workers := workers |}).
  set (r1 := calc_ests pb r0 0 workers).
  set (r2 := calc_lsts pb r1 (length (r_nodes r1) - 1) workers).
  destruct (calc_ests_frame pb r0 0 workers) as (Hid1 & _ & _ & Hl1 & Hw1).
  fold r1 in Hid1, Hl1, Hw1.
  destruct (calc_lsts_frame pb r1 (length (r_nodes r1) - 1) workers)
    as (Hid2 & _ & _ & Hl2 & Hw2).
  fold r2 in Hid2, Hl2, Hw2.
  assert (Hmap : forall {A : Type} (f : Node -> A),
             (forall n v, f (set_aest n v) = f n) ->
             (forall n v, f (set_aest_cache n v) = f n) ->
             (forall n v, f (set_alst n v) = f n) ->
             map f (r_nodes r2) = map f (r_nodes r0)).
  { intros A f F1 F2 F3. unfold r2. rewrite calc_lsts_map by done.
    unfold r1. by rewrite calc_ests_map. }
  set (sol' := with_routes sol (<[n := Some r2]> (s_routes sol))
                 (s_trucks sol + 1)).
  assert (Hn' : Z.to_nat (s_trucks sol + 1) = S n) by (unfold n; lia).
  assert (Htake : take (S n) (<[n := Some r2]> (s_routes sol))
                  = take n (s_routes sol) ++ [Some r2])
    by (by apply take_S_insert).
  assert (Hat : forall j, j <> n -> route_at sol' j = route_at sol j).
  { intros j Hj. unfold route_at, sol'. simpl.
    by rewrite list_lookup_insert_ne. }
  assert (Hatn : route_at sol' n = Some r2).
  { unfold route_at, sol'. simpl. by rewrite list_lookup_insert_eq. }
  exists sol', r2.
  split; [| split; [| split; [| split; [done |]; split; [done |];
            split; [done |]; split; [done |]; split;
            [by rewrite Hw2, Hw1 |]; split; [| split; [| done]]]]].
  - unfold new_route. destruct (Z.ltb_spec (s_trucks sol) 0); [lia |].
    fold n r0 r1 r2. unfold set_slot.
    destruct (lookup_lt_is_Some_2 (s_routes sol) n Hroom) as [slot ->].
    done.
  - unfold solution_wf, sol'. simpl. rewrite Hn', Htake.
    split; [lia |]. split; [rewrite length_insert; lia |].
    split; [apply Forall_app; split; [done | by repeat constructor; eauto] |].
    split.
    + rewrite drop_insert_lt by lia.
      replace (S n) with (n + 1)%nat by lia. rewrite <- drop_drop.
      by apply Forall_drop.
    + rewrite omap_app. simpl. apply NoDup_app. split; [done |].
      split; [| apply NoDup_singleton].
      intros y Hy Hy'. apply list_elem_of_singleton in Hy'. subst y.
      apply omap_elem_slot in Hy as (j & x & Hj & Hx).
      pose proof (lookup_lt_Some _ _ _ Hj) as Hlt.
      rewrite length_take in Hlt.
      rewrite lookup_take_lt in Hj by lia.
      assert (Hr : route_at sol j = Some x) by (unfold route_at; by rewrite Hj).
      pose proof (Hids j x Hr). rewrite Hid2, Hid1 in Hx. simpl in Hx. lia.
  - intros j r Hr. destruct (decide (j = n)) as [-> | Hj].
    + rewrite Hatn in Hr. injection Hr as <-. by rewrite Hid2, Hid1.
    + rewrite Hat in Hr by done. by apply Hids.
  - rewrite customer_ids_nodes.
    by rewrite (Hmap _ n_id ltac:(done) ltac:(done) ltac:(done)).
  - unfold live_routes, sol'. simpl. rewrite Hn', Htake.
    by rewrite omap_app.
Qed.

Lemma solve_solomon_insert_conserves (pb : Problem) (sol : Solution)
    (slot pos p : nat) (route : Route) (node next : Node) :
  building pb sol ->
  route_at sol slot = Some route ->
  s_unrouted sol !! pos = Some node ->
  r_nodes route !! S p = Some next ->
  let route' := add_nodes pb route [node] p in
  let sol' := store_route (remove_unrouted sol pos) slot route' in
  lookup_route (remove_unrouted sol pos) (r_id route) = Some (slot, route) /\
  building pb sol' /\
  routed_ids sol' ++ map n_id (s_unrouted sol')
  ≡ₚ routed_ids sol ++ map n_id (s_unrouted sol) /\
  s_trucks sol' = s_trucks sol /\
  length (s_routes sol') = length (s_routes sol) /\
  (forall j, j <> slot -> route_at sol' j = route_at sol j) /\
  route_at sol' slot = Some route' /\
  r_workers route' = r_workers route /\
  length (customer_ids route') = S (length (customer_ids route)) /\
  S (length (s_unrouted sol')) = length (s_unrouted sol).
Proof.
  intros (Hwf & Hids & Hseed & Hroom & Hnum) Hroute Hnode Hnext route' sol'.
  subst sol'. set (sol1 := remove_unrouted sol pos).
  set (sol' := store_route sol1 slot route').
  assert (Hwf1 : solution_wf sol1) by exact Hwf.
  assert (Hroute1 : route_at sol1 slot = Some route) by exact Hroute.
  destruct (add_nodes_frame pb route [node] p) as (Hid' & _ & _ & _ & Hw').
  fold route' in Hid', Hw'. simpl in Hid', Hw'.
  destruct (store_route_wf sol1 slot route route' Hwf1 Hroute1 Hid')
    as (Hwf' & Htr' & Hat' & Hother').
  fold sol' in Hwf', Htr', Hat', Hother'.
  assert (Hlen : (S p < length (r_nodes route))%nat)
    by (by apply lookup_lt_Some in Hnext).
  pose proof (add_nodes_customer_ids pb route [node] p Hlen) as Hcust.
  fold route' in Hcust.
  assert (Hdel : S (length (delete pos (s_unrouted sol)))
                 = length (s_unrouted sol)).
  { rewrite length_delete by (by eexists).
    apply lookup_lt_Some in Hnode. lia. }
  split; [by apply lookup_route_wf |].
  split; [| split; [| split; [done |]; split;
                      [unfold sol', store_route; simpl;
                       by rewrite length_insert |];
                      split; [done |]; split; [done |]; split; [done |];
                      split; [| done]]].
  - split; [done |]. split; [| split; [| split]].
    + intros j r Hr. destruct (decide (j = slot)) as [-> | Hj].
      * rewrite Hat' in Hr. injection Hr as <-. rewrite Hid'.
        by apply Hids.
      * rewrite Hother' in Hr by done. by apply Hids.
    + by apply Forall_delete.
    + change (Z.to_nat (s_trucks sol)
              + length (delete pos (s_unrouted sol))
              <= length (<[slot := Some route']> (s_routes sol)))%nat.
      rewrite length_insert. lia.
    + change (s_num_unrouted sol - 1
              = Z.of_nat (length (delete pos (s_unrouted sol)))).
      lia.
  - change (s_unrouted sol') with (delete pos (s_unrouted sol)).
    unfold routed_ids, sol'.
    rewrite (live_routes_store sol1 slot route route' Hwf1 Hroute1).
    change (live_routes sol1) with (live_routes sol).
    rewrite (concat_insert_perm customer_ids _ slot route route'
               (map n_id [node]) (live_routes_at sol slot route Hwf Hroute)
               Hcust).
    rewrite (delete_Permutation (s_unrouted sol) pos node Hnode) at 2.
    simpl. rewrite <- Permutation_middle. done.
  - apply Permutation_length in Hcust. by rewrite Hcust.
Qed.

Lemma solve_solomon_fill_conserves (pb : Problem) (slot : nat) :
  forall (fuel : nat) (sol : Solution) (ins : Insertion_buf)
         (ins_node : option nat) (route : Route),
    building pb sol ->
    route_at sol slot = Some route ->
    (length (s_unrouted sol) < fuel)%nat ->
    exists (sol' : Solution) (ins' : Insertion_buf) (node' : option nat)
           (route' : Route),
      solve_solomon_fill fuel pb sol slot ins ins_node
      = Some (sol', ins', node') /\
      building pb sol' /\
      routed_ids sol' ++ map n_id (s_unrouted sol')
      ≡ₚ routed_ids sol ++ map n_id (s_unrouted sol) /\
      s_trucks sol' = s_trucks sol /\
      length (s_routes sol') = length (s_routes sol) /\
      (forall j, j <> slot -> route_at sol' j = route_at sol j) /\
      route_at sol' slot = Some route' /\
      r_workers route' = r_workers route /\
      (length (customer_ids route) <= length (customer_ids route'))%nat /\
      (length (s_unrouted sol') <= length (s_unrouted sol))%nat.
Proof.
  induction fuel as [| fuel IH]; intros sol ins ins_node route Hc Hroute
                                        Hfuel; [lia |].
  assert (Hstay : forall ins' node',
             exists (sol' : Solution) (ins'' : Insertion_buf)
                    (node'' : option nat) (route' : Route),
               Some (sol, ins', node') = Some (sol', ins'', node'') /\
               building pb sol' /\
               routed_ids sol' ++ map n_id (s_unrouted sol')
               ≡ₚ routed_ids sol ++ map n_id (s_unrouted sol) /\
               s_trucks sol' = s_trucks sol /\
               length (s_routes sol') = length (s_routes sol) /\
               (forall j, j <> slot -> route_at sol' j = route_at sol j) /\
               route_at sol' slot = Some route' /\
               r_workers route' = r_workers route /\
               (length (customer_ids route)
                <= length (customer_ids route'))%nat /\
               (length (s_unrouted sol') <= length (s_unrouted sol))%nat).
  { intros ins' node'. exists sol, ins', node', route.
    repeat (split; [done |]). lia. }
  change (solve_solomon_fill (S fuel) pb sol slot ins ins_node)
    with (match s_unrouted sol with
          | [] => Some (sol, ins, ins_node)
          | _ :: _ =>
              route ← route_at sol slot;
              let (ins1, node1) :=
                solve_solomon_scan pb route 0 (s_unrouted sol)
                  (with_cost ins PosInf) ins_node in
              if isinf (b_cost ins1) then Some (sol, ins1, node1)
              else
                pos ← node1;
                node ← s_unrouted sol !! pos;
                target_id ← b_target ins1;
                after ← b_after ins1;
                let sol1 := remove_unrouted sol pos in
                found ← lookup_route sol1 target_id;
                solve_solomon_fill fuel pb
                  (store_route sol1 found.1
                     (add_nodes pb found.2 [node] after))
                  slot ins1 node1
          end).
  destruct (s_unrouted sol) as [| u0 urest] eqn:Hun; [apply Hstay |].
  rewrite Hroute. cbn [mbind option_bind].
  pose proof (solve_solomon_scan_spec pb route (s_unrouted sol)
                (s_unrouted sol) 0 (with_cost ins PosInf) ins_node eq_refl
                ltac:(by left)) as Hscan.
  cbv zeta in Hscan. rewrite Hun in Hscan.
  destruct (solve_solomon_scan pb route 0 (u0 :: urest)
              (with_cost ins PosInf) ins_node) as [ins1 node1].
  cbn [fst snd] in Hscan.
  destruct Hscan as [Hinf | (pos & p & node & after & next & cost & -> &
                             Hnode & Htgt & Haft & Hcost & Hafter & Hnext &
                             Htest)].
  { rewrite Hinf. apply Hstay. }
  rewrite Hcost. cbn [isinf mbind option_bind].
  rewrite Hnode. cbn [mbind option_bind].
  rewrite Htgt, Haft. cbn [mbind option_bind].
  rewrite <- Hun in Hnode.
  destruct (solve_solomon_insert_conserves pb sol slot pos p route node next
              Hc Hroute Hnode Hnext)
    as (Hlook & Hc2 & Hperm2 & Htr2 & Hlen2 & Hother2 & Hat2 & Hw2 & Hcust2 &
        Hun2).
  rewrite Hlook. cbn [mbind option_bind fst snd].
  set (sol2 := store_route (remove_unrouted sol pos) slot
                 (add_nodes pb route [node] p)) in *.
  destruct (IH sol2 ins1 (Some pos) (add_nodes pb route [node] p) Hc2 Hat2)
    as (sol' & ins' & node' & route' & Hrun & Hc' & Hperm' & Htr' & Hlen' &
        Hother' & Hat' & Hw' & Hcust' & Hun').
  { rewrite <- Hun in Hfuel. lia. }
  exists sol', ins', node', route'.
  split; [exact Hrun |]. split; [done |].
  split; [by rewrite Hperm', Hperm2, Hun |].
  split; [lia |]. split; [lia |].
  split; [intros j Hj; by rewrite Hother', Hother2 |].
  split; [done |]. split; [by rewrite Hw', Hw2 |].
  split; [lia |]. rewrite <- Hun. lia.
Qed.

Lemma get_best_seed_found (pb : Problem) (unrouted : list Node) :
  unrouted <> [] ->
  Forall (fun n : Node => (0 <= pb_c_m pb 0 0%nat (n_id n))%Q) unrouted ->
  exists (p : nat) (seed : Node),
    get_best_seed unrouted (pb_c_m pb 0) = Some p /\
    unrouted !! p = Some seed.
Proof.
  intros Hne Hseed.
  pose proof (get_best_seed_loop_spec (pb_c_m pb 0) unrouted unrouted 0
                (-1) None eq_refl ltac:(lia)) as H.
  fold (get_best_seed unrouted (pb_c_m pb 0)) in H.
  destruct (get_best_seed unrouted (pb_c_m pb 0)) as [p |].
  - destruct H as (seed & Hp & _).
    + split; [done |]. rewrite take_0. constructor.
    + by exists p, seed.
  - exfalso. destruct unrouted as [| n rest]; [done |].
    assert (Hfar : Forall (fun n => (pb_c_m pb 0 0%nat (n_id n) <= -1)%Q)
                          (n :: rest)).
    { apply H. split; [done |]. rewrite take_0. constructor. }
    apply Forall_cons in Hfar as [Hfar _].
    apply Forall_cons in Hseed as [Hnear _]. lra.
Qed.

Lemma solve_solomon_loop_conserves (pb : Problem) (depot : Node)
    (workers fleetsize : Z) :
  forall (fuel : nat) (sol : Solution) (ins : Insertion_buf)
         (ins_node : option nat),
    building pb sol ->
    (length (s_unrouted sol) < fuel)%nat ->
    exists (ret : Z) (sol' : Solution),
      solve_solomon_loop fuel pb depot sol workers fleetsize ins ins_node
      = Some (ret, sol') /\
      building pb sol' /\
      routed_ids sol' ++ map n_id (s_unrouted sol')
      ≡ₚ routed_ids sol ++ map n_id (s_unrouted sol) /\
      ret = Z.of_nat (length (s_unrouted sol')) /\
      (s_unrouted sol' <> [] -> s_trucks sol' = fleetsize) /\
      (forall j, (j < Z.to_nat (s_trucks sol))%nat ->
                 route_at sol' j = route_at sol j) /\
      (forall j r, (Z.to_nat (s_trucks sol) <= j)%nat ->
                   route_at sol' j = Some r ->
                   r_workers r = workers /\ customers r <> []).
Proof.
  induction fuel as [| fuel IH]; intros sol ins ins_node Hc Hfuel; [lia |].
  pose proof Hc as (Hwf & Hids & Hseed & Hroom & Hnum).
  assert (H0 : 0 <= s_trucks sol) by (by destruct Hwf).
  assert (Hnew : forall j r,
             (Z.to_nat (s_trucks sol) <= j)%nat ->
             route_at sol j = Some r ->
             r_workers r = workers /\ customers r <> []).
  { intros j r Hj Hr.
    destruct (solution_wf_route_at sol j r Hwf Hr) as [Hlt _]. lia. }
  change (solve_solomon_loop (S fuel) pb depot sol workers fleetsize ins
            ins_node)
    with (match s_unrouted sol with
          | [] => Some (0, sol)
          | _ :: _ =>
              if s_trucks sol =? fleetsize then
                Some (s_num_unrouted sol, sol)
              else
                seed_pos ← get_best_seed (s_unrouted sol) (pb_c_m pb 0);
                seed ← s_unrouted sol !! seed_pos;
                made ← new_route pb depot (remove_unrouted sol seed_pos)
                         seed workers;
                filled ← solve_solomon_fill fuel pb made.1 made.2 ins
                           ins_node;
                solve_solomon_loop fuel pb depot filled.1.1 workers
                  fleetsize filled.1.2 filled.2
          end).
  destruct (s_unrouted sol) as [| u0 urest] eqn:Hun.
  { exists 0, sol. rewrite Hun. by repeat (split; [done |]). }
  destruct (Z.eqb_spec (s_trucks sol) fleetsize) as [Hfleet | Hfleet].
  { exists (s_num_unrouted sol), sol. rewrite Hun.
    split; [done |]. split; [by rewrite <- Hun in Hseed, Hroom, Hnum |].
    split; [done |]. split; [by rewrite Hnum |]. by repeat (split; [done |]). }
  rewrite <- Hun in *.
  destruct (get_best_seed_found pb (s_unrouted sol))
    as (sp & seed & Hsp & Hseedat); [by rewrite Hun | done |].
  rewrite Hsp. cbn [mbind option_bind]. rewrite Hseedat.
  cbn [mbind option_bind].
  set (sol0 := remove_unrouted sol sp).
  pose proof (lookup_lt_Some _ _ _ Hseedat) as Hsplt.
  assert (Hdel : S (length (delete sp (s_unrouted sol)))
                 = length (s_unrouted sol)).
  { rewrite length_delete by (by eexists). lia. }
  destruct (new_route_slots pb depot sol0 seed workers Hwf Hids
              ltac:(change (s_trucks sol0) with (s_trucks sol);
                    change (s_routes sol0) with (s_routes sol); lia))
    as (sol2 & r & Hmake & Hwf2 & Hids2 & Htr2 & Hroutes2 & Hat2 & Hother2 &
        Hw2 & Hcust2 & Hlive2 & Hun2 & Hnum2).
  change (s_trucks sol0) with (s_trucks sol) in *.
  change (s_routes sol0) with (s_routes sol) in *.
  change (s_unrouted sol0) with (delete sp (s_unrouted sol)) in *.
  change (s_num_unrouted sol0) with (s_num_unrouted sol - 1) in *.
  change (live_routes sol0) with (live_routes sol) in *.
  set (n := Z.to_nat (s_trucks sol)) in *.
  rewrite Hmake. cbn [mbind option_bind fst snd].
  assert (Hc2 : building pb sol2).
  { split; [done |]. split; [done |]. split; [| split].
    - rewrite Hun2. by apply Forall_delete.
    - rewrite Hun2, Hroutes2, length_insert, Htr2. lia.
    - rewrite Hun2, Hnum2. lia. }
  destruct (solve_solomon_fill_conserves pb n fuel sol2 ins ins_node r Hc2
              Hat2)
    as (sol3 & ins3 & node3 & r3 & Hfill & Hc3 & Hperm3 & Htr3 & Hlen3 &
        Hother3 & Hat3 & Hw3 & Hcust3 & Hun3).
  { rewrite Hun2. lia. }
  rewrite Hfill. cbn [mbind option_bind fst snd].
  destruct (IH sol3 ins3 node3 Hc3)
    as (ret & sol' & Hrun & Hc' & Hperm' & Hret & Hfleet' & Hold' & Hnew').
  { rewrite Hun2 in Hun3. lia. }
  exists ret, sol'. split; [exact Hrun |]. split; [done |].
  split; [| split; [done |]; split; [done |]; split].
  - rewrite Hperm', Hperm3. unfold routed_ids. rewrite Hlive2, Hun2.
    rewrite map_app, concat_app. simpl. rewrite Hcust2.
    rewrite (delete_Permutation (s_unrouted sol) sp seed Hseedat) at 2.
    simpl. rewrite <- app_assoc. simpl. rewrite <- Permutation_middle. done.
  - intros j Hj. rewrite Hold' by lia.
    rewrite Hother3 by lia. rewrite Hother2 by lia. done.
  - intros j r' Hj Hr'. destruct (decide (j = n)) as [-> | Hjn].
    + rewrite Hold' in Hr' by lia. rewrite Hat3 in Hr'.
      injection Hr' as <-. split; [by rewrite Hw3 |].
      intros E. rewrite Hcust2 in Hcust3. unfold customer_ids in Hcust3.
      rewrite E in Hcust3. simpl in Hcust3. lia.
    + apply (Hnew' j r'); [lia | done].
Qed.

(** X23: the deterministic construction puts every customer where it
    belongs.  Start [solve_solomon] on a solution whose routes have their
    slots as ids, whose unrouted nodes are at a distance of at least 0
    from the depot, whose array has a slot for each of them and whose
    [num_unrouted] counts them.  Then it returns, with fuel beyond the
    number of unrouted nodes; the solution is again of that kind; the ids
    of the customers of the routes and of the unrouted nodes together are
    those of before, each as often; the value returned is the number of
    nodes left unrouted, and nodes are left only when the fleet size is
    reached; the routes that were there are untouched and every new route
    has the workers asked for and at least one customer. *)
Theorem solve_solomon_conserves (pb : Problem) (depot : Node)
    (sol : Solution) (workers fleetsize : Z) (fuel : nat) :
  building pb sol ->
  (length (s_unrouted sol) < fuel)%nat ->
  exists (ret : Z) (sol' : Solution),
    solve_solomon fuel pb depot sol workers fleetsize = Some (ret, sol') /\
    building pb sol' /\
    routed_ids sol' ++ map n_id (s_unrouted sol')
    ≡ₚ routed_ids sol ++ map n_id (s_unrouted sol) /\
    ret = Z.of_nat (length (s_unrouted sol')) /\
    (s_unrouted sol' <> [] -> s_trucks sol' = fleetsize) /\
    (forall j, (j < Z.to_nat (s_trucks sol))%nat ->
               route_at sol' j = route_at sol j) /\
    (forall j r, (Z.to_nat (s_trucks sol) <= j)%nat ->
                 route_at sol' j = Some r ->
                 r_workers r = workers /\ customers r <> []).
Proof.
  intros Hc Hfuel. unfold solve_solomon.
  by apply solve_solomon_loop_conserves.
Qed.

Lemma solve_solomon_conserves_witness :
  exists (ret : Z) (sol' : Solution),
    solve_solomon 3 ex_pb ex_depot
      (ex_solution [None; None] 0 [ex_node1; ex_node2]) 1 5
    = Some (ret, sol') /\
    building ex_pb sol' /\
    routed_ids sol' ++ map n_id (s_unrouted sol')
    ≡ₚ routed_ids (ex_solution [None; None] 0 [ex_node1; ex_node2])
       ++ map n_id [ex_node1; ex_node2] /\
    ret = Z.of_nat (length (s_unrouted sol')) /\
    (s_unrouted sol' <> [] -> s_trucks sol' = 5) /\
    (forall j, (j < 0)%nat ->
               route_at sol' j
               = route_at (ex_solution [None; None] 0 [ex_node1; ex_node2])
                   j) /\
    (forall j r, (0 <= j)%nat -> route_at sol' j = Some r ->
                 r_workers r = 1 /\ customers r <> []).
Proof.
  apply (solve_solomon_conserves ex_pb ex_depot
           (ex_solution [None; None] 0 [ex_node1; ex_node2]) 1 5 3).
  - split; [| split; [| split; [| split]]].
    + unfold solution_wf. simpl. split; [lia |]. split; [lia |].
      split; [constructor |]. split; [by repeat constructor |].
      constructor.
    + intros j r Hr. by destruct j as [| [| j]].
    + repeat constructor; vm_compute; discriminate.
    + simpl. lia.
    + reflexivity.
  - simpl. lia.
Defined.

(** ** Emptying a route *)

Lemma empty_route_scan_spec (pb : Problem) (sol : Solution)
    (route_idx : nat) (n : Node) :
  solution_wf sol ->
  forall (js : list nat) (ins : Insertion_buf),
    Forall (fun j => (j < Z.to_nat (s_trucks sol))%nat) js ->
    b_cost ins = PosInf \/ found_target pb sol route_idx n ins ->
    exists ins' : Insertion_buf,
      empty_route_scan pb sol route_idx n js ins = Some ins' /\
      (b_cost ins' = PosInf \/ found_target pb sol route_idx n ins').
Proof.
  intros Hwf. induction js as [| j js IH]; intros ins Hjs Hinv.
  - by exists ins.
  - apply Forall_cons in Hjs as [Hj Hjs].
    change (empty_route_scan pb sol route_idx n (j :: js) ins)
      with (if Nat.eqb j route_idx then
              empty_route_scan pb sol route_idx n js ins
            else
              route ← route_at sol j;
              empty_route_scan pb sol route_idx n js
                (calc_best_insertion pb route n ins).2).
    destruct (Nat.eqb_spec j route_idx) as [-> | Hne]; [by apply IH |].
    destruct (proj1 (solution_wf_slots sol Hwf) j Hj) as [route Hslot].
    assert (Hroute : route_at sol j = Some route)
      by (unfold route_at; by rewrite Hslot).
    rewrite Hroute. cbn [mbind option_bind].
    apply IH; [done |].
    destruct (calc_best_insertion_cases pb route n ins)
      as [-> | (ins' & p & after & next & cost & -> & H1 & H2 & H3 & H4 &
                H5 & H6)]; [done |].
    right. by exists j, p, route, after, next, cost.
Qed.

Lemma two_nodes_no_customer (r : Route) :
  length (r_nodes r) = 2%nat -> customers r = [].
Proof.
  unfold customers. intros H.
  by destruct (r_nodes r) as [| a [| b [| c l]]].
Qed.

Lemma remove_one_counted (pb : Problem) (r : Route) (pos : nat) :
  len_counts r -> (1 <= pos)%nat -> (S pos < length (r_nodes r))%nat ->
  len_counts (remove_nodes pb r pos pos) /\
  S (length (r_nodes (remove_nodes pb r pos pos))) = length (r_nodes r) /\
  r_id (remove_nodes pb r pos pos) = r_id r.
Proof.
  intros (_ & Hlen) H1 H3.
  set (r' := remove_nodes pb r pos pos).
  destruct (remove_nodes_frame pb r pos pos) as (Hid' & _ & Hl' & _ & Hw').
  fold r' in Hid', Hl', Hw'. simpl in Hid', Hl', Hw'.
  assert (Hcount : S (length (r_nodes r')) = length (r_nodes r)).
  { rewrite <- (length_map n_id (r_nodes r')).
    unfold r'. rewrite remove_nodes_map by done.
    unfold remove_nodes_noupdate. cbn [r_nodes].
    rewrite length_map, length_app, length_take, length_drop. lia. }
  assert (Hl1 : r_len r' = r_len r - 1).
  { rewrite Hl'. rewrite run_of_length by lia.
    replace (S pos - pos)%nat with 1%nat by lia. lia. }
  split; [split; lia | done].
Qed.

Lemma empty_route_loop_conserves (pb : Problem) (route_idx : nat) :
  forall (fuel : nat) (sol : Solution) (source : Route),
    solution_wf sol ->
    route_at sol route_idx = Some source ->
    len_counts source ->
    (3 <= length (r_nodes source) <= fuel + 2)%nat ->
    exists (ret : Z) (sol' : Solution) (source' : Route),
      empty_route_loop fuel pb sol route_idx = Some (ret, sol') /\
      solution_wf sol' /\ s_trucks sol' = s_trucks sol /\
      routed_ids sol' ≡ₚ routed_ids sol /\
      s_unrouted sol' = s_unrouted sol /\
      route_at sol' route_idx = Some source' /\
      len_counts source' /\
      (ret = 1 /\ customers source' = [] \/
       ret = 0 /\ customers source' <> []).
Proof.
  induction fuel as [| fuel IH]; intros sol source Hwf Hsrc Hemp Hlen;
    [lia |].
  change (empty_route_loop (S fuel) pb sol route_idx)
    with (source ← route_at sol route_idx;
          match r_nodes source with
          | _ :: n :: _ :: _ =>
              ins ← empty_route_scan pb sol route_idx n
                      (seq 0 (Z.to_nat (s_trucks sol)))
                      {| b_target := None; b_node := Some n;
                         b_after := None; b_cost := PosInf;
                         b_attractiveness := Fin 0 |};
              if isinf (b_cost ins) then Some (0, sol)
              else
                let sol1 :=
                  store_route sol route_idx (remove_nodes pb source 1 1) in
                target_id ← b_target ins;
                after ← b_after ins;
                found ← lookup_route sol1 target_id;
                let sol2 :=
                  store_route sol1 found.1
                    (add_nodes pb found.2 [n] after) in
                source' ← route_at sol2 route_idx;
                if r_len source' =? EMPTY then Some (1, sol2)
                else empty_route_loop fuel pb sol2 route_idx
          | [_; _] => Some (0, sol)
          | _ => None
          end).
  rewrite Hsrc. cbn [mbind option_bind].
  destruct (r_nodes source) as [| d [| n [| x rest]]] eqn:Hnodes;
    try (simpl in Hlen; lia).
  destruct (empty_route_scan_spec pb sol route_idx n Hwf
              (seq 0 (Z.to_nat (s_trucks sol)))
              {| b_target := None; b_node := Some n; b_after := None;
                 b_cost := PosInf; b_attractiveness := Fin 0 |})
    as (ins & Hscan & Hins).
  { apply Forall_forall. intros j Hj. apply elem_of_seq in Hj. lia. }
  { by left. }
  rewrite Hscan. cbn [mbind option_bind].
  destruct Hins as [Hinf | (j & p & target & after & next & cost & Hj &
                            Htarget & Htgt & Haft & Hcost & Hafter & Hnext &
                            Htest)].
  { rewrite Hinf. cbn [isinf]. exists 0, sol, source.
    repeat (split; [done |]). right. split; [done |].
    unfold customers. by rewrite Hnodes. }
  rewrite Hcost. cbn [isinf]. rewrite Htgt, Haft. cbn [mbind option_bind].
  set (source1 := remove_nodes pb source 1 1).
  destruct (remove_one_counted pb source 1 Hemp ltac:(lia)
              ltac:(rewrite Hnodes; simpl; lia))
    as (Hemp1 & Hcount1 & Hid1).
  fold source1 in Hemp1, Hcount1, Hid1.
  destruct (store_route_wf sol route_idx source source1 Hwf Hsrc Hid1)
    as (Hwf1 & Htr1 & Hat1 & Hother1).
  set (sol1 := store_route sol route_idx source1) in *.
  assert (Htarget1 : route_at sol1 j = Some target)
    by (by rewrite Hother1).
  rewrite (lookup_route_wf sol1 j target Hwf1 Htarget1).
  cbn [mbind option_bind fst snd].
  set (target' := add_nodes pb target [n] p).
  destruct (add_nodes_frame pb target [n] p) as (Hid' & _).
  fold target' in Hid'. simpl in Hid'.
  destruct (store_route_wf sol1 j target target' Hwf1 Htarget1 Hid')
    as (Hwf2 & Htr2 & Hat2 & Hother2).
  set (sol2 := store_route sol1 j target') in *.
  assert (Hsrc2 : route_at sol2 route_idx = Some source1)
    by (rewrite Hother2 by done; exact Hat1).
  rewrite Hsrc2. cbn [mbind option_bind].
  assert (Hperm2 : routed_ids sol2 ≡ₚ routed_ids sol).
  { unfold routed_ids, sol2.
    rewrite (live_routes_store sol1 j target target' Hwf1 Htarget1).
    unfold sol1.
    rewrite (live_routes_store sol route_idx source source1 Hwf Hsrc).
    assert (Hplt : (S p < length (r_nodes target))%nat)
      by (by apply lookup_lt_Some in Hnext).
    rewrite (concat_insert_perm customer_ids _ j target target'
               (map n_id [n]));
      [| rewrite list_lookup_insert_ne by done;
         by apply live_routes_at
       | by apply add_nodes_customer_ids].
    rewrite Permutation_app_comm.
    apply (concat_insert_perm_less customer_ids _ route_idx source source1
             (map n_id [n]) (live_routes_at sol route_idx source Hwf Hsrc)).
    pose proof (remove_nodes_noupdate_customer_ids source 1 1 ltac:(lia)
                  ltac:(rewrite Hnodes; simpl; lia)) as Hs.
    rewrite Hnodes in Hs. change (run_of _ 1 1) with [n] in Hs.
    rewrite <- Hs.
    rewrite (customer_ids_same (remove_nodes_noupdate source 1 1) source1);
      [done |].
    unfold source1. by rewrite remove_nodes_map. }
  pose proof Hemp1 as (H2 & Hlen1).
  destruct (Z.eqb_spec (r_len source1) EMPTY) as [Hempty | Hfull].
  - exists 1, sol2, source1.
    split; [done |]. split; [done |]. split; [by rewrite Htr2, Htr1 |].
    split; [done |]. split; [done |]. split; [done |]. split; [done |].
    left. split; [done |].
    apply two_nodes_no_customer. unfold EMPTY in Hempty. lia.
  - destruct (IH sol2 source1 Hwf2 Hsrc2 Hemp1)
      as (ret & sol' & source' & Hrun & Hwf' & Htr' & Hperm' & Hun' &
          Hsrc' & Hemp' & Hret).
    { unfold EMPTY in Hfull. rewrite Hnodes in Hcount1. simpl in Hcount1.
      simpl in Hlen. lia. }
    exists ret, sol', source'.
    split; [done |]. split; [done |].
    split; [by rewrite Htr', Htr2, Htr1 |].
    split; [by rewrite Hperm' |].
    split; [by rewrite Hun' |]. done.
Qed.

(** X24: emptying a route loses no customer and tells the truth about the
    route.  In a solution whose routes have pairwise different ids, let the
    route in slot [route_idx] have its two depots and a [len] that counts
    its nodes.  Then [empty_route] returns, with fuel for each of its
    customers; the routes are as many as before; the ids of the customers
    of all routes are those of before, each as often; the unrouted nodes
    are untouched; and the value returned is 1 exactly when the route in
    slot [route_idx] has no customer left, its [len] then being EMPTY as
    [remove_route] asks, and 0 otherwise. *)
Theorem empty_route_conserves (pb : Problem) (sol : Solution)
    (route_idx : nat) (source : Route) (fuel : nat) :
  solution_wf sol ->
  route_at sol route_idx = Some source ->
  len_counts source ->
  (length (r_nodes source) <= fuel + 2)%nat ->
  exists (ret : Z) (sol' : Solution) (source' : Route),
    empty_route fuel pb sol route_idx = Some (ret, sol') /\
    solution_wf sol' /\ s_trucks sol' = s_trucks sol /\
    routed_ids sol' ≡ₚ routed_ids sol /\
    s_unrouted sol' = s_unrouted sol /\
    route_at sol' route_idx = Some source' /\
    (ret = 1 /\ customers source' = [] /\ r_len source' = EMPTY \/
     ret = 0 /\ customers source' <> []).
Proof.
  intros Hwf Hsrc Hemp Hfuel.
  pose proof Hemp as (H2 & Hlen).
  unfold empty_route. rewrite Hsrc. cbn [mbind option_bind].
  destruct (r_nodes source) as [| d rest] eqn:Hnodes; [simpl in H2; lia |].
  rewrite <- Hnodes in *.
  destruct (Z.eqb_spec (r_len source) EMPTY) as [Hempty | Hfull].
  - exists 1, sol, source. repeat (split; [done |]). left.
    split; [done |]. split; [| done].
    apply two_nodes_no_customer. unfold EMPTY in Hempty. lia.
  - destruct (empty_route_loop_conserves pb route_idx fuel sol source Hwf
                Hsrc Hemp)
      as (ret & sol' & source' & Hrun & Hwf' & Htr' & Hperm' & Hun' &
          Hsrc' & Hemp' & Hret).
    { unfold EMPTY in Hfull. lia. }
    exists ret, sol', source'. repeat (split; [done |]).
    destruct Hret as [[-> Hnone] | Hsome]; [left | by right].
    split; [done |]. split; [done |].
    destruct Hemp' as (H2' & Hlen'). rewrite Hlen'.
    unfold customers in Hnone. unfold EMPTY.
    destruct (r_nodes source') as [| a [| b [| c l]]]; simpl in *;
      try lia; try done.
Qed.

Lemma empty_route_conserves_witness :
  exists (ret : Z) (sol' : Solution) (source' : Route),
    empty_route 1 ex_pb ex_sol_two 1 = Some (ret, sol') /\
    solution_wf sol' /\ s_trucks sol' = s_trucks ex_sol_two /\
    routed_ids sol' ≡ₚ routed_ids ex_sol_two /\
    s_unrouted sol' = s_unrouted ex_sol_two /\
    route_at sol' 1 = Some source' /\
    (ret = 1 /\ customers source' = [] /\ r_len source' = EMPTY \/
     ret = 0 /\ customers source' <> []).
Proof.
  apply (empty_route_conserves ex_pb ex_sol_two 1 ex_route_b 1).
  - unfold solution_wf. simpl. split; [lia |]. split; [lia |].
    split; [repeat constructor; eauto |]. split; [constructor |].
    apply (bool_decide_unpack _). vm_compute. reflexivity.
  - reflexivity.
  - split; [simpl; lia | reflexivity].
  - simpl. lia.
Defined.

(** ** Distributing the nodes of a route *)

Lemma customers_length (r : Route) :
  length (customers r) = (length (r_nodes r) - 2)%nat.
Proof.
  unfold customers. destruct (r_nodes r) as [| a l]; [done |].
  simpl tail. destruct l as [| b l] using rev_ind; [done |].
  rewrite removelast_last. cbn [length]. rewrite length_app. simpl. lia.
Qed.

Lemma move_one_conserves (pb : Problem) (sol : Solution)
    (route_idx pos : nat) (source : Route) (n : Node)
    (ins : Insertion_buf) :
  solution_wf sol ->
  route_at sol route_idx = Some source ->
  len_counts source ->
  (1 <= pos)%nat -> (S pos < length (r_nodes source))%nat ->
  r_nodes source !! pos = Some n ->
  found_target pb sol route_idx n ins ->
  let source1 := remove_nodes pb source pos pos in
  let sol1 := store_route sol route_idx source1 in
  exists (ti after : nat) (target : Route),
    b_target ins = Some (r_id target) /\ b_after ins = Some after /\
    lookup_route sol1 (r_id target) = Some (ti, target) /\
    let sol2 := store_route sol1 ti (add_nodes pb target [n] after) in
    solution_wf sol2 /\ s_trucks sol2 = s_trucks sol /\
    routed_ids sol2 ≡ₚ routed_ids sol /\
    s_unrouted sol2 = s_unrouted sol /\
    route_at sol2 route_idx = Some source1.
Proof.
  intros Hwf Hsrc Hemp Hpos1 Hpos2 Hn
         (j & p & target & after & next & cost & Hj & Htarget & Htgt & Haft &
          Hcost & Hafter & Hnext & Htest) source1 sol1.
  destruct (remove_one_counted pb source pos Hemp Hpos1 Hpos2)
    as (Hemp1 & Hcount1 & Hid1).
  fold source1 in Hemp1, Hcount1, Hid1.
  destruct (store_route_wf sol route_idx source source1 Hwf Hsrc Hid1)
    as (Hwf1 & Htr1 & Hat1 & Hother1).
  fold sol1 in Hwf1, Htr1, Hat1, Hother1.
  assert (Htarget1 : route_at sol1 j = Some target)
    by (by rewrite Hother1).
  exists j, p, target. split; [done |]. split; [done |].
  split; [by apply lookup_route_wf |]. cbv zeta.
  set (target' := add_nodes pb target [n] p).
  destruct (add_nodes_frame pb target [n] p) as (Hid' & _).
  fold target' in Hid'. simpl in Hid'.
  destruct (store_route_wf sol1 j target target' Hwf1 Htarget1 Hid')
    as (Hwf2 & Htr2 & Hat2 & Hother2).
  set (sol2 := store_route sol1 j target') in *.
  split; [done |]. split; [by rewrite Htr2, Htr1 |].
  split; [| split; [done |]].
  - unfold routed_ids, sol2.
    rewrite (live_routes_store sol1 j target target' Hwf1 Htarget1).
    unfold sol1.
    rewrite (live_routes_store sol route_idx source source1 Hwf Hsrc).
    assert (Hplt : (S p < length (r_nodes target))%nat)
      by (by apply lookup_lt_Some in Hnext).
    rewrite (concat_insert_perm customer_ids _ j target target'
               (map n_id [n]));
      [| rewrite list_lookup_insert_ne by done;
         by apply live_routes_at
       | by apply add_nodes_customer_ids].
    rewrite Permutation_app_comm.
    apply (concat_insert_perm_less customer_ids _ route_idx source source1
             (map n_id [n]) (live_routes_at sol route_idx source Hwf Hsrc)).
    pose proof (remove_nodes_noupdate_customer_ids source pos pos
                  ltac:(lia) Hpos2) as Hs.
    assert (Hrun : run_of (r_nodes source) pos pos = [n]).
    { unfold run_of. replace (S pos - pos)%nat with 1%nat by lia.
      pose proof (lookup_drop (r_nodes source) pos 0) as Hd.
      rewrite Nat.add_0_r, Hn in Hd.
      destruct (drop pos (r_nodes source)) as [| y l]; [done |].
      simpl in Hd. by injection Hd as ->. }
    rewrite Hrun in Hs. rewrite <- Hs.
    rewrite (customer_ids_same (remove_nodes_noupdate source pos pos)
               source1); [done |].
    unfold source1. by rewrite remove_nodes_map.
  - rewrite Hother2 by done. exact Hat1.
Qed.

Lemma distribute_nodes_loop_conserves (pb : Problem) (route_idx : nat)
    (old_len : Z) :
  forall (fuel : nat) (sol : Solution) (source : Route) (pos : nat),
    solution_wf sol ->
    route_at sol route_idx = Some source ->
    len_counts source ->
    (3 <= length (r_nodes source))%nat ->
    (1 <= pos)%nat -> (S pos <= length (r_nodes source))%nat ->
    (length (r_nodes source) <= pos + fuel)%nat ->
    exists (ret : Z) (sol' : Solution),
      distribute_nodes_loop fuel pb sol route_idx pos old_len
      = Returns sol' ret /\
      solution_wf sol' /\
      routed_ids sol' ≡ₚ routed_ids sol /\
      s_unrouted sol' = s_unrouted sol /\
      ((s_trucks sol' = s_trucks sol /\
        exists source' : Route,
          route_at sol' route_idx = Some source' /\
          len_counts source' /\
          (3 <= length (r_nodes source'))%nat /\
          ret = old_len - r_len source' /\
          r_len source' <= r_len source /\
          (r_len source' = r_len source -> sol' = sol)) \/
       (s_trucks sol' = s_trucks sol - 1 /\ ret = old_len - EMPTY)).
Proof.
  induction fuel as [| fuel IH];
    intros sol source pos Hwf Hsrc Hemp H3 Hpos1 Hpos2 Hfuel; [lia |].
  change (distribute_nodes_loop (S fuel) pb sol route_idx pos old_len)
    with (match route_at sol route_idx with
          | None => Undefined
          | Some source =>
              if Nat.eqb (S pos) (length (r_nodes source)) then
                Returns sol (old_len - r_len source)
              else
                match r_nodes source !! pos with
                | None => Undefined
                | Some n =>
                    match empty_route_scan pb sol route_idx n
                            (seq 0 (Z.to_nat (s_trucks sol)))
                            {| b_target := None; b_node := Some n;
                               b_after := None; b_cost := PosInf;
                               b_attractiveness := Fin 0 |} with
                    | None => Undefined
                    | Some ins =>
                        if isinf (b_cost ins) then
                          distribute_nodes_loop fuel pb sol route_idx (S pos)
                            old_len
                        else
                          let sol1 :=
                            store_route sol route_idx
                              (remove_nodes pb source pos pos) in
                          match b_target ins, b_after ins with
                          | Some target_id, Some after =>
                              match lookup_route sol1 target_id with
                              | None => Undefined
                              | Some (ti, target) =>
                                  let sol2 :=
                                    store_route sol1 ti
                                      (add_nodes pb target [n] after) in
                                  match route_at sol2 route_idx with
                                  | None => Undefined
                                  | Some source' =>
                                      if r_len source' =? EMPTY then
                                        match remove_route sol2 route_idx
                                        with
                                        | Returns sol3 _ =>
                                            Returns sol3 (old_len - EMPTY)
                                        | Exits sol3 => Exits sol3
                                        | Undefined => Undefined
                                        end
                                      else
                                        distribute_nodes_loop fuel pb sol2
                                          route_idx pos old_len
                                  end
                              end
                          | _, _ => Undefined
                          end
                    end
                end
          end).
  rewrite Hsrc.
  destruct (Nat.eqb_spec (S pos) (length (r_nodes source))) as [Hend | Hmore].
  { exists (old_len - r_len source), sol.
    repeat (split; [done |]). left. split; [done |]. exists source.
    split; [done |]. split; [done |]. split; [done |]. split; [done |].
    split; [lia | done]. }
  destruct (lookup_lt_is_Some_2 (r_nodes source) pos ltac:(lia)) as [n Hn].
  rewrite Hn.
  destruct (empty_route_scan_spec pb sol route_idx n Hwf
              (seq 0 (Z.to_nat (s_trucks sol)))
              {| b_target := None; b_node := Some n; b_after := None;
                 b_cost := PosInf; b_attractiveness := Fin 0 |})
    as (ins & Hscan & Hins).
  { apply Forall_forall. intros j Hj. apply elem_of_seq in Hj. lia. }
  { by left. }
  rewrite Hscan.
  destruct Hins as [Hinf | Hfound].
  { rewrite Hinf. cbn [isinf].
    apply (IH sol source (S pos)); try done; lia. }
  pose proof Hfound as (_ & _ & _ & _ & _ & cost & _ & _ & _ & _ & Hcost & _).
  rewrite Hcost. cbn [isinf]. cbv zeta.
  destruct (move_one_conserves pb sol route_idx pos source n ins Hwf Hsrc
              Hemp Hpos1 ltac:(lia) Hn Hfound)
    as (ti & after & target & Htgt & Haft & Hlook & Hstep).
  cbv zeta in Hstep.
  destruct Hstep as (Hwf2 & Htr2 & Hperm2 & Hun2 & Hsrc2).
  rewrite Htgt, Haft, Hlook.
  set (source1 := remove_nodes pb source pos pos) in *.
  set (sol2 := store_route (store_route sol route_idx source1) ti
                 (add_nodes pb target [n] after)) in *.
  rewrite Hsrc2.
  destruct (remove_one_counted pb source pos Hemp Hpos1 ltac:(lia))
    as (Hemp1 & Hcount1 & Hid1).
  fold source1 in Hemp1, Hcount1, Hid1.
  pose proof Hemp as (_ & Hl0).
  pose proof Hemp1 as (_ & Hl1).
  destruct (Z.eqb_spec (r_len source1) EMPTY) as [Hempty | Hfull].
  - destruct (remove_route_slots sol2 route_idx source1 Hwf2 Hsrc2 Hempty)
      as (sol3 & Hrm & Hwf3 & Htr3 & Hlive3 & _ & Hold3 & Hun3 & _).
    rewrite Hrm. exists (old_len - EMPTY), sol3.
    split; [done |]. split; [done |].
    split; [| split; [by rewrite Hun3 |]].
    + rewrite <- Hperm2. unfold routed_ids. rewrite Hlive3.
      rewrite <- (concat_delete_perm customer_ids (live_routes sol2)
                    route_idx source1
                    (live_routes_at sol2 route_idx source1 Hwf2 Hsrc2)).
      assert (Hnone : customer_ids source1 = []).
      { unfold customer_ids. rewrite two_nodes_no_customer; [done |].
        unfold EMPTY in Hempty. lia. }
      by rewrite Hnone, app_nil_r.
    + right. split; [lia | done].
  - destruct (IH sol2 source1 pos Hwf2 Hsrc2 Hemp1)
      as (ret & sol' & Hrun & Hwf' & Hperm' & Hun' & Hcase);
      try (unfold EMPTY in Hfull; lia).
    exists ret, sol'. split; [done |]. split; [done |].
    split; [by rewrite Hperm' |]. split; [by rewrite Hun' |].
    destruct Hcase as [(Htr' & source' & Hsrc' & Hemp' & H3' & Hret & Hle &
                        _) | (Htr' & Hret)].
    + left. split; [lia |]. exists source'.
      split; [done |]. split; [done |]. split; [done |]. split; [done |].
      split; lia.
    + right. split; [lia | done].
Qed.

(** X25: distributing the nodes of a route loses no customer and counts
    the nodes it moved.  In a solution whose routes have pairwise different
    ids, let the route in slot [route_idx] have its two depots and a [len]
    that counts its nodes.  Then [distribute_nodes] returns, with fuel for
    each of its nodes; the ids of the customers of all routes are those of
    before, each as often; the unrouted nodes are untouched; a value of 0
    means that the solution is the one of before; and either the route is
    still in its slot, with as many customers less as the value returned
    says, or all its customers have left, the value returned is their
    number and the solution has one truck less. *)
Theorem distribute_nodes_conserves (pb : Problem) (sol : Solution)
    (route_idx : nat) (source : Route) (fuel : nat) :
  solution_wf sol ->
  route_at sol route_idx = Some source ->
  len_counts source ->
  (length (r_nodes source) <= fuel)%nat ->
  exists (ret : Z) (sol' : Solution),
    distribute_nodes fuel pb sol route_idx = Returns sol' ret /\
    solution_wf sol' /\
    routed_ids sol' ≡ₚ routed_ids sol /\
    s_unrouted sol' = s_unrouted sol /\
    (ret = 0 -> sol' = sol) /\
    ((s_trucks sol' = s_trucks sol /\
      exists source' : Route,
        route_at sol' route_idx = Some source' /\
        Z.of_nat (length (customers source')) + ret
        = Z.of_nat (length (customers source)) /\
        (customers source <> [] -> customers source' <> [])) \/
     (s_trucks sol' = s_trucks sol - 1 /\ 0 < ret /\
      ret = Z.of_nat (length (customers source)))).
Proof.
  intros Hwf Hsrc Hemp Hfuel.
  pose proof Hemp as (H2 & Hlen).
  pose proof (customers_length source) as Hcl.
  unfold distribute_nodes. rewrite Hsrc.
  destruct (r_nodes source) as [| d rest] eqn:Hnodes; [simpl in H2; lia |].
  rewrite <- Hnodes in *.
  destruct (Z.eqb_spec (r_len source) EMPTY) as [Hempty | Hfull].
  - exists 0, sol. repeat (split; [done |]). left. split; [done |].
    exists source. split; [done |]. split; [lia | done].
  - unfold EMPTY in Hfull.
    destruct (distribute_nodes_loop_conserves pb route_idx (r_len source)
                fuel sol source 1 Hwf Hsrc Hemp)
      as (ret & sol' & Hrun & Hwf' & Hperm' & Hun' & Hcase);
      try lia.
    exists ret, sol'. repeat (split; [done |]).
    destruct Hcase as [(Htr' & source' & Hsrc' & Hemp' & H3' & Hret & Hle &
                        Hsame) | (Htr' & Hret)].
    + split; [intros E; apply Hsame; lia |].
      left. split; [done |]. exists source'. split; [done |].
      pose proof (customers_length source') as Hcl'.
      destruct Hemp' as (_ & Hlen').
      split; [lia |]. intros _ E. rewrite E in Hcl'. simpl in Hcl'. lia.
    + unfold EMPTY in Hret. split; [lia |]. right.
      split; [done |]. split; lia.
Qed.

Lemma distribute_nodes_conserves_witness :
  exists (ret : Z) (sol' : Solution),
    distribute_nodes 3 ex_pb ex_sol_two 1 = Returns sol' ret /\
    solution_wf sol' /\
    routed_ids sol' ≡ₚ routed_ids ex_sol_two /\
    s_unrouted sol' = s_unrouted ex_sol_two /\
    (ret = 0 -> sol' = ex_sol_two) /\
    ((s_trucks sol' = s_trucks ex_sol_two /\
      exists source' : Route,
        route_at sol' 1 = Some source' /\
        Z.of_nat (length (customers source')) + ret
        = Z.of_nat (length (customers ex_route_b)) /\
        (customers ex_route_b <> [] -> customers source' <> [])) \/
     (s_trucks sol' = s_trucks ex_sol_two - 1 /\ 0 < ret /\
      ret = Z.of_nat (length (customers ex_route_b)))).
Proof.
  apply (distribute_nodes_conserves ex_pb ex_sol_two 1 ex_route_b 3).
  - unfold solution_wf. simpl. split; [lia |]. split; [lia |].
    split; [repeat constructor; eauto |]. split; [constructor |].
    apply (bool_decide_unpack _). vm_compute. reflexivity.
  - reflexivity.
  - split; [simpl; lia | reflexivity].
  - simpl. lia.
Defined.

(** ** The trucks and workers a move saves *)

Lemma sumZ_app (f : Route -> Z) (l1 l2 : list Route) :
  sumZ f (l1 ++ l2) = sumZ f l1 + sumZ f l2.
Proof.
  unfold sumZ. induction l1 as [| r l1 IH]; simpl; [done |]. rewrite IH. lia.
Qed.

Lemma sumZ_insert (f : Route -> Z) (l : list Route) (i : nat) (r r' : Route) :
  l !! i = Some r -> sumZ f (<[i := r']> l) = sumZ f l - f r + f r'.
Proof.
  intros Hi. pose proof (lookup_lt_Some _ _ _ Hi) as Hlt.
  rewrite insert_take_drop by done.
  assert (E : sumZ f l = sumZ f (take i l ++ r :: drop (S i) l))
    by (by rewrite take_drop_middle).
  rewrite E, !sumZ_app. unfold sumZ. simpl. lia.
Qed.

Lemma sumZ_delete (f : Route -> Z) (l : list Route) (i : nat) (r : Route) :
  l !! i = Some r -> sumZ f (delete i l) = sumZ f l - f r.
Proof.
  intros Hi. rewrite delete_take_drop.
  assert (E : sumZ f l = sumZ f (take i l ++ r :: drop (S i) l))
    by (by rewrite take_drop_middle).
  rewrite E, !sumZ_app. unfold sumZ. simpl. lia.
Qed.

Lemma calc_workers_loop_live (sol : Solution) (slots : list (option Route)) :
  forall (b : nat) (acc : Z),
    (forall k slot, slots !! k = Some slot ->
                    s_routes sol !! (b + k)%nat = Some slot) ->
    Forall is_Some slots ->
    calc_workers_loop sol acc (seq b (length slots))
    = Some (acc + sumZ r_workers (omap id slots)).
Proof.
  induction slots as [| slot slots IH]; intros b acc Hat Hall.
  - simpl. f_equal. unfold sumZ. simpl. lia.
  - apply Forall_cons in Hall as [[r ->] Hall].
    change (seq b (length (Some r :: slots)))
      with (b :: seq (S b) (length slots)).
    change (omap id (Some r :: slots)) with (r :: omap id slots).
    cbn [calc_workers_loop]. unfold route_at.
    pose proof (Hat 0%nat (Some r) eq_refl) as H0.
    rewrite Nat.add_0_r in H0. rewrite H0. cbn [mbind option_bind].
    rewrite (IH (S b)); [| | done].
    + f_equal. unfold sumZ. cbn [foldr]. lia.
    + intros k slot Hk. replace (S b + k)%nat with (b + S k)%nat by lia.
      by apply Hat.
Qed.

Lemma calc_workers_total (sol : Solution) :
  solution_wf sol -> calc_workers sol = Some (total_workers sol).
Proof.
  intros (H0 & Hlen & Hlive & _).
  unfold calc_workers, total_workers, live_routes.
  set (n := Z.to_nat (s_trucks sol)) in *.
  replace n with (length (take n (s_routes sol))) at 1
    by (rewrite length_take; lia).
  rewrite (calc_workers_loop_live sol (take n (s_routes sol)) 0 0);
    [done | | done].
  intros k slot Hk. simpl.
  pose proof (lookup_lt_Some _ _ _ Hk) as Hlt. rewrite length_take in Hlt.
  by rewrite lookup_take_lt in Hk by lia.
Qed.

Lemma calc_ests_workers (pb : Problem) (r : Route) (pos : nat) (w : Z) :
  r_workers (calc_ests pb r pos w) = r_workers r.
Proof. by destruct (calc_ests_frame pb r pos w) as (_ & _ & _ & _ & ->). Qed.

Lemma calc_lsts_workers (pb : Problem) (r : Route) (pos : nat) (w : Z) :
  r_workers (calc_lsts pb r pos w) = r_workers r.
Proof. by destruct (calc_lsts_frame pb r pos w) as (_ & _ & _ & _ & ->). Qed.

Lemma remove_nodes_workers (pb : Problem) (r : Route) (first last_ : nat) :
  r_workers (remove_nodes pb r first last_)
  = r_workers (remove_nodes_noupdate r first last_).
Proof.
  by destruct (remove_nodes_frame pb r first last_) as (_ & _ & _ & _ & ->).
Qed.

(** X26: the truck and worker deltas a recorded move carries are the
    changes of the solution.  In a solution whose routes have pairwise
    different ids, let [update_move] return 1 for two of the routes, the
    source having a worker and a [len] that counts its nodes, the tabu list
    being off or having a cell for each of its nodes.  Then [perform_move]
    on the recorded move returns, and afterwards the solution has
    [delta_trucks] trucks less and [calc_workers] gives [delta_workers]
    workers less. *)
Theorem move_deltas_counts (pb : Problem) (sol : Solution) (tl : Tabulist)
    (m : Move) (source target : Route) (state len : Z) (m' : Move)
    (source' : Route) (si ti : nat) :
  solution_wf sol ->
  route_at sol si = Some source -> route_at sol ti = Some target ->
  si <> ti ->
  1 <= r_workers source ->
  0 <= m_delta_workers m ->
  r_len source = Z.of_nat (length (r_nodes source)) ->
  (tl_active tl = false \/
   Forall (fun n => is_Some (mget (tl_nodes_routes tl) (n_id n)
                                  (r_id source)))
          (r_nodes source)) ->
  update_move pb tl m source target state len = Some (1, m', source') ->
  exists (sol' : Solution) (tl' : Tabulist) (freed : list Route) (W : Z),
    perform_move pb (store_route sol si source') tl m'
    = Returns sol' (tl', init_move (m_improving m'), freed) /\
    s_trucks sol' = s_trucks sol - m_delta_trucks m' /\
    calc_workers sol = Some W /\
    calc_workers sol' = Some (W - m_delta_workers m').
Proof.
  intros Hwf Hsi Hti Hne Hw Hm Hcount Htabu Hrun.
  destruct (update_move_approved pb tl m source target state len m' source'
              Hw Hm Hrun) as (Hlen & Hsame & Happ).
  set (dt := if r_len source =? EMPTY + len then 1 else 0) in *.
  set (k := Z.to_nat len) in *.
  apply (approved_same pb tl source source') in Happ; [| done].
  destruct (same_route_fields _ _ Hsame) as (Hid' & _ & Hlen' & _ & Hw').
  pose proof Hsame as [Hsb _].
  pose proof (same_but_cache_map n_id _ _ ltac:(done) Hsb) as Hids.
  pose proof (same_but_cache_length _ _ Hsb) as Hlength.
  destruct Happ as (first & a & after & succ & Happ). cbv zeta in Happ.
  set (last_ := (first + k - 1)%nat) in *.
  destruct Happ as (Hdd & _ & H1 & H2 & H3 & H4 & H5 & H6 & H7 & H8 & H9 &
                    H10 & H11 & H12 & H13).
  destruct Hdd as (fp & f & l & ln & Hfp & Hf & Hl & Hln & Hdd).
  destruct (store_route_wf sol si source source' Hwf Hsi Hid')
    as (Hwf0 & Htr0 & Hat0 & Hother0).
  set (sol0 := store_route sol si source') in *.
  assert (Hti0 : route_at sol0 ti = Some target)
    by (rewrite Hother0; [done | lia]).
  set (run := run_of (r_nodes source') first last_) in *.
  assert (Hrunlen : length run = k).
  { unfold run. rewrite run_of_length by lia. unfold last_. lia. }
  set (s1 := remove_nodes_noupdate source' first last_) in *.
  assert (Hl1 : r_len s1 = r_len source' - Z.of_nat k).
  { unfold s1, remove_nodes_noupdate. cbn [r_len]. fold run.
    by rewrite Hrunlen. }
  destruct (perform_move_slots pb sol0 tl m' first last_ a si ti source'
              target Hwf0 H3 H4 H5 H1 H2 Hat0 Hti0 Hne)
    as (sol' & tl' & freed & Hperf & Hwf' & Htr' & _ & Hlive & _).
  { rewrite H6. unfold dt.
    destruct (Z.eqb_spec (r_len source) (EMPTY + len)) as [E |]; [| done].
    intros _. fold s1. rewrite Hl1, Hlen', E. unfold k. lia. }
  { destruct Htabu as [Hoff | Hcells]; [by left | right].
    fold run. split.
    - intros E. apply (f_equal (@length nat)) in E.
      rewrite length_map, Hrunlen in E. simpl in E. unfold k in E. lia.
    - rewrite Hid'.
      apply (proj2 (List.Forall_map n_id
                      (fun i => is_Some (mget (tl_nodes_routes tl) i
                                              (r_id source))) run)).
      unfold run, run_of. apply run_of_Forall.
      apply (proj1 (List.Forall_map n_id
                      (fun i => is_Some (mget (tl_nodes_routes tl) i
                                              (r_id source))) _)).
      rewrite Hids.
      by apply (proj2 (List.Forall_map n_id
                         (fun i => is_Some (mget (tl_nodes_routes tl) i
                                                 (r_id source))) _)). }
  fold run s1 in Hlive.
  set (target' := add_nodes pb target run a) in *.
  set (L := live_routes sol) in *.
  pose proof (live_routes_at sol si source Hwf Hsi) as Hlsi.
  pose proof (live_routes_at sol ti target Hwf Hti) as Hlti.
  fold L in Hlsi, Hlti.
  pose proof (lookup_lt_Some _ _ _ Hlsi) as Hsilt.
  assert (HL0 : live_routes sol0 = <[si := source']> L)
    by (by apply (live_routes_store sol si source source')).
  rewrite HL0 in Hlive.
  assert (Hl0si : (<[si := source']> L) !! si = Some source')
    by (by apply list_lookup_insert_eq).
  assert (Hl0ti : (<[si := source']> L) !! ti = Some target)
    by (by rewrite list_lookup_insert_ne).
  destruct (add_nodes_frame pb target run a) as (_ & _ & _ & _ & Hwt).
  fold target' in Hwt. simpl in Hwt.
  assert (Hfl : (first <= last_)%nat) by (unfold last_, k; lia).
  exists sol', tl', freed, (total_workers sol).
  split; [exact Hperf |].
  split.
  { rewrite Htr', Htr0, H6. by destruct (dt =? 0) eqn:E;
      [apply Z.eqb_eq in E; rewrite E |
        unfold dt in *; destruct (r_len source =? EMPTY + len)]. }
  split; [by apply calc_workers_total |].
  rewrite (calc_workers_total sol' Hwf').
  unfold total_workers. fold L. rewrite Hlive. f_equal.
  destruct (Z.eqb_spec (m_delta_trucks m') 0) as [Hdt | Hdt].
  - (* no truck is saved *)
    set (source'' :=
           if negb (m_delta_workers m' =? 0)
           then calc_lsts pb _ _ _ else remove_nodes pb source' first last_)
      in *.
    assert (Hw'' : r_workers source''
                   = r_workers source' - m_delta_workers m').
    { unfold source''.
      destruct (Z.eqb_spec (m_delta_workers m') 0) as [E | E]; simpl negb;
        cbv iota.
      - rewrite remove_nodes_workers. simpl. lia.
      - by rewrite calc_lsts_workers, calc_ests_workers. }
    assert (Hti1 : (<[si := source'']> (<[si := source']> L)) !! ti
                   = Some target)
      by (by rewrite list_lookup_insert_ne).
    rewrite (sumZ_insert r_workers _ ti target target' Hti1).
    rewrite (sumZ_insert r_workers _ si source' source'' Hl0si).
    rewrite (sumZ_insert r_workers L si source source' Hlsi).
    lia.
  - (* a truck is saved *)
    assert (Hdt1 : (dt =? 0) = false) by (apply Z.eqb_neq; by rewrite <- H6).
    rewrite Hdt1 in H13.
    set (ti' := if decide (ti < si)%nat then ti else (ti - 1)%nat) in *.
    assert (Hdel : delete si (<[si := source']> L) !! ti' = Some target).
    { pose proof (lookup_lt_Some _ _ _ Hl0si).
      unfold ti'. destruct (decide (ti < si)%nat).
      - by rewrite list_lookup_delete_lt.
      - rewrite list_lookup_delete_ge by lia.
        by replace (S (ti - 1)) with ti by lia. }
    rewrite (sumZ_insert r_workers _ ti' target target' Hdel).
    rewrite (sumZ_delete r_workers _ si source' Hl0si).
    rewrite (sumZ_insert r_workers L si source source' Hlsi).
    lia.
Qed.

Lemma move_deltas_counts_witness :
  exists (sol' : Solution) (tl' : Tabulist) (freed : list Route) (W : Z),
    perform_move ex_pb (store_route ex_sol_two 1 ex_route_b_scanned)
                 (new_tabulist ex_pb) ex_move
    = Returns sol' (tl', init_move (m_improving ex_move), freed) /\
    s_trucks sol' = s_trucks ex_sol_two - m_delta_trucks ex_move /\
    calc_workers ex_sol_two = Some W /\
    calc_workers sol' = Some (W - m_delta_workers ex_move).
Proof.
  apply (move_deltas_counts ex_pb ex_sol_two (new_tabulist ex_pb)
           (init_move true) ex_route_b ex_route REDUCE_WORKERS 1 ex_move
           ex_route_b_scanned 1 0).
  - unfold solution_wf. simpl. split; [lia |]. split; [lia |].
    split; [repeat constructor; eauto |]. split; [constructor |].
    apply (bool_decide_unpack _). vm_compute. reflexivity.
  - reflexivity.
  - reflexivity.
  - lia.
  - simpl. lia.
  - simpl. lia.
  - reflexivity.
  - right. repeat constructor; vm_compute; eauto.
  - vm_compute. reflexivity.
Defined.

(** ** The tabu list and the scan of the moves *)

Lemma is_move_tabu_loop_free (tl : Tabulist) (run : list nat) (target : nat) :
  is_move_tabu_loop tl run target = Some false ->
  Forall (fun k => exists v : Z,
            mget (tl_nodes_routes tl) k target = Some v /\
            v <= tl_iteration tl) run.
Proof.
  induction run as [| k rest IH]; intros H; [constructor |].
  simpl in H.
  destruct (mget (tl_nodes_routes tl) k target) as [v |] eqn:Hv;
    simpl in H; [| done].
  destruct (tl_iteration tl <? v) eqn:E; [done |].
  apply Z.ltb_ge in E. constructor; [by exists v | by apply IH].
Qed.

(** X28: [update_move] records no move that the tabu list forbids.  When
    it returns 1, the move it leaves names the two routes and a run of
    customers of the source for which [is_move_tabu] answers 0 with the
    target: with an active tabu list, the cell of each node of the run and
    the target holds a value that the iteration counter has reached. *)
Theorem update_move_not_tabu (pb : Problem) (tl : Tabulist) (m : Move)
    (source target : Route) (state len : Z) (m' : Move) (source' : Route) :
  1 <= r_workers source ->
  0 <= m_delta_workers m ->
  update_move pb tl m source target state len = Some (1, m', source') ->
  exists first last_ : nat,
    m_source m' = Some (r_id source) /\ m_target m' = Some (r_id target) /\
    m_first m' = Some first /\ m_last m' = Some last_ /\
    (1 <= first <= last_)%nat /\
    (S last_ < length (r_nodes source))%nat /\
    is_move_tabu tl (map n_id (run_of (r_nodes source) first last_))
                 (r_id target) = Some false /\
    (tl_active tl = true ->
     Forall (fun n => exists v : Z,
               mget (tl_nodes_routes tl) (n_id n) (r_id target) = Some v /\
               v <= tl_iteration tl)
            (run_of (r_nodes source) first last_)).
Proof.
  intros Hw Hm Hrun.
  destruct (update_move_approved pb tl m source target state len m' source'
              Hw Hm Hrun) as (Hlen & _ & Happ).
  destruct Happ as (first & a & after & succ & Happ). cbv zeta in Happ.
  set (last_ := (first + Z.to_nat len - 1)%nat) in *.
  destruct Happ as (_ & Htb & H1 & H2 & H3 & H4 & _ & _ & H7 & H8 & _).
  exists first, last_.
  split; [done |]. split; [done |]. split; [done |]. split; [done |].
  split; [unfold last_; lia |]. split; [done |]. split; [done |].
  intros Hact. unfold is_move_tabu in Htb. rewrite Hact in Htb.
  simpl in Htb.
  destruct (map n_id (run_of (r_nodes source) first last_)) as [| k0 ks]
    eqn:Hids; [done |].
  apply is_move_tabu_loop_free in Htb. rewrite <- Hids in Htb.
  by apply (proj1 (List.Forall_map n_id
                     (fun k => exists v : Z,
                        mget (tl_nodes_routes tl) k (r_id target) = Some v /\
                        v <= tl_iteration tl) _)).
Qed.

Lemma update_move_not_tabu_witness :
  exists first last_ : nat,
    m_source ex_move = Some (r_id ex_route_b) /\
    m_target ex_move = Some (r_id ex_route) /\
    m_first ex_move = Some first /\ m_last ex_move = Some last_ /\
    (1 <= first <= last_)%nat /\
    (S last_ < length (r_nodes ex_route_b))%nat /\
    is_move_tabu (new_tabulist ex_pb)
      (map n_id (run_of (r_nodes ex_route_b) first last_)) (r_id ex_route)
    = Some false /\
    (tl_active (new_tabulist ex_pb) = true ->
     Forall (fun n => exists v : Z,
               mget (tl_nodes_routes (new_tabulist ex_pb)) (n_id n)
                    (r_id ex_route) = Some v /\
               v <= tl_iteration (new_tabulist ex_pb))
            (run_of (r_nodes ex_route_b) first last_)).
Proof.
  apply (update_move_not_tabu ex_pb (new_tabulist ex_pb) (init_move true)
           ex_route_b ex_route REDUCE_WORKERS 1 ex_move ex_route_b_scanned).
  - simpl. lia.
  - simpl. lia.
  - vm_compute. reflexivity.
Defined.

(** ** C10: what [update_move] records of a move that empties its source *)

Lemma delta_is_higher_trans (m c : Move) (dt dw : Z) (d : Q) :
  delta_is_higher m dt dw (m_delta_dist c) = true ->
  m_delta_trucks c = dt -> m_delta_workers c = dw ->
  delta_is_higher c dt dw d = true ->
  delta_is_higher m dt dw d = true.
Proof.
  unfold delta_is_higher. intros Hm Hdt Hdw Hc. subst dt dw.
  rewrite Z.eqb_refl, Z.ltb_irrefl, Z.eqb_refl in Hc.
  revert Hm Hc.
  destruct (m_delta_trucks c =? 0); simpl;
    destruct (m_delta_trucks m =? 0); simpl; try done;
    destruct (m_delta_trucks c =? m_delta_trucks m); try done;
    destruct (m_delta_workers m <? m_delta_workers c); try done;
    destruct (m_delta_workers c =? m_delta_workers m); simpl; try done;
    destruct (Qltb (m_delta_dist m) (m_delta_dist c - MIN_DELTA)) eqn:E1;
    try done;
    destruct (Qltb (m_delta_dist c) (d - MIN_DELTA)) eqn:E2; try done;
    destruct (Qltb (m_delta_dist m) (d - MIN_DELTA)) eqn:E3; try done;
    apply Qltb_lt in E1, E2; apply Qltb_ge in E3; unfold MIN_DELTA in *;
    lra.
Qed.

Lemma same_but_cache_cons (n n' : Node) (l l' : list Node) :
  same_but_cache (n :: l) (n' :: l') ->
  n_id n = n_id n' /\ n_est n = n_est n' /\ n_lst n = n_lst n' /\
  (forall v, set_aest_cache n v = set_aest_cache n' v) /\
  same_but_cache l l'.
Proof.
  unfold same_but_cache. simpl. intros H.
  injection H as H1 H2 H3 H4 H5 H6 H7 H8 H9 H10 Hl.
  repeat (split; [done |]). split; [| done].
  intros v. unfold set_aest_cache. congruence.
Qed.

Lemma can_insert_loop_answer (c_m : nat -> nat -> Q) (rest : list Node) :
  forall (rest' : list Node) (first succ : Node),
    same_but_cache rest rest' ->
    fst (can_insert_loop c_m first rest succ)
    = fst (can_insert_loop c_m first rest' succ).
Proof.
  induction rest as [| next rest IH]; intros [| next' rest'] first succ Hs;
    try done.
  destruct (same_but_cache_cons _ _ _ _ Hs)
    as (Hid & Hest & Hlst & Hset & Hs').
  change (can_insert_loop c_m first (next :: rest) succ) with
    (let next1 :=
       set_aest_cache next
         (Common.max (n_aest_cache first + c_m (n_id first) (n_id next))%Q
                     (n_est next)) in
     if Qltb (n_lst next1) (n_aest_cache next1) then
       (false, first :: next1 :: rest)
     else
       let (answer, run) := can_insert_loop c_m next1 rest succ in
       (answer, first :: run)).
  change (can_insert_loop c_m first (next' :: rest') succ) with
    (let next1 :=
       set_aest_cache next'
         (Common.max (n_aest_cache first + c_m (n_id first) (n_id next'))%Q
                     (n_est next')) in
     if Qltb (n_lst next1) (n_aest_cache next1) then
       (false, first :: next1 :: rest')
     else
       let (answer, run) := can_insert_loop c_m next1 rest' succ in
       (answer, first :: run)).
  cbv zeta. rewrite <- Hid, <- Hest, <- Hset.
  set (next1 := set_aest_cache next _).
  destruct (Qltb (n_lst next1) (n_aest_cache next1)); [done |].
  specialize (IH rest' next1 succ Hs').
  destruct (can_insert_loop c_m next1 rest succ) as [answer run].
  destruct (can_insert_loop c_m next1 rest' succ) as [answer' run'].
  done.
Qed.

Lemma can_insert_answer (pb : Problem) (target : Route)
    (run run' : list Node) (after succ : Node) :
  same_but_cache run run' ->
  fst (can_insert pb target run after succ)
  = fst (can_insert pb target run' after succ).
Proof.
  intros Hs. unfold can_insert.
  destruct run as [| first rest], run' as [| first' rest']; try done.
  destruct (same_but_cache_cons _ _ _ _ Hs)
    as (Hid & Hest & Hlst & Hset & Hs').
  rewrite <- Hid, <- Hest, <- Hset.
  set (first1 := set_aest_cache first _).
  destruct (Qltb (n_lst first1) (n_aest_cache first1)); [done |].
  by apply can_insert_loop_answer.
Qed.

Lemma move_candidate_at (pb : Problem) (tl : Tabulist) (m0 : Move)
    (source0 source target : Route) (first last_ : nat) (dt dw : Z)
    (a : nat) (after after_next fp fn ln lnx : Node) :
  same_route source0 source ->
  r_nodes target !! a = Some after ->
  r_nodes target !! S a = Some after_next ->
  r_nodes source !! (first - 1)%nat = Some fp ->
  r_nodes source !! first = Some fn ->
  r_nodes source !! last_ = Some ln ->
  r_nodes source !! S last_ = Some lnx ->
  Qltb (inject_Z (pb_capacity pb))
       (r_load target +
        sum_demands (run_of (r_nodes source0) first last_))%Q = false ->
  move_candidate pb tl m0 source0 target first last_ dt dw a <->
  delta_is_higher m0 dt dw
    (calc_delta_dist_move (pb_c_m pb 0) fp fn ln lnx after after_next)
  = true /\
  fst (can_insert pb target (run_of (r_nodes source) first last_)
                  after after_next) = true /\
  is_move_tabu tl
    (map n_id (snd (can_insert pb target
                      (run_of (r_nodes source) first last_)
                      after after_next)))
    (r_id target) = Some false.
Proof.
  intros [Hs _] Ha Hn Hfp Hfn Hln Hlnx Hcap.
  pose proof (same_but_cache_sym _ _ Hs) as Hs'.
  destruct (same_but_cache_lookup _ _ _ _ Hs' Hfp) as (fp0 & Hfp0 & Ifp).
  destruct (same_but_cache_lookup _ _ _ _ Hs' Hfn) as (fn0 & Hfn0 & Ifn).
  destruct (same_but_cache_lookup _ _ _ _ Hs' Hln) as (ln0 & Hln0 & Iln).
  destruct (same_but_cache_lookup _ _ _ _ Hs' Hlnx) as (lnx0 & Hlnx0 & Ilnx).
  assert (Hdd : calc_delta_dist_move (pb_c_m pb 0) fp0 fn0 ln0 lnx0 after
                  after_next
                = calc_delta_dist_move (pb_c_m pb 0) fp fn ln lnx after
                    after_next).
  { unfold calc_delta_dist_move. by rewrite Ifp, Ifn, Iln, Ilnx. }
  pose proof (same_but_cache_run_of _ _ first last_ Hs) as Hrun.
  assert (Hids : map n_id (snd (can_insert pb target
                                  (run_of (r_nodes source) first last_)
                                  after after_next))
                 = map n_id (run_of (r_nodes source0) first last_)).
  { rewrite <- (same_but_cache_map n_id _ _ ltac:(done) Hrun).
    apply same_but_cache_map; [done |]. apply can_insert_same. }
  rewrite Hids, (can_insert_answer pb target _ _ after after_next Hrun).
  split.
  - intros (x1 & x2 & y1 & y2 & y3 & y4 & H1 & H2 & H3 & H4 & H5 & H6 & _ &
            H8 & H9 & H10).
    rewrite Ha in H1. rewrite Hn in H2. rewrite Hfp0 in H3.
    rewrite Hfn0 in H4. rewrite Hln0 in H5. rewrite Hlnx0 in H6.
    injection H1 as <-. injection H2 as <-. injection H3 as <-.
    injection H4 as <-. injection H5 as <-. injection H6 as <-.
    by rewrite <- Hdd.
  - intros (H8 & H9 & H10).
    exists after, after_next, fp0, fn0, ln0, lnx0.
    repeat (split; [done |]). split; [by rewrite Hdd |]. done.
Qed.

Lemma update_move_afters_char (pb : Problem) (tl : Tabulist)
    (target : Route) (first last_ : nat) (dt dw : Z) (m0 : Move)
    (source0 : Route) (afters : list nat) :
  (1 <= first)%nat -> (first <= last_)%nat ->
  Qltb (inject_Z (pb_capacity pb))
       (r_load target +
        sum_demands (run_of (r_nodes source0) first last_))%Q = false ->
  forall (updated : bool) (m : Move) (source : Route)
         (ret updated' : bool) (m' : Move) (source' : Route),
    same_route source0 source ->
    (if updated
     then ranked m0 dt dw (r_id source0) (r_id target) first last_ m
     else m = m0) ->
    update_move_afters pb tl target first last_ dt dw afters updated m source
    = Some (ret, updated', m', source') ->
    same_route source0 source' /\
    (if updated'
     then ranked m0 dt dw (r_id source0) (r_id target) first last_ m'
     else m' = m0 /\ ret = false) /\
    (updated' = true <->
     updated = true \/
     exists a, a ∈ afters /\
               move_candidate pb tl m0 source0 target first last_ dt dw a).
Proof.
  intros Hfirst Hfl Hcap.
  induction afters as [| a rest IH];
    intros updated m source ret updated' m' source' Hsame Hinv H.
  - simpl in H. injection H as <- <- <- <-.
    split; [done |]. split; [by destruct updated |].
    split; [by left |]. intros [? | (a & Ha & _)]; [done |].
    by apply elem_of_nil in Ha.
  - simpl in H.
    destruct (r_nodes target !! a) as [after |] eqn:Hafter; simpl in H;
      [| done].
    destruct (r_nodes target !! S a) as [after_next |] eqn:Hnext;
      simpl in H; [| done].
    destruct (r_nodes source !! (first - 1)%nat) as [fp |] eqn:Hfp;
      simpl in H; [| done].
    destruct (r_nodes source !! first) as [fn |] eqn:Hfn; simpl in H;
      [| done].
    destruct (r_nodes source !! last_) as [ln |] eqn:Hln; simpl in H;
      [| done].
    destruct (r_nodes source !! S last_) as [lnx |] eqn:Hlnx; simpl in H;
      [| done].
    pose proof (move_candidate_at pb tl m0 source0 source target first last_
                  dt dw a after after_next fp fn ln lnx Hsame Hafter Hnext
                  Hfp Hfn Hln Hlnx Hcap) as Hcand.
    set (dd := calc_delta_dist_move (pb_c_m pb 0) fp fn ln lnx after
                 after_next) in *.
    assert (Hmore : forall (P : Prop),
              (updated = false ->
               ~ move_candidate pb tl m0 source0 target first last_ dt dw
                   a) ->
              (P <-> updated = true \/
                     exists a', a' ∈ rest /\
                       move_candidate pb tl m0 source0 target first last_
                         dt dw a') ->
              (P <-> updated = true \/
                     exists a', a' ∈ a :: rest /\
                       move_candidate pb tl m0 source0 target first last_
                         dt dw a')).
    { intros P Hnot HP. rewrite HP. split.
      - intros [? | (a' & Ha' & Hc)]; [by left | right].
        exists a'. split; [by right | done].
      - intros [? | (a' & Ha' & Hc)]; [by left |].
        apply elem_of_cons in Ha' as [-> | Ha'].
        + destruct updated; [by left |]. by destruct (Hnot eq_refl).
        + right. by exists a'. }
    destruct (delta_is_higher m dt dw dd) eqn:Hhigher.
    2:{ destruct (IH _ _ _ _ _ _ _ Hsame Hinv H) as (H1 & H2 & H3).
        split; [done |]. split; [done |]. apply Hmore; [| done].
        intros ->. subst m. rewrite Hcand. intros (Hc & _). congruence. }
    pose proof (can_insert_same pb target
                  (run_of (r_nodes source) first last_) after after_next)
      as Hrun.
    destruct (can_insert pb target (run_of (r_nodes source) first last_)
                after after_next) as [insertable run] eqn:Hci.
    simpl in Hrun, Hcand.
    set (src := with_nodes source _) in *.
    assert (Hsrc : same_route source0 src).
    { apply (same_route_trans _ source); [done |].
      split; [| unfold src; by destruct source].
      unfold src. simpl.
      apply lookup_lt_Some in Hlnx.
      apply (same_but_cache_trans _
               (take first (r_nodes source) ++
                run_of (r_nodes source) first last_ ++
                drop (S last_) (r_nodes source))).
      - apply same_but_cache_app; [done |].
        by apply same_but_cache_app.
      - rewrite chain_split_run by lia. done. }
    destruct insertable.
    2:{ destruct (IH _ _ _ _ _ _ _ Hsrc Hinv H) as (H1 & H2 & H3).
        split; [done |]. split; [done |]. apply Hmore; [| done].
        intros ->. rewrite Hcand. intros (_ & Hc & _). congruence. }
    destruct (is_move_tabu tl (map n_id run) (r_id target))
      as [tabu |] eqn:Htabu; simpl in H; [| done].
    destruct tabu; simpl in H.
    { destruct (IH _ _ _ _ _ _ _ Hsrc Hinv H) as (H1 & H2 & H3).
      split; [done |]. split; [done |]. apply Hmore; [| done].
      intros ->. rewrite Hcand. intros (_ & _ & Hc). congruence. }
    set (cand := {| m_source := Some (r_id source);
                    m_target := Some (r_id target);
                    m_first := Some first; m_last := Some last_;
                    m_after := Some a; m_delta_trucks := dt;
                    m_delta_workers := dw; m_delta_dist := dd;
                    m_improving := m_improving m |}) in *.
    destruct (same_route_fields _ _ Hsame) as (Hid & _).
    assert (Hranked : ranked m0 dt dw (r_id source0) (r_id target) first
                        last_ cand).
    { unfold ranked, cand. simpl. rewrite Hid.
      do 6 (split; [done |]). split; [by eexists |].
      destruct updated.
      - destruct Hinv as (I1 & I2 & _ & _ & _ & _ & _ & I8 & I9).
        split; [done |].
        by apply (delta_is_higher_trans m0 m dt dw dd).
      - by subst m. }
    assert (Hhere : updated = true \/
              exists a', a' ∈ a :: rest /\
                move_candidate pb tl m0 source0 target first last_ dt dw
                  a').
    { destruct updated; [by left | right]. subst m.
      exists a. split; [by left |]. by apply Hcand. }
    destruct (cfg_best_moves (pb_cfg pb)); simpl in H.
    + destruct (IH true cand src _ _ _ _ Hsrc Hranked H) as (H1 & H2 & H3).
      split; [done |].
      assert (updated' = true) as -> by (apply H3; by left).
      split; [done |]. done.
    + injection H as <- <- <- <-. split; [done |]. split; [done |]. done.
Qed.

Lemma update_move_windows_state (pb : Problem) (tl : Tabulist)
    (target : Route) (state state' : Z) (k : nat) (dt : Z)
    (firsts : list nat) :
  dt <> 0 ->
  forall (dw : Z) (updated : bool) (m : Move) (source : Route),
    update_move_windows pb tl target state k dt firsts dw updated m source =
    update_move_windows pb tl target state' k dt firsts dw updated m source.
Proof.
  intros Hdt. apply Z.eqb_neq in Hdt.
  induction firsts as [| first rest IH]; intros dw updated m source;
    [done |].
  simpl. rewrite Hdt, !andb_false_r.
  destruct (Qltb _ _); [apply IH |].
  destruct (update_move_afters _ _ _ _ _ _ _ _ _ _ _)
    as [[[[ret upd1] m1] src1] |]; simpl; [| done].
  destruct ret; [done | apply IH].
Qed.

(** C10.  Let the run of [len] nodes empty the source route
    ([source.len = len + 2], [len] counting the nodes of the chain).  A
    call of [update_move] either leaves the move as it was or records a
    candidate with [delta_trucks = 1] and [delta_workers] equal to the
    worker count of the source route, whose distance delta
    [delta_is_higher] ranks above the move passed in together with these
    two deltas.  It returns 1 exactly when [len] is within [max_move] and
    the target has a position at which the run fits the capacity, the
    comparator ranks the candidate with all workers of the source above
    the move passed in, [can_insert] accepts and the move is not tabu.
    [state], and with it [move_reduces_workers], has no part in the
    result.  [perform_move] on the recorded move returns (on a solution
    that holds both routes), with the source route gone from the solution,
    one truck less, and the workers of the solution lowered by
    [delta_workers]. *)
Theorem truck_saving_move (pb : Problem) (tl : Tabulist) (m : Move)
    (source target : Route) (state len updated : Z) (m' : Move)
    (source' : Route) :
  r_len source = EMPTY + len ->
  r_len source = Z.of_nat (length (r_nodes source)) ->
  update_move pb tl m source target state len = Some (updated, m', source') ->
  ((updated = 0 /\ m' = m) \/
   (updated = 1 /\
    ranked m 1 (r_workers source) (r_id source) (r_id target) 1
           (Z.to_nat len) m')) /\
  (updated = 1 <->
   len <= cfg_max_move (pb_cfg pb) /\
   exists a : nat,
     move_candidate pb tl m source target 1 (Z.to_nat len) 1
                    (r_workers source) a) /\
  (forall state' : Z,
     update_move pb tl m source target state' len =
     Some (updated, m', source')) /\
  (updated = 1 ->
   forall (sol : Solution) (si ti : nat),
     solution_wf sol ->
     lookup_route sol (r_id source) = Some (si, source') ->
     lookup_route sol (r_id target) = Some (ti, target) ->
     r_id source <> r_id target ->
     (tl_active tl = false \/
      Forall (fun n => is_Some (mget (tl_nodes_routes tl) (n_id n)
                                     (r_id source)))
             (r_nodes source')) ->
     exists (sol' : Solution) (tl' : Tabulist) (W : Z) (freed : list Route),
       perform_move pb sol tl m' =
         Returns sol' (tl', init_move (m_improving m'), freed) /\
       s_trucks sol' = s_trucks sol - 1 /\
       lookup_route sol' (r_id source) = None /\
       calc_workers sol = Some W /\
       calc_workers sol' = Some (W - m_delta_workers m')).
Proof.
  intros Hlen Hcount Hupd.
  assert (Hsame : forall state' : Z,
            update_move pb tl m source target state' len =
            update_move pb tl m source target state len).
  { intros state'. unfold update_move.
    destruct (cfg_max_move (pb_cfg pb) <? len); [done |].
    destruct (r_len source <? EMPTY + len); [done |].
    rewrite Hlen, Z.eqb_refl. simpl.
    rewrite andb_false_r.
    destruct (len <? 1); [done |].
    destruct (length (r_nodes source) <? Z.to_nat len + 2)%nat; [done |].
    by rewrite (update_move_windows_state pb tl target state' state). }
  assert (Hstate : forall state' : Z,
            update_move pb tl m source target state' len =
            Some (updated, m', source')).
  { intros state'. rewrite Hsame. exact Hupd. }
  unfold update_move in Hupd.
  destruct (cfg_max_move (pb_cfg pb) <? len) eqn:Hmax.
  { injection Hupd as <- <- <-. apply Z.ltb_lt in Hmax.
    split; [by left |]. split; [| by split].
    split; [done | intros [? _]; lia]. }
  apply Z.ltb_ge in Hmax.
  destruct (r_len source <? EMPTY + len) eqn:E;
    [apply Z.ltb_lt in E; lia | clear E].
  rewrite Hlen, Z.eqb_refl in Hupd. simpl in Hupd.
  rewrite andb_false_r in Hupd.
  destruct (len <? 1) eqn:Hlen1; [done |]. apply Z.ltb_ge in Hlen1.
  destruct (length (r_nodes source) <? Z.to_nat len + 2)%nat eqn:HL;
    [done |].
  apply Nat.ltb_ge in HL.
  set (k := Z.to_nat len) in *.
  assert (HLk : length (r_nodes source) = (k + 2)%nat).
  { unfold EMPTY, k in *. lia. }
  rewrite HLk in Hupd.
  replace (k + 2 - k - 1)%nat with 1%nat in Hupd by lia.
  change (seq 1 1) with [1%nat] in Hupd.
  cbn [update_move_windows] in Hupd.
  replace (1 + k - 1)%nat with k in Hupd by lia.
  rewrite andb_false_r in Hupd.
  destruct (Qltb (inject_Z (pb_capacity pb))
              (r_load target + sum_demands (run_of (r_nodes source) 1 k)))
    eqn:Hcap.
  { simpl in Hupd. injection Hupd as <- <- <-.
    split; [by left |]. split; [| by split].
    split; [done |].
    intros (_ & a & x1 & x2 & y1 & y2 & y3 & y4 & _ & _ & _ & _ & _ & _ &
            Hc & _).
    congruence. }
  destruct (update_move_afters pb tl target 1 k 1 (r_workers source)
              (seq 0 (length (r_nodes target) - 1)) false m source)
    as [[[[ret upd1] m1] src1] |] eqn:Hafters; simpl in Hupd; [| done].
  destruct (update_move_afters_char pb tl target 1 k 1 (r_workers source) m
              source (seq 0 (length (r_nodes target) - 1))
              ltac:(lia) ltac:(unfold k; lia) Hcap
              false m source ret upd1 m1 src1 (same_route_refl source)
              eq_refl Hafters) as (Hsrc & Hinv & Hiff).
  assert (Hres : updated = (if upd1 then 1 else 0) /\ m' = m1 /\
                 source' = src1).
  { destruct ret; simpl in Hupd.
    - destruct upd1; [| by destruct Hinv]. by injection Hupd as <- <- <-.
    - by injection Hupd as <- <- <-. }
  destruct Hres as (-> & -> & ->). clear Hupd.
  assert (Hcands : upd1 = true <->
            exists a : nat,
              move_candidate pb tl m source target 1 k 1 (r_workers source)
                             a).
  { rewrite Hiff. split.
    - intros [? | (a & _ & Ha)]; [done | by exists a].
    - intros (a & Ha). right. exists a. split; [| done].
      destruct Ha as (x1 & x2 & _ & _ & _ & _ & _ & Hx2 & _).
      apply lookup_lt_Some in Hx2. apply elem_of_seq. lia. }
  split; [| split; [| split; [done |]]].
  - destruct upd1; [right | left]; [done | by destruct Hinv].
  - rewrite <- Hcands. destruct upd1; split; try done; try tauto.
    by intros [_ ?].
  - intros Hone sol si ti Hwf Hls Hlt Hne Htabu.
    destruct upd1; [| done].
    destruct Hinv as (Hdt & Hdw & Hsrcid & Htgt & Hmf & Hml & [after Hafter] &
                      _).
    destruct (same_route_fields _ _ Hsrc) as (Hid' & _ & Hlen' & _ & Hw').
    destruct Hsrc as [Hsb _].
    pose proof (same_but_cache_length _ _ Hsb) as HL'.
    set (run := run_of (r_nodes src1) 1 k).
    assert (Hrunlen : length run = k).
    { unfold run. rewrite run_of_length by lia. lia. }
    destruct (perform_move_truck_saving pb sol tl m1 1 k after (r_id source)
                (r_id target) si ti src1 target)
      as (sol' & tl' & ti' & W & Hpm & _ & Htr & Hgone & _ & HW & HW');
      try done.
    + by rewrite Hdt.
    + fold run. rewrite Hrunlen, Hlen'. unfold k. lia.
    + destruct Htabu as [Hoff | Hrange]; [by left | right]. fold run.
      split.
      * intros Hnil. rewrite Hnil in Hrunlen. simpl in Hrunlen.
        unfold k in Hrunlen. lia.
      * rewrite Forall_fmap. unfold run, run_of.
        apply Forall_take, Forall_drop. exact Hrange.
    + exists sol', tl', W, [remove_nodes_noupdate src1 1 k].
      split; [exact Hpm |]. split; [exact Htr |]. split; [exact Hgone |].
      split; [exact HW |]. by rewrite Hdw, <- Hw'.
Qed.

Lemma truck_saving_move_witness :
  exists (sol' : Solution) (tl' : Tabulist) (W : Z) (freed : list Route),
    perform_move ex_pb ex_sol_scanned (new_tabulist ex_pb) ex_move =
      Returns sol' (tl', init_move (m_improving ex_move), freed) /\
    s_trucks sol' = s_trucks ex_sol_scanned - 1 /\
    lookup_route sol' (r_id ex_route_b) = None /\
    calc_workers ex_sol_scanned = Some W /\
    calc_workers sol' = Some (W - m_delta_workers ex_move).
Proof.
  assert (Hupd : update_move ex_pb (new_tabulist ex_pb) (init_move true)
                   ex_route_b ex_route REDUCE_WORKERS 1 =
                 Some (1, ex_move, ex_route_b_scanned))
    by (vm_compute; reflexivity).
  destruct (truck_saving_move ex_pb (new_tabulist ex_pb) (init_move true)
              ex_route_b ex_route REDUCE_WORKERS 1 1 ex_move
              ex_route_b_scanned eq_refl eq_refl Hupd)
    as (_ & _ & _ & Hperform).
  apply (Hperform eq_refl ex_sol_scanned 1%nat 0%nat).
  - unfold solution_wf. simpl. split; [lia |]. split; [lia |].
    split; [repeat constructor; eauto |]. split; [constructor |].
    apply (bool_decide_unpack _). vm_compute. reflexivity.
  - reflexivity.
  - reflexivity.
  - simpl. lia.
  - right. repeat constructor; vm_compute; eauto.
Defined.

